(* ===== verification/_CoqProject ===== *)
-Q . S2P
Prelude.v
Address.v
FrameAllocator.v
PageTable.v
UserBuffer.v
MemorySet.v
Elf.v
Codec.v
BlockDev.v
Sdcard.v
SdProtocol.v
Virtio.v
BlockCache.v
Bitmap.v
Layout.v
InodeTree.v
Efs.v
Vfs.v
Dir.v
OsInode.v
Packer.v
Pipe.v
Sched.v
Sync.v
Timer.v
Threads.v
Philosophers.v
Adders.v
Buffer.v
TaskId.v
KernelSpace.v
Kernel.v
Syscall.v
Process.v
Exit.v
World.v
SyncCalls.v
FileCalls.v
Boot.v
Descriptors.v
UserLib.v
Abi.v
Trap.v
Argv.v
Shell.v
