(* ===== verification/Prelude.v ===== *)
(** * A verification development for rCore-Tutorial-v3

    The repository is a teaching operating system for RISC-V: a kernel
    ([os/src]), the file system it uses ([easy-fs/src]), a tool that packs an
    image ([easy-fs-fuse]) and user programs ([user]).  This library models the
    kernel's memory management, the block drivers, the file system from the block
    device up to inodes, the packer, pipes, the scheduler, synchronisation, timers,
    processes, every system call with its dispatch, the trap handler, the start of
    the kernel up to the first process, the user library, the shell and the
    programs that race, share a buffer or dine with threads, and proves the
    properties that make them correct.

    The parts meet as in the code: the packer ([Packer]) writes the image, the
    start of the kernel ([KernelSpace], [Boot]) maps the kernel and makes the first
    process ([Elf]) from it; a trap ([Trap]) decodes a system call ([Abi]),
    whose handler ([Syscall], [FileCalls], [SyncCalls]) works on the processes
    ([Kernel]), on files ([OsInode], [Pipe]) that are behind descriptors, and on
    synchronisation objects ([Sync]); files use the file system ([Dir], [Vfs],
    [Efs]) over the block cache and a driver ([Sdcard], [Virtio]); all of them use
    address spaces ([MemorySet]) over page tables and frames.  The whole state is
    the record [World].

    ** How code is modelled

    A machine integer is a [Z] with its wrap-around written out ([wrap32],
    [wrap64], [to_signed]); the kernel is built in release mode, where arithmetic
    wraps.  Code that can panic returns a [result]; stateful code is in the
    state monad [M St] of this file, and [zoom] runs an operation on a part of a
    larger state.  [wp m Q s] says that [m] started in [s] returns normally with
    a value and state that satisfy [Q]: theorems of the form [wp] or
    [∃ .. , m s = Ok ..] are total, the code does return.  Physical memory is a
    map from frame numbers to pages of 512 words, a block device an instance of
    the class [BlockDevice], an [Arc] to a control block the number of the block.
    The borrow of a [RefCell] and the lock of a cached block are explicit state,
    so that a second borrow is a panic and a self-deadlock is [PDeadlock].  A
    system call that gives up the processor ends with the rest of the call, a
    value of [Todo]; it runs when the task is dispatched again, on the state of
    that time.

    ** Files

    - [Address]: [mm/address.rs], [config.rs]: addresses, page numbers, ranges.
    - [FrameAllocator]: [mm/frame_allocator.rs] and frames as memory.  The
      recycling allocator refines a pool that hands out any free frame, and no
      frame is handed out twice in any history.
    - [PageTable]: [mm/page_table.rs], Sv39 tables in physical memory.  [map] and
      [unmap] change the translation of exactly one page, by a tree invariant
      ([pt_inv]) that all operations preserve.
    - [UserBuffer]: the functions of [page_table.rs] through which the kernel
      reaches user memory.
    - [MemorySet]: [mm/memory_set.rs].  The invariant [ms_inv] (areas disjoint,
      each mapped to frames of its own), insertion, removal, and that the copy
      made for [fork] equals the original in fresh frames.
    - [Elf]: what [from_elf] of [memory_set.rs] loads: every byte of the pages of
      every segment, in fresh frames, and nothing else.
    - [Codec], [BlockDev], [BlockCache]: bytes and words of blocks;
      [block_dev.rs]; [block_cache.rs].  The write-back cache refines the array of
      blocks; the layers above are proved against that abstraction.
    - [Sdcard], [SdProtocol]: [drivers/block/sdcard.rs], every command and register
      of the driver, over a class for the k210 crates.  [init] and [get_cardinfo]
      are characterised on an arbitrary board, by the commands exchanged, the
      command at which each failure arises and the bits of the registers that each
      field is taken from; on a card that follows the SD protocol the driver is a
      lawful block device.
    - [Virtio]: [drivers/block/virtio_blk.rs] and [mod.rs]: the DMA callbacks.
    - [Bitmap], [Layout], [InodeTree]: [bitmap.rs], [layout.rs]; the block tree of
      an inode (direct, indirect, doubly indirect), its growth, clearing, and
      reading and writing across it.
    - [Efs], [Vfs]: [efs.rs], [vfs.rs].  Formatting and opening; an inode is a
      growable byte array and does not disturb other files.
    - [Dir]: the directory operations of [vfs.rs]; a directory is a list of names
      with inode numbers, and creating a file touches no other file.
    - [OsInode]: [os/src/fs/inode.rs]: open files with an offset, transfers between
      user buffers and files, [open_file].
    - [Packer]: [easy-fs-fuse/src/main.rs].  The image that [easy_fs_pack] writes,
      opened by a kernel with an empty cache, has exactly the applications.
    - [Pipe]: [os/src/fs/pipe.rs].  The ring buffer refines a bounded queue; every
      interleaving of a write and a read call is a FIFO channel; a transfer that
      fits the reader's buffer finishes.
    - [Sched]: [task/manager.rs], [processor.rs], [context.rs], [task.rs].  A task
      is never in two places (processor, ready queue, a wait queue), and the tasks
      in some place are those that were there and were created less those that
      exited; ready tasks run; switching restores registers.
    - [Sync]: [os/src/sync].  The trait [Mutex] as a class with laws, both
      implementations, mutual exclusion proved against the laws; semaphores and
      condition variables.
    - [Timer]: [timer.rs], against an interface for [BinaryHeap].
    - [Threads]: programs whose threads are interleaved by [Sched] and call the
      operations of [Sync]; mutual exclusion, the absence of deadlock for ordered
      locks and a bound of runs, for every such program.
    - [Philosophers]: [phil_din_mutex.rs]; [Adders]: [race_adder*.rs]; [Buffer]:
      [mpsc_sem.rs].  What these programs compute in every interleaving, that they
      end, and the races of the unprotected adders.
    - [TaskId]: [task/id.rs].  Identifiers, kernel stacks and the user resources
      of threads, which never overlap and are returned as they were taken.
    - [KernelSpace]: [new_kernel] and [remap_test] of [memory_set.rs], [mm/mod.rs]:
      the kernel's own address space, for every layout of the linker script.
    - [Kernel]: [task/process.rs], [task/mod.rs], [signal.rs], [trap/context.rs]:
      the state of the kernel and the operations on processes.
    - [Syscall]: [os/src/syscall] on processes, threads and descriptors.
    - [Process]: the theorems on [fork] (the child's memory, trap context and
      kernel stack) and [waitpid] (what collecting a zombie returns to the
      allocators), and on [exit] of a process with several threads.
    - [Exit]: [exit] of the only thread leaves a zombie that [waitpid] can collect.
    - [World]: the state of the whole kernel and calls in progress.
    - [SyncCalls]: [syscall/sync.rs], on objects behind the class [Mutex].
    - [FileCalls]: [syscall/fs.rs], the rest of [syscall/process.rs], the trait
      [File] and the console ([fs/stdio.rs]).
    - [Boot]: [ProcessControlBlock::new], [INITPROC], [list_apps] and [rust_main]:
      from the packed image to the first process in the ready queue.
    - [Descriptors]: the table of descriptors as a partial map; what [open],
      [close], [dup], [read] and [write] do on each branch.
    - [UserLib], [Abi]: [user/src/syscall.rs] and [lib.rs]; [syscall/mod.rs]; the
      two sides of [ecall] agree on numbers, registers and casts.
    - [Trap]: [trap/mod.rs] and [run_tasks]: system calls, faults, timer
      interrupts, the return to user mode and the resumption of calls.
    - [Argv]: the arguments that [exec] stores are those that [_start] reads.
    - [Shell]: [user_shell.rs]: the parser against a reference, and the plumbing of
      a pipeline on the descriptors of the kernel.

    ** Fuel and bounds

    Loops over data are structural.  The loops of [translated_byte_buffer],
    [translated_str], [read_at], [write_at], [copy_data], of a turn of
    [Pipe::read] and [write] and of [check_timer] take fuel computed from their
    input (the length in bytes or pages, or the number of entries); the theorems
    on them show a result, so the fuel is enough.  Busy waiting is not a loop of
    the model: a blocking call is a sequence of turns, between which other tasks
    run, and the liveness theorems bound the number of turns.
    The loops of the SD driver that wait for a busy card, [read_all] and the loops
    of the user library and of [_start] take their fuel as a parameter; running out
    of it is the panic [PFuel] or [None], and the theorems on them say which fuel is
    enough.  The bounds proved of whole programs are 41 instructions per
    philosopher, 5001 per thread of the adder with a mutex and 4805 for the bounded
    buffer; the tables of the kernel space take at most 19 frames.

    ** Not modelled

    Assembly ([trap.S], [switch.S], [entry.asm]) except for the effect of
    [__switch] on saved registers and of [ecall] on the trap context; TLB and CSR
    accesses; of [rust_main] the clearing of the bss, the trap vector, the timer
    registers and the initialisation of [BLOCK_DEVICE] (the drivers are modelled,
    but the kernel that boots finds its device initialised); the messages of the
    kernel on the console; the heap allocators; the code of other crates, which is a
    parameter: the ELF parser [xmas_elf] (its result is an argument of [from_elf]),
    the k210 crates and [virtio-drivers] (classes), [BinaryHeap] (a class with
    laws).  Of the user programs the shell is modelled without the part of the
    parent that creates pipes and children and waits, and the programs with threads
    from the moment [main] has created the threads and what they share; the other
    programs are not modelled.  Of [exec] the arguments and the loading of the image
    have theorems, the whole call has a definition only. *)

From stdpp Require Export base gmap list list_numbers option sets fin_maps.
From Stdlib Require Export ZArith Lia.

#[global] Open Scope Z_scope.

(** ** Panics and the state monad

    Rust code that may panic (an [assert!], an [unwrap] of [None], a slice
    index out of range, an explicit [panic!], a second borrow of a [RefCell])
    returns a [result]; the reason of the panic is kept as a value so that
    theorems can say which check failed. *)

Inductive panic :=
  | PAssert
  | PUnwrap
  | PIndex
  | PExplicit
  | PBorrow
  | PDeadlock
  | PFuel.

#[export] Instance panic_eq_dec : EqDecision panic.
Proof. solve_decision. Defined.

Inductive result (A : Type) :=
  | Ok (a : A)
  | Panic (p : panic).
Arguments Ok {A} a.
Arguments Panic {A} p.

#[export] Instance result_ret : MRet result := @Ok.
#[export] Instance result_bind : MBind result := λ A B f m,
  match m with Ok a => f a | Panic p => Panic p end.

Definition M (St A : Type) : Type := St → result (A * St).

#[export] Instance M_ret St : MRet (M St) := λ A a s, Ok (a, s).
#[export] Instance M_bind St : MBind (M St) := λ A B f m s,
  match m s with Ok (a, s') => f a s' | Panic p => Panic p end.

Definition get {St} : M St St := λ s, Ok (s, s).
Definition put {St} (s : St) : M St unit := λ _, Ok (tt, s).
Definition gets {St A} (f : St → A) : M St A := λ s, Ok (f s, s).
Definition modify {St} (f : St → St) : M St unit := λ s, Ok (tt, f s).
Definition panic_with {St A} (p : panic) : M St A := λ _, Panic p.

(** [assert!(b)] and [o.unwrap()]. *)
Definition assert_ {St} (b : bool) : M St unit :=
  if b then mret tt else panic_with PAssert.
Definition unwrap {St A} (o : option A) : M St A :=
  match o with Some a => mret a | None => panic_with PUnwrap end.
Definition lift_result {St A} (r : result A) : M St A := λ s,
  match r with Ok a => Ok (a, s) | Panic p => Panic p end.

(** Run a computation on a component of the state. *)
Definition zoom {St T A} (prj : St → T) (upd : T → St → St) (m : M T A) : M St A := λ s,
  match m (prj s) with Ok (a, t) => Ok (a, upd t s) | Panic p => Panic p end.

(** [for x in l { acc = body(acc, x) }], the state threaded through the
    iterations. *)
Fixpoint fold_m {St A B} (body : B → A → M St B) (acc : B) (l : list A) : M St B :=
  match l with
  | [] => mret acc
  | x :: l' => acc' ← body acc x; fold_m body acc' l'
  end.

(** Total correctness: the computation does not panic, and its result and
    final state satisfy [Q]. *)
Definition wp {St A} (m : M St A) (Q : A → St → Prop) (s : St) : Prop :=
  match m s with Ok (a, s') => Q a s' | Panic _ => False end.

Lemma wp_ret {St A} (a : A) (Q : A → St → Prop) s : Q a s → wp (mret a) Q s.
Proof. done. Qed.

Lemma wp_bind {St A B} (m : M St A) (f : A → M St B) Q s :
  wp m (λ a, wp (f a) Q) s → wp (mbind f m) Q s.
Proof.
  unfold wp, mbind, M_bind. destruct (m s) as [[a s']|]; done.
Qed.

(** A computation whose continuation panics. *)
Lemma panic_bind {St A B} (m : M St A) (f : A → M St B) p s :
  wp m (λ a s', f a s' = Panic p) s → mbind f m s = Panic p.
Proof. unfold wp, mbind, M_bind. destruct (m s) as [[a s']|]; done. Qed.
Lemma panic_bind_l {St A B} (m : M St A) (f : A → M St B) p s :
  m s = Panic p → mbind f m s = Panic p.
Proof. unfold mbind, M_bind. by intros ->. Qed.

Lemma wp_mono {St A} (m : M St A) (Q Q' : A → St → Prop) s :
  wp m Q s → (∀ a s', Q a s' → Q' a s') → wp m Q' s.
Proof. unfold wp. destruct (m s) as [[a s']|]; auto. Qed.

Lemma wp_get {St} (Q : St → St → Prop) s : Q s s → wp get Q s.
Proof. done. Qed.
Lemma wp_gets {St A} (f : St → A) Q s : Q (f s) s → wp (gets f) Q s.
Proof. done. Qed.
Lemma wp_put {St} (t : St) Q s : Q tt t → wp (put t) Q s.
Proof. done. Qed.
Lemma wp_modify {St} (f : St → St) Q s : Q tt (f s) → wp (modify f) Q s.
Proof. done. Qed.
Lemma wp_assert {St} b Q (s : St) : b = true → Q tt s → wp (assert_ b) Q s.
Proof. by intros -> ?. Qed.
Lemma wp_unwrap {St A} (o : option A) a Q (s : St) :
  o = Some a → Q a s → wp (unwrap o) Q s.
Proof. by intros -> ?. Qed.

Lemma wp_lift_result {St A} (r : result A) a Q (s : St) : r = Ok a → Q a s → wp (lift_result r) Q s.
Proof. by intros -> ?. Qed.

Lemma wp_ok {St A} (m : M St A) Q s : wp m Q s → ∃ a s', m s = Ok (a, s') ∧ Q a s'.
Proof. unfold wp. destruct (m s) as [[a s']|]; naive_solver. Qed.

Lemma wp_zoom {St T A} (prj : St → T) upd (m : M T A) Q s :
  wp m (λ a t, Q a (upd t s)) (prj s) → wp (zoom prj upd m) Q s.
Proof. unfold wp, zoom. by destruct (m (prj s)) as [[a t]|]. Qed.

(** The loop rule: an invariant indexed by the elements already visited. *)
Lemma wp_fold_m {St A B} (I : list A → B → St → Prop) (body : B → A → M St B) l acc s :
  I [] acc s →
  (∀ pre x post acc s, l = pre ++ x :: post → I pre acc s →
     wp (body acc x) (λ acc' s', I (pre ++ [x]) acc' s') s) →
  wp (fold_m body acc l) (λ acc' s', I l acc' s') s.
Proof.
  intros H0 Hstep.
  assert (∀ post pre acc s, l = pre ++ post → I pre acc s →
    wp (fold_m body acc post) (λ acc' s', I l acc' s') s) as Hgen.
  { induction post as [|x post IH]; intros pre acc' t Hl Hpre; simpl.
    - rewrite app_nil_r in Hl. subst. by apply wp_ret.
    - apply wp_bind. eapply wp_mono; [by eapply Hstep|].
      intros acc2 s' HI. apply (IH (pre ++ [x])); [|done].
      by rewrite Hl, <- app_assoc. }
  by apply (Hgen l []).
Qed.

(** Apply the structural rules of [wp] until a call remains. *)
Ltac wp_step :=
  lazymatch goal with
  | |- wp (mbind _ _) _ _ => apply wp_bind
  | |- wp (mret _) _ _ => apply wp_ret
  | |- wp get _ _ => apply wp_get
  | |- wp (gets _) _ _ => apply wp_gets
  | |- wp (put _) _ _ => apply wp_put
  | |- wp (modify _) _ _ => apply wp_modify
  end.
Ltac wp_steps := repeat wp_step; cbn beta.

(** Partial correctness: if the computation returns, its result satisfies [Q]. *)
Definition wlp {St A} (m : M St A) (Q : A → St → Prop) (s : St) : Prop := ∀ a s', m s = Ok (a, s') → Q a s'.

Lemma wlp_bind {St A B} (m : M St A) (f : A → M St B) Q s :
  wlp m (λ a, wlp (f a) Q) s → wlp (mbind f m) Q s.
Proof.
  intros Hm b s'. unfold mbind, M_bind. destruct (m s) as [[a s1]|] eqn:E; [|done]. by apply Hm.
Qed.
Lemma wlp_mono {St A} (m : M St A) (Q Q' : A → St → Prop) s :
  wlp m Q s → (∀ a s', Q a s' → Q' a s') → wlp m Q' s.
Proof. intros Hm HQ a s' E. by apply HQ, Hm. Qed.
Lemma wlp_true {St A} (m : M St A) (s : St) : wlp m (λ _ _, True) s.
Proof. done. Qed.
Lemma wlp_ret {St A} (a : A) (Q : A → St → Prop) s : Q a s → wlp (mret a) Q s.
Proof. intros HQ b s'. by intros [= <- <-]. Qed.
Lemma wlp_modify {St} f (Q : unit → St → Prop) s : Q tt (f s) → wlp (modify f) Q s.
Proof. intros HQ b s'. by intros [= <- <-]. Qed.
Lemma wlp_get {St} (Q : St → St → Prop) s : Q s s → wlp get Q s.
Proof. intros HQ b s'. by intros [= <- <-]. Qed.
Lemma wlp_gets {St A} (f : St → A) (Q : A → St → Prop) s : Q (f s) s → wlp (gets f) Q s.
Proof. intros HQ b s'. by intros [= <- <-]. Qed.
Lemma wlp_put {St} (t : St) (Q : unit → St → Prop) s : Q tt t → wlp (put t) Q s.
Proof. intros HQ b s'. by intros [= <- <-]. Qed.
Lemma wlp_panic {St A} p (Q : A → St → Prop) s : wlp (panic_with p) Q s.
Proof. done. Qed.
Lemma wlp_unwrap {St A} (o : option A) (Q : A → St → Prop) s : (∀ a, o = Some a → Q a s) → wlp (unwrap o) Q s.
Proof. intros HQ a s'. destruct o; [|done]. intros [= <- <-]. auto. Qed.
Lemma wlp_lift_result {St A} (r : result A) (Q : A → St → Prop) s : (∀ a, r = Ok a → Q a s) → wlp (lift_result r) Q s.
Proof. intros HQ a s' E. unfold lift_result in E. destruct r; [|done]. injection E as <- <-. auto. Qed.
Lemma wlp_zoom {St T A} (prj : St → T) upd (m : M T A) (Q : A → St → Prop) s :
  wlp m (λ a t, Q a (upd t s)) (prj s) → wlp (zoom prj upd m) Q s.
Proof.
  intros Hm a s' E. unfold zoom in E. destruct (m (prj s)) as [[b t]|] eqn:Em; [|done]. injection E as <- <-.
  by apply Hm.
Qed.

Lemma wlp_fold_m {St A B} (I : list A → B → St → Prop) (body : B → A → M St B) l acc s :
  I [] acc s →
  (∀ pre x post acc s, l = pre ++ x :: post → I pre acc s →
     wlp (body acc x) (λ acc' s', I (pre ++ [x]) acc' s') s) →
  wlp (fold_m body acc l) (λ acc' s', I l acc' s') s.
Proof.
  intros H0 Hstep.
  assert (∀ post pre acc s, l = pre ++ post → I pre acc s →
    wlp (fold_m body acc post) (λ acc' s', I l acc' s') s) as Hgen.
  { induction post as [|x post IH]; intros pre acc' t Hl Hpre; simpl.
    - rewrite app_nil_r in Hl. subst. by apply wlp_ret.
    - apply wlp_bind. eapply wlp_mono; [by eapply Hstep|].
      intros acc2 s' HI. apply (IH (pre ++ [x])); [|done]. by rewrite Hl, <- app_assoc. }
  by apply (Hgen l []).
Qed.

(** A computation returns, and what holds if it returns. *)
Lemma wp_wlp {St A} (m : M St A) (Q R : A → St → Prop) s :
  wp m Q s → wlp m R s → wp m (λ a s', Q a s' ∧ R a s') s.
Proof. unfold wp, wlp. destruct (m s) as [[a s']|]; auto. Qed.

Ltac wlp_step := lazymatch goal with
  | |- wlp (mbind _ _) _ _ => apply wlp_bind
  | |- wlp (mret _) _ _ => apply wlp_ret
  | |- wlp get _ _ => apply wlp_get
  | |- wlp (gets _) _ _ => apply wlp_gets
  | |- wlp (put _) _ _ => apply wlp_put
  | |- wlp (modify _) _ _ => apply wlp_modify
  end.
Ltac wlp_steps := repeat wlp_step; cbn beta.

(** ** Machine integers

    The kernel is built with the release profile, where [+], [-] and [*] on
    machine integers wrap around. *)

Definition wrap (w x : Z) : Z := x mod 2 ^ w.
Abbreviation wrap8 := (wrap 8).
Abbreviation wrap16 := (wrap 16).
Abbreviation wrap32 := (wrap 32).
Abbreviation wrap64 := (wrap 64).

(** [x as isize] and [x as i32] of an unsigned value, two's complement. *)
Definition to_signed (w x : Z) : Z :=
  let u := wrap w x in if u <? 2 ^ (w - 1) then u else u - 2 ^ w.

Lemma wrap_small w x : 0 <= x < 2 ^ w → wrap w x = x.
Proof. apply Z.mod_small. Qed.

Lemma wrap_range w x : 0 <= w → 0 <= wrap w x < 2 ^ w.
Proof. intros. apply Z.mod_pos_bound. lia. Qed.

Lemma to_signed_small w x : 0 < w → 0 <= x < 2 ^ (w - 1) → to_signed w x = x.
Proof.
  intros Hw Hx. unfold to_signed.
  assert (2 ^ w = 2 * 2 ^ (w - 1)) by (rewrite <- Z.pow_succ_r by lia; f_equal; lia).
  rewrite wrap_small by lia. destruct (Z.ltb_spec x (2 ^ (w - 1))); lia.
Qed.

Lemma wrap_wrap a b x : 0 <= a <= b → wrap a (wrap b x) = wrap a x.
Proof.
  intros Hab. unfold wrap. apply Z.mod_mod_divide.
  exists (2 ^ (b - a)). rewrite <- Z.pow_add_r by lia. f_equal. lia.
Qed.

Lemma to_signed_wrap a b x : 0 < a <= b → to_signed a (wrap b x) = to_signed a x.
Proof. intros Hab. unfold to_signed. by rewrite wrap_wrap by lia. Qed.

Lemma to_signed_id w x : 0 < w → - 2 ^ (w - 1) <= x < 2 ^ (w - 1) → to_signed w x = x.
Proof.
  intros Hw Hx. assert (2 ^ w = 2 * 2 ^ (w - 1)) as E by (rewrite <- Z.pow_succ_r by lia; f_equal; lia).
  destruct (decide (0 <= x)); [apply to_signed_small; lia|]. unfold to_signed, wrap.
  rewrite <- (Z.mod_add x 1) by lia. rewrite Z.mod_small by lia. destruct (Z.ltb_spec (x + 1 * 2 ^ w) (2 ^ (w - 1))); lia.
Qed.

Lemma to_signed_range w x : 0 < w → - 2 ^ (w - 1) <= to_signed w x < 2 ^ (w - 1).
Proof.
  intros Hw. assert (2 ^ w = 2 * 2 ^ (w - 1)) as E by (rewrite <- Z.pow_succ_r by lia; f_equal; lia).
  unfold to_signed. pose proof (wrap_range w x ltac:(lia)). destruct (Z.ltb_spec (wrap w x) (2 ^ (w - 1))); lia.
Qed.

(** Goals with [/] and [mod] by constants. *)
Ltac zdiv := Z.to_euclidean_division_equations; lia.

Lemma land_mask x k : 0 <= k → Z.land x (2 ^ k - 1) = x mod 2 ^ k.
Proof. intros. rewrite <- Z.land_ones by lia. f_equal. rewrite Z.ones_equiv. lia. Qed.

(** Disjoint bit fields: [lor] is addition. *)
Lemma lor_shiftl_add a b k :
  0 <= k → 0 <= b < 2 ^ k → Z.lor (Z.shiftl a k) b = a * 2 ^ k + b.
Proof.
  intros Hk Hb. rewrite Z.shiftl_mul_pow2 by lia.
  rewrite <- Z.add_lor_land.
  assert (Z.land (a * 2 ^ k) b = 0) as ->; [|lia].
  apply Z.bits_inj'. intros n Hn. rewrite Z.land_spec, Z.bits_0.
  destruct (decide (n < k)).
  - by rewrite Z.mul_pow2_bits_low by lia.
  - rewrite <- (Z.mod_small b (2 ^ k)) by done.
    by rewrite (Z.mod_pow2_bits_high b) , andb_false_r by lia.
Qed.

(** ** bitflags

    [bitflags!] generates a newtype over an unsigned integer; [from_bits]
    accepts exactly the subsets of the declared flags. *)

Definition from_bits (all b : Z) : option Z :=
  if Z.land b (Z.lnot all) =? 0 then Some b else None.
Definition contains (flags f : Z) : bool := Z.land flags f =? f.

(** ** Vec and slices *)

Definition vec_push {A} (v : list A) (x : A) : list A := v ++ [x].

(** [Vec::pop]. *)
Definition vec_pop {A} (v : list A) : option (A * list A) :=
  match last v with
  | Some x => Some (x, take (length v - 1)%nat v)
  | None => None
  end.

Lemma vec_pop_snoc {A} (v : list A) x : vec_pop (v ++ [x]) = Some (x, v).
Proof.
  unfold vec_pop. rewrite last_snoc, length_app. simpl.
  rewrite Nat.add_sub. by rewrite take_app_length.
Qed.

Lemma vec_pop_cases {A} (v : list A) :
  (v = [] ∧ vec_pop v = None) ∨ ∃ v' x, v = v' ++ [x] ∧ vec_pop v = Some (x, v').
Proof.
  destruct v as [|x v' _] using rev_ind; [by left|].
  right. exists v', x. by rewrite vec_pop_snoc.
Qed.

(** Index of an element by a machine integer. *)
Definition lookupZ {A} (l : list A) (i : Z) : option A :=
  if 0 <=? i then l !! Z.to_nat i else None.
Definition insertZ {A} (i : Z) (x : A) (l : list A) : list A :=
  if 0 <=? i then <[Z.to_nat i := x]> l else l.

Definition lengthZ {A} (l : list A) : Z := Z.of_nat (length l).

(** [l\[i\]], panicking out of range. *)
Definition index {St A} (l : list A) (i : Z) : M St A :=
  match lookupZ l i with Some x => mret x | None => panic_with PIndex end.

Lemma lookupZ_nat {A} (l : list A) i : 0 <= i → lookupZ l i = l !! Z.to_nat i.
Proof. intros. unfold lookupZ. by destruct (Z.leb_spec 0 i); [|lia]. Qed.

Lemma wp_index {St A} (l : list A) i x Q (s : St) :
  lookupZ l i = Some x → Q x s → wp (index l i) Q s.
Proof. unfold index. by intros -> ?. Qed.

(** Lookups by a machine integer. *)
Lemma lookupZ_app_l {A} (l1 l2 : list A) i :
  0 <= i < lengthZ l1 → lookupZ (l1 ++ l2) i = lookupZ l1 i.
Proof. unfold lengthZ. intros. rewrite !lookupZ_nat by lia. apply lookup_app_l. lia. Qed.
Lemma lookupZ_app_r {A} (l1 l2 : list A) i :
  lengthZ l1 <= i → lookupZ (l1 ++ l2) i = lookupZ l2 (i - lengthZ l1).
Proof.
  unfold lengthZ. intros. rewrite !lookupZ_nat by lia. rewrite lookup_app_r by lia. f_equal. lia.
Qed.
Lemma lookupZ_lt {A} (l : list A) i x : lookupZ l i = Some x → 0 <= i < lengthZ l.
Proof.
  unfold lookupZ, lengthZ. destruct (Z.leb_spec 0 i); [|done]. intros H1%lookup_lt_Some. lia.
Qed.
Lemma lookupZ_is_Some {A} (l : list A) i : 0 <= i < lengthZ l → ∃ x, lookupZ l i = Some x.
Proof.
  unfold lengthZ. intros Hi. rewrite lookupZ_nat by lia. apply lookup_lt_is_Some. lia.
Qed.
Lemma lookupZ_inj {A} (l : list A) i j x :
  NoDup l → lookupZ l i = Some x → lookupZ l j = Some x → i = j.
Proof.
  intros Hnd Hi Hj. pose proof (lookupZ_lt _ _ _ Hi). pose proof (lookupZ_lt _ _ _ Hj).
  rewrite lookupZ_nat in Hi, Hj by lia. pose proof (NoDup_lookup _ _ _ _ Hnd Hi Hj). lia.
Qed.
Lemma lookupZ_elem {A} (l : list A) i x : lookupZ l i = Some x → x ∈ l.
Proof.
  intros Hi. pose proof (lookupZ_lt _ _ _ Hi). rewrite lookupZ_nat in Hi by lia.
  by eapply list_elem_of_lookup_2.
Qed.
Lemma lengthZ_app {A} (l1 l2 : list A) : lengthZ (l1 ++ l2) = lengthZ l1 + lengthZ l2.
Proof. unfold lengthZ. rewrite length_app. lia. Qed.

Lemma lengthZ_nonneg {A} (l : list A) : 0 <= lengthZ l.
Proof. unfold lengthZ. lia. Qed.

Lemma lookupZ_insertZ {A} (l : list A) i j x :
  0 <= i < lengthZ l → lookupZ (insertZ i x l) j = if decide (i = j) then Some x else lookupZ l j.
Proof.
  unfold lengthZ, insertZ, lookupZ. intros Hi. rewrite (proj2 (Z.leb_le 0 i)) by lia.
  destruct (Z.leb_spec 0 j); [|by rewrite decide_False by lia]. case_decide.
  - subst. rewrite list_lookup_insert_eq by lia. done.
  - rewrite list_lookup_insert_ne by lia. done.
Qed.
Lemma lengthZ_insertZ {A} (l : list A) i x : lengthZ (insertZ i x l) = lengthZ l.
Proof. unfold lengthZ, insertZ. case_match; [by rewrite length_insert|done]. Qed.

(** [iter().enumerate().find(p)]: the first position satisfying [p]. *)
Fixpoint find_index {A} (p : A → bool) (l : list A) : option nat :=
  match l with
  | [] => None
  | x :: l' => if p x then Some 0%nat else S <$> find_index p l'
  end.

Lemma find_index_Some {A} (p : A → bool) l i :
  find_index p l = Some i ↔
  (∃ x, l !! i = Some x ∧ p x = true) ∧ (∀ j y, (j < i)%nat → l !! j = Some y → p y = false).
Proof.
  revert i. induction l as [|x l IH]; intros i; simpl.
  { split; [done|]. intros [(y & Hy & _) _]. done. }
  destruct (p x) eqn:Hx.
  - split.
    + intros [= <-]. split; [by exists x|]. intros; lia.
    + intros [_ Hmin]. destruct i; [done|].
      specialize (Hmin 0%nat x ltac:(lia) eq_refl). congruence.
  - destruct (find_index p l) as [k|] eqn:Hk; simpl; split.
    + intros [= <-]. destruct (proj1 (IH k) eq_refl) as [Hy Hmin]. split; [done|].
      intros [|j] y Hj Hl; simpl in Hl; [congruence|]. eapply Hmin; [|done]. lia.
    + intros [(y & Hy & Hpy) Hmin]. destruct i as [|i]; simpl in Hy; [congruence|].
      do 2 f_equal. enough (Some k = Some i) by congruence. apply IH. split; [eauto|].
      intros j z Hj Hz. apply (Hmin (S j) z); [lia|done].
    + done.
    + intros [(y & Hy & Hpy) Hmin]. destruct i as [|i]; simpl in Hy; [congruence|].
      enough (None = Some i) by done. apply IH. split; [eauto|].
      intros j z Hj Hz. apply (Hmin (S j) z); [lia|done].
Qed.

Lemma find_index_None {A} (p : A → bool) l :
  find_index p l = None ↔ ∀ i x, l !! i = Some x → p x = false.
Proof.
  induction l as [|x l IH]; simpl; [done|].
  destruct (p x) eqn:Hx.
  - split; [done|]. intros H. specialize (H 0%nat x eq_refl). congruence.
  - rewrite fmap_None, IH. split.
    + intros H [|i] y Hy; simpl in Hy; [congruence|eauto].
    + intros H i y Hy. exact (H (S i) y Hy).
Qed.

Create HintDb rcore.
#[export] Hint Resolve wrap_range : rcore.
