(* ===== verification/Address.v ===== *)
(** * Sv39 addresses and page numbers

    The constants of [os/src/config.rs] and [os/src/boards/qemu.rs] and the
    address arithmetic of [os/src/mm/address.rs]: the four newtypes over
    [usize] (all represented by [Z]), the masking conversions from [usize],
    [floor]/[ceil]/[page_offset], the three 9-bit indexes of a virtual page
    number, and the half-open page ranges with their iterator. *)

From S2P Require Import Prelude.

Definition USER_STACK_SIZE : Z := 4096 * 2.
Definition KERNEL_STACK_SIZE : Z := 4096 * 2.
Definition MEMORY_END : Z := 0x80800000.
Definition PAGE_SIZE : Z := 0x1000.
Definition PAGE_SIZE_BITS : Z := 0xc.
Definition TRAMPOLINE : Z := wrap64 (wrap64 ((2 ^ 64 - 1) - PAGE_SIZE) + 1).
Definition TRAP_CONTEXT_BASE : Z := wrap64 (TRAMPOLINE - PAGE_SIZE).

(** [boards/qemu.rs]. *)
Definition CLOCK_FREQ : Z := 12500000.
Definition MMIO : list (Z * Z) := [(0x10001000, 0x1000)].

Definition PA_WIDTH_SV39 : Z := 56.
Definition VA_WIDTH_SV39 : Z := 39.
Definition PPN_WIDTH_SV39 : Z := PA_WIDTH_SV39 - PAGE_SIZE_BITS.
Definition VPN_WIDTH_SV39 : Z := VA_WIDTH_SV39 - PAGE_SIZE_BITS.

(** ** Conversions from [usize] *)

Definition PhysAddr_from (v : Z) : Z := Z.land v (Z.shiftl 1 PA_WIDTH_SV39 - 1).
Definition PhysPageNum_from (v : Z) : Z := Z.land v (Z.shiftl 1 PPN_WIDTH_SV39 - 1).
Definition VirtAddr_from (v : Z) : Z := Z.land v (Z.shiftl 1 VA_WIDTH_SV39 - 1).
Definition VirtPageNum_from (v : Z) : Z := Z.land v (Z.shiftl 1 VPN_WIDTH_SV39 - 1).

(** ** Addresses and page numbers

    [VirtAddr] and [PhysAddr] have the same methods. *)

Definition floor (a : Z) : Z := a / PAGE_SIZE.
Definition ceil (a : Z) : Z := wrap64 (wrap64 (a - 1) + PAGE_SIZE) / PAGE_SIZE.
Definition page_offset (a : Z) : Z := Z.land a (PAGE_SIZE - 1).
Definition aligned (a : Z) : bool := page_offset a =? 0.

(** [VirtPageNum::from(VirtAddr)] asserts alignment. *)
Definition PageNum_from_Addr (a : Z) : result Z :=
  if aligned a then Ok (floor a) else Panic PAssert.

(** [VirtAddr::from(VirtPageNum)]. *)
Definition Addr_from_PageNum (n : Z) : Z := wrap64 (Z.shiftl n PAGE_SIZE_BITS).

(** [VirtPageNum::indexes]: the loop fills [idx[2]], [idx[1]], [idx[0]]. *)
Fixpoint indexes_loop (js : list nat) (vpn : Z) (idx : list Z) : list Z :=
  match js with
  | [] => idx
  | i :: js' => indexes_loop js' (Z.shiftr vpn 9) (<[i := Z.land vpn 511]> idx)
  end.
Definition indexes (vpn : Z) : list Z := indexes_loop [2; 1; 0]%nat vpn [0; 0; 0].

(** ** Ranges *)

Definition step (n : Z) : Z := wrap64 (n + 1).

Record SimpleRange := { range_l : Z; range_r : Z }.

Definition SimpleRange_new (start end_ : Z) : result SimpleRange :=
  if start <=? end_ then Ok {| range_l := start; range_r := end_ |} else Panic PAssert.

Record SimpleRangeIterator := { it_current : Z; it_end : Z }.

Definition into_iter (rg : SimpleRange) : SimpleRangeIterator :=
  {| it_current := range_l rg; it_end := range_r rg |}.

Definition next (it : SimpleRangeIterator) : option Z * SimpleRangeIterator :=
  if it_current it =? it_end it then (None, it)
  else (Some (it_current it), {| it_current := step (it_current it); it_end := it_end it |}).

(** The items a [for] loop draws from the iterator; [None] when [fuel] calls
    of [next] did not exhaust it. *)
Fixpoint drain (fuel : nat) (it : SimpleRangeIterator) : option (list Z) :=
  match fuel with
  | O => None
  | S fuel =>
      match next it with
      | (None, _) => Some []
      | (Some x, it') => cons x <$> drain fuel it'
      end
  end.
Definition range_items (rg : SimpleRange) : list Z :=
  default [] (drain (S (Z.to_nat (range_r rg - range_l rg))) (into_iter rg)).

(** ** Lemmas *)

Lemma VirtAddr_from_mod v : VirtAddr_from v = v mod 2 ^ 39.
Proof. apply (land_mask v 39). lia. Qed.
Lemma PhysAddr_from_mod v : PhysAddr_from v = v mod 2 ^ 56.
Proof. apply (land_mask v 56). lia. Qed.
Lemma PhysPageNum_from_mod v : PhysPageNum_from v = v mod 2 ^ 44.
Proof. apply (land_mask v 44). lia. Qed.
Lemma VirtPageNum_from_mod v : VirtPageNum_from v = v mod 2 ^ 27.
Proof. apply (land_mask v 27). lia. Qed.

Lemma PhysPageNum_from_small v : 0 <= v < 2 ^ 44 → PhysPageNum_from v = v.
Proof. intros. rewrite PhysPageNum_from_mod. by apply Z.mod_small. Qed.

Lemma page_offset_mod a : page_offset a = a mod 4096.
Proof. apply (land_mask a 12). lia. Qed.

Lemma floor_page_offset a : a = floor a * PAGE_SIZE + page_offset a.
Proof. rewrite page_offset_mod. unfold floor, PAGE_SIZE. zdiv. Qed.

(** Page-aligned addresses. *)
Lemma floor_page k : floor (k * 4096) = k.
Proof. unfold floor, PAGE_SIZE. by rewrite Z.div_mul. Qed.
Lemma page_num_of_page k : PageNum_from_Addr (k * 4096) = Ok k.
Proof.
  unfold PageNum_from_Addr, aligned. rewrite page_offset_mod.
  rewrite Z.mod_mul by lia. simpl. by rewrite floor_page.
Qed.

Lemma page_offset_range a : 0 <= page_offset a < PAGE_SIZE.
Proof. rewrite page_offset_mod. unfold PAGE_SIZE. zdiv. Qed.

Lemma Addr_from_PageNum_small n :
  0 <= n < 2 ^ 52 → Addr_from_PageNum n = n * PAGE_SIZE.
Proof.
  intros. unfold Addr_from_PageNum, PAGE_SIZE_BITS, PAGE_SIZE.
  rewrite Z.shiftl_mul_pow2 by lia. rewrite wrap_small; lia.
Qed.

(** [ceil] is the least page number whose page starts at or after [a]. *)
Lemma ceil_spec a :
  0 < a <= 2 ^ 64 - PAGE_SIZE → (ceil a - 1) * PAGE_SIZE < a <= ceil a * PAGE_SIZE.
Proof.
  unfold ceil, PAGE_SIZE. intros.
  rewrite (wrap_small _ (a - 1)) by lia. rewrite wrap_small by lia. zdiv.
Qed.

Lemma indexes_eq vpn : indexes vpn = [vpn / 2 ^ 18 mod 512; vpn / 2 ^ 9 mod 512; vpn mod 512].
Proof.
  unfold indexes, indexes_loop. simpl.
  change 511 with (2 ^ 9 - 1). rewrite !land_mask, !Z.shiftr_div_pow2 by lia.
  rewrite Z.div_div by lia. done.
Qed.

Lemma indexes_inj v1 v2 :
  0 <= v1 < 2 ^ 27 → 0 <= v2 < 2 ^ 27 → indexes v1 = indexes v2 → v1 = v2.
Proof. rewrite !indexes_eq. intros ?? [=]. zdiv. Qed.

Lemma drain_seqZ (n : nat) (l r : Z) :
  0 <= l → r = l + Z.of_nat n → r < 2 ^ 64 →
  drain (S n) {| it_current := l; it_end := r |} = Some (seqZ l (Z.of_nat n)).
Proof.
  revert l. induction n as [|n IH]; intros l Hl Hr Hb.
  - simpl. unfold next. simpl. by rewrite (proj2 (Z.eqb_eq l r)) by lia.
  - change (drain (S (S n)) {| it_current := l; it_end := r |}) with
      (match next {| it_current := l; it_end := r |} with
       | (None, _) => Some [] | (Some x, it') => cons x <$> drain (S n) it' end).
    unfold next. simpl it_current. simpl it_end.
    rewrite (proj2 (Z.eqb_neq l r)) by lia.
    unfold step. rewrite wrap_small by lia. rewrite IH by lia.
    rewrite (seqZ_cons l) by lia. simpl. do 3 f_equal; lia.
Qed.

(** The iterator of a range terminates and yields exactly [l, l+1, ..., r-1]. *)
Lemma range_items_seqZ rg :
  0 <= range_l rg <= range_r rg → range_r rg < 2 ^ 64 → range_items rg = seqZ (range_l rg) (range_r rg - range_l rg).
Proof.
  intros. unfold range_items, into_iter.
  rewrite drain_seqZ by lia. simpl. f_equal. lia.
Qed.

Lemma elem_of_range_items rg v :
  0 <= range_l rg <= range_r rg → range_r rg < 2 ^ 64 → v ∈ range_items rg ↔ range_l rg <= v < range_r rg.
Proof. intros. rewrite range_items_seqZ, elem_of_seqZ by lia. lia. Qed.

Lemma NoDup_range_items rg :
  0 <= range_l rg <= range_r rg → range_r rg < 2 ^ 64 → NoDup (range_items rg).
Proof. intros. rewrite range_items_seqZ by lia. apply NoDup_seqZ. Qed.
