(* ===== verification/FrameAllocator.v ===== *)
(** * Physical memory and the physical frame allocator

    [os/src/mm/frame_allocator.rs]: the stack allocator of physical frames,
    the page cleaning done by [FrameTracker::new], and the accesses to a
    frame through [PhysPageNum::get_pte_array] and [get_bytes_array]
    ([os/src/mm/address.rs]).

    A [FrameTracker] is the number of the frame it owns; the [Drop] of a
    tracker is the explicit call of [frame_dealloc] where the owner dies. *)

From S2P Require Import Prelude Address.

(** ** Physical memory

    A frame is 4096 bytes, that is 512 little-endian 64-bit words; a page maps
    the index of a word to its value and an absent word is zero. *)

Abbreviation page := (gmap Z Z).

Definition page_of (m : gmap Z page) (ppn : Z) : page := default ∅ (m !! ppn).

(** [ppn.get_pte_array()[i]]. *)
Definition get_word (m : gmap Z page) (ppn i : Z) : Z := default 0 (page_of m ppn !! i).
Definition set_word (m : gmap Z page) (ppn i w : Z) : gmap Z page :=
  <[ppn := <[i := w]> (page_of m ppn)]> m.

(** [ppn.get_bytes_array()[k]]. *)
Definition byte_of_word (w j : Z) : Z := Z.land (Z.shiftr w (8 * j)) 255.
Definition word_set_byte (w j b : Z) : Z :=
  Z.lor (Z.land w (Z.lnot (Z.shiftl 255 (8 * j)))) (Z.shiftl (Z.land b 255) (8 * j)).
Definition page_byte (p : page) (k : Z) : Z := byte_of_word (default 0 (p !! (k / 8))) (k mod 8).
Definition page_set_byte (p : page) (k b : Z) : page :=
  <[k / 8 := word_set_byte (default 0 (p !! (k / 8))) (k mod 8) b]> p.
Definition get_byte (m : gmap Z page) (ppn k : Z) : Z := page_byte (page_of m ppn) k.
Definition set_byte (m : gmap Z page) (ppn k b : Z) : gmap Z page :=
  <[ppn := page_set_byte (page_of m ppn) k b]> m.

(** ** The allocator *)

Record StackFrameAllocator := {
  current : Z;
  end_ : Z;
  recycled : list Z
}.

Definition StackFrameAllocator_new : StackFrameAllocator :=
  {| current := 0; end_ := 0; recycled := [] |}.

Definition init (a : StackFrameAllocator) (l r : Z) : StackFrameAllocator :=
  {| current := l; end_ := r; recycled := recycled a |}.

Definition alloc (a : StackFrameAllocator) : option Z * StackFrameAllocator :=
  match vec_pop (recycled a) with
  | Some (ppn, rest) =>
      (Some (PhysPageNum_from ppn),
       {| current := current a; end_ := end_ a; recycled := rest |})
  | None =>
      if current a =? end_ a then (None, a)
      else
        let current' := wrap64 (current a + 1) in
        (Some (PhysPageNum_from (wrap64 (current' - 1))),
         {| current := current'; end_ := end_ a; recycled := recycled a |})
  end.

Definition dealloc (a : StackFrameAllocator) (ppn : Z) : result StackFrameAllocator :=
  if (current a <=? ppn) || existsb (λ v, v =? ppn) (recycled a) then Panic PExplicit
  else Ok {| current := current a; end_ := end_ a; recycled := vec_push (recycled a) ppn |}.

(** [init_frame_allocator]; [ekernel] is a symbol of the linker script. *)
Definition init_frame_allocator (ekernel : Z) : StackFrameAllocator :=
  init StackFrameAllocator_new (ceil (PhysAddr_from ekernel)) (floor (PhysAddr_from MEMORY_END)).

(** The state of the memory subsystem: [FRAME_ALLOCATOR] and the RAM. *)
Record MM := {
  fa : StackFrameAllocator;
  mem : gmap Z page
}.
Definition upd_mem (f : gmap Z page → gmap Z page) (s : MM) : MM :=
  {| fa := fa s; mem := f (mem s) |}.

(** [FrameTracker::new] zeroes the frame. *)
Definition FrameTracker_new (ppn : Z) : M MM Z :=
  _ ← modify (upd_mem (insert ppn ∅)); mret ppn.

Definition frame_alloc : M MM (option Z) :=
  s ← get;
  let '(o, a') := alloc (fa s) in
  _ ← put {| fa := a'; mem := mem s |};
  match o with
  | Some ppn => f ← FrameTracker_new ppn; mret (Some f)
  | None => mret None
  end.

Definition frame_dealloc (ppn : Z) : M MM unit :=
  s ← get;
  a' ← lift_result (dealloc (fa s) ppn);
  put {| fa := a'; mem := mem s |}.

(** ** Lemmas on physical memory *)

Lemma page_of_insert m p pg : page_of (<[p := pg]> m) p = pg.
Proof. unfold page_of. by rewrite lookup_insert_eq. Qed.
Lemma page_of_insert_ne m p q pg : p ≠ q → page_of (<[p := pg]> m) q = page_of m q.
Proof. intros. unfold page_of. by rewrite lookup_insert_ne. Qed.

Lemma get_set_word m p i w : get_word (set_word m p i w) p i = w.
Proof. unfold get_word, set_word. by rewrite page_of_insert, lookup_insert_eq. Qed.
Lemma get_set_word_ne m p i w q j :
  (p, i) ≠ (q, j) → get_word (set_word m p i w) q j = get_word m q j.
Proof.
  intros Hne. unfold get_word, set_word.
  destruct (decide (p = q)) as [->|].
  - rewrite page_of_insert, lookup_insert_ne by congruence. done.
  - by rewrite page_of_insert_ne.
Qed.
Lemma page_of_set_word_ne m p i w q : p ≠ q → page_of (set_word m p i w) q = page_of m q.
Proof. apply page_of_insert_ne. Qed.
Lemma get_word_cleared m p i : get_word (<[p := ∅]> m) p i = 0.
Proof. unfold get_word. by rewrite page_of_insert, lookup_empty. Qed.
Lemma get_word_page m m' p i : page_of m' p = page_of m p → get_word m' p i = get_word m p i.
Proof. unfold get_word. by intros ->. Qed.

Lemma byte_set_same w j b :
  0 <= j → 0 <= b < 256 → byte_of_word (word_set_byte w j b) j = b.
Proof.
  intros Hj Hb. unfold byte_of_word, word_set_byte. apply Z.bits_inj'. intros n Hn.
  rewrite Z.land_spec, Z.shiftr_spec, Z.lor_spec, Z.land_spec, Z.lnot_spec by lia.
  rewrite !Z.shiftl_spec by lia. replace (n + 8 * j - 8 * j) with n by lia.
  rewrite Z.land_spec. change 255 with (Z.ones 8).
  destruct (decide (n < 8)).
  - rewrite Z.ones_spec_low by lia. by rewrite !andb_true_r, andb_false_r.
  - rewrite Z.ones_spec_high, !andb_false_r by lia.
    symmetry. rewrite <- (Z.mod_small b (2 ^ 8)) by lia.
    by rewrite Z.mod_pow2_bits_high by lia.
Qed.

Lemma byte_set_other w j k b :
  0 <= j → 0 <= k → j ≠ k → byte_of_word (word_set_byte w j b) k = byte_of_word w k.
Proof.
  intros Hj Hk Hne. unfold byte_of_word, word_set_byte. apply Z.bits_inj'. intros n Hn.
  rewrite !Z.land_spec, !Z.shiftr_spec, Z.lor_spec, Z.land_spec, Z.lnot_spec by lia.
  rewrite !Z.shiftl_spec by lia. rewrite Z.land_spec. change 255 with (Z.ones 8).
  destruct (decide (n < 8)).
  - rewrite (Z.ones_spec_low _ n) by lia. rewrite !andb_true_r.
    destruct (decide (n + 8 * k - 8 * j < 0)).
    + rewrite !(Z.testbit_neg_r _ (n + 8 * k - 8 * j)) by lia. simpl.
      by rewrite andb_true_r, orb_false_r.
    + rewrite (Z.ones_spec_high _ (n + 8 * k - 8 * j)) by lia. simpl.
      by rewrite andb_true_r, andb_false_r, orb_false_r.
  - by rewrite (Z.ones_spec_high _ n), !andb_false_r by lia.
Qed.

Lemma page_byte_set p k b j :
  0 <= k → 0 <= j → 0 <= b < 256 →
  page_byte (page_set_byte p k b) j = if decide (k = j) then b else page_byte p j.
Proof.
  intros Hk Hj Hb. unfold page_byte, page_set_byte.
  destruct (decide (k / 8 = j / 8)) as [He|He].
  - rewrite <- He, lookup_insert_eq. simpl. case_decide as Hd.
    + subst. apply byte_set_same; [zdiv|done].
    + rewrite byte_set_other; [done|zdiv..].
  - rewrite lookup_insert_ne by done. by rewrite decide_False by (intros ->; done).
Qed.

(** ** The invariant of the allocator

    [owned] is the set of frames handed out and not yet returned. *)

Record fa_inv (lo : Z) (a : StackFrameAllocator) (owned : gset Z) : Prop := {
  fa_bounds : 0 <= lo <= current a ∧ current a <= end_ a <= 2 ^ 44;
  fa_nodup : NoDup (recycled a);
  fa_recycled : ∀ p, p ∈ recycled a → lo <= p < current a;
  fa_owned : ∀ p, p ∈ owned ↔ lo <= p < current a ∧ p ∉ recycled a
}.

(** The number of frames that can still be handed out. *)
Definition nfree (a : StackFrameAllocator) : Z :=
  end_ a - current a + lengthZ (recycled a).

Lemma existsb_eqb_elem (l : list Z) x : existsb (λ v, v =? x) l = true ↔ x ∈ l.
Proof.
  rewrite existsb_exists, list_elem_of_In.
  split; [intros (y & ? & ->%Z.eqb_eq); done | intros; exists x; split; [done|apply Z.eqb_refl]].
Qed.

Lemma init_fa_inv l r :
  0 <= l <= r → r <= 2 ^ 44 → fa_inv l (init StackFrameAllocator_new l r) ∅.
Proof.
  intros. split; simpl; [lia|apply NoDup_nil_2| |]; intros p.
  - by intros ?%elem_of_nil.
  - set_unfold. lia.
Qed.

(** The abstract allocator: a pool of frames and the set of those in use. *)
Inductive alloc_spec (lo hi : Z) (owned : gset Z) : option Z → gset Z → Prop :=
  | alloc_spec_some p :
      lo <= p < hi → p ∉ owned → alloc_spec lo hi owned (Some p) ({[p]} ∪ owned)
  | alloc_spec_none :
      (∀ p, lo <= p < hi → p ∈ owned) → alloc_spec lo hi owned None owned.

Lemma alloc_cases lo a owned :
  fa_inv lo a owned →
  (nfree a = 0 ∧ alloc a = (None, a) ∧ (∀ p, lo <= p < end_ a → p ∈ owned)) ∨
  (0 < nfree a ∧ ∃ p a', alloc a = (Some p, a') ∧ p ∉ owned ∧ lo <= p < end_ a ∧
     fa_inv lo a' ({[p]} ∪ owned) ∧ nfree a' = nfree a - 1 ∧ end_ a' = end_ a).
Proof.
  intros [Hb Hnd Hrec Hown]. unfold alloc, nfree, lengthZ.
  destruct (vec_pop_cases (recycled a)) as [[Hnil ->]|(v & x & Hv & ->)].
  - rewrite Hnil in *. simpl. destruct (Z.eqb_spec (current a) (end_ a)) as [He|He].
    + left. split_and!; [lia|done|]. intros p Hp. apply Hown. rewrite elem_of_nil. lia.
    + right. split; [lia|]. eexists _, _. split; [done|].
      rewrite (wrap_small _ (current a + 1)) by lia.
      rewrite wrap_small, PhysPageNum_from_small by lia. simpl.
      replace (current a + 1 - 1) with (current a) by lia.
      split_and!; [rewrite Hown; lia|lia|lia| |simpl; lia|done].
      split; simpl; rewrite ?Hnil; [lia|apply NoDup_nil_2|by intros p ?%elem_of_nil|].
      intros p. rewrite elem_of_union, elem_of_singleton, Hown, elem_of_nil. lia.
  - right. rewrite Hv in *. apply NoDup_app in Hnd as (Hnd & Hx & _).
    assert (lo <= x < current a) by (apply Hrec; set_solver).
    assert (x ∉ v) by (intros Hin; by apply (Hx x Hin), list_elem_of_singleton).
    split; [rewrite length_app; simpl; lia|].
    eexists _, _. split; [done|]. rewrite PhysPageNum_from_small by lia. simpl.
    split_and!; [rewrite Hown; set_solver|lia|lia| |rewrite length_app; simpl; lia|done].
    split; simpl; [lia|done| |].
    + intros p Hp. apply Hrec. set_solver.
    + intros p. rewrite elem_of_union, elem_of_singleton, Hown, elem_of_app, list_elem_of_singleton.
      destruct (decide (p = x)) as [->|]; naive_solver.
Qed.

Lemma dealloc_inv lo a owned p :
  fa_inv lo a owned → p ∈ owned →
  ∃ a', dealloc a p = Ok a' ∧ fa_inv lo a' (owned ∖ {[p]}) ∧
        nfree a' = nfree a + 1 ∧ end_ a' = end_ a.
Proof.
  intros [Hb Hnd Hrec Hown] [Hp Hnr]%Hown. unfold dealloc.
  rewrite (proj2 (Z.leb_gt _ _)) by lia. simpl.
  destruct (existsb _ _) eqn:He; [by apply existsb_eqb_elem in He|].
  eexists. split; [done|]. split_and!; [|unfold nfree, lengthZ, vec_push; simpl; rewrite length_app; simpl; lia|done].
  unfold vec_push. split; simpl; [lia| | |].
  - apply NoDup_app. split_and!; [done|set_solver|apply NoDup_singleton].
  - intros q. rewrite elem_of_app, list_elem_of_singleton. intros [?| ->]; [eauto|lia].
  - intros q. rewrite elem_of_difference, elem_of_singleton, Hown, elem_of_app, list_elem_of_singleton.
    naive_solver.
Qed.

(** ** Total-correctness rules for the users of the allocator *)

Lemma wp_frame_alloc lo owned s (Q : option Z → MM → Prop) :
  fa_inv lo (fa s) owned → 0 < nfree (fa s) →
  (∀ p a', p ∉ owned → lo <= p < end_ (fa s) → fa_inv lo a' ({[p]} ∪ owned) →
     nfree a' = nfree (fa s) - 1 → end_ a' = end_ (fa s) →
     Q (Some p) {| fa := a'; mem := <[p := ∅]> (mem s) |}) →
  wp frame_alloc Q s.
Proof.
  intros Hinv Hfree HQ. unfold frame_alloc. wp_steps.
  destruct (alloc_cases _ _ _ Hinv) as [(? & _)|(_ & p & a' & -> & ? & ? & ? & ? & ?)]; [lia|].
  wp_steps. unfold FrameTracker_new. wp_steps. by apply HQ.
Qed.

Lemma wp_frame_dealloc lo owned s p (Q : unit → MM → Prop) :
  fa_inv lo (fa s) owned → p ∈ owned →
  (∀ a', fa_inv lo a' (owned ∖ {[p]}) → nfree a' = nfree (fa s) + 1 → end_ a' = end_ (fa s) →
     Q tt {| fa := a'; mem := mem s |}) →
  wp (frame_dealloc p) Q s.
Proof.
  intros Hinv Hp HQ. unfold frame_dealloc. wp_steps.
  destruct (dealloc_inv _ _ _ _ Hinv Hp) as (a' & Ha & ? & ? & ?).
  unfold wp, lift_result. rewrite Ha. by apply HQ.
Qed.

(** ** Properties *)

(** [alloc] implements the abstract allocator: under the invariant it
    returns a frame of the pool that is not in use, or [None] exactly when every
    frame of the pool is in use, and the invariant is preserved. *)
Theorem alloc_refines_spec lo a owned :
  fa_inv lo a owned →
  ∃ owned', alloc_spec lo (end_ a) owned (fst (alloc a)) owned' ∧
    fa_inv lo (snd (alloc a)) owned' ∧ end_ (snd (alloc a)) = end_ a.
Proof.
  intros Hinv. destruct (alloc_cases _ _ _ Hinv) as
    [(_ & -> & Hall)|(_ & p & a' & -> & Hp & Hr & Hinv' & _ & He)]; simpl.
  - exists owned. split_and!; [by constructor|done|done].
  - exists ({[p]} ∪ owned). split_and!; [by constructor|done|done].
Qed.

Lemma alloc_refines_spec_witness :
  fa_inv 0x80500 (init StackFrameAllocator_new 0x80500 0x80800) ∅ ∧
  ∃ owned', alloc_spec 0x80500 0x80800 ∅ (Some 0x80500) owned'.
Proof.
  assert (fa_inv 0x80500 (init StackFrameAllocator_new 0x80500 0x80800) ∅) as H.
  { apply init_fa_inv; lia. }
  split; [exact H|]. destruct (alloc_refines_spec _ _ _ H) as (o & Ho & _). by exists o.
Defined.

(** [dealloc] panics exactly on a frame that is not in use, for any frame
    number at or above the start of the pool; otherwise the frame becomes free. *)
Theorem dealloc_panics_iff_not_owned lo a owned p :
  fa_inv lo a owned → lo <= p →
  match dealloc a p with
  | Ok a' => p ∈ owned ∧ fa_inv lo a' (owned ∖ {[p]})
  | Panic e => e = PExplicit ∧ p ∉ owned
  end.
Proof.
  intros Hinv Hp. destruct (decide (p ∈ owned)) as [Hin|Hout].
  - destruct (dealloc_inv _ _ _ _ Hinv Hin) as (a' & -> & ? & _). done.
  - destruct Hinv as [Hb Hnd Hrec Hown]. unfold dealloc.
    destruct (Z.leb_spec (current a) p); simpl; [done|].
    destruct (existsb _ _) eqn:He; [done|].
    destruct Hout. apply Hown. split; [lia|]. intros Hin%existsb_eqb_elem. congruence.
Qed.

Lemma dealloc_panics_iff_not_owned_witness :
  let a := snd (alloc (init StackFrameAllocator_new 0x80500 0x80800)) in
  (∃ a', dealloc a 0x80500 = Ok a') ∧ dealloc a 0x80501 = Panic PExplicit ∧
  (0x80501 : Z) ∉ ({[0x80500]} ∪ ∅ : gset Z).
Proof.
  intros a.
  assert (fa_inv 0x80500 a ({[0x80500]} ∪ ∅)) as Ha.
  { destruct (alloc_cases 0x80500 (init StackFrameAllocator_new 0x80500 0x80800) ∅)
      as [(? & _)|(_ & p & a' & Heq & _ & _ & H & _)]; [apply init_fa_inv; lia|done|].
    vm_compute in Heq. by inversion Heq; subst. }
  split_and!; [by eexists|done|].
  exact (proj2 (dealloc_panics_iff_not_owned 0x80500 a _ 0x80501 Ha ltac:(lia))).
Defined.

(** The frame allocator as a state machine: its clients allocate and return
    frames in any order; [live] lists the frames they hold. *)
Inductive fa_step : StackFrameAllocator * list Z → StackFrameAllocator * list Z → Prop :=
  | fa_step_alloc a live p a' :
      alloc a = (Some p, a') → fa_step (a, live) (a', p :: live)
  | fa_step_oom a live a' :
      alloc a = (None, a') → fa_step (a, live) (a', live)
  | fa_step_dealloc a live1 p live2 a' :
      dealloc a p = Ok a' → fa_step (a, live1 ++ p :: live2) (a', live1 ++ live2).

Lemma fa_reach_inv l r st :
  0 <= l <= r → r <= 2 ^ 44 →
  rtc fa_step (init StackFrameAllocator_new l r, []) st →
  fa_inv l (fst st) (list_to_set (snd st)) ∧ NoDup (snd st).
Proof.
  intros Hl Hr. remember (init StackFrameAllocator_new l r, []) as st0 eqn:H0.
  assert (fa_inv l (fst st0) (list_to_set (snd st0)) ∧ NoDup (snd st0)) as Hi.
  { subst. split; [by apply init_fa_inv|apply NoDup_nil_2]. }
  clear H0. induction 1 as [st|st1 st2 st3 Hstep _ IH]; [done|]. apply IH. clear IH.
  destruct Hi as [Hi Hnd]. destruct Hstep as [a live p a' Ha|a live a' Ha|a l1 p l2 a' Ha]; simpl in *.
  - destruct (alloc_cases _ _ _ Hi) as [(_ & H & _)|(_ & q & a2 & H & Hq & _ & Hi' & _)]; rewrite Ha in H; simplify_eq.
    split; [exact Hi'|]. apply NoDup_cons. split; [|done]. set_solver.
  - destruct (alloc_cases _ _ _ Hi) as [(_ & H & _)|(_ & q & a2 & H & _)]; rewrite Ha in H; simplify_eq. done.
  - rewrite <- Permutation_middle in Hnd. apply NoDup_cons in Hnd as [Hp Hnd].
    split; [|done]. destruct (dealloc_inv _ _ _ p Hi) as (a2 & H & Hi' & _); [set_solver|].
    rewrite Ha in H. simplify_eq. replace (list_to_set (l1 ++ l2) : gset Z) with
      (list_to_set (l1 ++ p :: l2) ∖ {[p]} : gset Z); [done|]. set_solver.
Qed.

(** C28: In every history of allocations and returns no frame is held twice,
    every held frame lies in the pool, and returning a held frame never panics. *)
Theorem frames_never_shared l r a live :
  0 <= l <= r → r <= 2 ^ 44 →
  rtc fa_step (init StackFrameAllocator_new l r, []) (a, live) →
  NoDup live ∧ (∀ p, p ∈ live → l <= p < r) ∧ ∀ p, p ∈ live → ∃ a', dealloc a p = Ok a'.
Proof.
  intros Hl Hr Hreach. destruct (fa_reach_inv _ _ _ Hl Hr Hreach) as [Hi Hnd]; simpl in *.
  assert (end_ a = r) as He.
  { clear Hi Hnd. remember (init StackFrameAllocator_new l r, []) as st0 eqn:H0.
    assert (end_ (fst st0) = r) as Hr0 by by subst.
    change a with (fst (a, live)). clear H0 Hr Hl. revert Hr0.
    induction Hreach as [|st1 st2 st3 Hs _ IH]; [done|]. intros H1. apply IH. rewrite <- H1.
    destruct Hs as [? ? ? ? Ha|? ? ? Ha|? ? ? ? ? Ha]; simpl;
      unfold alloc, dealloc in Ha; repeat case_match; by simplify_eq. }
  split_and!; [done| |].
  - intros p Hp. destruct Hi as [Hb _ _ Hown].
    assert (p ∈ (list_to_set live : gset Z)) as [? _]%Hown by set_solver. lia.
  - intros p Hp. destruct (dealloc_inv _ _ _ p Hi) as (a' & ? & _); [set_solver|eauto].
Qed.

Lemma frames_never_shared_witness :
  ∃ a live, rtc fa_step (init StackFrameAllocator_new 0x80500 0x80502, []) (a, live) ∧
    live = [0x80500; 0x80501] ∧ NoDup live.
Proof.
  eexists _, [0x80500; 0x80501].
  assert (rtc fa_step (init StackFrameAllocator_new 0x80500 0x80502, [])
    ({| current := 0x80502; end_ := 0x80502; recycled := [] |}, [0x80500; 0x80501])) as H.
  { eapply rtc_l; [by apply fa_step_alloc|]. eapply rtc_l; [by apply fa_step_alloc|].
    eapply rtc_l; [by apply (fa_step_dealloc _ [0x80501] 0x80500 [])|].
    eapply rtc_l; [by apply fa_step_alloc|]. apply rtc_refl. }
  split_and!; [exact H|done|].
  exact (proj1 (frames_never_shared 0x80500 0x80502 _ _ ltac:(lia) ltac:(lia) H)).
Defined.
