(* ===== verification/PageTable.v ===== *)
(** * Sv39 page tables

    [os/src/mm/page_table.rs], lines 1-138: page table entries and the
    three-level tree walked and extended by [find_pte], [find_pte_create],
    [map] and [unmap].  A mutable reference to an entry is its location: the
    frame of its table and its index. *)

From S2P Require Import Prelude Address FrameAllocator.

(** ** Entries *)

Definition PTE_V : Z := Z.shiftl 1 0.
Definition PTE_R : Z := Z.shiftl 1 1.
Definition PTE_W : Z := Z.shiftl 1 2.
Definition PTE_X : Z := Z.shiftl 1 3.
Definition PTE_U : Z := Z.shiftl 1 4.
Definition PTE_G : Z := Z.shiftl 1 5.
Definition PTE_A : Z := Z.shiftl 1 6.
Definition PTE_D : Z := Z.shiftl 1 7.
Definition PTEFlags_all : Z :=
  Z.lor PTE_V (Z.lor PTE_R (Z.lor PTE_W (Z.lor PTE_X (Z.lor PTE_U
    (Z.lor PTE_G (Z.lor PTE_A PTE_D)))))).

Definition PTE_new (ppn flags : Z) : Z := Z.lor (wrap64 (Z.shiftl ppn 10)) flags.
Definition PTE_empty : Z := 0.
Definition pte_ppn (bits : Z) : Z :=
  PhysPageNum_from (Z.land (Z.shiftr bits 10) (Z.shiftl 1 44 - 1)).
(** [PTEFlags::from_bits(bits as u8)]; [flags()] unwraps it, see
    [pte_from_bits_total]. *)
Definition pte_from_bits (bits : Z) : option Z := from_bits PTEFlags_all (wrap8 bits).
Definition pte_flags (bits : Z) : Z := default 0 (pte_from_bits bits).
Definition has_flag (bits f : Z) : bool := negb (Z.land (pte_flags bits) f =? 0).
Definition is_valid (bits : Z) : bool := has_flag bits PTE_V.
Definition readable (bits : Z) : bool := has_flag bits PTE_R.
Definition writable (bits : Z) : bool := has_flag bits PTE_W.
Definition executable (bits : Z) : bool := has_flag bits PTE_X.

(** ** Tables *)

Record PageTable := {
  root_ppn : Z;
  frames : list Z
}.

Definition PageTable_new : M MM PageTable :=
  o ← frame_alloc;
  frame ← unwrap o;
  mret {| root_ppn := frame; frames := [frame] |}.

Definition from_token (satp : Z) : PageTable :=
  {| root_ppn := PhysPageNum_from (Z.land satp (Z.shiftl 1 44 - 1)); frames := [] |}.

Definition token (pt : PageTable) : Z := Z.lor (wrap64 (Z.shiftl 8 60)) (root_ppn pt).

(** The loops over [idxs.iter().enumerate()]. *)
Fixpoint find_pte_create_loop (pt : PageTable) (idxs : list (Z * Z)) (ppn : Z) :
    M MM (option (Z * Z) * PageTable) :=
  match idxs with
  | [] => mret (None, pt)
  | (i, idx) :: rest =>
      if i =? 2 then mret (Some (ppn, idx), pt)
      else
        s ← get;
        let pte := get_word (mem s) ppn idx in
        if negb (is_valid pte) then
          o ← frame_alloc;
          frame ← unwrap o;
          let pte' := PTE_new frame PTE_V in
          _ ← modify (upd_mem (λ m, set_word m ppn idx pte'));
          find_pte_create_loop
            {| root_ppn := root_ppn pt; frames := vec_push (frames pt) frame |}
            rest (pte_ppn pte')
        else find_pte_create_loop pt rest (pte_ppn pte)
  end.
Definition find_pte_create (pt : PageTable) (vpn : Z) : M MM (option (Z * Z) * PageTable) :=
  find_pte_create_loop pt (zip [0; 1; 2] (indexes vpn)) (root_ppn pt).

Fixpoint find_pte_loop (m : gmap Z page) (idxs : list (Z * Z)) (ppn : Z) : option (Z * Z) :=
  match idxs with
  | [] => None
  | (i, idx) :: rest =>
      if i =? 2 then Some (ppn, idx)
      else
        let pte := get_word m ppn idx in
        if negb (is_valid pte) then None
        else find_pte_loop m rest (pte_ppn pte)
  end.
Definition find_pte (m : gmap Z page) (pt : PageTable) (vpn : Z) : option (Z * Z) :=
  find_pte_loop m (zip [0; 1; 2] (indexes vpn)) (root_ppn pt).

Definition map (pt : PageTable) (vpn ppn flags : Z) : M MM PageTable :=
  r ← find_pte_create pt vpn;
  loc ← unwrap (fst r);
  s ← get;
  _ ← assert_ (negb (is_valid (get_word (mem s) (fst loc) (snd loc))));
  _ ← modify (upd_mem (λ m, set_word m (fst loc) (snd loc) (PTE_new ppn (Z.lor flags PTE_V))));
  mret (snd r).

Definition unmap (pt : PageTable) (vpn : Z) : M MM unit :=
  s ← get;
  loc ← unwrap (find_pte (mem s) pt vpn);
  _ ← assert_ (is_valid (get_word (mem s) (fst loc) (snd loc)));
  modify (upd_mem (λ m, set_word m (fst loc) (snd loc) PTE_empty)).

Definition translate (m : gmap Z page) (pt : PageTable) (vpn : Z) : option Z :=
  (λ loc, get_word m (fst loc) (snd loc)) <$> find_pte m pt vpn.

Definition translate_va (m : gmap Z page) (pt : PageTable) (va : Z) : option Z :=
  (λ loc, let aligned_pa := Addr_from_PageNum (pte_ppn (get_word m (fst loc) (snd loc))) in
          let offset := page_offset va in
          PhysAddr_from (wrap64 (aligned_pa + offset))) <$> find_pte m pt (floor va).

(** ** Entries: the fields of a new entry can be read back *)

Lemma pte_from_bits_total bits : pte_from_bits bits = Some (wrap8 bits).
Proof.
  unfold pte_from_bits, from_bits.
  assert (Z.land (wrap8 bits) (Z.lnot PTEFlags_all) = 0) as ->; [|done].
  change PTEFlags_all with (Z.ones 8). unfold wrap.
  rewrite <- Z.land_ones by lia. rewrite <- Z.land_assoc, Z.land_lnot_diag. apply Z.land_0_r.
Qed.

Lemma pte_flags_eq bits : pte_flags bits = bits mod 256.
Proof. unfold pte_flags. by rewrite pte_from_bits_total. Qed.

Lemma pte_ppn_eq bits : pte_ppn bits = bits / 1024 mod 2 ^ 44.
Proof.
  unfold pte_ppn. change (Z.shiftl 1 44 - 1) with (2 ^ 44 - 1).
  rewrite land_mask, Z.shiftr_div_pow2, PhysPageNum_from_mod by lia. by rewrite Z.mod_mod.
Qed.

Lemma PTE_new_eq ppn flags :
  0 <= ppn < 2 ^ 44 → 0 <= flags < 256 → PTE_new ppn flags = ppn * 1024 + flags.
Proof.
  intros. unfold PTE_new. rewrite wrap_small by (rewrite Z.shiftl_mul_pow2; lia).
  by apply (lor_shiftl_add ppn flags 10); lia.
Qed.

Lemma pte_ppn_new ppn flags :
  0 <= ppn < 2 ^ 44 → 0 <= flags < 256 → pte_ppn (PTE_new ppn flags) = ppn.
Proof. intros. rewrite pte_ppn_eq, PTE_new_eq by done. zdiv. Qed.

Lemma pte_flags_new ppn flags :
  0 <= ppn < 2 ^ 44 → 0 <= flags < 256 → pte_flags (PTE_new ppn flags) = flags.
Proof. intros. rewrite pte_flags_eq, PTE_new_eq by done. zdiv. Qed.

Lemma is_valid_odd bits : is_valid bits = Z.odd bits.
Proof.
  unfold is_valid, has_flag. rewrite pte_flags_eq. change PTE_V with (Z.ones 1).
  rewrite Z.land_ones, Zmod_odd by lia.
  assert (Z.odd bits = Z.odd (256 * (bits / 256) + bits mod 256)) as ->
    by (f_equal; apply Z.div_mod; lia).
  rewrite Z.odd_add, Z.odd_mul. simpl. by destruct (Z.odd _).
Qed.

Lemma odd_lor_1 f : Z.odd (Z.lor f PTE_V) = true.
Proof. rewrite <- Z.bit0_odd, Z.lor_spec. by rewrite orb_true_r. Qed.

Lemma lor_byte f g : 0 <= f < 256 → 0 <= g < 256 → 0 <= Z.lor f g < 256.
Proof.
  intros. split; [apply Z.lor_nonneg; lia|].
  destruct (decide (Z.lor f g = 0)); [lia|].
  apply (Z.log2_lt_pow2 _ 8); [pose proof (proj2 (Z.lor_nonneg f g) ltac:(lia)); lia|].
  rewrite Z.log2_lor by lia.
  destruct (decide (f = 0)) as [->|], (decide (g = 0)) as [->|]; simpl;
    try apply Z.max_lub_lt; try apply Z.log2_lt_pow2; lia.
Qed.

Lemma lor_V_byte f : 0 <= f < 256 → 0 <= Z.lor f PTE_V < 256.
Proof. intros. by apply lor_byte. Qed.

Lemma is_valid_new_V ppn flags :
  0 <= ppn < 2 ^ 44 → 0 <= flags < 256 → is_valid (PTE_new ppn (Z.lor flags PTE_V)) = true.
Proof.
  intros. rewrite is_valid_odd, PTE_new_eq by (done || by apply lor_V_byte).
  rewrite Z.odd_add, odd_lor_1, Z.odd_mul. by rewrite andb_false_r.
Qed.

(** ** Walks

    [walk m root path] follows valid entries from the root table. *)

Definition table_next (m : gmap Z page) (ppn i : Z) : option Z :=
  let pte := get_word m ppn i in
  if is_valid pte then Some (pte_ppn pte) else None.

Fixpoint walk (m : gmap Z page) (ppn : Z) (path : list Z) : option Z :=
  match path with
  | [] => Some ppn
  | i :: path' => q ← table_next m ppn i; walk m q path'
  end.

(** The mapping a page table denotes: the frame and flags of a valid leaf. *)
Definition mapping (m : gmap Z page) (pt : PageTable) (vpn : Z) : option (Z * Z) :=
  pte ← translate m pt vpn;
  if is_valid pte then Some (pte_ppn pte, pte_flags pte) else None.

(** The tree is a tree: the tables reached by distinct paths are distinct
    frames, all of them recorded in [frames]. *)
Record pt_wf (m : gmap Z page) (pt : PageTable) : Prop := {
  wf_reach : ∀ p q, (length p <= 2)%nat → walk m (root_ppn pt) p = Some q → q ∈ frames pt;
  wf_inj : ∀ p1 p2 q, (length p1 <= 2)%nat → (length p2 <= 2)%nat →
     walk m (root_ppn pt) p1 = Some q → walk m (root_ppn pt) p2 = Some q → p1 = p2;
  wf_range : ∀ q, q ∈ frames pt → 0 <= q < 2 ^ 44
}.

Record pt_inv (lo : Z) (owned : gset Z) (s : MM) (pt : PageTable) : Prop := {
  inv_fa : fa_inv lo (fa s) owned;
  inv_wf : pt_wf (mem s) pt;
  inv_owned : ∀ q, q ∈ frames pt → q ∈ owned;
  inv_nodup : NoDup (frames pt)
}.

Lemma walk_snoc m r p i : walk m r (p ++ [i]) = walk m r p ≫= λ q, table_next m q i.
Proof.
  revert r. induction p as [|j p IH]; intros r; simpl.
  - by destruct (table_next m r i).
  - destruct (table_next m r j) as [q|]; simpl; [apply IH|done].
Qed.

(** A walk depends only on the entries it reads. *)
Lemma walk_ext m m' r p :
  (∀ p' i q, p' ++ [i] `prefix_of` p → walk m r p' = Some q →
     get_word m' q i = get_word m q i) →
  walk m' r p = walk m r p.
Proof.
  induction p as [|i p IH] using rev_ind; intros H; [done|].
  rewrite !walk_snoc, IH.
  - destruct (walk m r p) as [q|] eqn:Hq; simpl; [|done].
    unfold table_next. by rewrite (H p i q).
  - intros p' j q Hp'. apply H. by apply prefix_app_r.
Qed.

Lemma find_pte_walk m pt vpn a b c :
  indexes vpn = [a; b; c] →
  find_pte m pt vpn = (λ q, (q, c)) <$> walk m (root_ppn pt) [a; b].
Proof.
  intros Hi. unfold find_pte. rewrite Hi. simpl. unfold table_next.
  destruct (is_valid (get_word m (root_ppn pt) a)); simpl; [|done].
  by destruct (is_valid (get_word m _ b)).
Qed.

Lemma indexes_3 vpn : ∃ a b c, indexes vpn = [a; b; c].
Proof. rewrite indexes_eq. eauto. Qed.

Lemma mapping_walk m pt vpn a b c :
  indexes vpn = [a; b; c] →
  mapping m pt vpn = q ← walk m (root_ppn pt) [a; b];
    let pte := get_word m q c in
    if is_valid pte then Some (pte_ppn pte, pte_flags pte) else None.
Proof.
  intros Hi. unfold mapping, translate. rewrite (find_pte_walk _ _ _ _ _ _ Hi).
  by destruct (walk _ _ _).
Qed.

(** Writes outside the tables do not change the tree. *)
Lemma pt_wf_agree m m' pt :
  (∀ q, q ∈ frames pt → page_of m' q = page_of m q) → pt_wf m pt →
  pt_wf m' pt ∧ ∀ vpn, translate m' pt vpn = translate m pt vpn.
Proof.
  intros Hag [Hr Hi Hrange].
  assert (∀ p, (length p <= 3)%nat → walk m' (root_ppn pt) p = walk m (root_ppn pt) p) as Hw.
  { intros p Hp. apply walk_ext. intros p' i q Hpre Hq. apply get_word_page, Hag.
    apply (Hr p'); [|done]. apply prefix_length in Hpre. rewrite length_app in Hpre. simpl in Hpre. lia. }
  split.
  - split; [intros p q ?; rewrite Hw by lia; eauto|intros p1 p2 q ??; rewrite !Hw by lia; eauto|done].
  - intros vpn. destruct (indexes_3 vpn) as (a & b & c & Hix). unfold translate.
    rewrite !(find_pte_walk _ _ _ _ _ _ Hix), Hw by (simpl; lia).
    destruct (walk m (root_ppn pt) [a; b]) as [q|] eqn:Hq; simpl; [|done].
    f_equal. apply get_word_page, Hag, (Hr [a; b]); [simpl; lia|done].
Qed.

(** Writing a leaf entry leaves every walk to a table unchanged. *)
Lemma walk_leaf_write m pt a b q j w p :
  pt_wf m pt → walk m (root_ppn pt) [a; b] = Some q → (length p <= 2)%nat →
  walk (set_word m q j w) (root_ppn pt) p = walk m (root_ppn pt) p.
Proof.
  intros [_ Hinj _] Hq Hp. apply walk_ext. intros p' i q' Hpre Hq'.
  apply prefix_length in Hpre. rewrite length_app in Hpre. simpl in Hpre.
  apply get_set_word_ne. intros [= <- <-].
  assert (p' = [a; b]) as -> by (eapply Hinj; [..|exact Hq'|exact Hq]; simpl; lia).
  simpl in Hpre. lia.
Qed.

Lemma pt_wf_leaf_write m pt a b q j w :
  pt_wf m pt → walk m (root_ppn pt) [a; b] = Some q → pt_wf (set_word m q j w) pt.
Proof.
  intros Hwf Hq. pose proof (walk_leaf_write m pt a b q j w) as Hw.
  destruct Hwf as [Hr Hi Hrange]. split.
  - intros p q' Hp. rewrite Hw by done. by apply Hr.
  - intros p1 p2 q' H1 H2. rewrite !Hw by done. by apply Hi.
  - done.
Qed.

Lemma mapping_leaf_write m pt vpn a b c q w vpn' :
  pt_wf m pt → indexes vpn = [a; b; c] → walk m (root_ppn pt) [a; b] = Some q →
  0 <= vpn < 2 ^ 27 → 0 <= vpn' < 2 ^ 27 →
  mapping (set_word m q c w) pt vpn' =
    if decide (vpn' = vpn)
    then if is_valid w then Some (pte_ppn w, pte_flags w) else None
    else mapping m pt vpn'.
Proof.
  intros Hwf Hix Hq Hv Hv'. destruct (indexes_3 vpn') as (a' & b' & c' & Hix').
  rewrite !(mapping_walk _ _ _ _ _ _ Hix').
  rewrite (walk_leaf_write m pt a b q c w) by (done || simpl; lia).
  case_decide as Heq.
  - subst vpn'. rewrite Hix in Hix'. simplify_eq. rewrite Hq. simpl. by rewrite get_set_word.
  - destruct (walk m (root_ppn pt) [a'; b']) as [q'|] eqn:Hq'; cbn [mbind option_bind]; [|done].
    rewrite get_set_word_ne; [done|]. intros [= <- <-]. apply Heq.
    apply indexes_inj; [done..|]. rewrite Hix, Hix'.
    assert ([a'; b'] = [a; b]) as [= -> ->]; [|done].
    eapply (wf_inj _ _ Hwf); [..|exact Hq'|exact Hq]; simpl; lia.
Qed.

(** ** Growing the tree

    [pt_ext] is what an operation on a table may do to the rest of the system:
    no frame outside the tree is written, and the only frames taken from the
    allocator are new tables of the tree. *)

Record pt_ext (owned : gset Z) (s : MM) (pt : PageTable)
    (owned' : gset Z) (s' : MM) (pt' : PageTable) : Prop := {
  ext_root : root_ppn pt' = root_ppn pt;
  ext_frames : ∀ x, x ∈ frames pt → x ∈ frames pt';
  ext_owned : ∀ x, x ∈ owned' ↔ x ∈ owned ∨ x ∈ frames pt';
  ext_fresh : ∀ x, x ∈ frames pt' → x ∈ owned → x ∈ frames pt;
  ext_pages : ∀ x, x ∉ frames pt' → page_of (mem s') x = page_of (mem s) x;
  ext_free : nfree (fa s') + lengthZ (frames pt') = nfree (fa s) + lengthZ (frames pt);
  ext_end : end_ (fa s') = end_ (fa s)
}.

Lemma pt_ext_refl lo owned s pt : pt_inv lo owned s pt → pt_ext owned s pt owned s pt.
Proof. intros [_ _ Ho]. split; naive_solver. Qed.

Lemma pt_ext_trans o1 s1 p1 o2 s2 p2 o3 s3 p3 :
  pt_ext o1 s1 p1 o2 s2 p2 → pt_ext o2 s2 p2 o3 s3 p3 → pt_ext o1 s1 p1 o3 s3 p3.
Proof.
  intros [R1 F1 O1 N1 P1 L1 E1] [R2 F2 O2 N2 P2 L2 E2]. split.
  - congruence.
  - auto.
  - intros x. rewrite O2, O1. naive_solver.
  - intros x Hx Ho. apply N1; [|done]. apply N2; [done|]. apply O1. auto.
  - intros x Hx. rewrite P2 by done. apply P1. auto.
  - lia.
  - congruence.
Qed.

Lemma table_next_cleared m f i : table_next (<[f := ∅]> m) f i = None.
Proof. unfold table_next. rewrite get_word_cleared. done. Qed.

Section grow.
Context (m : gmap Z page) (pt : PageTable) (p0 : list Z) (q j f : Z).
Context (Hwf : pt_wf m pt) (Hlen : (length p0 <= 1)%nat).
Context (Hq : walk m (root_ppn pt) p0 = Some q) (Hnone : table_next m q j = None).
Context (Hf : f ∉ frames pt) (Hfr : 0 <= f < 2 ^ 44).
Let m' : gmap Z page := set_word (<[f := ∅]> m) q j (PTE_new f PTE_V).
Let pt' : PageTable := {| root_ppn := root_ppn pt; frames := vec_push (frames pt) f |}.

Lemma grow_q_f : q ≠ f.
Proof. intros ->. apply Hf, (wf_reach _ _ Hwf p0); [lia|done]. Qed.

Lemma grow_next_new : table_next m' q j = Some f.
Proof.
  unfold table_next, m'. rewrite get_set_word. change PTE_V with (Z.lor 0 PTE_V).
  rewrite is_valid_new_V, pte_ppn_new by done. done.
Qed.

Lemma grow_next_f i : table_next m' f i = None.
Proof.
  pose proof grow_q_f. unfold table_next, m'. rewrite get_set_word_ne by congruence.
  by rewrite get_word_cleared.
Qed.

Lemma grow_word_old x i : x ∈ frames pt → (x, i) ≠ (q, j) → get_word m' x i = get_word m x i.
Proof.
  intros Hx Hne. unfold m'. rewrite get_set_word_ne by congruence.
  apply get_word_page, page_of_insert_ne. intros ->. done.
Qed.

Lemma grow_walk p :
  (length p <= 2)%nat →
  walk m' (root_ppn pt) p =
    if decide (p = p0 ++ [j]) then Some f else walk m (root_ppn pt) p.
Proof.
  induction p as [|i p IH] using rev_ind; intros Hp.
  { rewrite decide_False; [done|]. by destruct p0. }
  rewrite length_app in Hp. simpl in Hp. rewrite !walk_snoc, IH by lia.
  destruct (decide (p = p0 ++ [j])) as [->|Hpne].
  - rewrite decide_False by (intros He; apply (f_equal length) in He; rewrite !length_app in He; simpl in He; lia).
    rewrite walk_snoc, Hq. simpl. by rewrite Hnone, grow_next_f.
  - destruct (walk m (root_ppn pt) p) as [x|] eqn:Hx; simpl.
    + assert (x ∈ frames pt) by (apply (wf_reach _ _ Hwf p); [lia|done]).
      destruct (decide (p ++ [i] = p0 ++ [j])) as [[-> [= ->]]%app_inj_tail|Hne].
      * assert (x = q) as -> by congruence. apply grow_next_new.
      * unfold table_next. rewrite grow_word_old; [done..|].
        intros [= -> ->]. apply Hne. f_equal.
        eapply (wf_inj _ _ Hwf); [..|exact Hx|exact Hq]; lia.
    + rewrite decide_False; [done|]. intros [-> _]%app_inj_tail. congruence.
Qed.

Lemma grow_wf : pt_wf m' pt'.
Proof.
  destruct Hwf as [Hr Hi Hrange]. split; simpl.
  - intros p x Hp. rewrite grow_walk by done. unfold vec_push. rewrite elem_of_app.
    case_decide; [intros [= <-]; set_solver|eauto].
  - intros p1 p2 x H1 H2. rewrite !grow_walk by done.
    repeat case_decide; intros E1 E2; [congruence| | |by eauto].
    + destruct Hf. apply (Hr p2); [done|congruence].
    + destruct Hf. apply (Hr p1); [done|congruence].
  - intros x. unfold vec_push. rewrite elem_of_app, list_elem_of_singleton. intros [?| ->]; eauto.
Qed.

Lemma grow_mapping vpn : mapping m' pt' vpn = mapping m pt vpn.
Proof.
  destruct (indexes_3 vpn) as (a & b & c & Hix).
  rewrite !(mapping_walk _ _ _ _ _ _ Hix). simpl root_ppn.
  rewrite grow_walk by (simpl; lia). case_decide as Hd.
  - rewrite Hd, walk_snoc, Hq. cbn [mbind option_bind]. rewrite Hnone.
    pose proof (grow_next_f c) as Hn. unfold table_next in Hn.
    by destruct (is_valid (get_word m' f c)).
  - destruct (walk m (root_ppn pt) [a; b]) as [x|] eqn:Hx; cbn [mbind option_bind]; [|done].
    rewrite grow_word_old; [done| |].
    + apply (wf_reach _ _ Hwf [a; b]); [simpl; lia|done].
    + intros [= -> ->].
      assert ([a; b] = p0) as <- by (eapply (wf_inj _ _ Hwf); [..|exact Hx|exact Hq]; simpl; lia).
      simpl in Hlen. lia.
Qed.

Lemma grow_pages x : x ∉ frames pt' → page_of m' x = page_of m x.
Proof.
  simpl. unfold vec_push. rewrite elem_of_app, list_elem_of_singleton. intros Hx.
  unfold m'. rewrite page_of_set_word_ne, page_of_insert_ne; [done|naive_solver|].
  intros <-. apply Hx. left. apply (wf_reach _ _ Hwf p0); [lia|done].
Qed.
End grow.

(** One iteration of the loop of [find_pte_create]. *)
Lemma wp_descend lo owned s pt p0 q j rest i Q :
  pt_inv lo owned s pt → (length p0 <= 1)%nat → end_ (fa s) <= 2 ^ 44 →
  walk (mem s) (root_ppn pt) p0 = Some q → 0 < nfree (fa s) → i ≠ 2 →
  (∀ owned' s' pt' q', pt_inv lo owned' s' pt' → pt_ext owned s pt owned' s' pt' →
     nfree (fa s) - 1 <= nfree (fa s') →
     (∀ vpn, mapping (mem s') pt' vpn = mapping (mem s) pt vpn) →
     walk (mem s') (root_ppn pt') (p0 ++ [j]) = Some q' →
     wp (find_pte_create_loop pt' rest q') Q s') →
  wp (find_pte_create_loop pt ((i, j) :: rest) q) Q s.
Proof.
  intros Hinv Hlen Hend Hq Hfree Hi HQ. simpl. rewrite (proj2 (Z.eqb_neq i 2)) by done.
  wp_steps. destruct (is_valid (get_word (mem s) q j)) eqn:Hv; cbn [negb].
  - apply (HQ owned s pt); [done|by eapply pt_ext_refl|lia|done|].
    rewrite walk_snoc, Hq. cbn. unfold table_next. by rewrite Hv.
  - assert (table_next (mem s) q j = None) as Hnone by (unfold table_next; by rewrite Hv).
    destruct Hinv as [Hfa Hwf Hown Hnd].
    wp_steps. eapply wp_frame_alloc; [done|done|]. intros f a' Hf Hrange Hfa' Hn He.
    wp_steps. eapply wp_unwrap; [done|]. wp_steps. unfold upd_mem. simpl fa. simpl mem.
    assert (f ∉ frames pt) by (intros ?; by apply Hf, Hown).
    assert (0 <= f < 2 ^ 44) by (destruct Hfa as [? _ _ _]; lia).
    eapply (HQ ({[f]} ∪ owned)).
    + split; simpl; [done|by eapply grow_wf| |].
      * intros x. unfold vec_push. rewrite elem_of_app, list_elem_of_singleton. set_solver.
      * apply NoDup_app. split_and!; [done| |apply NoDup_singleton]. by intros x Hx ->%list_elem_of_singleton.
    + split; simpl.
      * done.
      * intros x. unfold vec_push. set_solver.
      * intros x. unfold vec_push. rewrite elem_of_app, list_elem_of_singleton. set_solver.
      * intros x. unfold vec_push. rewrite elem_of_app, list_elem_of_singleton. set_solver.
      * intros x. by eapply grow_pages.
      * unfold vec_push, lengthZ. rewrite length_app. simpl. lia.
      * done.
    + simpl. lia.
    + intros vpn. by eapply grow_mapping.
    + simpl. change PTE_V with (Z.lor 0 PTE_V). rewrite pte_ppn_new by done.
      rewrite (grow_walk (mem s) pt p0 q j f) by (done || rewrite length_app; simpl; lia).
      by rewrite decide_True.
Qed.

(** [find_pte_create] does not fail when two frames are available, and returns
    the location of the leaf entry. *)
Lemma wp_find_pte_create lo owned s pt vpn a b c Q :
  pt_inv lo owned s pt → end_ (fa s) <= 2 ^ 44 → 2 <= nfree (fa s) → indexes vpn = [a; b; c] →
  (∀ owned' s' pt' q, pt_inv lo owned' s' pt' → pt_ext owned s pt owned' s' pt' →
     nfree (fa s) - 2 <= nfree (fa s') →
     (∀ v, mapping (mem s') pt' v = mapping (mem s) pt v) →
     walk (mem s') (root_ppn pt') [a; b] = Some q →
     Q (Some (q, c), pt') s') →
  wp (find_pte_create pt vpn) Q s.
Proof.
  intros Hinv Hend Hfree Hix HQ. unfold find_pte_create. rewrite Hix. cbn [zip zip_with].
  apply (wp_descend lo owned _ _ [] _ _ _ _ _ Hinv); [simpl; lia|done|done|lia|done|].
  intros o1 s1 pt1 q1 Hinv1 Hext1 Hn1 Hm1 Hq1.
  apply (wp_descend lo o1 _ _ [a] _ _ _ _ _ Hinv1); [simpl; lia| |done|lia|done|].
  { by rewrite (ext_end _ _ _ _ _ _ Hext1). }
  intros o2 s2 pt2 q2 Hinv2 Hext2 Hn2 Hm2 Hq2. simpl. apply wp_ret.
  eapply HQ; [done|by eapply pt_ext_trans|lia| |done].
  intros v. by rewrite Hm2.
Qed.

(** Writing one leaf entry of a table. *)
Lemma pt_leaf_write lo owned s pt a b q c w :
  pt_inv lo owned s pt → walk (mem s) (root_ppn pt) [a; b] = Some q →
  pt_inv lo owned (upd_mem (λ m, set_word m q c w) s) pt ∧
  pt_ext owned s pt owned (upd_mem (λ m, set_word m q c w) s) pt.
Proof.
  intros [Hfa Hwf Hown Hnd] Hq. split.
  - split; [done|by eapply pt_wf_leaf_write|done|done].
  - split; simpl; try done.
    + naive_solver.
    + intros x Hx. apply page_of_set_word_ne. intros <-. apply Hx.
      apply (wf_reach _ _ Hwf [a; b]); [simpl; lia|done].
Qed.

Lemma mapping_None_invalid m pt vpn a b c q :
  indexes vpn = [a; b; c] → walk m (root_ppn pt) [a; b] = Some q →
  mapping m pt vpn = None ↔ is_valid (get_word m q c) = false.
Proof.
  intros Hix Hq. rewrite (mapping_walk _ _ _ _ _ _ Hix), Hq. cbn [mbind option_bind].
  by destruct (is_valid _).
Qed.

Lemma wp_map lo owned s pt vpn ppn flags Q :
  pt_inv lo owned s pt → 2 <= nfree (fa s) →
  0 <= vpn < 2 ^ 27 → 0 <= ppn < 2 ^ 44 → 0 <= flags < 256 →
  mapping (mem s) pt vpn = None →
  (∀ owned' s' pt', pt_inv lo owned' s' pt' → pt_ext owned s pt owned' s' pt' →
     nfree (fa s) - 2 <= nfree (fa s') →
     (∀ v, 0 <= v < 2 ^ 27 → mapping (mem s') pt' v =
        if decide (v = vpn) then Some (ppn, Z.lor flags PTE_V) else mapping (mem s) pt v) →
     Q pt' s') →
  wp (map pt vpn ppn flags) Q s.
Proof.
  intros Hinv Hfree Hvpn Hppn Hfl Hnone HQ. unfold map.
  destruct (indexes_3 vpn) as (a & b & c & Hix).
  assert (end_ (fa s) <= 2 ^ 44) by (destruct Hinv as [[? _ _ _] _ _]; lia).
  wp_steps. eapply wp_find_pte_create; [done..|].
  intros o1 s1 pt1 q Hinv1 Hext1 Hn1 Hm1 Hq1. cbn [fst snd].
  wp_steps. eapply wp_unwrap; [done|]. wp_steps. cbn [fst snd]. apply wp_assert.
  { apply negb_true_iff. apply (mapping_None_invalid (mem s1) pt1 vpn a b); [done..|].
    by rewrite Hm1. }
  wp_steps. destruct (pt_leaf_write lo o1 s1 pt1 a b q c (PTE_new ppn (Z.lor flags PTE_V)) Hinv1 Hq1)
    as [Hinv2 Hext2].
  apply (HQ o1); [done|by eapply pt_ext_trans|done|]. intros v Hv. simpl mem.
  rewrite (mapping_leaf_write _ _ vpn a b) by (done || apply Hinv1).
  rewrite is_valid_new_V, pte_ppn_new, pte_flags_new by (done || by apply lor_V_byte).
  by rewrite Hm1.
Qed.

(** A page next to a mapped one in the same leaf table needs no new table. *)
Lemma find_pte_create_present m a' pt vpn a b c q : indexes vpn = [a; b; c] → walk m (root_ppn pt) [a; b] = Some q →
  find_pte_create pt vpn {| fa := a'; mem := m |} = Ok ((Some (q, c), pt), {| fa := a'; mem := m |}).
Proof.
  intros Hix. unfold find_pte_create. rewrite Hix. cbn [zip zip_with find_pte_create_loop walk].
  unfold table_next, mbind, M_bind, option_bind, get. change (0 =? 2) with false. change (1 =? 2) with false. change (2 =? 2) with true.
  cbn [mem]. destruct (is_valid (get_word m (root_ppn pt) a)) eqn:H1; [|done]. cbn [negb mem].
  destruct (is_valid (get_word m (pte_ppn (get_word m (root_ppn pt) a)) b)) eqn:H2; [|done]. by intros [= <-].
Qed.

Lemma wp_map_near lo owned s pt vpn near e ppn flags Q :
  pt_inv lo owned s pt → mapping (mem s) pt near = Some e → near / 512 = vpn / 512 →
  0 <= vpn < 2 ^ 27 → 0 <= ppn < 2 ^ 44 → 0 <= flags < 256 → mapping (mem s) pt vpn = None →
  (∀ s', pt_inv lo owned s' pt → pt_ext owned s pt owned s' pt → fa s' = fa s →
     (∀ v, 0 <= v < 2 ^ 27 → mapping (mem s') pt v =
        if decide (v = vpn) then Some (ppn, Z.lor flags PTE_V) else mapping (mem s) pt v) →
     Q pt s') →
  wp (map pt vpn ppn flags) Q s.
Proof.
  intros Hinv Hnear Hsame Hvpn Hppn Hfl Hnone HQ. destruct (indexes_3 vpn) as (a & b & c & Hix).
  destruct (indexes_3 near) as (a' & b' & c' & Hix').
  assert (a' = a ∧ b' = b) as [-> ->].
  { rewrite indexes_eq in Hix, Hix'. injection Hix as <- <- _. injection Hix' as <- <- _. revert Hsame. clear. intros. split; zdiv. }
  rewrite (mapping_walk _ _ _ _ _ _ Hix') in Hnear.
  destruct (walk (mem s) (root_ppn pt) [a; b]) as [q|] eqn:Hq; [|done]. clear Hnear.
  unfold map. wp_steps. unfold wp at 1. destruct s as [f m].
  rewrite (find_pte_create_present m f pt vpn a b c q Hix Hq). cbn [fst snd].
  wp_steps. eapply wp_unwrap; [done|]. wp_steps. cbn [fst snd]. apply wp_assert.
  { apply negb_true_iff. by apply (mapping_None_invalid m pt vpn a b). }
  wp_steps. destruct (pt_leaf_write lo owned {| fa := f; mem := m |} pt a b q c (PTE_new ppn (Z.lor flags PTE_V)) Hinv Hq)
    as [Hinv2 Hext2].
  apply HQ; [done|done|done|]. intros v Hv. simpl mem.
  rewrite (mapping_leaf_write _ _ vpn a b) by (done || apply Hinv).
  by rewrite is_valid_new_V, pte_ppn_new, pte_flags_new by (done || by apply lor_V_byte).
Qed.

Lemma wp_unmap lo owned s pt vpn e Q :
  pt_inv lo owned s pt → 0 <= vpn < 2 ^ 27 → mapping (mem s) pt vpn = Some e →
  (∀ s', pt_inv lo owned s' pt → pt_ext owned s pt owned s' pt → fa s' = fa s →
     (∀ v, 0 <= v < 2 ^ 27 → mapping (mem s') pt v =
        if decide (v = vpn) then None else mapping (mem s) pt v) →
     Q tt s') →
  wp (unmap pt vpn) Q s.
Proof.
  intros Hinv Hvpn Hsome HQ. unfold unmap.
  destruct (indexes_3 vpn) as (a & b & c & Hix).
  rewrite (mapping_walk _ _ _ _ _ _ Hix) in Hsome.
  destruct (walk (mem s) (root_ppn pt) [a; b]) as [q|] eqn:Hq; [|done]. cbn [mbind option_bind] in Hsome.
  wp_steps. eapply wp_unwrap.
  { by rewrite (find_pte_walk _ _ _ _ _ _ Hix), Hq. }
  wp_steps. cbn [fst snd]. apply wp_assert; [by destruct (is_valid _)|].
  wp_steps. destruct (pt_leaf_write lo owned s pt a b q c PTE_empty Hinv Hq) as [Hinv2 Hext2].
  apply HQ; [done..|]. intros v Hv. simpl mem.
  by rewrite (mapping_leaf_write _ _ vpn a b) by (done || apply Hinv).
Qed.

(** A new page table maps nothing. *)
Lemma wp_PageTable_new lo owned s Q :
  fa_inv lo (fa s) owned → 0 < nfree (fa s) →
  (∀ p s', p ∉ owned → let pt := {| root_ppn := p; frames := [p] |} in
     pt_inv lo ({[p]} ∪ owned) s' pt → (∀ v, mapping (mem s') pt v = None) →
     (∀ x, x ≠ p → page_of (mem s') x = page_of (mem s) x) →
     nfree (fa s') = nfree (fa s) - 1 → end_ (fa s') = end_ (fa s) → Q pt s') →
  wp PageTable_new Q s.
Proof.
  intros Hfa Hfree HQ. unfold PageTable_new. wp_steps.
  eapply wp_frame_alloc; [done..|]. intros p a' Hp Hr Hfa' Hn He.
  wp_steps. eapply wp_unwrap; [done|]. wp_steps.
  assert (∀ q path, path ≠ [] → walk (<[p := ∅]> (mem s)) p path = Some q → False) as Hnw.
  { intros q [|i path] Hne; [done|]. simpl. by rewrite table_next_cleared. }
  apply HQ; simpl; [done|split; simpl| | |done|done].
  - done.
  - split; simpl.
    + intros [|i path] q _ Hw; [simplify_eq/=; set_solver|exfalso; by eapply Hnw; [|exact Hw]].
    + intros [|i1 p1] [|i2 p2] q _ _ H1 H2; [done|exfalso; by eapply Hnw; [|exact H2]|
        exfalso; by eapply Hnw; [|exact H1]..].
    + intros q ->%list_elem_of_singleton. destruct Hfa as [? _ _ _]. lia.
  - intros q ->%list_elem_of_singleton. set_solver.
  - apply NoDup_singleton.
  - intros v. destruct (indexes_3 v) as (a & b & c & Hix).
    rewrite (mapping_walk _ _ _ _ _ _ Hix). simpl. by rewrite table_next_cleared.
  - intros x Hx. by apply page_of_insert_ne.
Qed.

(** ** Properties *)

(** C21: [PageTable::map] of an unmapped page succeeds when two frames are free:
    afterwards the page translates to the given frame and flags (with [V] set),
    every other page translates as before, the table stays well formed, and the
    only frames written are tables of this page table. *)
Theorem map_correct lo owned s pt vpn ppn flags :
  pt_inv lo owned s pt → 2 <= nfree (fa s) →
  0 <= vpn < 2 ^ 27 → 0 <= ppn < 2 ^ 44 → 0 <= flags < 256 →
  mapping (mem s) pt vpn = None →
  ∃ owned' s' pt', map pt vpn ppn flags s = Ok (pt', s') ∧
    pt_inv lo owned' s' pt' ∧ pt_ext owned s pt owned' s' pt' ∧
    mapping (mem s') pt' vpn = Some (ppn, Z.lor flags PTE_V) ∧
    ∀ v, 0 <= v < 2 ^ 27 → v ≠ vpn → mapping (mem s') pt' v = mapping (mem s) pt v.
Proof.
  intros Hinv Hfree Hv Hp Hf Hn.
  destruct (wp_ok (map pt vpn ppn flags)
    (λ pt' s', ∃ owned', pt_inv lo owned' s' pt' ∧ pt_ext owned s pt owned' s' pt' ∧
      ∀ v, 0 <= v < 2 ^ 27 → mapping (mem s') pt' v =
        if decide (v = vpn) then Some (ppn, Z.lor flags PTE_V) else mapping (mem s) pt v) s)
    as (pt' & s' & Hok & owned' & Hinv' & Hext & Hm).
  { eapply wp_map; eauto. }
  exists owned', s', pt'. split_and!; [done..| |].
  - rewrite Hm by done. by rewrite decide_True.
  - intros v Hr Hne. rewrite Hm by done. by rewrite decide_False.
Qed.

(** [PageTable::unmap] of a mapped page succeeds and removes exactly that
    mapping: mapping it again and unmapping it are inverse on the translation. *)
Theorem unmap_correct lo owned s pt vpn e :
  pt_inv lo owned s pt → 0 <= vpn < 2 ^ 27 → mapping (mem s) pt vpn = Some e →
  ∃ s', unmap pt vpn s = Ok (tt, s') ∧ pt_inv lo owned s' pt ∧ fa s' = fa s ∧
    mapping (mem s') pt vpn = None ∧
    ∀ v, 0 <= v < 2 ^ 27 → v ≠ vpn → mapping (mem s') pt v = mapping (mem s) pt v.
Proof.
  intros Hinv Hv He.
  destruct (wp_ok (unmap pt vpn)
    (λ _ s', pt_inv lo owned s' pt ∧ fa s' = fa s ∧
      ∀ v, 0 <= v < 2 ^ 27 → mapping (mem s') pt v =
        if decide (v = vpn) then None else mapping (mem s) pt v) s)
    as ([] & s' & Hok & Hinv' & Hfa & Hm).
  { eapply wp_unmap; eauto. }
  exists s'. split_and!; [done..| |].
  - rewrite Hm by done. by rewrite decide_True.
  - intros v Hr Hne. rewrite Hm by done. by rewrite decide_False.
Qed.

(** The guards of [map] and [unmap]: mapping a page that is already mapped
    and unmapping one that is not both panic, and leave no new state behind. *)
Theorem map_unmap_guards lo owned s pt vpn ppn flags :
  pt_inv lo owned s pt → 2 <= nfree (fa s) → 0 <= vpn < 2 ^ 27 →
  (mapping (mem s) pt vpn ≠ None → map pt vpn ppn flags s = Panic PAssert) ∧
  (mapping (mem s) pt vpn = None → ∃ e, unmap pt vpn s = Panic e).
Proof.
  intros Hinv Hfree Hv. destruct (indexes_3 vpn) as (a & b & c & Hix). split.
  - intros Hm. rewrite (mapping_walk _ _ _ _ _ _ Hix) in Hm.
    unfold map, find_pte_create, mbind, M_bind. rewrite Hix. simpl. simpl in Hm.
    unfold table_next in Hm. unfold mbind, M_bind, get.
    destruct (is_valid (get_word (mem s) (root_ppn pt) a)) eqn:H1; simpl in *; [|done].
    destruct (is_valid (get_word (mem s) (pte_ppn (get_word (mem s) (root_ppn pt) a)) b)) eqn:H2;
      simpl in *; [|done].
    destruct (is_valid (get_word (mem s) _ c)) eqn:H3; by simpl in *.
  - intros Hm. rewrite (mapping_walk _ _ _ _ _ _ Hix) in Hm.
    unfold unmap, mbind, M_bind, get. simpl. rewrite (find_pte_walk _ _ _ _ _ _ Hix).
    destruct (walk (mem s) (root_ppn pt) [a; b]) as [q|]; simpl; [|by eexists].
    cbn in Hm. destruct (is_valid (get_word (mem s) q c)); [done|by eexists].
Qed.

(** A concrete system for the witnesses: one fresh page table. *)
Definition demo_mm0 : MM := {| fa := init StackFrameAllocator_new 0x80500 0x80800; mem := ∅ |}.
Definition demo_mm : MM :=
  {| fa := {| current := 0x80501; end_ := 0x80800; recycled := [] |}; mem := {[0x80500 := ∅]} |}.
Definition demo_pt : PageTable := {| root_ppn := 0x80500; frames := [0x80500] |}.

Lemma demo_new : PageTable_new demo_mm0 = Ok (demo_pt, demo_mm).
Proof. reflexivity. Qed.

Lemma demo_inv :
  pt_inv 0x80500 {[0x80500]} demo_mm demo_pt ∧ ∀ v, mapping (mem demo_mm) demo_pt v = None.
Proof.
  pose (Q := λ pt s, pt_inv 0x80500 ({[root_ppn pt]} ∪ ∅) s pt ∧ ∀ v, mapping (mem s) pt v = None).
  assert (wp PageTable_new Q demo_mm0) as H.
  { eapply (wp_PageTable_new 0x80500 ∅); [apply init_fa_inv; lia|done|]. unfold Q. naive_solver. }
  unfold wp in H. rewrite demo_new in H. unfold Q in H. simpl in H.
  by rewrite (right_id_L ∅ (∪)) in H.
Qed.

Lemma map_correct_witness :
  ∃ s' pt', map demo_pt 0x10 0x80600 (Z.lor PTE_R PTE_U) demo_mm = Ok (pt', s') ∧
    mapping (mem s') pt' 0x10 = Some (0x80600, 19).
Proof.
  destruct (map_correct 0x80500 {[0x80500]} demo_mm demo_pt 0x10 0x80600 (Z.lor PTE_R PTE_U))
    as (o & s' & pt' & Hok & _ & _ & Hm & _);
    [apply demo_inv|done|lia|lia|done|apply demo_inv|].
  exists s', pt'. split; [exact Hok|exact Hm].
Defined.

Lemma demo_mapped : ∃ o s1 pt1,
  map demo_pt 0x10 0x80600 PTE_R demo_mm = Ok (pt1, s1) ∧ pt_inv 0x80500 o s1 pt1 ∧
  mapping (mem s1) pt1 0x10 = Some (0x80600, Z.lor PTE_R PTE_V).
Proof.
  destruct (wp_ok (map demo_pt 0x10 0x80600 PTE_R) (λ pt1 s1, ∃ o, pt_inv 0x80500 o s1 pt1 ∧
    mapping (mem s1) pt1 0x10 = Some (0x80600, Z.lor PTE_R PTE_V)) demo_mm)
    as (pt1 & s1 & ? & o & ? & ?); [|eauto 10].
  eapply wp_map; [apply demo_inv|done|lia|lia|done|apply demo_inv|].
  intros o s' pt' Hinv _ _ Hm. exists o. split; [done|]. by rewrite Hm by lia.
Qed.

Lemma unmap_correct_witness :
  ∃ s1 pt1 s2, map demo_pt 0x10 0x80600 PTE_R demo_mm = Ok (pt1, s1) ∧
    unmap pt1 0x10 s1 = Ok (tt, s2) ∧ mapping (mem s2) pt1 0x10 = None.
Proof.
  destruct demo_mapped as (o & s1 & pt1 & Hok & Hinv & Hm).
  destruct (unmap_correct _ _ _ _ 0x10 _ Hinv ltac:(lia) Hm) as (s2 & Hs2 & _ & _ & Hn & _).
  exists s1, pt1, s2. split_and!; [exact Hok|exact Hs2|exact Hn].
Defined.

Lemma map_unmap_guards_witness : ∃ e, unmap demo_pt 0x10 demo_mm = Panic e.
Proof.
  destruct (map_unmap_guards 0x80500 {[0x80500]} demo_mm demo_pt 0x10 0 0) as [_ H];
    [apply demo_inv|done|lia|].
  apply H, demo_inv.
Defined.
