(* ===== verification/UserBuffer.v ===== *)
(** * Access to user memory

    [os/src/mm/page_table.rs], lines 140-249: the kernel reads and writes the
    memory of a process by translating its addresses in software.  A
    [&'static mut [u8]] into a frame is the frame and the range of byte
    offsets; a [*mut u8] is a frame and an offset. *)

From S2P Require Import Prelude Address FrameAllocator PageTable.

Record slice := { sl_ppn : Z; sl_lo : Z; sl_hi : Z }.

(** [&mut ppn.get_bytes_array()[lo..hi]], with the bounds checks of slicing. *)
Definition bytes_slice (ppn lo hi : Z) : result slice :=
  if (lo <=? hi) && (hi <=? 4096) then Ok {| sl_ppn := ppn; sl_lo := lo; sl_hi := hi |}
  else Panic PIndex.
Definition slice_len (s : slice) : Z := sl_hi s - sl_lo s.

(** The loop of [translated_byte_buffer]; [None] when [fuel] iterations did not
    reach [end]. *)
Fixpoint translated_byte_buffer_loop (fuel : nat) (m : gmap Z page) (pt : PageTable)
    (start end_ : Z) (v : list slice) : option (result (list slice)) :=
  match fuel with
  | O => None
  | S fuel =>
      if negb (start <? end_) then Some (Ok v)
      else
        let start_va := VirtAddr_from start in
        let vpn := floor start_va in
        match translate m pt vpn with
        | None => Some (Panic PUnwrap)
        | Some pte =>
            let ppn := pte_ppn pte in
            let end_va := Z.min (Addr_from_PageNum (step vpn)) (VirtAddr_from end_) in
            match
              if page_offset end_va =? 0 then bytes_slice ppn (page_offset start_va) 4096
              else bytes_slice ppn (page_offset start_va) (page_offset end_va)
            with
            | Panic e => Some (Panic e)
            | Ok sl => translated_byte_buffer_loop fuel m pt end_va end_ (vec_push v sl)
            end
        end
  end.

(** One iteration per page of the buffer, and the final test of the guard. *)
Definition translated_byte_buffer (m : gmap Z page) (tok ptr len : Z) :
    option (result (list slice)) :=
  translated_byte_buffer_loop (Z.to_nat (len / PAGE_SIZE) + 3) m (from_token tok)
    ptr (wrap64 (ptr + len)) [].

(** [translated_str]: the characters up to the first zero byte; a byte [b] is
    pushed as the character with code [b]. *)
Fixpoint translated_str_loop (fuel : nat) (m : gmap Z page) (pt : PageTable)
    (va : Z) (string : list Z) : option (result (list Z)) :=
  match fuel with
  | O => None
  | S fuel =>
      match translate_va m pt (VirtAddr_from va) with
      | None => Some (Panic PUnwrap)
      | Some pa =>
          let ch := get_byte m (floor pa) (page_offset pa) in
          if ch =? 0 then Some (Ok string)
          else translated_str_loop fuel m pt (wrap64 (va + 1)) (vec_push string ch)
      end
  end.
Definition translated_str (fuel : nat) (m : gmap Z page) (tok ptr : Z) : option (result (list Z)) :=
  translated_str_loop fuel m (from_token tok) ptr [].

(** [translated_ref] and [translated_refmut]: the physical address of the
    referenced object. *)
Definition translated_ref (m : gmap Z page) (tok ptr : Z) : result Z :=
  match translate_va m (from_token tok) (VirtAddr_from ptr) with
  | Some pa => Ok pa
  | None => Panic PUnwrap
  end.
Definition translated_refmut (m : gmap Z page) (tok ptr : Z) : result Z :=
  match translate_va m (from_token tok) (VirtAddr_from ptr) with
  | Some pa => Ok pa
  | None => Panic PUnwrap
  end.

(** ** [UserBuffer] and its iterator *)

Record UserBuffer := { buffers : list slice }.

Fixpoint UserBuffer_len_loop (bs : list slice) (total : Z) : Z :=
  match bs with
  | [] => total
  | b :: bs' => UserBuffer_len_loop bs' (wrap64 (total + slice_len b))
  end.
Definition UserBuffer_len (ub : UserBuffer) : Z := UserBuffer_len_loop (buffers ub) 0.

Record UserBufferIterator := {
  ubi_buffers : list slice;
  current_buffer : Z;
  current_idx : Z
}.

Definition UserBuffer_into_iter (ub : UserBuffer) : UserBufferIterator :=
  {| ubi_buffers := buffers ub; current_buffer := 0; current_idx := 0 |}.

(** [next]: indexing [buffers[b][i]] panics when [i] is out of range. *)
Definition UserBufferIterator_next (it : UserBufferIterator) :
    result (option (Z * Z) * UserBufferIterator) :=
  match lookupZ (ubi_buffers it) (current_buffer it) with
  | None => Ok (None, it)
  | Some b =>
      if current_idx it <? slice_len b then
        let r := (sl_ppn b, sl_lo b + current_idx it) in
        if wrap64 (current_idx it + 1) =? slice_len b
        then Ok (Some r, {| ubi_buffers := ubi_buffers it;
                            current_buffer := wrap64 (current_buffer it + 1); current_idx := 0 |})
        else Ok (Some r, {| ubi_buffers := ubi_buffers it;
                            current_buffer := current_buffer it;
                            current_idx := wrap64 (current_idx it + 1) |})
      else Panic PIndex
  end.

(** Everything the iterator yields, or [None] out of fuel. *)
Fixpoint ubi_drain (fuel : nat) (it : UserBufferIterator) : option (result (list (Z * Z))) :=
  match fuel with
  | O => None
  | S fuel =>
      match UserBufferIterator_next it with
      | Panic e => Some (Panic e)
      | Ok (None, _) => Some (Ok [])
      | Ok (Some r, it') =>
          match ubi_drain fuel it' with
          | Some (Ok rs) => Some (Ok (r :: rs))
          | other => other
          end
      end
  end.

(** ** Specification

    The byte locations of a slice, and the location a user address denotes. *)

Definition slice_locs (s : slice) : list (Z * Z) :=
  (λ k, (sl_ppn s, k)) <$> seqZ (sl_lo s) (slice_len s).
Definition locs (ss : list slice) : list (Z * Z) := ss ≫= slice_locs.

Lemma locs_cons s ss : locs (s :: ss) = slice_locs s ++ locs ss.
Proof. done. Qed.
Lemma length_slice_locs s : length (slice_locs s) = Z.to_nat (slice_len s).
Proof. unfold slice_locs. by rewrite length_fmap, length_seqZ. Qed.

Definition user_loc (m : gmap Z page) (pt : PageTable) (va : Z) : Z * Z :=
  (pte_ppn (default 0 (translate m pt (floor va))), page_offset va).

Lemma user_loc_page m pt start n pte :
  translate m pt (floor start) = Some pte → 0 <= n →
  page_offset start + n <= PAGE_SIZE →
  user_loc m pt <$> seqZ start n =
  slice_locs {| sl_ppn := pte_ppn pte; sl_lo := page_offset start; sl_hi := page_offset start + n |}.
Proof.
  intros Ht Hn Hle. unfold slice_locs, slice_len. simpl.
  replace (page_offset start + n - page_offset start) with n by lia.
  apply list_eq. intros i. rewrite !list_lookup_fmap.
  destruct (decide (Z.of_nat i < n)).
  - rewrite !lookup_seqZ_lt by lia. simpl. f_equal. unfold user_loc.
    pose proof (floor_page_offset start) as Hs. pose proof (page_offset_range start).
    unfold PAGE_SIZE in *.
    assert (floor (start + Z.of_nat i) = floor start) as -> by (unfold floor, PAGE_SIZE in *; zdiv).
    rewrite Ht. simpl. f_equal. rewrite !page_offset_mod in *. zdiv.
  - by rewrite !lookup_seqZ_ge by lia.
Qed.

Section translate_buffer.
Context (m : gmap Z page) (pt : PageTable) (end_ : Z).
Context (Hend : 0 <= end_ < 2 ^ 39).

Lemma translated_byte_buffer_loop_ok fuel start v :
  0 <= start → (∀ va, start <= va < end_ → translate m pt (floor va) ≠ None) →
  (start < end_ → end_ - floor start * PAGE_SIZE <= PAGE_SIZE * (Z.of_nat fuel - 1)) → (0 < fuel)%nat →
  ∃ ss, translated_byte_buffer_loop fuel m pt start end_ v = Some (Ok (v ++ ss)) ∧
    locs ss = user_loc m pt <$> seqZ start (end_ - start) ∧
    Forall (λ s, sl_lo s < sl_hi s) ss.
Proof.
  revert start v. induction fuel as [|fuel IH]; intros start v Hs Htr Hf Hpos; [lia|].
  simpl. destruct (Z.ltb_spec start end_) as [Hlt|Hge]; cbn [negb].
  2: { exists []. rewrite app_nil_r, seqZ_nil by lia. done. }
  rewrite !VirtAddr_from_mod, !(Z.mod_small _ (2 ^ 39)) by lia.
  destruct (translate m pt (floor start)) as [pte|] eqn:Ht; [|exfalso; by apply (Htr start)].
  pose proof (floor_page_offset start) as Hfs. pose proof (page_offset_range start) as Hpo.
  assert (0 <= floor start < 2 ^ 27) as Hfl by (unfold floor, PAGE_SIZE in *; zdiv).
  unfold step. rewrite (wrap_small _ (floor start + 1)) by lia.
  rewrite Addr_from_PageNum_small by lia.
  set (ev := Z.min ((floor start + 1) * PAGE_SIZE) end_) in *.
  assert (start < ev) by (unfold PAGE_SIZE in *; lia).
  assert (ev - start + page_offset start <= PAGE_SIZE) by (unfold PAGE_SIZE in *; lia).
  assert ((if page_offset ev =? 0 then bytes_slice (pte_ppn pte) (page_offset start) 4096
           else bytes_slice (pte_ppn pte) (page_offset start) (page_offset ev)) =
    Ok {| sl_ppn := pte_ppn pte; sl_lo := page_offset start;
          sl_hi := page_offset start + (ev - start) |}) as ->.
  { assert (if page_offset ev =? 0 then page_offset start + (ev - start) = 4096
            else page_offset ev = page_offset start + (ev - start)) as He.
    { rewrite !page_offset_mod in *. unfold floor, PAGE_SIZE in *.
      destruct (Z.eqb_spec (ev mod 4096) 0); zdiv. }
    unfold bytes_slice. destruct (Z.eqb_spec (page_offset ev) 0).
    - rewrite !(proj2 (Z.leb_le _ _)) by lia. simpl. by rewrite He.
    - rewrite He. rewrite !(proj2 (Z.leb_le _ _)) by (unfold PAGE_SIZE in *; lia). done. }
  destruct (IH ev (vec_push v {| sl_ppn := pte_ppn pte; sl_lo := page_offset start;
          sl_hi := page_offset start + (ev - start) |})) as (ss & Hss & Hlocs & Hne).
  - lia.
  - intros va Hva. apply Htr. lia.
  - intros Hev. assert (floor ev = floor start + 1) as ->; [|lia].
    assert (ev = (floor start + 1) * PAGE_SIZE) as -> by lia. unfold floor, PAGE_SIZE. zdiv.
  - specialize (Hf Hlt). unfold PAGE_SIZE in *. lia.
  - eexists (_ :: ss). split_and!.
    + rewrite Hss. unfold vec_push. by rewrite <- app_assoc.
    + rewrite locs_cons, Hlocs.
      rewrite <- (user_loc_page m pt start (ev - start) pte) by (done || lia).
      rewrite <- fmap_app. f_equal.
      replace (end_ - start) with ((ev - start) + (end_ - ev)) by lia.
      rewrite seqZ_app by lia. do 2 f_equal; lia.
    + constructor; [simpl; lia|done].
Qed.
End translate_buffer.

(** ** The iterator *)

Lemma ubi_drain_loop (bs pre : list slice) (k : Z) (fuel : nat) :
  Forall (λ s, sl_lo s < sl_hi s) bs → Forall (λ s, slice_len s < 2 ^ 64) bs →
  lengthZ (pre ++ bs) < 2 ^ 64 → 0 <= k →
  match bs with [] => k = 0 | b :: _ => k < slice_len b end →
  (length (locs bs) < fuel + Z.to_nat k)%nat →
  ubi_drain fuel {| ubi_buffers := pre ++ bs; current_buffer := lengthZ pre; current_idx := k |}
    = Some (Ok (drop (Z.to_nat k) (locs bs))).
Proof.
  revert bs pre k. induction fuel as [|fuel IH]; intros bs pre k Hne Hlen Hpb Hk0 Hk Hf.
  { exfalso. destruct bs as [|b bs]; [simpl in *; lia|]. rewrite locs_cons, length_app, length_slice_locs in Hf. lia. }
  simpl. unfold UserBufferIterator_next. cbn [ubi_buffers current_buffer current_idx].
  unfold lookupZ, lengthZ in *. rewrite (proj2 (Z.leb_le 0 _)) by lia. rewrite Nat2Z.id.
  rewrite lookup_app_r, Nat.sub_diag by lia.
  destruct bs as [|b bs]; [by destruct (Z.to_nat k)|]. cbn [lookup list_lookup].
  apply Forall_cons in Hne as [Hb Hne]. apply Forall_cons in Hlen as [Hlb Hlen].
  rewrite (proj2 (Z.ltb_lt _ _)) by done. rewrite (wrap_small _ (k + 1)) by (unfold slice_len in *; lia).
  rewrite length_app in Hpb. simpl in Hpb. rewrite locs_cons, length_app, length_slice_locs in Hf.
  rewrite locs_cons.
  assert (slice_locs b !! Z.to_nat k = Some (sl_ppn b, sl_lo b + k)) as Hlk.
  { unfold slice_locs. rewrite list_lookup_fmap, lookup_seqZ_lt by lia. simpl. do 2 f_equal. lia. }
  assert (drop (Z.to_nat k) (slice_locs b ++ locs bs) = (sl_ppn b, sl_lo b + k) ::
    drop (Z.to_nat (k + 1)) (slice_locs b ++ locs bs)) as Hdrop.
  { rewrite (drop_S _ (sl_ppn b, sl_lo b + k)); [do 2 f_equal; lia|].
    rewrite lookup_app_l; [done|]. by eapply lookup_lt_Some. }
  destruct (Z.eqb_spec (k + 1) (slice_len b)) as [He|He].
  - rewrite wrap_small by lia. replace (Z.of_nat (length pre) + 1) with (lengthZ (pre ++ [b]))
      by (unfold lengthZ; rewrite length_app; simpl; lia).
    replace (pre ++ b :: bs) with ((pre ++ [b]) ++ bs) by by rewrite <- app_assoc.
    rewrite IH; [|done|done| |lia| |].
    + rewrite Hdrop. rewrite drop_0, drop_app_ge, length_slice_locs by (rewrite length_slice_locs; lia).
      by replace (Z.to_nat (k + 1) - Z.to_nat (slice_len b))%nat with 0%nat by lia.
    + unfold lengthZ. rewrite !length_app. simpl. lia.
    + destruct bs as [|b' bs]; [done|]. apply Forall_cons in Hne as [? _]. unfold slice_len. lia.
    + lia.
  - change (pre ++ b :: bs) with (pre ++ (b :: bs)).
    change (Z.of_nat (length pre)) with (lengthZ pre).
    rewrite IH; [|by constructor|by constructor| |lia|lia|].
    + by rewrite Hdrop.
    + unfold lengthZ. rewrite length_app. simpl. lia.
    + rewrite locs_cons, length_app, length_slice_locs. lia.
Qed.

(** ** Translation of single addresses *)

Lemma from_token_root pt :
  0 <= root_ppn pt < 2 ^ 44 → root_ppn (from_token (token pt)) = root_ppn pt.
Proof.
  intros. unfold from_token, token. simpl root_ppn.
  change (wrap64 (Z.shiftl 8 60)) with (Z.shiftl 1 63).
  change (Z.shiftl 1 44 - 1) with (2 ^ 44 - 1).
  rewrite lor_shiftl_add, land_mask, PhysPageNum_from_mod by lia.
  rewrite Z.mod_mod by lia. rewrite (Z.add_comm (1 * 2 ^ 63)).
  replace (1 * 2 ^ 63) with (2 ^ 19 * 2 ^ 44) by lia. rewrite Z.mod_add by lia.
  by apply Z.mod_small.
Qed.

Lemma translate_root m pt pt' vpn :
  root_ppn pt' = root_ppn pt → translate m pt' vpn = translate m pt vpn.
Proof. intros H. unfold translate, find_pte. by rewrite H. Qed.

Lemma translate_va_range m pt' va pa : translate_va m pt' va = Some pa → 0 <= pa < 2 ^ 56.
Proof.
  unfold translate_va. destruct (find_pte _ _ _); [|done]. intros [= <-]. rewrite PhysAddr_from_mod.
  apply Z.mod_pos_bound. lia.
Qed.

Lemma translate_va_loc m pt va pte :
  translate m pt (floor va) = Some pte →
  ∃ pa, translate_va m pt va = Some pa ∧ floor pa = pte_ppn pte ∧ page_offset pa = page_offset va.
Proof.
  unfold translate, translate_va. destruct (find_pte m pt (floor va)) as [loc|]; simpl; [|done].
  intros [= <-]. eexists. split; [done|].
  assert (0 <= pte_ppn (get_word m (fst loc) (snd loc)) < 2 ^ 44) as Hp
    by (rewrite pte_ppn_eq; apply Z.mod_pos_bound; lia).
  revert Hp. generalize (pte_ppn (get_word m (fst loc) (snd loc))). intros ppn Hp.
  pose proof (page_offset_range va). rewrite Addr_from_PageNum_small by lia.
  unfold PAGE_SIZE in *. rewrite wrap_small, PhysAddr_from_mod, Z.mod_small by lia.
  rewrite !page_offset_mod in *. unfold floor, PAGE_SIZE. zdiv.
Qed.

Lemma translated_str_loop_ok m pt (bs : list Z) : ∀ va fuel acc,
  0 <= va → va + lengthZ bs < 2 ^ 39 → (length bs < fuel)%nat →
  (∀ i, 0 <= i <= lengthZ bs → translate m pt (floor (va + i)) ≠ None) →
  (∀ i b, lookupZ (bs ++ [0]) i = Some b →
     let loc := user_loc m pt (va + i) in get_byte m (fst loc) (snd loc) = b) →
  Forall (λ b, b ≠ 0) bs →
  translated_str_loop fuel m pt va acc = Some (Ok (acc ++ bs)).
Proof.
  unfold lengthZ. induction bs as [|b bs IH]; intros va fuel acc Hva Hend Hf Htr Hb Hnz;
    (destruct fuel as [|fuel]; [simpl in Hf; lia|]); simpl length in *; simpl translated_str_loop.
  all: rewrite VirtAddr_from_mod, Z.mod_small by lia.
  all: destruct (translate m pt (floor va)) as [pte|] eqn:Ht;
    [|exfalso; apply (Htr 0); [lia|by rewrite Z.add_0_r]].
  all: destruct (translate_va_loc _ _ _ _ Ht) as (pa & -> & -> & ->).
  all: pose proof (Hb 0 _ eq_refl) as Hb0; rewrite Z.add_0_r in Hb0; unfold user_loc in Hb0;
    rewrite Ht in Hb0; simpl in Hb0; rewrite Hb0.
  - by rewrite app_nil_r.
  - apply Forall_cons in Hnz as [Hnz0 Hnz]. rewrite (proj2 (Z.eqb_neq b 0)) by done.
    rewrite wrap_small by lia. rewrite IH; [|lia|lia|lia| | |done].
    + unfold vec_push. by rewrite <- app_assoc.
    + intros i Hi. replace (va + 1 + i) with (va + (i + 1)) by lia. apply Htr. lia.
    + intros i c Hc. replace (va + 1 + i) with (va + (i + 1)) by lia. apply Hb.
      unfold lookupZ in *. destruct (Z.leb_spec 0 i); [|done].
      rewrite (proj2 (Z.leb_le 0 (i + 1))) by lia.
      by replace (Z.to_nat (i + 1)) with (S (Z.to_nat i)) by lia.
Qed.

(** ** Properties *)

Lemma UserBuffer_len_locs ss total :
  Forall (λ s, sl_lo s < sl_hi s) ss → 0 <= total → total + lengthZ (locs ss) < 2 ^ 64 →
  UserBuffer_len_loop ss total = total + lengthZ (locs ss).
Proof.
  unfold lengthZ. revert total. induction ss as [|s ss IH]; intros total Hne Ht Hb; simpl; [lia|].
  apply Forall_cons in Hne as [Hs Hne]. rewrite locs_cons, length_app, length_slice_locs in *.
  unfold slice_len in *. rewrite wrap_small by lia. rewrite IH by (done || lia). lia.
Qed.

Lemma slices_bounded ss : Forall (λ s, sl_lo s < sl_hi s) ss →
  (length ss <= length (locs ss))%nat ∧ ∀ s, s ∈ ss → slice_len s <= lengthZ (locs ss).
Proof.
  unfold lengthZ. induction 1 as [|s ss Hs _ [IH1 IH2]]; [by split; [|intros ? ?%elem_of_nil]|].
  rewrite locs_cons, length_app, length_slice_locs. unfold slice_len in *. split; [simpl; lia|].
  intros s' [->|Hin]%elem_of_cons; [lia|]. specialize (IH2 _ Hin). lia.
Qed.

(** ** Bytes in user buffers *)

Abbreviation loc := (Z * Z)%type.

Definition loc_byte (m : gmap Z page) (l : loc) : Z := get_byte m l.1 l.2.

(** The bytes [bs] stored at the locations [ls], in order. *)
Fixpoint store_all (m : gmap Z page) (ls : list loc) (bs : list Z) : gmap Z page :=
  match ls, bs with
  | l :: ls', b :: bs' => store_all (set_byte m l.1 l.2 b) ls' bs'
  | _, _ => m
  end.

Definition locs_ok (ls : list loc) : Prop := Forall (λ l : loc, 0 <= l.2) ls.
Definition bytes_ok (bs : list Z) : Prop := Forall (λ b, 0 <= b < 256) bs.

Lemma loc_byte_range m l : 0 <= loc_byte m l < 256.
Proof.
  unfold loc_byte, get_byte, page_byte, byte_of_word. change 255 with (Z.ones 8).
  rewrite Z.land_ones by lia. apply Z.mod_pos_bound. lia.
Qed.

Lemma loc_byte_set m (l l' : loc) b : 0 <= l.2 → 0 <= l'.2 → 0 <= b < 256 →
  loc_byte (set_byte m l.1 l.2 b) l' = if decide (l = l') then b else loc_byte m l'.
Proof.
  destruct l as [p k], l' as [p' k']. cbn [fst snd]. intros Hk Hk' Hb.
  unfold loc_byte, get_byte, set_byte. cbn [fst snd].
  destruct (decide (p = p')) as [<-|Hp].
  - rewrite page_of_insert, page_byte_set by done. 
    destruct (decide (k = k')) as [<-|?]; [by rewrite decide_True|].
    rewrite decide_False by congruence. done.
  - rewrite page_of_insert_ne, decide_False by congruence. done.
Qed.

Lemma store_all_other m ls bs l :
  locs_ok ls → bytes_ok bs → 0 <= l.2 → l ∉ ls → loc_byte (store_all m ls bs) l = loc_byte m l.
Proof.
  intros Hls. revert m bs. induction Hls as [|x ls Hx Hls IH]; intros m bs Hbs Hl Hni; [done|].
  apply not_elem_of_cons in Hni as [Hne Hni]. destruct Hbs as [|b bs Hb Hbs]; [done|]. simpl.
  rewrite IH by done. rewrite loc_byte_set by done. by rewrite decide_False.
Qed.

Lemma store_all_bytes m ls bs i l b :
  locs_ok ls → bytes_ok bs → NoDup ls → ls !! i = Some l → bs !! i = Some b →
  loc_byte (store_all m ls bs) l = b.
Proof.
  intros Hls. revert m bs i. induction Hls as [|x ls Hx Hls IH]; intros m bs i Hbs Hnd Hl Hb; [done|].
  apply NoDup_cons in Hnd as [Hni Hnd]. destruct Hbs as [|c bs Hc Hbs]; [done|]. simpl.
  destruct i as [|i]; simpl in Hl, Hb.
  - simplify_eq. rewrite store_all_other by done. by rewrite loc_byte_set, decide_True.
  - eauto.
Qed.

Lemma store_all_app m ls1 ls2 bs1 bs2 : length ls1 = length bs1 →
  store_all m (ls1 ++ ls2) (bs1 ++ bs2) = store_all (store_all m ls1 bs1) ls2 bs2.
Proof.
  revert m bs1. induction ls1 as [|l ls1 IH]; intros m [|b bs1] Hlen; simplify_eq/=; [done|]. by apply IH.
Qed.

Record buffer_ok (b : UserBuffer) : Prop := {
  bo_slices : Forall (λ s, 0 <= sl_lo s < sl_hi s) (buffers b);
  bo_len : lengthZ (locs (buffers b)) < 2 ^ 64
}.

Lemma buffer_locs_ok b : buffer_ok b → locs_ok (locs (buffers b)).
Proof.
  intros [Hs _]. apply Forall_forall. intros l Hl. unfold locs in Hl.
  apply list_elem_of_bind in Hl as (s & Hl & Hin). eapply Forall_forall in Hs; [|done].
  unfold slice_locs in Hl. apply list_elem_of_fmap in Hl as (k & -> & Hk%elem_of_seqZ). simpl in *. lia.
Qed.

(** For a buffer that lies in mapped user memory below 2^39,
    [translated_byte_buffer] terminates and returns slices whose bytes are, in
    order, the physical locations of the user addresses [ptr .. ptr+len]: iterating
    the [UserBuffer] over them visits exactly those locations, and [len()] is
    [len]. *)
Theorem translated_byte_buffer_correct m pt ptr len :
  0 <= root_ppn pt < 2 ^ 44 → 0 <= ptr → 0 <= len → ptr + len < 2 ^ 39 →
  (∀ va, ptr <= va < ptr + len → translate m pt (floor va) ≠ None) →
  ∃ ss, translated_byte_buffer m (token pt) ptr len = Some (Ok ss) ∧
    ubi_drain (S (Z.to_nat len)) (UserBuffer_into_iter {| buffers := ss |}) =
      Some (Ok (user_loc m pt <$> seqZ ptr len)) ∧
    UserBuffer_len {| buffers := ss |} = len.
Proof.
  intros Hroot Hptr Hlen Hend Htr. unfold translated_byte_buffer.
  rewrite wrap_small by lia. set (pt' := from_token (token pt)).
  assert (∀ v, translate m pt' v = translate m pt v) as Ht'
    by (intros; by apply translate_root, from_token_root).
  destruct (translated_byte_buffer_loop_ok m pt' (ptr + len) ltac:(lia)
    (Z.to_nat (len / PAGE_SIZE) + 3) ptr []) as (ss & Hss & Hlocs & Hne).
  { done. }
  { intros va Hva. rewrite Ht'. by apply Htr. }
  { intros _. pose proof (floor_page_offset ptr). pose proof (page_offset_range ptr).
    unfold PAGE_SIZE in *. zdiv. }
  { lia. }
  assert (locs ss = user_loc m pt <$> seqZ ptr len) as Hl.
  { rewrite Hlocs. replace (ptr + len - ptr) with len by lia.
    apply list_fmap_ext. intros i va _. unfold user_loc. by rewrite Ht'. }
  assert (lengthZ (locs ss) = len) as Hll
    by (unfold lengthZ; rewrite Hl, length_fmap, length_seqZ; lia).
  destruct (slices_bounded ss Hne) as [Hb1 Hb2].
  exists ss. split_and!; [done| |].
  - pose proof (ubi_drain_loop ss [] 0 (S (Z.to_nat len)) Hne) as Hd.
    rewrite drop_0, Hl in Hd. apply Hd.
    + apply Forall_forall. intros s Hs. specialize (Hb2 _ Hs). lia.
    + unfold lengthZ in *. simpl. lia.
    + done.
    + destruct ss as [|s ss']; [done|]. apply Forall_cons in Hne as [? _]. unfold slice_len. lia.
    + rewrite <- Hl. unfold lengthZ in *. lia.
  - unfold UserBuffer_len. simpl. rewrite UserBuffer_len_locs by (done || lia). lia.
Qed.

(** [translated_str] returns exactly the bytes before the first zero byte of
    a user string, however the string is spread over pages, and needs one
    iteration per byte and one for the terminator. *)
Theorem translated_str_correct m pt ptr bs fuel :
  0 <= root_ppn pt < 2 ^ 44 → 0 <= ptr → ptr + lengthZ bs < 2 ^ 39 → (length bs < fuel)%nat →
  (∀ i, 0 <= i <= lengthZ bs → translate m pt (floor (ptr + i)) ≠ None) →
  (∀ i b, lookupZ (bs ++ [0]) i = Some b →
     let loc := user_loc m pt (ptr + i) in get_byte m (fst loc) (snd loc) = b) →
  Forall (λ b, b ≠ 0) bs →
  translated_str fuel m (token pt) ptr = Some (Ok bs).
Proof.
  intros Hroot Hptr Hend Hf Htr Hb Hnz. unfold translated_str.
  assert (∀ v, translate m (from_token (token pt)) v = translate m pt v) as Ht'
    by (intros; by apply translate_root, from_token_root).
  apply (translated_str_loop_ok m (from_token (token pt)) bs ptr fuel []); try done.
  - intros i Hi. rewrite Ht'. by apply Htr.
  - intros i b Hi. specialize (Hb i b Hi). unfold user_loc in *. by rewrite Ht'.
Qed.

(** Two user pages mapped to frames that are not adjacent. *)
Definition demo_user_mem : gmap Z page :=
  {[ 0x80500 := {[0 := PTE_new 0x80501 PTE_V]};
     0x80501 := {[0 := PTE_new 0x80502 PTE_V]};
     0x80502 := {[1 := PTE_new 0x80600 19; 2 := PTE_new 0x80700 19]};
     0x80600 := {[511 := Z.shiftl 0x68 56]};
     0x80700 := {[0 := 0x69]} ]}.

Lemma translated_byte_buffer_correct_witness :
  ∃ ss, translated_byte_buffer demo_user_mem (token demo_pt) 0x1fff 2 = Some (Ok ss) ∧
    ubi_drain 3 (UserBuffer_into_iter {| buffers := ss |}) =
      Some (Ok [(0x80600, 0xfff); (0x80700, 0)]).
Proof.
  destruct (translated_byte_buffer_correct demo_user_mem demo_pt 0x1fff 2)
    as (ss & Hss & Hd & _); [split; vm_compute; congruence|lia|lia|lia| |].
  - intros va Hva. assert (va = 0x1fff ∨ va = 0x2000) as [-> | ->] by lia; by vm_compute.
  - exists ss. split; [exact Hss|exact Hd].
Defined.

Lemma translated_str_correct_witness :
  translated_str 10 demo_user_mem (token demo_pt) 0x1fff = Some (Ok [0x68; 0x69]).
Proof.
  apply (translated_str_correct demo_user_mem demo_pt 0x1fff [0x68; 0x69] 10);
    [split; vm_compute; congruence|lia|unfold lengthZ; simpl; lia|simpl; lia| | |by repeat constructor].
  - intros i Hi. unfold lengthZ in Hi. simpl in Hi.
    assert (i = 0 ∨ i = 1 ∨ i = 2) as [-> |[-> | ->]] by lia; by vm_compute.
  - intros i b. unfold lookupZ. destruct (Z.leb_spec 0 i); [|done].
    intros Hl. assert (i = 0 ∨ i = 1 ∨ i = 2) as [-> |[-> | ->]].
    { apply lookup_lt_Some in Hl. simpl in Hl. lia. }
    all: vm_compute in Hl; injection Hl as <-; vm_compute; reflexivity.
Defined.
