(* ===== verification/MemorySet.v ===== *)
(** * Address spaces

    [os/src/mm/memory_set.rs]: map areas, address spaces, the kernel space,
    loading an ELF image and copying a user space for [fork].

    Symbols of the linker script and what [xmas_elf] reports about an ELF file
    are arguments.  A [FrameTracker] stored in [data_frames] is the frame
    number; removing an entry or dropping the map calls [frame_dealloc]. *)

From stdpp Require Import sorting.
From S2P Require Import Prelude Address FrameAllocator PageTable.

Inductive MapType := Identical | Framed.
#[export] Instance MapType_eq_dec : EqDecision MapType.
Proof. solve_decision. Defined.

Definition MP_R : Z := Z.shiftl 1 1.
Definition MP_W : Z := Z.shiftl 1 2.
Definition MP_X : Z := Z.shiftl 1 3.
Definition MP_U : Z := Z.shiftl 1 4.

Record MapArea := {
  vpn_range : SimpleRange;
  data_frames : gmap Z Z;
  map_type : MapType;
  map_perm : Z
}.

Record MemorySet := {
  page_table : PageTable;
  areas : list MapArea
}.

(** ** Map areas *)

Definition MapArea_new (start_va end_va : Z) (ty : MapType) (perm : Z) : result MapArea :=
  rg ← SimpleRange_new (floor start_va) (ceil end_va);
  mret {| vpn_range := rg; data_frames := ∅; map_type := ty; map_perm := perm |}.

Definition from_another (another : MapArea) : result MapArea :=
  rg ← SimpleRange_new (range_l (vpn_range another)) (range_r (vpn_range another));
  mret {| vpn_range := rg; data_frames := ∅;
          map_type := map_type another; map_perm := map_perm another |}.

Definition with_frames (a : MapArea) (d : gmap Z Z) : MapArea :=
  {| vpn_range := vpn_range a; data_frames := d; map_type := map_type a; map_perm := map_perm a |}.

(** Dropping an [Option<FrameTracker>]. *)
Definition drop_frame (o : option Z) : M MM unit :=
  match o with Some f => frame_dealloc f | None => mret tt end.

Definition map_one (st : MapArea * PageTable) (vpn : Z) : M MM (MapArea * PageTable) :=
  let '(a, pt) := st in
  r ← match map_type a with
      | Identical => mret (a, vpn)
      | Framed =>
          o ← frame_alloc;
          frame ← unwrap o;
          _ ← drop_frame (data_frames a !! vpn);
          mret (with_frames a (<[vpn := frame]> (data_frames a)), frame)
      end;
  pte_flags ← unwrap (from_bits PTEFlags_all (map_perm (fst r)));
  pt' ← map pt vpn (snd r) pte_flags;
  mret (fst r, pt').

Definition unmap_one (pt : PageTable) (a : MapArea) (vpn : Z) : M MM MapArea :=
  a' ← (if decide (map_type a = Framed) then
          _ ← drop_frame (data_frames a !! vpn);
          mret (with_frames a (delete vpn (data_frames a)))
        else mret a);
  _ ← unmap pt vpn;
  mret a'.

Definition area_map (a : MapArea) (pt : PageTable) : M MM (MapArea * PageTable) :=
  fold_m map_one (a, pt) (range_items (vpn_range a)).

Definition area_unmap (a : MapArea) (pt : PageTable) : M MM MapArea :=
  fold_m (unmap_one pt) a (range_items (vpn_range a)).

(** [dst.copy_from_slice(src)] at the start of a frame. *)
Fixpoint page_write (p : page) (k : Z) (bs : list Z) : page :=
  match bs with
  | [] => p
  | b :: bs' => page_write (page_set_byte p k b) (k + 1) bs'
  end.

(** [copy_data]: one page per iteration; [data] is the rest of the slice. The
    recursion is on the number of pages of data. *)
Fixpoint copy_data_loop (n : nat) (pt : PageTable) (vpn : Z) (data : list Z) : M MM unit :=
  let src := take (Z.to_nat PAGE_SIZE) data in
  let rest := drop (Z.to_nat PAGE_SIZE) data in
  s ← get;
  pte ← unwrap (translate (mem s) pt vpn);
  _ ← modify (upd_mem (λ m, <[pte_ppn pte := page_write (page_of m (pte_ppn pte)) 0 src]> m));
  match n with
  | O => mret tt
  | S n => if decide (rest = []) then mret tt else copy_data_loop n pt (step vpn) rest
  end.
Definition copy_data (a : MapArea) (pt : PageTable) (data : list Z) : M MM unit :=
  _ ← assert_ (bool_decide (map_type a = Framed));
  copy_data_loop (length data / Z.to_nat PAGE_SIZE) pt (range_l (vpn_range a)) data.

(** Dropping an area drops its [BTreeMap], in the order of the keys. *)
Definition key_le (a b : Z * Z) : Prop := fst a <= fst b.
#[export] Instance key_le_dec : RelDecision key_le := λ a b, Z.le_dec (fst a) (fst b).
Definition btree_values (d : gmap Z Z) : list Z := (merge_sort key_le (map_to_list d)).*2.
Definition drop_area (a : MapArea) : M MM unit :=
  fold_m (λ _ f, frame_dealloc f) tt (btree_values (data_frames a)).

(** ** Address spaces *)

Definition new_bare : M MM MemorySet :=
  pt ← PageTable_new; mret {| page_table := pt; areas := [] |}.

Definition ms_token (ms : MemorySet) : Z := token (page_table ms).
Definition ms_translate (m : gmap Z page) (ms : MemorySet) (vpn : Z) : option Z :=
  translate m (page_table ms) vpn.

Definition push (ms : MemorySet) (a : MapArea) (data : option (list Z)) : M MM MemorySet :=
  r ← area_map a (page_table ms);
  _ ← match data with
      | Some d => copy_data (fst r) (snd r) d
      | None => mret tt
      end;
  mret {| page_table := snd r; areas := vec_push (areas ms) (fst r) |}.

Definition insert_framed_area (ms : MemorySet) (start_va end_va perm : Z) : M MM MemorySet :=
  a ← lift_result (MapArea_new start_va end_va Framed perm);
  push ms a None.

Definition remove_area_with_start_vpn (ms : MemorySet) (start_vpn : Z) : M MM MemorySet :=
  match find_index (λ a, range_l (vpn_range a) =? start_vpn) (areas ms) with
  | Some idx =>
      a ← unwrap (areas ms !! idx);
      a' ← area_unmap a (page_table ms);
      _ ← drop_area a';
      mret {| page_table := page_table ms; areas := take idx (areas ms) ++ drop (S idx) (areas ms) |}
  | None => mret ms
  end.

(** [strampoline] is a symbol of the linker script. *)
Definition map_trampoline (strampoline : Z) (ms : MemorySet) : M MM MemorySet :=
  vpn ← lift_result (PageNum_from_Addr (VirtAddr_from TRAMPOLINE));
  ppn ← lift_result (PageNum_from_Addr (PhysAddr_from strampoline));
  pt ← map (page_table ms) vpn ppn (Z.lor PTE_R PTE_X);
  mret {| page_table := pt; areas := areas ms |}.

(** The symbols of the linker script that [new_kernel] maps. *)
Record KernelLayout := {
  stext : Z; etext : Z; srodata : Z; erodata : Z; sdata : Z; edata : Z;
  sbss_with_stack : Z; ebss : Z; ekernel : Z; strampoline : Z
}.

Definition push_identical (ms : MemorySet) (sec : Z * Z * Z) : M MM MemorySet :=
  let '(start, end_, perm) := sec in
  a ← lift_result (MapArea_new (VirtAddr_from start) (VirtAddr_from end_) Identical perm);
  push ms a None.

Definition kernel_sections (k : KernelLayout) : list (Z * Z * Z) :=
  [(stext k, etext k, Z.lor MP_R MP_X);
   (srodata k, erodata k, MP_R);
   (sdata k, edata k, Z.lor MP_R MP_W);
   (sbss_with_stack k, ebss k, Z.lor MP_R MP_W);
   (ekernel k, MEMORY_END, Z.lor MP_R MP_W)]
  ++ ((λ p, (p.1, wrap64 (p.1 + p.2), Z.lor MP_R MP_W)) <$> MMIO).

Definition new_kernel (k : KernelLayout) : M MM MemorySet :=
  ms ← new_bare;
  ms ← map_trampoline (strampoline k) ms;
  fold_m push_identical ms (kernel_sections k).

(** What [from_elf] reads through [xmas_elf]. *)
Record ProgramHeader := {
  ph_load : bool; ph_vaddr : Z; ph_memsz : Z; ph_offset : Z; ph_filesz : Z;
  ph_read : bool; ph_write : bool; ph_execute : bool
}.
Record ElfFile := {
  elf_magic : list Z; elf_phs : list ProgramHeader; elf_entry : Z; elf_input : list Z
}.

Definition elf_perm (ph : ProgramHeader) : Z :=
  let p := MP_U in
  let p := if ph_read ph then Z.lor p MP_R else p in
  let p := if ph_write ph then Z.lor p MP_W else p in
  if ph_execute ph then Z.lor p MP_X else p.

Definition load_segment (strampoline : Z) (elf : ElfFile) (st : MemorySet * Z) (ph : ProgramHeader) :
    M MM (MemorySet * Z) :=
  if ph_load ph then
    let start_va := VirtAddr_from (ph_vaddr ph) in
    let end_va := VirtAddr_from (wrap64 (ph_vaddr ph + ph_memsz ph)) in
    a ← lift_result (MapArea_new start_va end_va Framed (elf_perm ph));
    let lo := ph_offset ph in
    let hi := wrap64 (ph_offset ph + ph_filesz ph) in
    _ ← (if (lo <=? hi) && (hi <=? lengthZ (elf_input elf)) then mret tt else panic_with PIndex);
    ms ← push (fst st) a (Some (take (Z.to_nat (hi - lo)) (drop (Z.to_nat lo) (elf_input elf))));
    mret (ms, range_r (vpn_range a))
  else mret st.

(** [ElfFile::new(elf_data).unwrap()] is the argument [elf]. *)
Definition from_elf (strampoline : Z) (elf : option ElfFile) : M MM (MemorySet * Z * Z) :=
  ms ← new_bare;
  ms ← map_trampoline strampoline ms;
  elf ← unwrap elf;
  _ ← assert_ (bool_decide (elf_magic elf = [0x7f; 0x45; 0x4c; 0x46]));
  r ← fold_m (load_segment strampoline elf) (ms, 0) (elf_phs elf);
  let max_end_va := Addr_from_PageNum (snd r) in
  mret (fst r, wrap64 (max_end_va + PAGE_SIZE), elf_entry elf).

(** The inner loop of [from_existed_user]. *)
Definition copy_page (src dst : PageTable) (_ : unit) (vpn : Z) : M MM unit :=
  s ← get;
  spte ← unwrap (translate (mem s) src vpn);
  dpte ← unwrap (translate (mem s) dst vpn);
  modify (upd_mem (λ m, <[pte_ppn dpte := page_of m (pte_ppn spte)]> m)).

Definition copy_area (user_space : MemorySet) (ms : MemorySet) (area : MapArea) : M MM MemorySet :=
  new_area ← lift_result (from_another area);
  ms' ← push ms new_area None;
  _ ← fold_m (copy_page (page_table user_space) (page_table ms')) tt
        (range_items (vpn_range area));
  mret ms'.

Definition from_existed_user (strampoline : Z) (user_space : MemorySet) : M MM MemorySet :=
  ms ← new_bare;
  ms ← map_trampoline strampoline ms;
  fold_m (copy_area user_space) ms (areas user_space).

(** [recycle_data_pages] clears [areas], dropping every area. *)
Definition recycle_data_pages (ms : MemorySet) : M MM MemorySet :=
  _ ← fold_m (λ _ a, drop_area a) tt (areas ms);
  mret {| page_table := page_table ms; areas := [] |}.

(** Dropping an address space drops its page table, then its areas. *)
Definition drop_memory_set (ms : MemorySet) : M MM unit :=
  _ ← fold_m (λ _ f, frame_dealloc f) tt (frames (page_table ms));
  fold_m (λ _ a, drop_area a) tt (areas ms).

(** ** Mapping an area

    [area_mapped] relates the system before and after some pages were mapped:
    [T] is the target of every page mapped so far and [D] the part of it held in
    [data_frames]. *)

Record area_mapped (lo perm : Z) (owned : gset Z) (s : MM) (pt : PageTable)
    (T D : gmap Z Z) (owned' : gset Z) (s' : MM) (pt' : PageTable) : Prop := {
  am_inv : pt_inv lo owned' s' pt';
  am_root : root_ppn pt' = root_ppn pt;
  am_frames : ∀ x, x ∈ frames pt → x ∈ frames pt';
  am_fresh : ∀ x, x ∈ frames pt' → x ∈ owned → x ∈ frames pt;
  am_owned : ∀ x, x ∈ owned' ↔ x ∈ owned ∨ x ∈ frames pt' ∨ ∃ v, D !! v = Some x;
  am_data : ∀ v f, D !! v = Some f →
     f ∉ owned ∧ f ∉ frames pt' ∧ page_of (mem s') f = ∅;
  am_inj : ∀ v1 v2 f, D !! v1 = Some f → D !! v2 = Some f → v1 = v2;
  am_mapping : ∀ v, 0 <= v < 2 ^ 27 → mapping (mem s') pt' v =
     match T !! v with Some f => Some (f, Z.lor perm PTE_V) | None => mapping (mem s) pt v end;
  am_pages : ∀ x, x ∉ frames pt' → (∀ v, D !! v ≠ Some x) → page_of (mem s') x = page_of (mem s) x;
  am_free : nfree (fa s) - 3 * Z.of_nat (size T) <= nfree (fa s');
  am_end : end_ (fa s') = end_ (fa s)
}.

Lemma area_mapped_refl lo perm owned s pt :
  pt_inv lo owned s pt → area_mapped lo perm owned s pt ∅ ∅ owned s pt.
Proof.
  intros Hinv. split; try done.
  - intros x. pose proof (inv_owned _ _ _ _ Hinv x). setoid_rewrite lookup_empty. naive_solver.
  - rewrite map_size_empty. lia.
Qed.

(** One more page: what [map] does to the table is done to the area. *)
Lemma area_mapped_page lo perm owned s pt T D owned1 s1 pt1 vpn ppn D' owned2 s2 owned3 s3 pt3 :
  area_mapped lo perm owned s pt T D owned1 s1 pt1 → T !! vpn = None →
  (D' = D ∧ owned2 = owned1 ∧ s2 = s1 ∧ 0 <= ppn < 2 ^ 44 ∨
   D' = <[vpn := ppn]> D ∧ D !! vpn = None ∧ owned2 = {[ppn]} ∪ owned1 ∧ ppn ∉ owned1 ∧
     lo <= ppn < end_ (fa s1) ∧ mem s2 = <[ppn := ∅]> (mem s1) ∧
     nfree (fa s2) = nfree (fa s1) - 1 ∧ end_ (fa s2) = end_ (fa s1)) →
  pt_inv lo owned3 s3 pt3 → pt_ext owned2 s2 pt1 owned3 s3 pt3 → nfree (fa s2) - 2 <= nfree (fa s3) →
  (∀ v, 0 <= v < 2 ^ 27 → mapping (mem s3) pt3 v =
     if decide (v = vpn) then Some (ppn, Z.lor perm PTE_V) else mapping (mem s2) pt1 v) →
  (∀ v, mapping (mem s2) pt1 v = mapping (mem s1) pt1 v) →
  area_mapped lo perm owned s pt (<[vpn := ppn]> T) D' owned3 s3 pt3.
Proof.
  intros Ham HT Hcase Hinv3 Hext Hn3 Hm3 Hm2.
  destruct Ham as [A1 A2 A3 A4 A5 A6 A7 A8 A9 A10 A11].
  destruct Hext as [E1 E2 E3 E4 E5 E6 E7].
  assert (∀ x, x ∈ owned2 → x ∉ frames pt1 → x ∉ frames pt3) as Hnf by naive_solver.
  assert (∀ x, x ∈ owned1 → x ∈ owned2) as Ho12.
  { destruct Hcase as [(_ & -> & _)|(_ & _ & -> & _)]; set_solver. }
  assert (∀ v f, D' !! v = Some f → f ∉ owned ∧ f ∈ owned2 ∧ f ∉ frames pt1 ∧
    page_of (mem s2) f = ∅) as HD'.
  { intros v f. destruct Hcase as [(-> & -> & -> & _)|(-> & HD & -> & Hf & _ & Hmem & _)].
    - intros Hvf. destruct (A6 v f Hvf) as (? & ? & ?). split_and!; [done| |done..].
      apply A5. eauto.
    - rewrite Hmem. intros [[<- <-]|[Hne Hvf]]%lookup_insert_Some.
      + rewrite page_of_insert. split_and!; [|set_solver| |done]; intros ?; apply Hf, A5; auto.
      + destruct (A6 v f Hvf) as (? & ? & ?).
        assert (f ∈ owned1) by (apply A5; eauto). assert (f ≠ ppn) by (intros ->; done).
        rewrite page_of_insert_ne by done. split_and!; [done|set_solver|done..]. }
  split.
  - done.
  - congruence.
  - auto.
  - intros x Hx Ho. apply A4; [|done]. apply E4; [done|]. apply Ho12, A5. auto.
  - intros x. rewrite E3. destruct Hcase as [(-> & -> & _)|(-> & HD & -> & _)].
    + rewrite A5. naive_solver.
    + rewrite elem_of_union, elem_of_singleton, A5. setoid_rewrite lookup_insert_Some.
      destruct (decide (x = ppn)) as [->|]; [naive_solver|].
      split; [intros [[?|[?|[?|[v ?]]]]|?]; eauto; try done|].
      * right; right. exists v. right. split; [congruence|done].
      * naive_solver.
  - intros v f Hvf. destruct (HD' v f Hvf) as (Hfo & Hf2 & Hf1 & Hpg).
    split_and!; [done|by apply Hnf|]. rewrite E5 by by apply Hnf. done.
  - intros v1 v2 f. destruct Hcase as [(-> & _)|(-> & _ & _ & Hf & _)]; [apply A7|].
    rewrite !lookup_insert_Some. intros [[<- <-]|[? H1]] [[<- ?]|[? H2]]; subst; try done.
    + destruct Hf. apply A5. eauto.
    + destruct Hf. apply A5. eauto.
    + by eapply A7.
  - intros v Hv'. rewrite Hm3 by done. case_decide as Hd.
    + subst. by rewrite lookup_insert_eq.
    + rewrite lookup_insert_ne by done. by rewrite Hm2, A8.
  - intros x Hx HxD. rewrite E5 by done.
    destruct Hcase as [(-> & _ & -> & _)|(-> & HD & _ & _ & _ & -> & _)]; [by apply A9; auto|].
    rewrite page_of_insert_ne by (intros ->; by apply (HxD vpn), lookup_insert_eq).
    apply A9; [auto|]. intros v Hvx. apply (HxD v). rewrite lookup_insert_ne; [done|]. congruence.
  - rewrite map_size_insert_None by done. destruct Hcase as [(_ & _ & -> & _)|(_ & _ & _ & _ & _ & _ & ? & _)]; lia.
  - destruct Hcase as [(_ & _ & -> & _)|(_ & _ & _ & _ & _ & _ & _ & ?)]; congruence.
Qed.

(** One more page: [map] after the frame was chosen. *)
Lemma wp_area_map_page lo perm owned s pt T D owned1 s1 pt1 vpn ppn D' Q :
  area_mapped lo perm owned s pt T D owned1 s1 pt1 → T !! vpn = None →
  0 <= vpn < 2 ^ 27 → 0 <= perm < 256 → mapping (mem s) pt vpn = None →
  ∀ owned2 s2, pt_inv lo owned2 s2 pt1 →
  (D' = D ∧ owned2 = owned1 ∧ s2 = s1 ∧ 0 <= ppn < 2 ^ 44 ∨
   D' = <[vpn := ppn]> D ∧ D !! vpn = None ∧ owned2 = {[ppn]} ∪ owned1 ∧ ppn ∉ owned1 ∧
     lo <= ppn < end_ (fa s1) ∧ mem s2 = <[ppn := ∅]> (mem s1) ∧
     nfree (fa s2) = nfree (fa s1) - 1 ∧ end_ (fa s2) = end_ (fa s1)) →
  2 <= nfree (fa s2) →
  (∀ owned3 s3 pt3,
     area_mapped lo perm owned s pt (<[vpn := ppn]> T) D' owned3 s3 pt3 → Q pt3 s3) →
  wp (map pt1 vpn ppn perm) Q s2.
Proof.
  intros Ham HT Hv Hp Hnone owned2 s2 Hinv2 Hcase Hfree HQ.
  assert (0 <= ppn < 2 ^ 44) as Hppn.
  { destruct Hcase as [(_ & _ & _ & ?)|(_ & _ & _ & _ & ? & _)]; [done|].
    destruct (am_inv _ _ _ _ _ _ _ _ _ _ Ham) as [[? _ _ _] _ _]. lia. }
  assert (∀ v, mapping (mem s2) pt1 v = mapping (mem s1) pt1 v) as Hm2.
  { destruct Hcase as [(_ & _ & -> & _)|(_ & _ & _ & Hf & _ & Hmem & _)]; [done|]. intros v.
    unfold mapping. rewrite Hmem.
    destruct (pt_wf_agree (mem s1) (<[ppn := ∅]> (mem s1)) pt1) as [_ Ht];
      [|apply (inv_wf _ _ _ _ (am_inv _ _ _ _ _ _ _ _ _ _ Ham))|by rewrite Ht].
    intros q Hq. apply page_of_insert_ne. intros ->. apply Hf, (am_owned _ _ _ _ _ _ _ _ _ _ Ham). auto. }
  eapply wp_map; [done..| |].
  { rewrite Hm2, (am_mapping _ _ _ _ _ _ _ _ _ _ Ham), HT by done. done. }
  intros owned3 s3 pt3 Hinv3 Hext Hn3 Hm3. apply (HQ owned3). by eapply area_mapped_page.
Qed.

(** Taking a frame for data does not disturb a page table. *)
Lemma pt_inv_alloc lo owned s pt p a' :
  pt_inv lo owned s pt → p ∉ owned → fa_inv lo a' ({[p]} ∪ owned) →
  pt_inv lo ({[p]} ∪ owned) {| fa := a'; mem := <[p := ∅]> (mem s) |} pt.
Proof.
  intros [Hfa Hwf Hown Hnd] Hp Hfa'. split; [done| |set_solver|done]. simpl.
  eapply pt_wf_agree; [|done]. intros q Hq. apply page_of_insert_ne. set_solver.
Qed.

Definition area_wf (a : MapArea) : Prop :=
  0 <= range_l (vpn_range a) <= range_r (vpn_range a) ∧ range_r (vpn_range a) <= 2 ^ 27 ∧
  0 <= map_perm a < 256.

Definition area_pages (a : MapArea) : list Z := range_items (vpn_range a).

Lemma elem_of_area_pages a v :
  area_wf a → v ∈ area_pages a ↔ range_l (vpn_range a) <= v < range_r (vpn_range a).
Proof. intros (H1 & H2 & _). apply elem_of_range_items; lia. Qed.

Lemma NoDup_area_pages a : area_wf a → NoDup (area_pages a).
Proof. intros (H1 & H2 & _). apply NoDup_range_items; lia. Qed.

Lemma from_bits_PTE perm : 0 <= perm < 256 → from_bits PTEFlags_all perm = Some perm.
Proof.
  intros. rewrite <- (wrap_small 8 perm) at 1 by done.
  change (from_bits PTEFlags_all (wrap 8 perm)) with (pte_from_bits perm).
  by rewrite pte_from_bits_total, wrap_small.
Qed.

(** The targets of a mapped area: the frames it holds, or the pages themselves. *)
Definition area_targets (a : MapArea) (T D : gmap Z Z) : Prop :=
  match map_type a with
  | Framed => D = T
  | Identical => D = ∅ ∧ ∀ v f, T !! v = Some f → f = v
  end.

Lemma wp_map_one lo owned s pt a T D owned1 s1 pt1 vpn Q :
  area_mapped lo (map_perm a) owned s pt T D owned1 s1 pt1 → area_targets a T D →
  T !! vpn = None → 0 <= vpn < 2 ^ 27 → 0 <= map_perm a < 256 →
  mapping (mem s) pt vpn = None → 3 <= nfree (fa s1) →
  (∀ ppn D' owned' s' pt',
     area_mapped lo (map_perm a) owned s pt (<[vpn := ppn]> T) D' owned' s' pt' →
     area_targets a (<[vpn := ppn]> T) D' → Q (with_frames a D', pt') s') →
  wp (map_one (with_frames a D, pt1) vpn) Q s1.
Proof.
  intros Ham Htg HT Hv Hp Hnone Hfree HQ. unfold map_one, area_targets in *. simpl map_type.
  pose proof (am_inv _ _ _ _ _ _ _ _ _ _ Ham) as Hinv1.
  destruct (map_type a).
  - wp_steps. cbn [fst snd]. eapply wp_unwrap; [by apply from_bits_PTE|].
    wp_steps. eapply wp_area_map_page with (D' := D); [exact Ham|done..| | |].
    { left. split_and!; done || lia. } { lia. }
    intros o3 s3 pt3 Ham3. wp_steps. eapply HQ; [exact Ham3|].
    destruct Htg as [-> Hid]. split; [done|]. intros v f [[<- <-]|[_ ?]]%lookup_insert_Some; eauto.
  - subst D. wp_steps. eapply wp_frame_alloc; [apply Hinv1|lia|].
    intros p a' Hp1 Hr Hfa' Hn He. wp_steps. eapply wp_unwrap; [done|].
    wp_steps. simpl data_frames. rewrite HT. cbn [drop_frame]. wp_steps. cbn [fst snd].
    eapply wp_unwrap; [by apply from_bits_PTE|]. wp_steps.
    eapply wp_area_map_page with (D' := <[vpn := p]> T); [exact Ham|done..| | | |].
    { by apply pt_inv_alloc. } { right. split_and!; done || lia. } { simpl. lia. }
    intros o3 s3 pt3 Ham3. wp_steps. by eapply HQ.
Qed.

Lemma wp_area_map lo owned s pt a Q :
  pt_inv lo owned s pt → area_wf a → data_frames a = ∅ →
  (∀ v, v ∈ area_pages a → mapping (mem s) pt v = None) →
  3 * lengthZ (area_pages a) <= nfree (fa s) →
  (∀ T D owned' s' pt', area_mapped lo (map_perm a) owned s pt T D owned' s' pt' →
     area_targets a T D → (∀ v, is_Some (T !! v) ↔ v ∈ area_pages a) →
     size T = length (area_pages a) → Q (with_frames a D, pt') s') →
  wp (area_map a pt) Q s.
Proof.
  intros Hinv Hwf Hd Hnone Hfree HQ. unfold area_map. fold (area_pages a).
  pose proof (NoDup_area_pages a Hwf) as Hnd.
  eapply wp_mono; [eapply (wp_fold_m (λ pre st s', ∃ T D owned', st.1 = with_frames a D ∧
      area_mapped lo (map_perm a) owned s pt T D owned' s' st.2 ∧ area_targets a T D ∧
      (∀ v, is_Some (T !! v) ↔ v ∈ pre) ∧ size T = length pre))|].
  - exists ∅, ∅, owned. split_and!; [by destruct a; simpl in *; subst| | | |done].
    + by apply area_mapped_refl.
    + unfold area_targets. by destruct (map_type a).
    + intros v. rewrite lookup_empty, elem_of_nil. by split; [intros []|].
  - intros pre x post [a1 pt1] s1 Hpages (T & D & owned1 & Ha & Ham & Htg & HT & Hsz). simpl in *.
    subst a1. rewrite Hpages in Hnd. apply NoDup_app in Hnd as (_ & Hx & _).
    assert (x ∈ area_pages a) as Hin by (rewrite Hpages; set_solver).
    pose proof (proj1 (elem_of_area_pages a x Hwf) Hin) as Hr.
    assert (T !! x = None) as HTx.
    { apply eq_None_not_Some. intros ?%HT. apply (Hx x); set_solver. }
    eapply wp_map_one; [done|done|done| | | | |].
    + destruct Hwf. lia.
    + apply Hwf.
    + auto.
    + pose proof (am_free _ _ _ _ _ _ _ _ _ _ Ham). rewrite Hpages in Hfree.
      unfold lengthZ in Hfree. rewrite length_app in Hfree. simpl in Hfree. lia.
    + intros ppn D' o' s' pt' Ham' Htg'. eexists _, D', o'. split_and!; [done..| |].
      * intros v. rewrite elem_of_app, list_elem_of_singleton, <- HT, lookup_insert_is_Some'. naive_solver.
      * rewrite map_size_insert_None, length_app, Hsz by done. simpl. lia.
  - intros [a' pt'] s' (T & D & owned' & Ha & Ham & Htg & HT & Hsz). simpl in *. subst a'. by eapply HQ.
Qed.

(** ** The invariant of an address space *)

Definition area_ok (owned : gset Z) (m : gmap Z page) (pt : PageTable) (a : MapArea) : Prop :=
  match map_type a with
  | Framed =>
      (∀ v, is_Some (data_frames a !! v) ↔ v ∈ area_pages a) ∧
      ∀ v f, data_frames a !! v = Some f →
        f ∈ owned ∧ f ∉ frames pt ∧ mapping m pt v = Some (f, Z.lor (map_perm a) PTE_V)
  | Identical =>
      data_frames a = ∅ ∧
      ∀ v, v ∈ area_pages a → mapping m pt v = Some (v, Z.lor (map_perm a) PTE_V)
  end.

Record ms_inv (lo : Z) (owned : gset Z) (s : MM) (ms : MemorySet) : Prop := {
  mi_pt : pt_inv lo owned s (page_table ms);
  mi_wf : ∀ a, a ∈ areas ms → area_wf a;
  mi_ok : ∀ a, a ∈ areas ms → area_ok owned (mem s) (page_table ms) a;
  mi_inj : ∀ i j a b v w f, areas ms !! i = Some a → areas ms !! j = Some b →
     data_frames a !! v = Some f → data_frames b !! w = Some f → i = j ∧ v = w;
  mi_disj : ∀ i j a b v, areas ms !! i = Some a → areas ms !! j = Some b → i ≠ j →
     v ∈ area_pages a → v ∉ area_pages b
}.

(** The frames an address space holds. *)
Definition ms_holds (ms : MemorySet) (x : Z) : Prop :=
  x ∈ frames (page_table ms) ∨ ∃ a v, a ∈ areas ms ∧ data_frames a !! v = Some x.

Lemma area_ok_mapped owned m pt a v :
  area_ok owned m pt a → v ∈ area_pages a → mapping m pt v ≠ None.
Proof.
  unfold area_ok. destruct (map_type a).
  - intros [_ H] Hv. by rewrite H.
  - intros [Hd H] [f Hf]%Hd. destruct (H _ _ Hf) as (_ & _ & ->). done.
Qed.

Lemma ms_holds_owned lo owned s ms x : ms_inv lo owned s ms → ms_holds ms x → x ∈ owned.
Proof.
  intros Hi [Hx|(a & v & Ha & Hv)].
  - by apply (inv_owned _ _ _ _ (mi_pt _ _ _ _ Hi)).
  - pose proof (mi_ok _ _ _ _ Hi a Ha) as Hok. unfold area_ok in Hok. destruct (map_type a).
    + destruct Hok as [He _]. by rewrite He in Hv.
    + by destruct (proj2 Hok v x Hv) as (? & _).
Qed.

(** Adding a freshly mapped area. *)
Lemma ms_inv_push lo owned s ms a T D owned' s' pt' :
  ms_inv lo owned s ms → area_wf a →
  (∀ v, v ∈ area_pages a → mapping (mem s) (page_table ms) v = None) →
  area_mapped lo (map_perm a) owned s (page_table ms) T D owned' s' pt' → area_targets a T D →
  (∀ v, is_Some (T !! v) ↔ v ∈ area_pages a) →
  ms_inv lo owned' s' {| page_table := pt'; areas := vec_push (areas ms) (with_frames a D) |}.
Proof.
  intros Hi Hwf Hun Ham Htg HT. destruct Ham as [A1 A2 A3 A4 A5 A6 A7 A8 A9 A10 A11].
  assert (∀ i b, (areas ms ++ [with_frames a D]) !! i = Some b →
     areas ms !! i = Some b ∨ i = length (areas ms) ∧ b = with_frames a D) as Hlk.
  { intros i b [?|[? Hb]]%lookup_app_Some; [by left|right].
    apply list_lookup_singleton_Some in Hb as [? <-]. split; [lia|done]. }
  assert (∀ v, v ∈ area_pages a → 0 <= v < 2 ^ 27) as Hvr.
  { intros v Hv%elem_of_area_pages; [|done]. destruct Hwf. lia. }
  assert (∀ b v f, b ∈ areas ms → data_frames b !! v = Some f → f ∈ owned) as Hho.
  { intros b v f Hb Hv. eapply ms_holds_owned; [done|]. right. eauto. }
  unfold vec_push. split; simpl.
  - done.
  - intros b [Hb| ->%list_elem_of_singleton]%elem_of_app; [by apply (mi_wf _ _ _ _ Hi)|done].
  - intros b [Hb| ->%list_elem_of_singleton]%elem_of_app.
    + pose proof (mi_ok _ _ _ _ Hi b Hb) as Hok. pose proof (mi_wf _ _ _ _ Hi b Hb) as Hbwf.
      assert (∀ v, v ∈ area_pages b → mapping (mem s') pt' v = mapping (mem s) (page_table ms) v) as Hm.
      { intros v Hv. rewrite A8 by (apply elem_of_area_pages in Hv; [destruct Hbwf; lia|done]).
        destruct (T !! v) as [f|] eqn:HTv; [|done].
        destruct (area_ok_mapped _ _ _ _ v Hok Hv). apply Hun, HT. by eexists. }
      unfold area_ok in *. destruct (map_type b).
      * destruct Hok as [? Hok]. split; [done|]. intros v Hv. rewrite Hm by done. auto.
      * destruct Hok as [Hd Hok]. split; [done|]. intros v f Hv.
        destruct (Hok v f Hv) as (? & ? & Hmv). rewrite Hm by (apply Hd; by eexists).
        split_and!; [apply A5; auto|auto|done].
    + unfold area_ok, area_targets in *. simpl. change (area_pages (with_frames a D)) with (area_pages a).
      destruct (map_type a).
      * destruct Htg as [-> Hid]. split; [done|]. intros v Hv. rewrite A8 by auto.
        destruct (proj2 (HT v) Hv) as [f Hf]. rewrite Hf. by rewrite (Hid v f Hf).
      * subst D. split; [done|]. intros v f Hv. destruct (A6 v f Hv) as (? & ? & _).
        split_and!; [apply A5; eauto|done|]. rewrite A8 by (apply Hvr, HT; by eexists). by rewrite Hv.
  - intros i j b c v w f Hb Hc Hv Hw.
    destruct (Hlk i b Hb) as [Hb'|[-> ->]], (Hlk j c Hc) as [Hc'|[-> ->]].
    + by eapply (mi_inj _ _ _ _ Hi).
    + destruct (A6 w f Hw) as [Hf _]. destruct Hf. apply (Hho b v f); [by eapply list_elem_of_lookup_2|done].
    + destruct (A6 v f Hv) as [Hf _]. destruct Hf. apply (Hho c w f); [by eapply list_elem_of_lookup_2|done].
    + split; [done|by eapply A7].
  - intros i j b c v Hb Hc Hij Hv Hv'.
    destruct (Hlk i b Hb) as [Hb'|[-> ->]], (Hlk j c Hc) as [Hc'|[-> ->]]; [| | |done].
    + exact (mi_disj _ _ _ _ Hi i j b c v Hb' Hc' Hij Hv Hv').
    + apply list_elem_of_lookup_2 in Hb'.
      by apply (area_ok_mapped _ _ _ _ v (mi_ok _ _ _ _ Hi b Hb') Hv), Hun.
    + apply list_elem_of_lookup_2 in Hc'.
      by apply (area_ok_mapped _ _ _ _ v (mi_ok _ _ _ _ Hi c Hc') Hv'), Hun.
Qed.

Lemma wp_push lo owned s ms a Q :
  ms_inv lo owned s ms → area_wf a → data_frames a = ∅ →
  (∀ v, v ∈ area_pages a → mapping (mem s) (page_table ms) v = None) →
  3 * lengthZ (area_pages a) <= nfree (fa s) →
  (∀ T D owned' s' pt',
     let ms' := {| page_table := pt'; areas := vec_push (areas ms) (with_frames a D) |} in
     ms_inv lo owned' s' ms' →
     area_mapped lo (map_perm a) owned s (page_table ms) T D owned' s' pt' →
     area_targets a T D → (∀ v, is_Some (T !! v) ↔ v ∈ area_pages a) →
     size T = length (area_pages a) → Q ms' s') →
  wp (push ms a None) Q s.
Proof.
  intros Hi Hwf Hd Hun Hfree HQ. unfold push. wp_steps.
  eapply wp_area_map; [apply Hi|done..|].
  intros T D owned' s' pt' Ham Htg HT Hsz. wp_steps. cbn [fst snd].
  eapply HQ; [by eapply ms_inv_push|done..].
Qed.

(** ** Unmapping an area *)

Lemma pt_inv_dealloc lo owned s pt p a' :
  pt_inv lo owned s pt → p ∉ frames pt → fa_inv lo a' (owned ∖ {[p]}) →
  pt_inv lo (owned ∖ {[p]}) {| fa := a'; mem := mem s |} pt.
Proof. intros [Hfa Hwf Hown Hnd] Hp Hfa'. split; [done|done|set_solver|done]. Qed.

(** The state after the pages of [pre] were unmapped; [D] is what the area held
    at the start. *)
Record area_unmapped (lo : Z) (owned : gset Z) (s : MM) (pt : PageTable) (D : gmap Z Z)
    (pre : list Z) (owned' : gset Z) (s' : MM) : Prop := {
  au_inv : pt_inv lo owned' s' pt;
  au_owned : ∀ x, x ∈ owned' ↔ x ∈ owned ∧ ∀ v, v ∈ pre → D !! v ≠ Some x;
  au_mapping : ∀ v, 0 <= v < 2 ^ 27 → mapping (mem s') pt v =
     if decide (v ∈ pre) then None else mapping (mem s) pt v;
  au_pages : ∀ x, x ∉ frames pt → page_of (mem s') x = page_of (mem s) x;
  au_free : nfree (fa s') = nfree (fa s) + Z.of_nat (length (filter (λ v, is_Some (D !! v)) pre));
  au_end : end_ (fa s') = end_ (fa s)
}.

Definition minus_pages (D : gmap Z Z) (pre : list Z) : gmap Z Z :=
  filter (λ kv, kv.1 ∉ pre) D.

Lemma minus_pages_snoc D pre x : minus_pages D (pre ++ [x]) = delete x (minus_pages D pre).
Proof.
  apply map_eq. intros v. unfold minus_pages.
  apply option_eq. intros f. rewrite lookup_delete_Some, !map_lookup_filter_Some. simpl.
  rewrite elem_of_app, list_elem_of_singleton. naive_solver.
Qed.

Lemma minus_pages_lookup D pre v : v ∉ pre → minus_pages D pre !! v = D !! v.
Proof.
  intros Hv. apply option_eq. intros f. unfold minus_pages. rewrite map_lookup_filter_Some. simpl. naive_solver.
Qed.

Lemma wp_unmap_one lo owned s pt a pre v owned1 s1 Q :
  area_unmapped lo owned s pt (data_frames a) pre owned1 s1 →
  area_ok owned (mem s) pt a → v ∈ area_pages a → v ∉ pre → 0 <= v < 2 ^ 27 →
  (∀ w f, data_frames a !! v = Some f → data_frames a !! w = Some f → v = w) →
  (∀ owned2 s2, area_unmapped lo owned s pt (data_frames a) (pre ++ [v]) owned2 s2 →
     Q (with_frames a (minus_pages (data_frames a) (pre ++ [v]))) s2) →
  wp (unmap_one pt (with_frames a (minus_pages (data_frames a) pre)) v) Q s1.
Proof.
  intros [U1 U2 U3 U4 U5 U6] Hok Hv Hpre Hr Hinj HQ. unfold unmap_one.
  change (map_type (with_frames a (minus_pages (data_frames a) pre))) with (map_type a).
  assert (mapping (mem s1) pt v = mapping (mem s) pt v) as Hm1
    by (rewrite U3 by done; by rewrite decide_False).
  pose proof (area_ok_mapped _ _ _ _ v Hok Hv) as Hmap.
  destruct (mapping (mem s) pt v) as [e|] eqn:He; [|done].
  assert (∀ w, w ∈ pre ++ [v] ↔ w ∈ pre ∨ w = v) as Hsnoc
    by (intros w; by rewrite elem_of_app, list_elem_of_singleton).
  assert (∀ s2 w, 0 <= w < 2 ^ 27 → mapping (mem s2) pt w =
      (if decide (w = v) then None else mapping (mem s1) pt w) →
    mapping (mem s2) pt w = if decide (w ∈ pre ++ [v]) then None else mapping (mem s) pt w) as Hmm.
  { intros s2 w Hw ->. case_decide as Hd.
    - subst. rewrite decide_True by (apply Hsnoc; auto). done.
    - rewrite U3 by done. destruct (decide (w ∈ pre)).
      + by rewrite decide_True by (apply Hsnoc; auto).
      + rewrite decide_False by (rewrite Hsnoc; naive_solver). done. }
  unfold area_ok in Hok. destruct (map_type a) eqn:Hty.
  - rewrite decide_False by done. destruct Hok as [Hd0 _].
    wp_steps. eapply wp_unmap; [done..|]. intros s2 Hinv2 Hext Hfa Hm2. wp_steps.
    replace (minus_pages (data_frames a) pre) with (minus_pages (data_frames a) (pre ++ [v]))
      by (rewrite Hd0; unfold minus_pages; by rewrite !map_filter_empty).
    apply (HQ owned1). split; [done| | | | |].
    + intros x. rewrite U2, Hd0. setoid_rewrite lookup_empty. naive_solver.
    + intros w Hw. apply Hmm; [done|]. by apply Hm2.
    + intros x Hx. rewrite (ext_pages _ _ _ _ _ _ Hext) by done. auto.
    + rewrite Hfa, U5, filter_app, length_app, Hd0. rewrite (filter_cons_False _ v []), filter_nil; [simpl; lia|].
      rewrite lookup_empty. by intros [? ?].
    + by rewrite Hfa.
  - rewrite decide_True by done. destruct Hok as [Hdom Hok].
    destruct (proj2 (Hdom v) Hv) as [f Hf]. destruct (Hok v f Hf) as (Hfo & Hff & _).
    simpl data_frames. rewrite minus_pages_lookup, Hf by done. cbn [drop_frame].
    wp_steps. eapply (wp_frame_dealloc lo owned1); [apply U1| |].
    { apply U2. split; [done|]. intros w Hw Hwf. apply Hpre. by rewrite (Hinj w f). }
    intros a' Hfa' Hn' He'. wp_steps.
    eapply wp_unmap; [by apply pt_inv_dealloc|done|simpl; by rewrite Hm1|].
    intros s2 Hinv2 Hext Hfa Hm2. wp_steps.
    replace (with_frames (with_frames a (minus_pages (data_frames a) pre))
      (delete v (minus_pages (data_frames a) pre))) with
      (with_frames a (minus_pages (data_frames a) (pre ++ [v]))) by by rewrite minus_pages_snoc.
    apply (HQ (owned1 ∖ {[f]})). split; [done| | | | |].
    + intros x. rewrite elem_of_difference, elem_of_singleton, U2. setoid_rewrite Hsnoc.
      split.
      * intros [[Hx Hnp] Hne]. split; [done|]. intros w [Hw| ->] ?; [naive_solver|congruence].
      * intros [Hx Hnp]. split; [split; [done|]; intros w Hw; apply Hnp; auto|].
        intros ->. apply (Hnp v); auto.
    + intros w Hw. apply Hmm; [done|]. by apply Hm2.
    + intros x Hx. rewrite (ext_pages _ _ _ _ _ _ Hext) by done. simpl. auto.
    + rewrite Hfa. simpl. rewrite Hn', U5, filter_app, length_app.
      rewrite (filter_cons_True _ v []) by by eexists. rewrite filter_nil. simpl. lia.
    + rewrite Hfa. simpl. congruence.
Qed.

Lemma area_unmapped_refl lo owned s pt D :
  pt_inv lo owned s pt → area_unmapped lo owned s pt D [] owned s.
Proof.
  intros Hinv. split; try done.
  - intros x. split; [|naive_solver]. intros ?. split; [done|]. by intros v ?%elem_of_nil.
  - simpl. lia.
Qed.

Lemma wp_area_unmap lo owned s pt a Q :
  pt_inv lo owned s pt → area_wf a → area_ok owned (mem s) pt a →
  (∀ v w f, data_frames a !! v = Some f → data_frames a !! w = Some f → v = w) →
  (∀ owned' s', area_unmapped lo owned s pt (data_frames a) (area_pages a) owned' s' →
     Q (with_frames a ∅) s') →
  wp (area_unmap a pt) Q s.
Proof.
  intros Hinv Hwf Hok Hinj HQ. unfold area_unmap. fold (area_pages a).
  pose proof (NoDup_area_pages a Hwf) as Hnd.
  eapply wp_mono; [eapply (wp_fold_m (λ pre a' s', ∃ owned',
      a' = with_frames a (minus_pages (data_frames a) pre) ∧
      area_unmapped lo owned s pt (data_frames a) pre owned' s'))|].
  - exists owned. split; [|by apply area_unmapped_refl].
    replace (minus_pages (data_frames a) []) with (data_frames a); [by destruct a|].
    apply map_eq. intros v. by rewrite minus_pages_lookup by apply not_elem_of_nil.
  - intros pre x post a1 s1 Hpages (owned1 & -> & Hun).
    assert (x ∈ area_pages a) as Hin by (rewrite Hpages; set_solver).
    pose proof (proj1 (elem_of_area_pages a x Hwf) Hin) as Hr.
    rewrite Hpages in Hnd. apply NoDup_app in Hnd as (_ & Hx & _).
    eapply wp_unmap_one; [done|done|done| |destruct Hwf; lia|naive_solver|eauto].
    intros Hp. apply (Hx x Hp). set_solver.
  - intros a' s' (owned' & -> & Hun).
    assert (minus_pages (data_frames a) (area_pages a) = ∅) as ->; [|by eapply HQ].
    apply map_eq. intros v. rewrite lookup_empty. unfold minus_pages.
    apply map_lookup_filter_None. right. intros f Hv Hn. simpl in Hn. apply Hn.
    unfold area_ok in Hok. destruct (map_type a).
    + destruct Hok as [He _]. by rewrite He in Hv.
    + apply (proj1 Hok). by eexists.
Qed.

Lemma drop_area_empty a s : data_frames a = ∅ → drop_area a s = Ok (tt, s).
Proof. intros H. unfold drop_area, btree_values. by rewrite H. Qed.

(** What remains after an area was unmapped and removed. *)
Lemma ms_inv_remove lo owned s ms idx a owned' s' :
  ms_inv lo owned s ms → areas ms !! idx = Some a →
  area_unmapped lo owned s (page_table ms) (data_frames a) (area_pages a) owned' s' →
  ms_inv lo owned' s'
    {| page_table := page_table ms; areas := take idx (areas ms) ++ drop (S idx) (areas ms) |}.
Proof.
  intros Hi Ha [U1 U2 U3 U4 U5 U6].
  assert (∃ g : nat → nat, (∀ i j, g i = g j → i = j) ∧ (∀ i, g i ≠ idx) ∧
    ∀ i b, (take idx (areas ms) ++ drop (S idx) (areas ms)) !! i = Some b →
      areas ms !! g i = Some b) as (g & Hg & Hgne & Hlk).
  { exists (λ i, if decide (i < idx)%nat then i else S i). split_and!.
    - intros i j. repeat case_decide; lia.
    - intros i. case_decide; lia.
    - intros i b. rewrite <- delete_take_drop. case_decide.
      + by rewrite list_lookup_delete_lt.
      + by rewrite list_lookup_delete_ge by lia. }
  assert (∀ b, b ∈ take idx (areas ms) ++ drop (S idx) (areas ms) →
    ∃ j, areas ms !! j = Some b ∧ j ≠ idx) as Hel.
  { intros b [i Hb]%list_elem_of_lookup. exists (g i). split; [by apply Hlk|apply Hgne]. }
  split; simpl.
  - done.
  - intros b (j & Hb & _)%Hel. eapply (mi_wf _ _ _ _ Hi), list_elem_of_lookup_2, Hb.
  - intros b (j & Hb & Hj)%Hel.
    assert (b ∈ areas ms) as Hin by by eapply list_elem_of_lookup_2.
    pose proof (mi_ok _ _ _ _ Hi b Hin) as Hok. pose proof (mi_wf _ _ _ _ Hi b Hin) as Hbwf.
    assert (∀ v, v ∈ area_pages b → mapping (mem s') (page_table ms) v = mapping (mem s) (page_table ms) v) as Hm.
    { intros v Hv. rewrite U3 by (apply elem_of_area_pages in Hv; [destruct Hbwf; lia|done]).
      rewrite decide_False; [done|]. exact (mi_disj _ _ _ _ Hi j idx b a v Hb Ha Hj Hv). }
    unfold area_ok in *. destruct (map_type b).
    + destruct Hok as [? Hok]. split; [done|]. intros v Hv. rewrite Hm by done. auto.
    + destruct Hok as [Hd Hok]. split; [done|]. intros v f Hv.
      destruct (Hok v f Hv) as (? & ? & ?). rewrite Hm by (apply Hd; by eexists).
      split_and!; [|done..]. apply U2. split; [done|]. intros w _ Hw.
      destruct (mi_inj _ _ _ _ Hi j idx b a v w f Hb Ha Hv Hw). done.
  - intros i j b c v w f Hb%Hlk Hc%Hlk Hv Hw.
    destruct (mi_inj _ _ _ _ Hi _ _ _ _ _ _ _ Hb Hc Hv Hw) as [?%Hg ?]. done.
  - intros i j b c v Hb%Hlk Hc%Hlk Hij. eapply (mi_disj _ _ _ _ Hi); [done..|].
    intros ?%Hg. done.
Qed.

Lemma wp_remove_area lo owned s ms idx a Q :
  ms_inv lo owned s ms →
  find_index (λ b, range_l (vpn_range b) =? range_l (vpn_range a)) (areas ms) = Some idx →
  areas ms !! idx = Some a →
  (∀ owned' s',
     let ms' := {| page_table := page_table ms;
                   areas := take idx (areas ms) ++ drop (S idx) (areas ms) |} in
     ms_inv lo owned' s' ms' →
     area_unmapped lo owned s (page_table ms) (data_frames a) (area_pages a) owned' s' →
     Q ms' s') →
  wp (remove_area_with_start_vpn ms (range_l (vpn_range a))) Q s.
Proof.
  intros Hi Hidx Ha HQ. unfold remove_area_with_start_vpn. rewrite Hidx.
  assert (a ∈ areas ms) as Hin by by eapply list_elem_of_lookup_2.
  wp_steps. eapply wp_unwrap; [done|]. wp_steps.
  eapply wp_area_unmap; [apply Hi|by apply (mi_wf _ _ _ _ Hi)|by apply (mi_ok _ _ _ _ Hi)| |].
  { intros v w f Hv Hw. by destruct (mi_inj _ _ _ _ Hi _ _ _ _ _ _ _ Ha Ha Hv Hw). }
  intros owned' s' Hun. wp_steps. unfold wp at 1. rewrite drop_area_empty by done.
  wp_steps. eapply HQ; [by eapply ms_inv_remove|done].
Qed.

(** ** Copying a user space *)

Lemma mapping_translate m pt v f fl :
  mapping m pt v = Some (f, fl) → ∃ pte, translate m pt v = Some pte ∧ pte_ppn pte = f.
Proof.
  unfold mapping. destruct (translate m pt v) as [pte|]; simpl; [|done].
  destruct (is_valid pte); [|done]. intros [= <- _]. eauto.
Qed.

Lemma mapping_agree m m' pt v :
  pt_wf m pt → (∀ x, x ∈ frames pt → page_of m' x = page_of m x) →
  mapping m' pt v = mapping m pt v.
Proof. intros Hwf Hag. unfold mapping. by rewrite (proj2 (pt_wf_agree _ _ _ Hag Hwf)). Qed.

(** Writes to frames that are not tables of the space preserve its invariant. *)
Lemma ms_inv_agree lo owned s s' ms :
  ms_inv lo owned s ms → fa s' = fa s →
  (∀ x, x ∈ frames (page_table ms) → page_of (mem s') x = page_of (mem s) x) →
  ms_inv lo owned s' ms.
Proof.
  intros Hi Hfa Hag. pose proof (mi_pt _ _ _ _ Hi) as [P1 P2 P3 P4].
  assert (∀ v, mapping (mem s') (page_table ms) v = mapping (mem s) (page_table ms) v) as Hm
    by (intros; by apply mapping_agree).
  split; [|apply Hi| |apply Hi|apply Hi].
  - split; [by rewrite Hfa|by eapply pt_wf_agree|done|done].
  - intros a Ha. pose proof (mi_ok _ _ _ _ Hi a Ha) as Hok. unfold area_ok in *.
    destruct (map_type a); setoid_rewrite Hm; done.
Qed.

Section copy_pages.
Context (src dst : PageTable) (Ds Dd : gmap Z Z) (s0 : MM).
Context (Hsrc : ∀ v f, Ds !! v = Some f → ∃ fl, mapping (mem s0) src v = Some (f, fl)).
Context (Hdst : ∀ v f, Dd !! v = Some f → ∃ fl, mapping (mem s0) dst v = Some (f, fl)).
Context (Hwfs : pt_wf (mem s0) src) (Hwfd : pt_wf (mem s0) dst).
Context (Hinj : ∀ v w f, Dd !! v = Some f → Dd !! w = Some f → v = w).
Context (Hns : ∀ v f, Dd !! v = Some f → f ∉ frames src ∧ f ∉ frames dst).
Context (Hnd : ∀ v w f, Dd !! v = Some f → Ds !! w ≠ Some f).

Lemma wp_copy_pages pages :
  NoDup pages → (∀ v, v ∈ pages → is_Some (Ds !! v) ∧ is_Some (Dd !! v)) →
  wp (fold_m (copy_page src dst) tt pages)
    (λ _ s', fa s' = fa s0 ∧
       (∀ v f g, v ∈ pages → Ds !! v = Some f → Dd !! v = Some g →
          page_of (mem s') g = page_of (mem s0) f) ∧
       ∀ x, (∀ v, Dd !! v ≠ Some x) → page_of (mem s') x = page_of (mem s0) x) s0.
Proof.
  intros Hnodup Hdom.
  apply (wp_fold_m (λ pre _ s', fa s' = fa s0 ∧
       (∀ v f g, v ∈ pre → Ds !! v = Some f → Dd !! v = Some g →
          page_of (mem s') g = page_of (mem s0) f) ∧
       ∀ x, (∀ v, Dd !! v ≠ Some x) → page_of (mem s') x = page_of (mem s0) x)).
  { split_and!; [done| |done]. by intros v f g ?%elem_of_nil. }
  intros pre v post [] s Hpages (Hfa & Hdone & Hrest).
  destruct (Hdom v) as [[f Hf] [g Hg]]; [rewrite Hpages; set_solver|].
  assert (∀ pt w, pt_wf (mem s0) pt → (∀ v f, Dd !! v = Some f → f ∉ frames pt) →
    mapping (mem s) pt w = mapping (mem s0) pt w) as Hm.
  { intros pt w Hwf Hn. apply mapping_agree; [done|]. intros x Hx. apply Hrest.
    intros u Hu. by apply (Hn u x). }
  destruct (Hsrc v f Hf) as [fl1 H1], (Hdst v g Hg) as [fl2 H2].
  rewrite <- Hm in H1 by (done || naive_solver). rewrite <- Hm in H2 by (done || naive_solver).
  destruct (mapping_translate _ _ _ _ _ H1) as (p1 & T1 & <-).
  destruct (mapping_translate _ _ _ _ _ H2) as (p2 & T2 & <-).
  unfold copy_page. wp_steps. eapply wp_unwrap; [done|]. wp_steps. eapply wp_unwrap; [done|].
  wp_steps. split_and!; [done| |].
  - intros w f' g' Hw Hf' Hg'. simpl. apply elem_of_app in Hw as [Hw|Hw].
    + rewrite page_of_insert_ne; [by apply (Hdone w)|]. intros Heq.
      assert (v = w) as -> by (eapply Hinj; [exact Hg|by rewrite Heq]).
      rewrite Hpages in Hnodup. apply NoDup_app in Hnodup as (_ & Hn & _). apply (Hn w Hw). set_solver.
    + apply list_elem_of_singleton in Hw as ->. simplify_eq.
      rewrite page_of_insert. apply Hrest. intros u Hu. by apply (Hnd u v (pte_ppn p1)).
  - intros x Hx. simpl. rewrite page_of_insert_ne; [by apply Hrest|]. intros <-. by apply (Hx v).
Qed.
End copy_pages.

Definition TRAMPOLINE_VPN : Z := floor (VirtAddr_from TRAMPOLINE).

(** The new space [ms1], after the areas [pre] of the parent were copied. *)
Record fork_inv (lo : Z) (owned : gset Z) (s : MM) (pre : list MapArea)
    (ms1 : MemorySet) (owned1 : gset Z) (s1 : MM) : Prop := {
  fk_inv : ms_inv lo owned1 s1 ms1;
  fk_len : length (areas ms1) = length pre;
  fk_pages : ∀ x, x ∈ owned → page_of (mem s1) x = page_of (mem s) x;
  fk_owned : ∀ x, x ∈ owned1 ↔ x ∈ owned ∨ ms_holds ms1 x;
  fk_fresh : ∀ x, ms_holds ms1 x → x ∉ owned;
  fk_areas : ∀ i a b, pre !! i = Some a → areas ms1 !! i = Some b →
     vpn_range b = vpn_range a ∧ map_type b = map_type a ∧ map_perm b = map_perm a ∧
     ∀ v f, data_frames a !! v = Some f →
       ∃ g, data_frames b !! v = Some g ∧ page_of (mem s1) g = page_of (mem s) f;
  fk_unmapped : ∀ v, 0 <= v < 2 ^ 27 → v ≠ TRAMPOLINE_VPN → (∀ a, a ∈ pre → v ∉ area_pages a) →
     mapping (mem s1) (page_table ms1) v = None;
  fk_free : nfree (fa s) - 3 - 3 * lengthZ (pre ≫= area_pages) <= nfree (fa s1)
}.

(** The parent: a user space whose areas are all framed and avoid the trampoline. *)
Record user_space (lo : Z) (owned : gset Z) (s : MM) (usr : MemorySet) : Prop := {
  us_inv : ms_inv lo owned s usr;
  us_framed : ∀ a, a ∈ areas usr → map_type a = Framed;
  us_tramp : ∀ a, a ∈ areas usr → TRAMPOLINE_VPN ∉ area_pages a
}.

Lemma from_another_ok a :
  area_wf a → from_another a = Ok (with_frames a ∅).
Proof.
  intros (H1 & H2 & _). unfold from_another, SimpleRange_new.
  rewrite (proj2 (Z.leb_le _ _)) by lia. simpl. by destruct a as [[? ?] ? ? ?].
Qed.

Lemma wp_copy_area lo owned s usr pre a post ms1 owned1 s1 Q :
  user_space lo owned s usr → areas usr = pre ++ a :: post →
  fork_inv lo owned s pre ms1 owned1 s1 →
  3 + 3 * lengthZ (areas usr ≫= area_pages) <= nfree (fa s) →
  (∀ ms2 owned2 s2, fork_inv lo owned s (pre ++ [a]) ms2 owned2 s2 → Q ms2 s2) →
  wp (copy_area usr ms1 a) Q s1.
Proof.
  intros [Hu Hfr Htr] Hareas [F1 F2 F3 F4 F5 F6 F7 F8] Hfree HQ.
  assert (a ∈ areas usr) as Hin by (rewrite Hareas; set_solver).
  pose proof (mi_wf _ _ _ _ Hu a Hin) as Hwf. pose proof (mi_ok _ _ _ _ Hu a Hin) as Hok.
  assert (areas usr !! length pre = Some a) as Hidx by (rewrite Hareas; by apply list_lookup_middle).
  assert (∀ v, v ∈ area_pages a → mapping (mem s1) (page_table ms1) v = None) as Hun.
  { intros v Hv. apply F7.
    - apply elem_of_area_pages in Hv; [|done]. destruct Hwf. lia.
    - intros ->. by apply (Htr a).
    - intros b [i Hb]%list_elem_of_lookup Hvb.
      apply (mi_disj _ _ _ _ Hu i (length pre) b a v); [..|done|done]; [|done|].
      + rewrite Hareas. by apply lookup_app_l_Some.
      + apply lookup_lt_Some in Hb. lia. }
  assert (lengthZ (pre ≫= area_pages) + lengthZ (area_pages a) <= lengthZ (areas usr ≫= area_pages)) as Hcnt.
  { rewrite Hareas, bind_app, bind_cons. unfold lengthZ. rewrite !length_app. lia. }
  unfold copy_area. rewrite from_another_ok by done. wp_steps.
  unfold wp at 1. cbn [lift_result]. wp_steps.
  eapply wp_push; [done|done|done|done|change (area_pages (with_frames a ∅)) with (area_pages a); lia|].
  intros T D owned2 s2 pt2. cbv zeta. intros Hi2 Ham Htg HT Hsz. change (area_pages (with_frames a ∅)) with (area_pages a) in *.
  unfold area_targets in Htg. change (map_type (with_frames a ∅)) with (map_type a) in Htg.
  rewrite (Hfr a Hin) in Htg. subst D.
  unfold area_ok in Hok. rewrite (Hfr a Hin) in Hok. destruct Hok as [Hdom Hok].
  destruct Ham as [A1 A2 A3 A4 A5 A6 A7 A8 A9 A10 A11].
  assert (∀ x, x ∈ owned → x ∉ frames pt2) as Hnf2.
  { intros x Hx Hx2. apply (F5 x); [|done]. left. apply A4; [done|]. apply F4. auto. }
  assert (∀ x, x ∈ owned → page_of (mem s2) x = page_of (mem s) x) as Hpg2.
  { intros x Hx. rewrite A9; [auto|by apply Hnf2|]. intros v Hv.
    destruct (A6 v x Hv) as [Hn _]. apply Hn, F4. auto. }
  wp_steps. eapply wp_mono; [eapply (wp_copy_pages _ _ (data_frames a) T s2)|].
  - intros v f Hv. destruct (Hok v f Hv) as (_ & _ & Hm). eexists.
    rewrite (mapping_agree (mem s)); [exact Hm|apply Hu|].
    intros x Hx. apply Hpg2. by apply (inv_owned _ _ _ _ (mi_pt _ _ _ _ Hu)).
  - intros v f Hv. exists (Z.lor (map_perm a) PTE_V). simpl page_table.
    rewrite A8; [by rewrite Hv|]. assert (v ∈ area_pages a) as Hva by (apply HT; by eexists).
    apply elem_of_area_pages in Hva; [|done]. destruct Hwf. lia.
  - apply (pt_wf_agree (mem s)); [|apply Hu].
    intros x Hx. apply Hpg2. by apply (inv_owned _ _ _ _ (mi_pt _ _ _ _ Hu)).
  - apply A1.
  - intros v w f. apply A7.
  - intros v f Hv. destruct (A6 v f Hv) as (Hn & Hf & _). split; [|done].
    intros Hx. apply Hn, F4. left. by apply (inv_owned _ _ _ _ (mi_pt _ _ _ _ Hu)).
  - intros v w f Hv Hw. destruct (A6 v f Hv) as (Hn & _). destruct (Hok w f Hw) as (Ho & _).
    apply Hn, F4. auto.
  - by apply NoDup_area_pages.
  - intros v Hv. split; [by apply Hdom|by apply HT].
  - intros [] s3 (Hfa3 & Hcopied & Hsame). wp_steps. apply (HQ _ owned2). clear HQ.
    assert (∀ x, x ∈ owned1 → x ∉ frames pt2 → page_of (mem s3) x = page_of (mem s1) x) as Hpg3.
    { intros x Hx Hnx. rewrite Hsame; [|intros v Hv; by destruct (A6 v x Hv)].
      apply A9; [done|]. intros v Hv. by destruct (A6 v x Hv). }
    assert (∀ x, x ∈ frames pt2 → page_of (mem s3) x = page_of (mem s2) x) as Htb.
    { intros x Hx. apply Hsame. intros v Hv. by destruct (A6 v x Hv) as (_ & ? & _). }
    assert (∀ x, ms_holds {| page_table := pt2; areas := vec_push (areas ms1) (with_frames (with_frames a ∅) T) |} x ↔
      x ∈ frames pt2 ∨ (∃ b v, b ∈ areas ms1 ∧ data_frames b !! v = Some x) ∨ ∃ v, T !! v = Some x) as Hholds.
    { intros x. unfold ms_holds, vec_push. simpl. setoid_rewrite elem_of_app. setoid_rewrite list_elem_of_singleton.
      split; [intros [?|(b & v & [?| ->] & ?)]|intros [?|[(b & v & ? & ?)|[v ?]]]]; eauto 10. }
    split.
    + by apply (ms_inv_agree _ _ s2).
    + simpl. unfold vec_push. rewrite !length_app, F2. done.
    + intros x Hx. rewrite Hsame; [by apply Hpg2|]. intros v Hv. destruct (A6 v x Hv) as [Hn _].
      apply Hn, F4. auto.
    + intros x. rewrite A5, F4, Hholds. unfold ms_holds.
      pose proof (A3 x). naive_solver.
    + intros x [Hx|[Hx|[v Hv]]]%Hholds; intros Ho.
      * by apply (Hnf2 x).
      * apply (F5 x); [by right|done].
      * destruct (A6 v x Hv) as [Hn _]. apply Hn, F4. auto.
    + intros i b c Hb Hc. simpl in Hc. unfold vec_push in Hc.
      apply lookup_app_Some in Hb as [Hb|[Hge Hb]].
      * rewrite lookup_app_l in Hc by (apply lookup_lt_Some in Hb; lia).
        destruct (F6 i b c Hb Hc) as (? & ? & ? & Hcp). split_and!; [done..|].
        intros v f Hv. destruct (Hcp v f Hv) as (g & Hg & Hpg). exists g. split; [done|].
        assert (c ∈ areas ms1) as Hcin by by eapply list_elem_of_lookup_2.
        rewrite Hpg3; [done| |].
        -- apply F4. right. right. eauto.
        -- intros Hx. pose proof (mi_ok _ _ _ _ F1 c Hcin) as Hokc. unfold area_ok in Hokc.
           destruct (map_type c); [destruct Hokc as [He _]; by rewrite He in Hg|].
           destruct (proj2 Hokc v g Hg) as (Ho & Hn & _). by apply Hn, A4.
      * apply list_lookup_singleton_Some in Hb as [? ->].
        rewrite lookup_app_r in Hc by lia. apply list_lookup_singleton_Some in Hc as [? <-].
        split_and!; [done..|]. intros v f Hv. simpl.
        assert (v ∈ area_pages b) as Hvp by (apply Hdom; by eexists).
        destruct (proj2 (HT v) Hvp) as [g Hg]. exists g. split; [done|].
        rewrite (Hcopied v f g Hvp Hv Hg). apply Hpg2. by destruct (Hok v f Hv).
    + intros v Hr Hnt Hnp. simpl page_table.
      rewrite (mapping_agree (mem s2)) by (done || apply A1). rewrite A8 by done.
      destruct (T !! v) as [f|] eqn:HTv.
      * exfalso. apply (Hnp a); [set_solver|]. apply HT. by eexists.
      * apply F7; [done..|]. intros b Hb. apply Hnp. set_solver.
    + rewrite Hfa3, bind_app, bind_cons, app_nil_r. unfold lengthZ in *.
      rewrite length_app. lia.
Qed.

Lemma trampoline_vpn_ok : PageNum_from_Addr (VirtAddr_from TRAMPOLINE) = Ok TRAMPOLINE_VPN.
Proof. reflexivity. Qed.

Lemma strampoline_ppn k :
  aligned (PhysAddr_from k) = true →
  PageNum_from_Addr (PhysAddr_from k) = Ok (floor (PhysAddr_from k)) ∧
  0 <= floor (PhysAddr_from k) < 2 ^ 44.
Proof.
  intros H. unfold PageNum_from_Addr. rewrite H. split; [done|].
  rewrite PhysAddr_from_mod. unfold floor, PAGE_SIZE. zdiv.
Qed.

(** A new space with the trampoline mapped. *)
Lemma wp_new_with_trampoline lo owned s strampoline (Q : MemorySet → MM → Prop) :
  fa_inv lo (fa s) owned → 3 <= nfree (fa s) → aligned (PhysAddr_from strampoline) = true →
  (∀ ms1 owned1 s1, fork_inv lo owned s [] ms1 owned1 s1 →
     mapping (mem s1) (page_table ms1) TRAMPOLINE_VPN =
       Some (floor (PhysAddr_from strampoline), Z.lor (Z.lor PTE_R PTE_X) PTE_V) →
     Q ms1 s1) →
  wp (ms ← new_bare; map_trampoline strampoline ms) Q s.
Proof.
  intros Hfa Hfree Hal HQ. destruct (strampoline_ppn _ Hal) as [Hok Hr].
  unfold new_bare. wp_steps. eapply wp_PageTable_new; [done|lia|].
  intros p s1 Hp pt Hinv Hnone Hpg Hn He. wp_steps.
  unfold map_trampoline. rewrite trampoline_vpn_ok, Hok.
  wp_steps. unfold wp at 1. cbn [lift_result]. wp_steps. unfold wp at 1. cbn [lift_result].
  wp_steps. cbn [page_table areas].
  eapply wp_map; [done|lia|by vm_compute|done|by vm_compute|done|].
  intros owned' s' pt' Hinv' Hext Hn' Hm. wp_steps.
  destruct Hext as [E1 E2 E3 E4 E5 E6 E7].
  assert (∀ x, x ∈ frames pt' → x ∉ owned) as Hfresh.
  { intros x Hx Ho. assert (x ∈ frames pt) as Hxp by (apply E4; [done|set_solver]).
    apply list_elem_of_singleton in Hxp. by subst. }
  eapply HQ; [|by rewrite Hm by (by vm_compute); rewrite decide_True].
  split; simpl.
  - split; simpl; [done|by intros ? ?%elem_of_nil..| |]; done.
  - done.
  - intros x Hx. rewrite E5 by (intros ?; by apply (Hfresh x)). apply Hpg. by intros ->.
  - intros x. rewrite E3, elem_of_union, elem_of_singleton. unfold ms_holds. simpl.
    assert (p ∈ frames pt') by (apply E2; set_solver). set_solver.
  - intros x [Hx|(a & v & ?%elem_of_nil & _)]; [by apply Hfresh|done].
  - done.
  - intros v Hv Hne _. rewrite Hm by done. by rewrite decide_False.
  - unfold lengthZ. simpl. lia.
Qed.

Lemma wp_from_existed_user lo owned s usr strampoline :
  user_space lo owned s usr → aligned (PhysAddr_from strampoline) = true →
  3 + 3 * lengthZ (areas usr ≫= area_pages) <= nfree (fa s) →
  wp (from_existed_user strampoline usr)
    (λ ms' s', ∃ owned', fork_inv lo owned s (areas usr) ms' owned' s') s.
Proof.
  intros Hu Hal Hfree. unfold from_existed_user.
  assert (wp (ms ← new_bare; map_trampoline strampoline ms)
    (λ ms1 s1, ∃ owned1, fork_inv lo owned s [] ms1 owned1 s1) s) as Hbase.
  { eapply wp_new_with_trampoline; [apply (us_inv _ _ _ _ Hu)|unfold lengthZ in *; lia|done|eauto]. }
  apply wp_ok in Hbase as (ms1 & s1 & Hrun & owned1 & Hf1).
  unfold mbind, M_bind in Hrun |- *. unfold wp.
  destruct (new_bare s) as [[ms0 s0]|]; [|done]. rewrite Hrun.
  change (wp (fold_m (copy_area usr) ms1 (areas usr))
    (λ ms' s', ∃ owned', fork_inv lo owned s (areas usr) ms' owned' s') s1).
  apply (wp_fold_m (λ pre ms' s', ∃ owned', fork_inv lo owned s pre ms' owned' s')); [eauto|].
  intros pre a post ms2 s2 Hareas (owned2 & Hf2). eapply wp_copy_area; eauto.
Qed.

(** ** Properties *)

Lemma MapArea_new_ok start_va end_va ty perm :
  0 <= start_va < end_va → end_va <= 2 ^ 39 → 0 <= perm < 256 →
  ∃ a, MapArea_new start_va end_va ty perm = Ok a ∧ area_wf a ∧ data_frames a = ∅ ∧
    map_type a = ty ∧ map_perm a = perm ∧
    range_l (vpn_range a) = floor start_va ∧ range_r (vpn_range a) = ceil end_va.
Proof.
  intros Hs He Hp. pose proof (ceil_spec end_va) as Hc. pose proof (floor_page_offset start_va).
  pose proof (page_offset_range start_va). unfold PAGE_SIZE in *.
  assert (0 <= floor start_va <= ceil end_va ∧ ceil end_va <= 2 ^ 27) as Hr.
  { specialize (Hc ltac:(lia)). split; [|lia]. split; [unfold floor, PAGE_SIZE; zdiv|lia]. }
  unfold MapArea_new, SimpleRange_new. rewrite (proj2 (Z.leb_le _ _)) by lia. simpl.
  eexists. split; [done|]. unfold area_wf. simpl. split_and!; done || lia.
Qed.

(** [insert_framed_area], with the area it appends. *)
Lemma wp_insert_framed lo owned s ms start_va end_va perm (Q : MemorySet → MM → Prop) :
  ms_inv lo owned s ms → 0 <= start_va < end_va → end_va <= 2 ^ 39 → 0 <= perm < 256 →
  (∀ v, floor start_va <= v < ceil end_va → mapping (mem s) (page_table ms) v = None) →
  3 * (ceil end_va - floor start_va) <= nfree (fa s) →
  (∀ a T owned' s' pt', 
     let ms' := {| page_table := pt'; areas := areas ms ++ [with_frames a T] |} in
     ms_inv lo owned' s' ms' → area_wf a → map_type a = Framed → map_perm a = perm →
     range_l (vpn_range a) = floor start_va → range_r (vpn_range a) = ceil end_va →
     area_mapped lo perm owned s (page_table ms) T T owned' s' pt' →
     (∀ v, is_Some (T !! v) ↔ floor start_va <= v < ceil end_va) →
     Z.of_nat (size T) = ceil end_va - floor start_va → Q ms' s') →
  wp (insert_framed_area ms start_va end_va perm) Q s.
Proof.
  intros Hi Hs He Hp Hun Hfree HQ.
  destruct (MapArea_new_ok start_va end_va Framed perm Hs He Hp)
    as (a & Ha & Hwf & Hd & Hty & <- & Hl & Hr).
  assert (∀ v, v ∈ area_pages a ↔ floor start_va <= v < ceil end_va) as Hpg
    by (intros v; by rewrite elem_of_area_pages, Hl, Hr).
  assert (lengthZ (area_pages a) = ceil end_va - floor start_va) as Hlen.
  { unfold lengthZ, area_pages. rewrite range_items_seqZ, length_seqZ, Hl, Hr by (destruct Hwf; lia).
    destruct Hwf. lia. }
  unfold insert_framed_area. apply wp_bind. unfold wp at 1. unfold lift_result. rewrite Ha.
  eapply wp_push; [done..|intros v ?%Hpg; auto|lia|].
  intros T D owned' s' pt'. cbv zeta. intros Hi' Ham Htg HT Hsz.
  unfold area_targets in Htg. rewrite Hty in Htg. subst D.
  apply (HQ a T owned' s' pt'); try done.
  - intros v. by rewrite HT, Hpg.
  - rewrite Hsz, <- Hlen. done.
Qed.

(** [insert_framed_area] on a range of unmapped pages, with three frames free
    per page, does not panic: every page of the range is then mapped with the
    given permissions to a frame that nobody held before and whose bytes are all
    zero, every other page translates as before, no frame held by another owner
    is written, and the invariant of the address space is preserved. *)
Theorem insert_framed_area_correct lo owned s ms start_va end_va perm :
  ms_inv lo owned s ms → 0 <= start_va < end_va → end_va <= 2 ^ 39 → 0 <= perm < 256 →
  (∀ v, floor start_va <= v < ceil end_va → mapping (mem s) (page_table ms) v = None) →
  3 * (ceil end_va - floor start_va) <= nfree (fa s) →
  ∃ ms' s' owned' (D : gmap Z Z), insert_framed_area ms start_va end_va perm s = Ok (ms', s') ∧
    ms_inv lo owned' s' ms' ∧
    (∀ v, floor start_va <= v < ceil end_va → ∃ f, D !! v = Some f ∧ f ∉ owned ∧
       mapping (mem s') (page_table ms') v = Some (f, Z.lor perm PTE_V) ∧
       page_of (mem s') f = ∅) ∧
    (∀ v1 v2 f, D !! v1 = Some f → D !! v2 = Some f → v1 = v2) ∧
    (∀ v, 0 <= v < 2 ^ 27 → ¬ (floor start_va <= v < ceil end_va) →
       mapping (mem s') (page_table ms') v = mapping (mem s) (page_table ms) v) ∧
    (∀ x, x ∈ owned → x ∉ frames (page_table ms) → page_of (mem s') x = page_of (mem s) x).
Proof.
  intros Hi Hs He Hp Hun Hfree.
  pose (Q := λ ms' s', ∃ T owned', ms_inv lo owned' s' ms' ∧
    area_mapped lo perm owned s (page_table ms) T T owned' s' (page_table ms') ∧
    ∀ v, is_Some (T !! v) ↔ floor start_va <= v < ceil end_va).
  assert (wp (insert_framed_area ms start_va end_va perm) Q s)
    as (ms' & s' & Hok & T & owned' & Hi' & Ham & HT)%wp_ok.
  { eapply wp_insert_framed; [done..|]. intros a T owned' s' pt'. cbv zeta. intros. by exists T, owned'. }
  destruct Ham as [A1 A2 A3 A4 A5 A6 A7 A8 A9 A10 A11].
  exists ms', s', owned', T. split_and!; [done|done| |done| |].
  - intros v Hv. destruct (proj2 (HT v) Hv) as [f Hf]. exists f.
    destruct (A6 v f Hf) as (? & ? & ?). split_and!; [done..| |done].
    rewrite A8; [by rewrite Hf|]. pose proof (ceil_spec end_va ltac:(unfold PAGE_SIZE; lia)).
    unfold floor, PAGE_SIZE in *. zdiv.
  - intros v Hv Hn. rewrite A8 by done. destruct (T !! v) as [f|] eqn:Hf; [|done].
    destruct Hn. apply HT. by eexists.
  - intros x Hx Hf. apply A9; [auto|]. intros v Hv. by destruct (A6 v x Hv).
Qed.

(** [remove_area_with_start_vpn] of an area unmaps exactly its pages, returns
    each of its frames to the allocator, writes no frame but the tables of this
    space, and preserves the invariant for the remaining areas. *)
Theorem remove_area_correct lo owned s ms idx a :
  ms_inv lo owned s ms →
  find_index (λ b, range_l (vpn_range b) =? range_l (vpn_range a)) (areas ms) = Some idx →
  areas ms !! idx = Some a →
  ∃ ms' s' owned', remove_area_with_start_vpn ms (range_l (vpn_range a)) s = Ok (ms', s') ∧
    ms_inv lo owned' s' ms' ∧
    areas ms' = take idx (areas ms) ++ drop (S idx) (areas ms) ∧
    (∀ v, v ∈ area_pages a → mapping (mem s') (page_table ms') v = None) ∧
    (∀ v, 0 <= v < 2 ^ 27 → v ∉ area_pages a →
       mapping (mem s') (page_table ms') v = mapping (mem s) (page_table ms) v) ∧
    (∀ x, x ∈ owned' ↔ x ∈ owned ∧ ∀ v, data_frames a !! v ≠ Some x) ∧
    (∀ x, x ∉ frames (page_table ms) → page_of (mem s') x = page_of (mem s) x).
Proof.
  intros Hi Hidx Ha.
  pose (Q := λ ms' s', page_table ms' = page_table ms ∧
    areas ms' = take idx (areas ms) ++ drop (S idx) (areas ms) ∧ ∃ owned', ms_inv lo owned' s' ms' ∧
    area_unmapped lo owned s (page_table ms) (data_frames a) (area_pages a) owned' s').
  assert (wp (remove_area_with_start_vpn ms (range_l (vpn_range a))) Q s)
    as (ms' & s' & Hok & Hpt & Har & owned' & Hi' & [U1 U2 U3 U4 U5 U6])%wp_ok.
  { eapply wp_remove_area; [done..|]. intros owned' s'. cbv zeta. unfold Q. eauto. }
  assert (a ∈ areas ms) as Hin by by eapply list_elem_of_lookup_2.
  pose proof (mi_wf _ _ _ _ Hi a Hin) as Hwf.
  assert (∀ v x, data_frames a !! v = Some x → v ∈ area_pages a) as Hdom.
  { intros v x Hv. pose proof (mi_ok _ _ _ _ Hi a Hin) as Hok'. unfold area_ok in Hok'.
    destruct (map_type a); [destruct Hok' as [He _]; by rewrite He in Hv|].
    apply (proj1 Hok'). by eexists. }
  exists ms', s', owned'. rewrite Hpt. split_and!; [done..| | | |done].
  - intros v Hv. rewrite U3 by (apply elem_of_area_pages in Hv; [destruct Hwf; lia|done]).
    by rewrite decide_True.
  - intros v Hr Hv. rewrite U3 by done. by rewrite decide_False.
  - intros x. rewrite U2. naive_solver.
Qed.

(** [from_existed_user], the copy [fork] makes: when the parent's invariant
    holds and enough frames are free it succeeds; the child has the same areas
    with the same ranges, types and permissions, every page of the child holds a
    copy of the parent's page in a frame that was free before, and no frame in
    use before (the parent's, the kernel's, any other process's) is changed. *)
Theorem fork_copies_user_space lo owned s usr strampoline :
  user_space lo owned s usr → aligned (PhysAddr_from strampoline) = true →
  3 + 3 * lengthZ (areas usr ≫= area_pages) <= nfree (fa s) →
  ∃ child s' owned', from_existed_user strampoline usr s = Ok (child, s') ∧
    ms_inv lo owned' s' child ∧
    length (areas child) = length (areas usr) ∧
    (∀ i a b, areas usr !! i = Some a → areas child !! i = Some b →
       vpn_range b = vpn_range a ∧ map_type b = map_type a ∧ map_perm b = map_perm a ∧
       ∀ v f, data_frames a !! v = Some f →
         ∃ g, data_frames b !! v = Some g ∧ page_of (mem s') g = page_of (mem s) f) ∧
    (∀ x, ms_holds child x → x ∉ owned) ∧
    (∀ x, x ∈ owned → page_of (mem s') x = page_of (mem s) x).
Proof.
  intros Hu Hal Hfree.
  destruct (wp_ok _ _ _ (wp_from_existed_user _ _ _ _ _ Hu Hal Hfree))
    as (child & s' & Hok & owned' & [F1 F2 F3 F4 F5 F6 F7 F8]).
  exists child, s', owned'. split_and!; done.
Qed.

(** ** Witnesses *)

Definition demo_ms : MemorySet := {| page_table := demo_pt; areas := [] |}.
Definition demo_area : MapArea :=
  {| vpn_range := {| range_l := 0x10; range_r := 0x12 |}; data_frames := ∅;
     map_type := Framed; map_perm := Z.lor MP_R (Z.lor MP_W MP_U) |}.

Lemma demo_ms_inv : ms_inv 0x80500 {[0x80500]} demo_mm demo_ms.
Proof. split; simpl; [apply demo_inv|by intros ? ?%elem_of_nil..| |]; done. Qed.

(** A space with one framed area of two pages. *)
Lemma demo_one_area : ∃ ms s owned a,
  user_space 0x80500 owned s ms ∧ areas ms = [a] ∧ vpn_range a = vpn_range demo_area ∧
  100 <= nfree (fa s).
Proof.
  pose (Q := λ ms s, ∃ owned a, user_space 0x80500 owned s ms ∧ areas ms = [a] ∧
    vpn_range a = vpn_range demo_area ∧ 100 <= nfree (fa s)).
  assert (wp (push demo_ms demo_area None) Q demo_mm) as (ms & s & _ & HQ)%wp_ok.
  2: { destruct HQ as (owned & a & HQ). by exists ms, s, owned, a. }
  eapply wp_push; [apply demo_ms_inv|split_and!; by vm_compute|done|intros; apply demo_inv|by vm_compute|].
  intros T D owned' s' pt'. cbv zeta. intros Hi Ham _ _ Hsz. exists owned', (with_frames demo_area D).
  split_and!; [|done..|].
  - split; [done| |]; simpl; intros a ->%list_elem_of_singleton; [done|].
    rewrite elem_of_area_pages by (split_and!; by vm_compute). by vm_compute; intros [_ [=]].
  - pose proof (am_free _ _ _ _ _ _ _ _ _ _ Ham) as Hf. rewrite Hsz in Hf.
    change (nfree (fa demo_mm)) with 767 in Hf.
    change (length (area_pages demo_area)) with 2%nat in Hf. lia.
Qed.

Lemma insert_framed_area_correct_witness :
  ∃ ms' s', insert_framed_area demo_ms 0x10000 0x12000 22 demo_mm = Ok (ms', s') ∧
    ∃ f, mapping (mem s') (page_table ms') 0x11 = Some (f, 23).
Proof.
  destruct (insert_framed_area_correct 0x80500 {[0x80500]} demo_mm demo_ms 0x10000 0x12000 22)
    as (ms' & s' & o & D & Hok & _ & Hm & _);
    [apply demo_ms_inv|lia|lia|lia|intros; apply demo_inv|by vm_compute|].
  exists ms', s'. split; [exact Hok|].
  destruct (Hm 0x11) as (f & _ & _ & Hf & _); [by vm_compute|]. exists f. exact Hf.
Defined.

Lemma remove_area_correct_witness :
  ∃ ms s ms' s', remove_area_with_start_vpn ms 0x10 s = Ok (ms', s') ∧
    areas ms' = [] ∧ mapping (mem s') (page_table ms') 0x10 = None.
Proof.
  destruct demo_one_area as (ms & s & owned & a & [Hi _ _] & Ha & Hr & _).
  destruct (remove_area_correct 0x80500 owned s ms 0 a Hi) as (ms' & s' & o & Hok & _ & Har & Hun & _).
  - rewrite Ha. simpl. by rewrite Z.eqb_refl.
  - by rewrite Ha.
  - exists ms, s, ms', s'. rewrite Hr in Hok. split_and!; [exact Hok|by rewrite Har, Ha|].
    apply Hun. unfold area_pages. rewrite Hr. vm_compute. left.
Defined.

Lemma fork_copies_user_space_witness :
  ∃ usr s child s', from_existed_user 0x80210000 usr s = Ok (child, s') ∧
    length (areas child) = 1%nat.
Proof.
  destruct demo_one_area as (usr & s & owned & a & Hu & Ha & Hr & Hf).
  destruct (fork_copies_user_space 0x80500 owned s usr 0x80210000 Hu)
    as (child & s' & o & Hok & _ & Hlen & _).
  - by vm_compute.
  - rewrite Ha. assert (lengthZ ([a] ≫= area_pages) = 2) as ->; [|lia].
    unfold area_pages. simpl. by rewrite Hr.
  - exists usr, s, child, s'. rewrite Ha in Hlen. split; [exact Hok|exact Hlen].
Defined.
