(* ===== verification/Elf.v ===== *)
(** * Loading a program

    What [MemorySet::from_elf] ([os/src/mm/memory_set.rs]) builds from an ELF
    image: the pages of each loadable segment with the contents of the file and
    zeros behind them, the trampoline, and nothing else.  The definitions are
    those of [MemorySet]. *)

From S2P Require Import Prelude Address FrameAllocator PageTable MemorySet.

(** ** Writing a slice into a page *)

Lemma page_byte_write bs : ∀ p k j, 0 <= k → 0 <= j → Forall (λ b, 0 <= b < 256) bs →
  page_byte (page_write p k bs) j =
    if decide (k <= j < k + lengthZ bs) then bs !!! Z.to_nat (j - k) else page_byte p j.
Proof.
  unfold lengthZ. induction bs as [|b bs IH]; intros p k j Hk Hj Hb; cbn [page_write].
  - rewrite decide_False; [done|]. simpl. lia.
  - apply Forall_cons in Hb as [Hb Hbs]. rewrite IH, page_byte_set by (done || lia). cbn [length].
    destruct (decide (k = j)) as [->|Hne].
    + rewrite decide_False, decide_True by lia. by rewrite Z.sub_diag.
    + destruct (decide (k + 1 <= j < k + 1 + Z.of_nat (length bs))).
      * rewrite decide_True by lia. replace (Z.to_nat (j - k)) with (S (Z.to_nat (j - (k + 1)))) by lia. done.
      * by rewrite decide_False by lia.
Qed.

(** ** [copy_data] *)

(** The part of a slice that goes into page [j]. *)
Definition chunk (j : nat) (data : list Z) : list Z := take (Z.to_nat PAGE_SIZE) (drop (j * Z.to_nat PAGE_SIZE) data).

Section copy_data.
Context (pt : PageTable) (D : gmap Z Z) (m0 : gmap Z page).
Context (Hm : ∀ v f, D !! v = Some f → ∃ fl, mapping m0 pt v = Some (f, fl)).
Context (Hwf : pt_wf m0 pt).
Context (Hinj : ∀ v w f, D !! v = Some f → D !! w = Some f → v = w).
Context (Hnf : ∀ v f, D !! v = Some f → f ∉ frames pt).

Definition tables_kept (s : MM) : Prop := ∀ x, x ∈ frames pt → page_of (mem s) x = page_of m0 x.

(** The state after [data] has been copied to the pages from [vpn] on. *)
Definition slice_copied (vpn : Z) (data : list Z) (s s' : MM) : Prop :=
  fa s' = fa s ∧
  (∀ v f, vpn <= v → D !! v = Some f →
     page_of (mem s') f = page_write (page_of (mem s) f) 0 (chunk (Z.to_nat (v - vpn)) data)) ∧
  ∀ x, (∀ v, vpn <= v → D !! v ≠ Some x) → page_of (mem s') x = page_of (mem s) x.

Definition fill (f : Z) (data : list Z) (s : MM) : MM :=
  upd_mem (λ m, <[f := page_write (page_of m f) 0 (take (Z.to_nat PAGE_SIZE) data)]> m) s.

Lemma fill_page f data s x : page_of (mem (fill f data s)) x =
  if decide (x = f) then page_write (page_of (mem s) f) 0 (take (Z.to_nat PAGE_SIZE) data) else page_of (mem s) x.
Proof. case_decide; subst; [apply page_of_insert|by apply page_of_insert_ne]. Qed.

Lemma copy_data_page n vpn data s f : tables_kept s → D !! vpn = Some f →
  copy_data_loop n pt vpn data s =
  match n with
  | O => mret tt
  | S n => if decide (drop (Z.to_nat PAGE_SIZE) data = []) then mret tt
           else copy_data_loop n pt (step vpn) (drop (Z.to_nat PAGE_SIZE) data)
  end (fill f data s).
Proof.
  intros Hag Hf. destruct (Hm vpn f Hf) as [fl Hmap]. rewrite <- (mapping_agree _ (mem s) _ _ Hwf Hag) in Hmap.
  destruct (mapping_translate _ _ _ _ _ Hmap) as (pte & Htr & <-).
  destruct n; cbn [copy_data_loop]; unfold mbind, M_bind, get, unwrap, modify; by rewrite Htr.
Qed.

Lemma chunk_S data j : chunk (S j) data = chunk j (drop (Z.to_nat PAGE_SIZE) data).
Proof. unfold chunk. rewrite drop_drop. do 2 f_equal. Qed.

Lemma slice_copied_last vpn data s f : D !! vpn = Some f → drop (Z.to_nat PAGE_SIZE) data = [] → slice_copied vpn data s (fill f data s).
Proof.
  intros Hf Hd. split_and!; [done| |].
  - intros v g Hv Hg. rewrite fill_page. case_decide as E.
    + subst. assert (v = vpn) as -> by by apply (Hinj _ _ f). by rewrite Z.sub_diag.
    + assert (v ≠ vpn) by (intros ->; congruence). replace (Z.to_nat (v - vpn)) with (S (Z.to_nat (v - vpn - 1))) by lia.
      rewrite chunk_S, Hd. unfold chunk. by rewrite drop_nil.
  - intros x Hx. rewrite fill_page, decide_False; [done|]. intros ->. by apply (Hx vpn).
Qed.

Lemma slice_copied_step vpn data s s' f : D !! vpn = Some f →
  slice_copied (vpn + 1) (drop (Z.to_nat PAGE_SIZE) data) (fill f data s) s' → slice_copied vpn data s s'.
Proof.
  intros Hf (Hfa & Hpg & Hrest). split_and!; [done| |].
  - intros v g Hv Hg. destruct (decide (v = vpn)) as [->|Hne].
    + assert (g = f) as -> by congruence. rewrite Hrest, fill_page, decide_True, Z.sub_diag; [done|done|].
      intros w Hw Hwf'. assert (w = vpn) by by apply (Hinj _ _ f). lia.
    + rewrite (Hpg v g) by (done || lia). rewrite fill_page, decide_False by (intros ->; by apply Hne, (Hinj _ _ f)).
      replace (Z.to_nat (v - vpn)) with (S (Z.to_nat (v - (vpn + 1)))) by lia. by rewrite chunk_S.
  - intros x Hx. rewrite Hrest by (intros v Hv; apply Hx; lia). rewrite fill_page, decide_False; [done|].
    intros ->. by apply (Hx vpn).
Qed.

Lemma wp_copy_data_loop n : ∀ vpn data s, tables_kept s → 0 <= vpn → vpn + Z.of_nat n < 2 ^ 63 →
  (length data <= S n * Z.to_nat PAGE_SIZE)%nat →
  (∀ j, 0 <= j → j * PAGE_SIZE < Z.max 1 (lengthZ data) → is_Some (D !! (vpn + j))) →
  wp (copy_data_loop n pt vpn data) (λ _ s', slice_copied vpn data s s') s.
Proof.
  assert (0 < Z.to_nat PAGE_SIZE)%nat as HPS by (unfold PAGE_SIZE; lia).
  induction n as [|n IH]; intros vpn data s Hag Hv Hvn Hlen Hdom; unfold wp;
    (destruct (Hdom 0) as [f Hf]; [lia|lia|]); rewrite Z.add_0_r in Hf; rewrite (copy_data_page _ _ _ _ f Hag Hf).
  - apply slice_copied_last; [done|]. apply length_zero_iff_nil. rewrite length_drop. lia.
  - case_decide as Hd; [by apply slice_copied_last|].
    assert (Z.to_nat PAGE_SIZE < length data)%nat as Hlong.
    { destruct (decide (length data <= Z.to_nat PAGE_SIZE)%nat); [|lia]. destruct Hd. apply length_zero_iff_nil. rewrite length_drop. lia. }
    assert (step vpn = vpn + 1) as -> by (unfold step; apply wrap_small; lia).
    eapply wp_mono; [apply (IH (vpn + 1) (drop (Z.to_nat PAGE_SIZE) data) (fill f data s))|].
    + intros x Hx. rewrite fill_page, decide_False; [by apply Hag|]. intros ->. by apply (Hnf vpn f).
    + lia.
    + lia.
    + rewrite length_drop. lia.
    + intros j Hj Hlt. replace (vpn + 1 + j) with (vpn + (1 + j)) by lia. apply Hdom; [lia|].
      unfold lengthZ in *. rewrite length_drop in Hlt. unfold PAGE_SIZE in *. lia.
    + intros [] s'. by apply slice_copied_step.
Qed.
End copy_data.

(** [push] of an area with data. *)
Lemma wp_push_data lo owned s ms a data Q :
  ms_inv lo owned s ms → area_wf a → data_frames a = ∅ → map_type a = Framed → range_l (vpn_range a) < range_r (vpn_range a) →
  (∀ v, v ∈ area_pages a → mapping (mem s) (page_table ms) v = None) →
  3 * lengthZ (area_pages a) <= nfree (fa s) →
  lengthZ data <= (range_r (vpn_range a) - range_l (vpn_range a)) * PAGE_SIZE →
  (∀ T owned' s1 s' pt',
     let ms' := {| page_table := pt'; areas := vec_push (areas ms) (with_frames a T) |} in
     ms_inv lo owned' s' ms' →
     area_mapped lo (map_perm a) owned s (page_table ms) T T owned' s1 pt' →
     (∀ v, is_Some (T !! v) ↔ v ∈ area_pages a) → size T = length (area_pages a) →
     slice_copied T (range_l (vpn_range a)) data s1 s' → Q ms' s') →
  wp (push ms a (Some data)) Q s.
Proof.
  intros Hi Hwf Hd Hty Hne Hun Hfree Hdata HQ. unfold push. wp_steps.
  eapply wp_area_map; [apply Hi|done..|].
  intros T D owned' s1 pt' Ham Htg HT Hsz. unfold area_targets in Htg. rewrite Hty in Htg. subst D.
  pose proof (ms_inv_push _ _ _ _ _ _ _ _ _ _ Hi Hwf Hun Ham ltac:(unfold area_targets; by rewrite Hty) HT) as Hi1.
  pose proof Ham as [A1 A2 A3 A4 A5 A6 A7 A8 A9 A10 A11].
  wp_steps. cbn [fst snd]. unfold copy_data. wp_steps. eapply wp_assert; [by apply bool_decide_eq_true|]. wp_steps.
  change (vpn_range (with_frames a T)) with (vpn_range a). destruct Hwf as (W1 & W2 & W3).
  assert (∀ v, v ∈ area_pages a ↔ range_l (vpn_range a) <= v < range_r (vpn_range a)) as Hpages
    by (intros v; apply elem_of_area_pages; exact (conj W1 (conj W2 W3))).
  eapply wp_mono; [eapply (wp_copy_data_loop pt' T (mem s1))|].
  - intros v f Hv. exists (Z.lor (map_perm a) PTE_V). rewrite A8; [by rewrite Hv|].
    assert (v ∈ area_pages a) as Hin%Hpages by (apply HT; by eexists). lia.
  - apply A1.
  - intros v w f. apply A7.
  - intros v f Hv. by destruct (A6 v f Hv) as (_ & ? & _).
  - done.
  - lia.
  - unfold lengthZ, PAGE_SIZE in *. assert (length data / Z.to_nat 4096 <= length data)%nat by (apply Nat.Div0.div_le_upper_bound; nia). lia.
  - pose proof (Nat.div_mod (length data) (Z.to_nat PAGE_SIZE) ltac:(unfold PAGE_SIZE; lia)).
    pose proof (Nat.mod_upper_bound (length data) (Z.to_nat PAGE_SIZE) ltac:(unfold PAGE_SIZE; lia)). lia.
  - intros j Hj Hlt. apply HT, Hpages. unfold PAGE_SIZE in *. lia.
  - intros [] s' Hc. wp_steps. apply (HQ T owned' s1 s' pt'); try done.
    destruct Hc as (Hfa & _ & Hrest). apply (ms_inv_agree _ _ s1); [done..|]. intros x Hx. apply Hrest.
    intros v _ Hv. by destruct (A6 v x Hv) as (_ & ? & _).
Qed.

(** ** Segments *)

(** The pages of a segment and its contents in the file. *)
Definition seg_lo (ph : ProgramHeader) : Z := floor (VirtAddr_from (ph_vaddr ph)).
Definition seg_hi (ph : ProgramHeader) : Z := ceil (VirtAddr_from (wrap64 (ph_vaddr ph + ph_memsz ph))).
Definition seg_data (elf : ElfFile) (ph : ProgramHeader) : list Z :=
  take (Z.to_nat (ph_filesz ph)) (drop (Z.to_nat (ph_offset ph)) (elf_input elf)).

(** A segment that lies below the trampoline, is not empty, and whose contents
    are in the file and fit its pages. *)
Record seg_ok (elf : ElfFile) (ph : ProgramHeader) : Prop := {
  sg_va : 0 <= ph_vaddr ph ∧ 0 < ph_memsz ph ∧ ph_vaddr ph + ph_memsz ph <= TRAMPOLINE_VPN * PAGE_SIZE;
  sg_file : 0 <= ph_offset ph ∧ 0 <= ph_filesz ph ∧ ph_offset ph + ph_filesz ph <= lengthZ (elf_input elf);
  sg_fits : ph_filesz ph <= (seg_hi ph - seg_lo ph) * PAGE_SIZE
}.

Definition loads (elf : ElfFile) : list ProgramHeader := filter (λ ph, ph_load ph = true) (elf_phs elf).
Definition seg_pages (phs : list ProgramHeader) : Z := foldr (λ ph n, seg_hi ph - seg_lo ph + n) 0 phs.

Record elf_ok (elf : ElfFile) : Prop := {
  eo_magic : elf_magic elf = [0x7f; 0x45; 0x4c; 0x46];
  eo_input : Forall (λ b, 0 <= b < 256) (elf_input elf) ∧ lengthZ (elf_input elf) < 2 ^ 64;
  eo_segs : ∀ ph, ph ∈ loads elf → seg_ok elf ph;
  eo_disj : ∀ i j p q, loads elf !! i = Some p → loads elf !! j = Some q → i ≠ j → seg_hi p <= seg_lo q ∨ seg_hi q <= seg_lo p
}.

Lemma seg_range elf ph : seg_ok elf ph → 0 <= seg_lo ph < seg_hi ph ∧ seg_hi ph <= TRAMPOLINE_VPN ∧
  MapArea_new (VirtAddr_from (ph_vaddr ph)) (VirtAddr_from (wrap64 (ph_vaddr ph + ph_memsz ph))) Framed (elf_perm ph) =
    Ok {| vpn_range := {| range_l := seg_lo ph; range_r := seg_hi ph |}; data_frames := ∅; map_type := Framed; map_perm := elf_perm ph |}.
Proof.
  intros [(V1 & V2 & V3) _ _]. change TRAMPOLINE_VPN with (2 ^ 27 - 1) in *. unfold PAGE_SIZE in V3.
  unfold seg_lo, seg_hi, MapArea_new, SimpleRange_new. rewrite !VirtAddr_from_mod, (wrap_small 64) by lia.
  rewrite !(Z.mod_small _ (2 ^ 39)) by lia. pose proof (ceil_spec (ph_vaddr ph + ph_memsz ph) ltac:(unfold PAGE_SIZE; lia)) as Hc.
  unfold PAGE_SIZE in Hc. assert (floor (ph_vaddr ph) * 4096 <= ph_vaddr ph ∧ 0 <= floor (ph_vaddr ph)) as [Hf Hf0]
    by (unfold floor, PAGE_SIZE; zdiv).
  split; [lia|]. split; [lia|]. rewrite (proj2 (Z.leb_le _ _)) by lia. done.
Qed.

Lemma elf_perm_range ph : 0 <= elf_perm ph < 256.
Proof. unfold elf_perm. by destruct (ph_read ph), (ph_write ph), (ph_execute ph); vm_compute. Qed.

(** ** The space while the segments are loaded *)

(** Byte [k] of page [v] of a segment. *)
Definition seg_byte (elf : ElfFile) (ph : ProgramHeader) (v k : Z) : Z :=
  default 0 (seg_data elf ph !! Z.to_nat ((v - seg_lo ph) * PAGE_SIZE + k)).

Record loaded (lo : Z) (owned : gset Z) (s : MM) (elf : ElfFile) (strampoline : Z) (pre : list ProgramHeader)
    (ms1 : MemorySet) (owned1 : gset Z) (s1 : MM) : Prop := {
  ld_inv : ms_inv lo owned1 s1 ms1;
  ld_areas : ∀ a, a ∈ areas ms1 → map_type a = Framed ∧ range_l (vpn_range a) < range_r (vpn_range a) ∧ TRAMPOLINE_VPN ∉ area_pages a;
  ld_pages : ∀ x, x ∈ owned → page_of (mem s1) x = page_of (mem s) x;
  ld_owned : ∀ x, x ∈ owned1 ↔ x ∈ owned ∨ ms_holds ms1 x;
  ld_fresh : ∀ x, ms_holds ms1 x → x ∉ owned;
  ld_segs : ∀ ph v, ph ∈ pre → seg_lo ph <= v < seg_hi ph →
     ∃ f, mapping (mem s1) (page_table ms1) v = Some (f, Z.lor (elf_perm ph) PTE_V) ∧ ms_holds ms1 f ∧ f ∉ frames (page_table ms1) ∧
       ∀ k, 0 <= k < PAGE_SIZE → get_byte (mem s1) f k = seg_byte elf ph v k;
  ld_tramp : mapping (mem s1) (page_table ms1) TRAMPOLINE_VPN =
     Some (floor (PhysAddr_from strampoline), Z.lor (Z.lor PTE_R PTE_X) PTE_V);
  ld_unmapped : ∀ v, 0 <= v < 2 ^ 27 → v ≠ TRAMPOLINE_VPN → (∀ ph, ph ∈ pre → ¬ (seg_lo ph <= v < seg_hi ph)) →
     mapping (mem s1) (page_table ms1) v = None;
  ld_free : nfree (fa s) - 3 - 3 * seg_pages pre <= nfree (fa s1)
}.

(** A page that [copy_data] has filled. *)
Lemma filled_page data j k : Forall (λ b, 0 <= b < 256) data → 0 <= j → 0 <= k < PAGE_SIZE →
  page_byte (page_write ∅ 0 (chunk (Z.to_nat j) data)) k = default 0 (data !! Z.to_nat (j * PAGE_SIZE + k)).
Proof.
  intros Hb Hj Hk. unfold chunk. rewrite page_byte_write; [|lia..|by apply Forall_take, Forall_drop].
  unfold lengthZ. rewrite length_take, length_drop, Z.add_0_l, Z.sub_0_r.
  assert (Z.to_nat (j * PAGE_SIZE + k) = Z.to_nat j * Z.to_nat PAGE_SIZE + Z.to_nat k)%nat as -> by (unfold PAGE_SIZE in *; lia).
  case_decide as Hd.
  - destruct (lookup_lt_is_Some_2 data (Z.to_nat j * Z.to_nat PAGE_SIZE + Z.to_nat k)) as [b Hb']; [lia|]. rewrite Hb'. simpl.
    apply list_lookup_total_correct. rewrite lookup_take_lt by lia. by rewrite lookup_drop.
  - rewrite lookup_ge_None_2 by lia. unfold page_byte. rewrite lookup_empty. simpl. unfold byte_of_word. by rewrite Z.shiftr_0_l.
Qed.

Lemma loaded_push lo owned s elf strampoline pre ph ms1 owned1 s1 T owned2 s2 s3 pt2 a :
  loaded lo owned s elf strampoline pre ms1 owned1 s1 → (∀ q, q ∈ pre ++ [ph] → seg_ok elf q) → Forall (λ b, 0 <= b < 256) (elf_input elf) →
  (∀ q, q ∈ pre → seg_hi q <= seg_lo ph ∨ seg_hi ph <= seg_lo q) →
  a = {| vpn_range := {| range_l := seg_lo ph; range_r := seg_hi ph |}; data_frames := T; map_type := Framed; map_perm := elf_perm ph |} →
  ms_inv lo owned2 s3 {| page_table := pt2; areas := vec_push (areas ms1) a |} →
  area_mapped lo (elf_perm ph) owned1 s1 (page_table ms1) T T owned2 s2 pt2 →
  (∀ v, is_Some (T !! v) ↔ seg_lo ph <= v < seg_hi ph) → Z.of_nat (size T) = seg_hi ph - seg_lo ph →
  slice_copied T (seg_lo ph) (seg_data elf ph) s2 s3 →
  loaded lo owned s elf strampoline (pre ++ [ph]) {| page_table := pt2; areas := vec_push (areas ms1) a |} owned2 s3.
Proof.
  intros [L1 L2 L3 L4 L5 L6 L7 L8 L9] Hok Hbytes Hdisj -> Hi [A1 A2 A3 A4 A5 A6 A7 A8 A9 A10 A11] HT Hsz (C1 & C2 & C3).
  destruct (seg_range elf ph (Hok ph ltac:(set_solver))) as (R1 & R2 & _). assert (TRAMPOLINE_VPN = 2 ^ 27 - 1) as Htv by done.
  set (ms2 := {| page_table := pt2; areas := _ |}) in *.
  assert (∀ x, ms_holds ms2 x ↔ x ∈ frames pt2 ∨ (∃ b v, b ∈ areas ms1 ∧ data_frames b !! v = Some x) ∨ ∃ v, T !! v = Some x) as Hholds.
  { intros x. unfold ms_holds, ms2, vec_push. simpl. setoid_rewrite elem_of_app. setoid_rewrite list_elem_of_singleton.
    split; [intros [?|(b & v & [?| ->] & ?)]|intros [?|[(b & v & ? & ?)|[v ?]]]]; eauto 10. }
  assert (∀ x, x ∈ frames pt2 → page_of (mem s3) x = page_of (mem s2) x) as Htb.
  { intros x Hx. apply C3. intros v _ Hv. by destruct (A6 v x Hv) as (_ & ? & _). }
  assert (∀ v, 0 <= v < 2 ^ 27 → mapping (mem s3) pt2 v =
    match T !! v with Some f => Some (f, Z.lor (elf_perm ph) PTE_V) | None => mapping (mem s1) (page_table ms1) v end) as Hmap.
  { intros v Hv. rewrite (mapping_agree (mem s2)) by (done || apply A1). by apply A8. }
  assert (∀ x, x ∈ owned1 → x ∉ frames (page_table ms1) → x ∉ frames pt2 ∧ page_of (mem s3) x = page_of (mem s1) x) as Hold.
  { intros x Hx Hn. assert (x ∉ frames pt2) as Hn2 by (intros ?; by apply Hn, A4). split; [done|].
    rewrite C3 by (intros v _ Hv; by destruct (A6 v x Hv)). apply A9; [done|]. intros v Hv. by destruct (A6 v x Hv). }
  split; [done|..].
  - intros b [Hb|Hb%list_elem_of_singleton]%elem_of_app; [by apply L2|]. subst b. split; [done|]. split; [simpl; lia|].
    rewrite elem_of_area_pages by (split_and!; simpl; try lia; apply elf_perm_range). simpl. lia.
  - intros x Hx. rewrite <- (L3 x Hx). apply Hold; [apply L4; auto|]. intros Hf. apply (L5 x); [by left|done].
  - intros x. rewrite A5, L4, Hholds. unfold ms_holds. pose proof (A3 x) as A3x. clear -A3x. naive_solver.
  - intros x [Hx|[Hx|[v Hv]]]%Hholds Ho.
    + apply (L5 x); [|done]. left. apply A4; [done|]. apply L4. auto.
    + apply (L5 x); [by right|done].
    + destruct (A6 v x Hv) as [Hn _]. apply Hn, L4. auto.
  - intros q v [Hq|Hq%list_elem_of_singleton]%elem_of_app Hv.
    + destruct (L6 q v Hq Hv) as (f & Hf & Hh & Hnf & Hb).
      assert (T !! v = None) as HTv by (apply eq_None_not_Some; intros ?%HT; destruct (Hdisj q Hq); lia).
      destruct (seg_range elf q (Hok q ltac:(set_solver))) as (Q1 & Q2 & _).
      exists f. destruct (Hold f) as [Hn2 Hpg]; [apply L4; auto|done|]. split_and!; [|by apply Hholds; destruct Hh; [|auto]|done|].
      * unfold ms2. simpl. rewrite Hmap by lia. by rewrite HTv.
      * intros k Hk. unfold get_byte. rewrite Hpg. by apply Hb.
    + subst q. destruct (proj2 (HT v) Hv) as [f Hf]. destruct (A6 v f Hf) as (_ & Hnf & Hz). exists f. split_and!; [|apply Hholds; eauto|done|].
      * unfold ms2. simpl. rewrite Hmap by lia. by rewrite Hf.
      * intros k Hk. unfold get_byte. rewrite (C2 v f) by (done || lia). rewrite Hz. unfold seg_byte.
        apply filled_page; [|lia|done]. by apply Forall_take, Forall_drop.
  - unfold ms2. simpl. rewrite Hmap by lia. destruct (T !! TRAMPOLINE_VPN) as [f|] eqn:E; [|done].
    exfalso. assert (seg_lo ph <= TRAMPOLINE_VPN < seg_hi ph) by (apply HT; by eexists). lia.
  - intros v Hv Hne Hn. unfold ms2. simpl. rewrite Hmap by done. destruct (T !! v) as [f|] eqn:E.
    + exfalso. apply (Hn ph); [set_solver|]. apply HT. by eexists.
    + apply L8; [done..|]. intros q Hq. apply Hn. set_solver.
  - rewrite C1. unfold seg_pages in *. rewrite foldr_app. simpl.
    assert (∀ z, foldr (λ ph n, seg_hi ph - seg_lo ph + n) z pre = foldr (λ ph n, seg_hi ph - seg_lo ph + n) 0 pre + z) as ->; [|lia].
    clear. intros z. induction pre as [|q pre IH]; simpl; [done|]. rewrite IH. lia.
Qed.

Lemma seg_data_len elf ph : seg_ok elf ph → lengthZ (seg_data elf ph) = ph_filesz ph.
Proof. intros [_ (F1 & F2 & F3) _]. unfold seg_data, lengthZ in *. rewrite length_take, length_drop. lia. Qed.

Lemma wp_load_segment lo owned s elf strampoline pre ph ms1 owned1 s1 e Q :
  loaded lo owned s elf strampoline pre ms1 owned1 s1 → elf_ok elf → (∀ q, q ∈ pre ++ [ph] → seg_ok elf q) → ph_load ph = true →
  (∀ q, q ∈ pre → seg_hi q <= seg_lo ph ∨ seg_hi ph <= seg_lo q) →
  3 + 3 * (seg_pages pre + (seg_hi ph - seg_lo ph)) <= nfree (fa s) →
  (∀ ms2 owned2 s2, loaded lo owned s elf strampoline (pre ++ [ph]) ms2 owned2 s2 → Q (ms2, seg_hi ph) s2) →
  wp (load_segment strampoline elf (ms1, e) ph) Q s1.
Proof.
  intros Hl He Hok Hld Hdisj Hfree HQ. pose proof (Hok ph ltac:(set_solver)) as Hph.
  destruct (seg_range elf ph Hph) as (R1 & R2 & Hnew). pose proof (seg_data_len elf ph Hph) as Hlen.
  destruct Hph as [_ (F1 & F2 & F3) F4]. destruct (eo_input _ He) as [Hbytes Hsz].
  unfold load_segment. rewrite Hld. cbv zeta. wp_steps. eapply wp_lift_result; [exact Hnew|]. wp_steps.
  rewrite wrap_small by lia. rewrite (proj2 (Z.leb_le (ph_offset ph) _)), (proj2 (Z.leb_le _ (lengthZ _))) by lia. cbn [andb].
  wp_steps. replace (ph_offset ph + ph_filesz ph - ph_offset ph) with (ph_filesz ph) by lia.
  change (take _ (drop _ _)) with (seg_data elf ph). cbn [fst].
  set (a := {| vpn_range := _; data_frames := _; map_type := _; map_perm := _ |}).
  assert (TRAMPOLINE_VPN = 2 ^ 27 - 1) as Htv by done.
  assert (area_wf a) as Hwf by (split_and!; simpl; try lia; apply elf_perm_range).
  assert (∀ v, v ∈ area_pages a ↔ seg_lo ph <= v < seg_hi ph) as Hpg by (intros v; by apply (elem_of_area_pages a)).
  assert (lengthZ (area_pages a) = seg_hi ph - seg_lo ph) as Hcnt.
  { unfold lengthZ, area_pages. rewrite range_items_seqZ, length_seqZ by (simpl; lia). simpl. lia. }
  eapply wp_push_data; [apply Hl|done|done|done|simpl; lia| | |simpl; lia|].
  - intros v Hv%Hpg. apply (ld_unmapped _ _ _ _ _ _ _ _ _ Hl); [lia|lia|]. intros q Hq ?. destruct (Hdisj q Hq); lia.
  - pose proof (ld_free _ _ _ _ _ _ _ _ _ Hl). lia.
  - intros T owned2 s2 s3 pt2. cbv zeta. intros Hi Ham HT Hsize Hc. wp_steps. apply (HQ _ owned2).
    apply (loaded_push lo owned s elf strampoline pre ph ms1 owned1 s1 T owned2 s2 s3 pt2 (with_frames a T)); try done.
    + intros v. by rewrite HT, Hpg.
    + rewrite Hsize. exact Hcnt.
Qed.

(** The end of the segment loaded last. *)
Definition last_end (phs : list ProgramHeader) : Z := default 0 (seg_hi <$> last phs).

Lemma seg_pages_app l l' : seg_pages (l ++ l') = seg_pages l + seg_pages l'.
Proof. unfold seg_pages. induction l as [|ph l IH]; simpl; [done|]. rewrite IH. lia. Qed.

Lemma seg_pages_nonneg elf l : (∀ ph, ph ∈ l → seg_ok elf ph) → 0 <= seg_pages l.
Proof.
  induction l as [|ph l IH]; intros H; [done|]. unfold seg_pages in *. simpl. destruct (seg_range elf ph (H ph ltac:(by left))) as ([? ?] & _).
  specialize (IH ltac:(intros q Hq; apply H; by right)). lia.
Qed.

Lemma wp_load_segments lo owned s elf strampoline ms1 owned1 s1 :
  loaded lo owned s elf strampoline [] ms1 owned1 s1 → elf_ok elf → 3 + 3 * seg_pages (loads elf) <= nfree (fa s) →
  wp (fold_m (load_segment strampoline elf) (ms1, 0) (elf_phs elf))
    (λ r s', snd r = last_end (loads elf) ∧ ∃ owned', loaded lo owned s elf strampoline (loads elf) (fst r) owned' s') s1.
Proof.
  intros Hl He Hfree.
  apply (wp_fold_m (λ pre r s', snd r = last_end (filter (λ ph, ph_load ph = true) pre) ∧
    ∃ owned', loaded lo owned s elf strampoline (filter (λ ph, ph_load ph = true) pre) (fst r) owned' s')); [split; [done|by exists owned1]|].
  intros pre ph post [ms2 e] s2 Hphs [Hlast (owned2 & Hl2)]. rewrite filter_app. destruct (ph_load ph) eqn:Hld.
  - rewrite (filter_cons_True _ ph []), filter_nil by done. cbn [fst] in Hl2.
    assert (loads elf = filter (λ ph, ph_load ph = true) pre ++ ph :: filter (λ ph, ph_load ph = true) post) as Hloads.
    { unfold loads. by rewrite Hphs, filter_app, filter_cons_True. }
    set (l := filter (λ ph, ph_load ph = true) pre) in *.
    eapply wp_load_segment; [done|done| |done| | |].
    + intros q Hq. apply (eo_segs _ He). rewrite Hloads. set_solver.
    + intros q [i Hi]%list_elem_of_lookup. pose proof (lookup_lt_Some _ _ _ Hi). apply (eo_disj _ He i (length l)); [| |lia].
      * rewrite Hloads. by apply lookup_app_l_Some.
      * rewrite Hloads. by apply list_lookup_middle.
    + pose proof (seg_pages_nonneg elf (filter (λ ph, ph_load ph = true) post)) as Hn. rewrite Hloads in Hfree.
      rewrite seg_pages_app in Hfree. unfold seg_pages in Hfree at 2. simpl in Hfree. fold (seg_pages (filter (λ ph, ph_load ph = true) post)) in Hfree.
      enough (0 <= seg_pages (filter (λ ph, ph_load ph = true) post)) by lia. apply Hn. intros q Hq. apply (eo_segs _ He). rewrite Hloads. set_solver.
    + intros ms3 owned3 s3 Hl3. unfold last_end. rewrite last_snoc. simpl. split; [done|by exists owned3].
  - rewrite (filter_cons_False _ ph []), filter_nil, app_nil_r by congruence. unfold load_segment. rewrite Hld. wp_steps.
    split; [done|by exists owned2].
Qed.

Lemma last_end_range elf : elf_ok elf → 0 <= last_end (loads elf) < 2 ^ 27.
Proof.
  intros He. unfold last_end. destruct (last (loads elf)) as [ph|] eqn:Hl; simpl; [|lia]. apply last_Some_elem_of in Hl.
  destruct (seg_range elf ph (eo_segs _ He ph Hl)) as (? & ? & _). change TRAMPOLINE_VPN with (2 ^ 27 - 1) in *. lia.
Qed.

Lemma wp_from_elf lo owned s elf strampoline :
  fa_inv lo (fa s) owned → elf_ok elf → aligned (PhysAddr_from strampoline) = true →
  3 + 3 * seg_pages (loads elf) <= nfree (fa s) →
  wp (from_elf strampoline (Some elf)) (λ r s', ∃ ms owned', r = (ms, (last_end (loads elf) + 1) * PAGE_SIZE, elf_entry elf) ∧
    loaded lo owned s elf strampoline (loads elf) ms owned' s') s.
Proof.
  intros Hfa He Hal Hfree. pose proof (seg_pages_nonneg elf (loads elf) (eo_segs _ He)) as Hnn.
  assert (wp (ms ← new_bare; map_trampoline strampoline ms)
    (λ ms1 s1, ∃ owned1, loaded lo owned s elf strampoline [] ms1 owned1 s1) s) as Hbase.
  { eapply wp_new_with_trampoline; [done|lia|done|]. intros ms1 owned1 s1 [F1 F2 F3 F4 F5 F6 F7 F8] Htr. exists owned1.
    assert (areas ms1 = []) as Ha by (by apply length_zero_iff_nil).
    split; try done; [rewrite Ha; by intros a ?%not_elem_of_nil|by intros ph v ?%not_elem_of_nil|..].
    - intros v Hv Hne _. apply F7; [done|done|]. by intros a ?%not_elem_of_nil. }
  apply wp_ok in Hbase as (ms1 & s1 & Hrun & owned1 & Hl1).
  unfold from_elf, wp. unfold mbind at 1 2, M_bind at 1 2. unfold mbind, M_bind in Hrun.
  destruct (new_bare s) as [[ms0 s0]|]; [|done]. rewrite Hrun.
  match goal with |- match ?m s1 with _ => _ end => change (wp m (λ r s', ∃ ms owned', r = (ms, (last_end (loads elf) + 1) * PAGE_SIZE, elf_entry elf) ∧
    loaded lo owned s elf strampoline (loads elf) ms owned' s') s1) end.
  wp_steps. eapply wp_unwrap; [done|]. wp_steps. eapply wp_assert; [by apply bool_decide_eq_true, He|]. wp_steps.
  eapply wp_mono; [by eapply wp_load_segments|]. intros [ms2 e] s2 [-> (owned2 & Hl2)]. wp_steps. exists ms2, owned2. split; [|done].
  pose proof (last_end_range elf He) as Hr. cbn [snd fst]. rewrite Addr_from_PageNum_small by lia.
  rewrite wrap_small by (unfold PAGE_SIZE; lia). do 2 f_equal. lia.
Qed.

(** C8: Loading a program.  For an image whose loadable segments are not empty,
    lie below the trampoline in pages of their own and have their contents in the
    file, with three frames free per page and three more, [from_elf] does not
    panic and gives a user space in which every byte of every segment's pages is
    the byte of the file, or zero behind the contents, in a frame that nobody held
    and with the permissions of the segment; a segment whose address is a page
    boundary starts at its address.  The trampoline is mapped, every other page
    is not, the user stack is to start one page above the segment loaded last,
    and no frame in use is changed. *)
Theorem elf_loaded lo owned s elf strampoline :
  fa_inv lo (fa s) owned → elf_ok elf → aligned (PhysAddr_from strampoline) = true →
  3 + 3 * seg_pages (loads elf) <= nfree (fa s) →
  ∃ ms s' owned', from_elf strampoline (Some elf) s = Ok ((ms, (last_end (loads elf) + 1) * PAGE_SIZE, elf_entry elf), s') ∧
    user_space lo owned' s' ms ∧
    (∀ ph i, ph ∈ loads elf → 0 <= i < (seg_hi ph - seg_lo ph) * PAGE_SIZE →
       let va := seg_lo ph * PAGE_SIZE + i in
       ∃ f, mapping (mem s') (page_table ms) (floor va) = Some (f, Z.lor (elf_perm ph) PTE_V) ∧ f ∉ owned ∧
         get_byte (mem s') f (page_offset va) = default 0 (seg_data elf ph !! Z.to_nat i)) ∧
    (∀ ph, ph ∈ loads elf → aligned (ph_vaddr ph) = true → seg_lo ph * PAGE_SIZE = ph_vaddr ph) ∧
    mapping (mem s') (page_table ms) TRAMPOLINE_VPN = Some (floor (PhysAddr_from strampoline), Z.lor (Z.lor PTE_R PTE_X) PTE_V) ∧
    (∀ v, 0 <= v < 2 ^ 27 → v ≠ TRAMPOLINE_VPN → (∀ ph, ph ∈ loads elf → ¬ (seg_lo ph <= v < seg_hi ph)) →
       mapping (mem s') (page_table ms) v = None) ∧
    (∀ x, x ∈ owned → page_of (mem s') x = page_of (mem s) x).
Proof.
  intros Hfa He Hal Hfree. destruct (wp_ok _ _ _ (wp_from_elf lo owned s elf strampoline Hfa He Hal Hfree)) as (r & s' & Hrun & ms & owned' & -> & Hl).
  exists ms, s', owned'. split; [exact Hrun|]. destruct Hl as [L1 L2 L3 L4 L5 L6 L7 L8 L9]. split_and!; [|..|done|done|done].
  - split; [done|intros a Ha; by apply L2..].
  - intros ph i Hph Hi. cbv zeta. destruct (seg_range elf ph (eo_segs _ He ph Hph)) as (R & _).
    assert (floor (seg_lo ph * PAGE_SIZE + i) = seg_lo ph + i / PAGE_SIZE ∧ page_offset (seg_lo ph * PAGE_SIZE + i) = i mod PAGE_SIZE) as [-> ->].
    { rewrite page_offset_mod. unfold floor, PAGE_SIZE in *. split; zdiv. }
    destruct (L6 ph (seg_lo ph + i / PAGE_SIZE) Hph) as (f & Hf & Hh & _ & Hb); [unfold PAGE_SIZE in *; zdiv|].
    exists f. split_and!; [done|by apply L5|]. rewrite Hb by (unfold PAGE_SIZE; zdiv). unfold seg_byte. do 3 f_equal.
    unfold PAGE_SIZE. zdiv.
  - intros ph Hph Ha. destruct (sg_va _ _ (eo_segs _ He ph Hph)) as (V1 & V2 & V3). change TRAMPOLINE_VPN with (2 ^ 27 - 1) in V3.
    unfold aligned in Ha. apply Z.eqb_eq in Ha. rewrite page_offset_mod in Ha. unfold seg_lo. rewrite VirtAddr_from_mod.
    unfold PAGE_SIZE, floor in *. rewrite Z.mod_small by lia. unfold PAGE_SIZE in *. zdiv.
Qed.

(** ** A program of two segments *)

Definition demo_text : ProgramHeader :=
  {| ph_load := true; ph_vaddr := 0x10000; ph_memsz := 6; ph_offset := 4; ph_filesz := 6;
     ph_read := true; ph_write := false; ph_execute := true |}.
Definition demo_data : ProgramHeader :=
  {| ph_load := true; ph_vaddr := 0x12000; ph_memsz := 0x1800; ph_offset := 8; ph_filesz := 2;
     ph_read := true; ph_write := true; ph_execute := false |}.
Definition demo_elf : ElfFile :=
  {| elf_magic := [0x7f; 0x45; 0x4c; 0x46]; elf_phs := [demo_text; demo_data]; elf_entry := 0x10000;
     elf_input := [0x7f; 0x45; 0x4c; 0x46; 1; 2; 3; 4; 5; 6] |}.

Lemma demo_elf_ok : elf_ok demo_elf.
Proof.
  split; [done|split; [repeat constructor; done|done]|..].
  - change (loads demo_elf) with [demo_text; demo_data].
    intros ph [->|Hd%list_elem_of_singleton]%elem_of_cons; [|subst ph]; (split; [split_and!|split_and!|]; by vm_compute).
  - change (loads demo_elf) with [demo_text; demo_data]. intros [|[|i]] [|[|j]] p q Hp Hq Hne; simplify_eq/=; [left|right]; by vm_compute.
Qed.

Lemma demo_data_loads : demo_data ∈ loads demo_elf.
Proof. change (loads demo_elf) with [demo_text; demo_data]. by right; left. Qed.
Lemma demo_data_byte : 0 <= 1 < (seg_hi demo_data - seg_lo demo_data) * PAGE_SIZE.
Proof. by vm_compute. Qed.
Lemma demo_elf_frames : 3 + 3 * seg_pages (loads demo_elf) <= nfree (fa demo_mm).
Proof. by vm_compute. Qed.

Lemma elf_loaded_witness : ∃ ms s', from_elf 0x80210000 (Some demo_elf) demo_mm =
    Ok ((ms, (last_end (loads demo_elf) + 1) * PAGE_SIZE, elf_entry demo_elf), s') ∧
  ∃ f, mapping (mem s') (page_table ms) (floor (seg_lo demo_data * PAGE_SIZE + 1)) = Some (f, Z.lor (elf_perm demo_data) PTE_V).
Proof.
  destruct (elf_loaded 0x80500 {[0x80500]} demo_mm demo_elf 0x80210000 (inv_fa _ _ _ _ (proj1 demo_inv)) demo_elf_ok eq_refl demo_elf_frames)
    as (ms & s' & o & Hok & _ & Hb & _).
  exists ms, s'. split; [exact Hok|]. destruct (Hb demo_data 1 demo_data_loads demo_data_byte) as (f & Hf & _). exists f. exact Hf.
Defined.
