(* ===== verification/Codec.v ===== *)
(** * Memory layout of on-disk structures

    easy-fs reads and writes blocks by reinterpreting their bytes as [repr(C)]
    structures and integer arrays ([BlockCache::get_ref] and [get_mut]).  This
    file has the little-endian integers, the arrays of integers, and the class
    of the types with a layout. *)

From S2P Require Import Prelude.

Definition is_byte (b : Z) : Prop := 0 <= b < 256.

(** ** Little-endian integers of [n] bytes *)

Fixpoint le_bytes (n : nat) (x : Z) : list Z :=
  match n with
  | O => []
  | S n => x mod 256 :: le_bytes n (x / 256)
  end.

Fixpoint le_value (bs : list Z) : Z :=
  match bs with
  | [] => 0
  | b :: bs' => b + 256 * le_value bs'
  end.

Lemma length_le_bytes n x : length (le_bytes n x) = n.
Proof. revert x. induction n; intros; simpl; by f_equal. Qed.

Lemma le_bytes_byte n x : Forall is_byte (le_bytes n x).
Proof.
  revert x. induction n as [|n IH]; intros x; simpl; constructor; [|done].
  unfold is_byte. zdiv.
Qed.

Lemma le_value_bytes n x : 0 <= x < 256 ^ Z.of_nat n → le_value (le_bytes n x) = x.
Proof.
  revert x. induction n as [|n IH]; intros x Hx; simpl; [change (256 ^ Z.of_nat 0) with 1 in Hx; lia|].
  rewrite Nat2Z.inj_succ, Z.pow_succ_r in Hx by lia.
  rewrite IH; [zdiv|]. split; [zdiv|]. apply Z.div_lt_upper_bound; lia.
Qed.

Lemma le_bytes_value bs : Forall is_byte bs → le_bytes (length bs) (le_value bs) = bs.
Proof.
  unfold is_byte. induction 1 as [|b bs Hb _ IH]; simpl; [done|].
  replace ((b + 256 * le_value bs) mod 256) with b by zdiv.
  replace ((b + 256 * le_value bs) / 256) with (le_value bs) by zdiv. by rewrite IH.
Qed.

Lemma le_value_bound bs : Forall is_byte bs → 0 <= le_value bs < 256 ^ Z.of_nat (length bs).
Proof.
  unfold is_byte. induction 1 as [|b bs Hb _ IH]; [simpl; lia|].
  cbn [le_value length]. rewrite Nat2Z.inj_succ, Z.pow_succ_r by lia. lia.
Qed.

(** ** Arrays of integers of [w] bytes *)

Fixpoint decode_words (w n : nat) (bs : list Z) : list Z :=
  match n with
  | O => []
  | S n => le_value (take w bs) :: decode_words w n (drop w bs)
  end.
Definition encode_words (w : nat) (xs : list Z) : list Z := xs ≫= le_bytes w.

Lemma length_decode_words w n bs : length (decode_words w n bs) = n.
Proof. revert bs. induction n; intros; simpl; by f_equal. Qed.

Lemma length_encode_words w xs : length (encode_words w xs) = (w * length xs)%nat.
Proof.
  unfold encode_words. induction xs as [|x xs IH]; [simpl; lia|].
  rewrite bind_cons, length_app, length_le_bytes, IH. simpl. lia.
Qed.

Lemma encode_words_byte w xs : Forall is_byte (encode_words w xs).
Proof.
  unfold encode_words. induction xs; [constructor|]. rewrite bind_cons.
  apply Forall_app. split; [apply le_bytes_byte|done].
Qed.

Lemma decode_encode_words w xs rest :
  Forall (λ x, 0 <= x < 256 ^ Z.of_nat w) xs →
  decode_words w (length xs) (encode_words w xs ++ rest) = xs.
Proof.
  unfold encode_words. induction 1 as [|x xs Hx _ IH]; [done|].
  rewrite bind_cons, <- app_assoc. cbn [decode_words length].
  rewrite take_app_length', drop_app_length' by (by rewrite length_le_bytes).
  by rewrite le_value_bytes, IH.
Qed.

Lemma encode_decode_words w n bs :
  Forall is_byte bs → (w * n <= length bs)%nat →
  encode_words w (decode_words w n bs) = take (w * n) bs.
Proof.
  unfold encode_words. revert bs. induction n as [|n IH]; intros bs Hb Hl.
  { by rewrite Nat.mul_0_r. }
  cbn [decode_words]. rewrite bind_cons, IH.
  - replace (w * S n)%nat with (w + w * n)%nat by lia. rewrite <- take_take_drop. f_equal.
    rewrite <- (length_take_le bs w) at 1 by lia. by apply le_bytes_value, Forall_take.
  - by apply Forall_drop.
  - rewrite length_drop. lia.
Qed.

Lemma decode_words_bound w n bs :
  (w * n <= length bs)%nat → Forall is_byte bs →
  Forall (λ x, 0 <= x < 256 ^ Z.of_nat w) (decode_words w n bs).
Proof.
  revert bs. induction n as [|n IH]; intros bs Hl Hb; simpl; constructor.
  - pose proof (le_value_bound (take w bs) (Forall_take _ _ _ Hb)) as H.
    by rewrite length_take_le in H by lia.
  - apply IH; [rewrite length_drop; lia|by apply Forall_drop].
Qed.

Arguments decode_words : simpl never.
Arguments encode_words : simpl never.

(** ** Types with a layout

    [valid] are the values the Rust type can hold. *)

Class Repr (T : Type) := {
  size_of : nat;
  encode : T → list Z;
  decode : list Z → T;
  valid : T → Prop
}.
Arguments size_of T {_}.

Class ReprLaws (T : Type) `{Repr T} := {
  size_pos : (0 < size_of T)%nat;
  encode_length : ∀ x : T, valid x → length (encode x) = size_of T;
  encode_byte : ∀ x : T, valid x → Forall is_byte (encode x);
  decode_encode : ∀ x : T, valid x → decode (encode x) = x;
  encode_decode : ∀ bs, length bs = size_of T → Forall is_byte bs → encode (decode bs : T) = bs;
  decode_valid : ∀ bs, length bs = size_of T → Forall is_byte bs → valid (decode bs)
}.

(** [\[u8; 512\]]. *)
Record DataBlock := mkDataBlock { db_bytes : list Z }.
#[export] Instance DataBlock_repr : Repr DataBlock := {|
  size_of := 512;
  encode x := db_bytes x;
  decode bs := mkDataBlock bs;
  valid x := length (db_bytes x) = 512%nat ∧ Forall is_byte (db_bytes x)
|}.
#[export] Instance DataBlock_laws : ReprLaws DataBlock.
Proof. split; simpl; try naive_solver; [lia|]. by intros []. Qed.

(** [\[u64; 64\]], a block of a bitmap. *)
Record BitmapBlock := mkBitmapBlock { bb_words : list Z }.
#[export] Instance BitmapBlock_repr : Repr BitmapBlock := {|
  size_of := 512;
  encode x := encode_words 8 (bb_words x);
  decode bs := mkBitmapBlock (decode_words 8 64 bs);
  valid x := length (bb_words x) = 64%nat ∧ Forall (λ w, 0 <= w < 2 ^ 64) (bb_words x)
|}.

(** [\[u32; 128\]], an indirect block. *)
Record IndirectBlock := mkIndirectBlock { ib_words : list Z }.
#[export] Instance IndirectBlock_repr : Repr IndirectBlock := {|
  size_of := 512;
  encode x := encode_words 4 (ib_words x);
  decode bs := mkIndirectBlock (decode_words 4 128 bs);
  valid x := length (ib_words x) = 128%nat ∧ Forall (λ w, 0 <= w < 2 ^ 32) (ib_words x)
|}.

#[export] Instance BitmapBlock_laws : ReprLaws BitmapBlock.
Proof.
  split; simpl.
  - lia.
  - intros [xs] [Hl _]. simpl in *. rewrite length_encode_words, Hl. done.
  - intros. apply encode_words_byte.
  - intros [xs] [Hl Hb]. simpl in *. f_equal. rewrite <- Hl.
    rewrite <- (app_nil_r (encode_words 8 xs)). by apply decode_encode_words.
  - intros bs Hl Hb. rewrite encode_decode_words by (done || rewrite Hl; done).
    by rewrite take_ge by (rewrite Hl; done).
  - intros bs Hl Hb. split; [done|].
    apply (decode_words_bound 8 64 bs); [rewrite Hl; done|done].
Qed.

#[export] Instance IndirectBlock_laws : ReprLaws IndirectBlock.
Proof.
  split; simpl.
  - lia.
  - intros [xs] [Hl _]. simpl in *. rewrite length_encode_words, Hl. done.
  - intros. apply encode_words_byte.
  - intros [xs] [Hl Hb]. simpl in *. f_equal. rewrite <- Hl.
    rewrite <- (app_nil_r (encode_words 4 xs)). by apply decode_encode_words.
  - intros bs Hl Hb. rewrite encode_decode_words by (done || rewrite Hl; done).
    by rewrite take_ge by (rewrite Hl; done).
  - intros bs Hl Hb. split; [done|].
    apply (decode_words_bound 4 128 bs); [rewrite Hl; done|done].
Qed.
