(* ===== verification/BlockDev.v ===== *)
(** * Block devices

    [easy-fs/src/block_dev.rs] is the trait of the drivers below easy-fs, here a
    class with its laws: a device returns what was last written to a block, for
    the blocks below its capacity.  easy-fs is verified for every device that
    satisfies the laws; [BlockFile], the image file of [easy-fs-fuse], is one. *)

From S2P Require Import Prelude Codec.

Definition BLOCK_SZ : Z := 512.

(** The abstract disk: the bytes of every block. *)
Definition disk := Z → list Z.
Definition upd (d : disk) (id : Z) (bs : list Z) : disk := λ b, if decide (b = id) then bs else d b.

Definition block_wf (bs : list Z) : Prop := length bs = 512%nat ∧ Forall is_byte bs.

Lemma upd_same d id bs : upd d id bs id = bs.
Proof. unfold upd. by rewrite decide_True. Qed.
Lemma upd_other d id bs b : b ≠ id → upd d id bs b = d b.
Proof. intros. unfold upd. by rewrite decide_False. Qed.

Class BlockDevice (Dev : Type) := {
  read_block : Z → M Dev (list Z);
  write_block : Z → list Z → M Dev unit
}.

Class BlockDeviceLaws (Dev : Type) `{BlockDevice Dev} (cap : Z) := {
  dev_ok : Dev → disk → Prop;
  dev_wf : ∀ v D b, dev_ok v D → 0 <= b < cap → block_wf (D b);
  dev_read : ∀ v D b, dev_ok v D → 0 <= b < cap →
    wp (read_block b) (λ bs v', bs = D b ∧ dev_ok v' D) v;
  dev_write : ∀ v D b bs, dev_ok v D → 0 <= b < cap → block_wf bs →
    wp (write_block b bs) (λ _ v', dev_ok v' (upd D b bs)) v
}.

(** ** BlockFile

    A regular file of the host: its length, its bytes (0 where nothing was
    written) and the position set by [seek]. *)

Record File := mkFile {
  file_len : Z;
  file_data : gmap Z Z;
  file_pos : Z
}.

Definition seek (pos : Z) : M File unit :=
  modify (λ f, mkFile (file_len f) (file_data f) pos).

(** [read(buf)] with a buffer of [n] bytes: what is left of the file, at most
    [n] bytes. *)
Definition file_read (n : nat) : M File (list Z) :=
  f ← get;
  let count := Z.max 0 (Z.min (Z.of_nat n) (file_len f - file_pos f)) in
  _ ← put (mkFile (file_len f) (file_data f) (file_pos f + count));
  mret ((λ i, default 0 (file_data f !! i)) <$> seqZ (file_pos f) count).

(** [write(buf)]: the file grows when the write ends past its end. *)
Definition file_write (buf : list Z) : M File Z :=
  f ← get;
  let pos := file_pos f in
  let n := lengthZ buf in
  _ ← put (mkFile (Z.max (file_len f) (pos + n))
        (list_to_map (zip (seqZ pos n) buf) ∪ file_data f) (pos + n));
  mret n.

#[export] Instance BlockFile : BlockDevice File := {|
  read_block id :=
    _ ← seek (wrap64 (id * BLOCK_SZ));
    bs ← file_read 512;
    _ ← assert_ (lengthZ bs =? BLOCK_SZ);
    mret bs;
  write_block id buf :=
    _ ← seek (wrap64 (id * BLOCK_SZ));
    n ← file_write buf;
    _ ← assert_ (n =? BLOCK_SZ);
    mret tt
|}.

Definition file_block (f : File) (b : Z) : list Z :=
  (λ i, default 0 (file_data f !! i)) <$> seqZ (b * 512) 512.

Definition file_ok (cap : Z) (f : File) (D : disk) : Prop :=
  cap * 512 <= file_len f ∧ map_Forall (λ _, is_byte) (file_data f) ∧
  ∀ b, 0 <= b < cap → D b = file_block f b.

Lemma file_block_wf f b : map_Forall (λ _, is_byte) (file_data f) → block_wf (file_block f b).
Proof.
  intros Hf. split; unfold file_block; [by rewrite length_fmap, length_seqZ|].
  apply Forall_fmap, Forall_forall. intros i _. simpl.
  destruct (file_data f !! i) as [x|] eqn:Hx; simpl; [by apply (Hf i)|]. unfold is_byte. lia.
Qed.

Lemma lookup_written pos (buf : list Z) (m : gmap Z Z) i :
  (list_to_map (zip (seqZ pos (lengthZ buf)) buf) ∪ m : gmap Z Z) !! i =
  if decide (pos <= i < pos + lengthZ buf) then buf !! Z.to_nat (i - pos) else m !! i.
Proof.
  assert (Hfst : (zip (seqZ pos (lengthZ buf)) buf).*1 = seqZ pos (lengthZ buf)).
  { apply fst_zip. rewrite length_seqZ. unfold lengthZ. lia. }
  destruct (decide _) as [Hi|Hi].
  - assert (is_Some (buf !! Z.to_nat (i - pos))) as [x Hx].
    { apply lookup_lt_is_Some. unfold lengthZ in Hi. lia. }
    rewrite Hx. apply lookup_union_Some_l, elem_of_list_to_map_1.
    + rewrite Hfst. apply NoDup_seqZ.
    + apply list_elem_of_lookup. exists (Z.to_nat (i - pos)). apply lookup_zip_Some. split; [|done].
      apply lookup_seqZ. split; [lia|]. lia.
  - rewrite lookup_union_r; [done|]. apply not_elem_of_list_to_map. rewrite Hfst, elem_of_seqZ. lia.
Qed.

Lemma file_block_write f b b' bs :
  length bs = 512%nat →
  file_block (mkFile (Z.max (file_len f) (b * 512 + lengthZ bs))
    (list_to_map (zip (seqZ (b * 512) (lengthZ bs)) bs) ∪ file_data f) (b * 512 + lengthZ bs)) b' =
  if decide (b' = b) then bs else file_block f b'.
Proof.
  intros Hl. assert (HlZ : lengthZ bs = 512) by (unfold lengthZ; lia).
  unfold file_block. cbn [file_data].
  destruct (decide (b' = b)) as [->|Hne].
  - apply list_eq. intros i. rewrite list_lookup_fmap. destruct (decide (i < 512)%nat) as [Hi|Hi].
    + assert (seqZ (b * 512) 512 !! i = Some (b * 512 + Z.of_nat i)) as -> by (apply lookup_seqZ; lia).
      simpl. rewrite lookup_written, decide_True by lia.
      replace (Z.to_nat (b * 512 + Z.of_nat i - b * 512)) with i by lia.
      assert (is_Some (bs !! i)) as [x ->] by (apply lookup_lt_is_Some; lia). done.
    + assert (seqZ (b * 512) 512 !! i = None) as -> by (apply lookup_seqZ_ge; lia).
      simpl. symmetry. apply lookup_ge_None. lia.
  - apply list_fmap_ext. intros k i Hk%list_elem_of_lookup_2%elem_of_seqZ.
    rewrite lookup_written, decide_False by lia. done.
Qed.

Definition BlockFile_laws cap : cap * 512 < 2 ^ 64 → BlockDeviceLaws File cap.
Proof.
  intros Hcap. unshelve eapply Build_BlockDeviceLaws; [exact (file_ok cap)|..].
  - intros f D b (_ & Hf & HD) Hb. rewrite HD by done. by apply file_block_wf.
  - intros f D b (Hlen & Hf & HD) Hb. simpl. unfold seek, file_read, BLOCK_SZ.
    rewrite wrap_small by lia. wp_steps. cbn [file_len file_pos file_data].
    replace (Z.max 0 _) with 512 by lia. apply wp_assert.
    { unfold lengthZ. rewrite length_fmap, length_seqZ. done. }
    wp_steps. rewrite HD by done. split; [done|]. by split_and!.
  - intros f D b bs (Hlen & Hf & HD) Hb [Hl Hbs]. simpl. unfold seek, file_write, BLOCK_SZ.
    rewrite wrap_small by lia. wp_steps. cbn [file_len file_pos file_data].
    apply wp_assert; [unfold lengthZ; rewrite Hl; done|]. wp_steps. split_and!; simpl.
    + lia.
    + apply map_Forall_union_2; [|done]. intros i x Hx%elem_of_list_to_map_2.
      apply elem_of_zip_r in Hx. by eapply Forall_forall in Hbs.
    + intros b' Hb'. rewrite (file_block_write f b b' bs Hl). unfold upd.
      destruct (decide (b' = b)); [done|by apply HD].
Defined.

(** A file of 4096 blocks, as in the test of [easy-fs-fuse]. *)
Definition demo_file : File := mkFile (4096 * 512) ∅ 0.
Definition demo_file_laws : BlockDeviceLaws File 4096 := BlockFile_laws 4096 eq_refl.

Lemma demo_file_ok : dev_ok (BlockDeviceLaws := demo_file_laws) demo_file (file_block demo_file).
Proof. split_and!; [done|apply map_Forall_empty|done]. Qed.
