(* ===== verification/Sdcard.v ===== *)
(** * The SD card driver

    [os/src/drivers/block/sdcard.rs] drives an SD card in SPI mode on the K210.
    The SPI controller, the GPIO pins and the clocks are crates of the board
    ([k210_soc], [k210_hal]): they are the class [K210], operations on a board
    [W].  This file has the driver, the registers it decodes, and the outcomes
    of [init] on an arbitrary board; [SdProtocol] runs the driver against cards
    that follow the SD protocol. *)

From S2P Require Import Prelude Codec BlockDev.

(** ** The board *)

(** The values of the crates' enumerations that the driver passes. *)
Inductive work_mode := MODE0.
Inductive frame_format := FF_STANDARD.
Inductive aitm := AITM_STANDARD.
Inductive tmod := TRANS | RECV.
Inductive direction := OUTPUT.
Inductive pll := PLL0 | PLL1 | PLL2.
Inductive io := SPI0_SCLK | SPI0_MOSI | SPI0_MISO | SPI0_CS0.
Inductive io_function := F_SPI0_SCLK | F_SPI0_D0 | F_SPI0_D1 | F_gpiohs (n : Z).
Inductive pull := PULL_DOWN.

(** [recv_data] fills the buffer it is given: as many bytes as the buffer has. *)
Class K210 (W : Type) := {
  configure : work_mode → frame_format → Z → Z → Z → Z → Z → aitm → tmod → W → W;
  set_clk_rate : Z → W → W;
  send_data : Z → list Z → W → W;
  recv_data : Z → nat → W → list Z * W;
  set_pin : Z → bool → W → W;
  set_direction : Z → direction → W → W;
  usleep : Z → W → W;
  pll_set_freq : pll → Z → W → option Z * W;
  uarths_configure : Z → W → W;
  set_function : io → io_function → W → W;
  set_io_pull : io → pull → W → W;
  recv_len : ∀ cs n w, length (recv_data cs n w).1 = n;
  recv_byte : ∀ cs n w, Forall is_byte (recv_data cs n w).1
}.

(** [Result<A, E>] as a value. *)
Inductive Result (A E : Type) :=
  | ROk (a : A)
  | RErr (e : E).
Arguments ROk {A E} a.
Arguments RErr {A E} e.

Definition unwrap_result {St A E} (r : Result A E) : M St A :=
  match r with ROk a => mret a | RErr _ => panic_with PUnwrap end.

(** A call of the board that returns a value. *)
Definition run {St A} (f : St → A * St) : M St A := λ s, Ok (f s).

(** ** Commands and registers *)

Definition SD_START_DATA_SINGLE_BLOCK_READ : Z := 0xFE.
Definition SD_START_DATA_SINGLE_BLOCK_WRITE : Z := 0xFE.
Definition SD_START_DATA_MULTIPLE_BLOCK_WRITE : Z := 0xFC.
Definition SEC_LEN : Z := 512.

Inductive CMD :=
  | CMD0 | CMD8 | CMD9 | CMD10 | CMD12 | CMD16 | CMD17 | CMD18 | ACMD23 | CMD24 | CMD25
  | ACMD41 | CMD55 | CMD58 | CMD59.

#[export] Instance CMD_eq_dec : EqDecision CMD.
Proof. solve_decision. Defined.

(** [cmd as u8]. *)
Definition cmd_code (c : CMD) : Z :=
  match c with
  | CMD0 => 0 | CMD8 => 8 | CMD9 => 9 | CMD10 => 10 | CMD12 => 12 | CMD16 => 16 | CMD17 => 17
  | CMD18 => 18 | ACMD23 => 23 | CMD24 => 24 | CMD25 => 25 | ACMD41 => 41 | CMD55 => 55
  | CMD58 => 58 | CMD59 => 59
  end.

Inductive InitError :=
  | CMDFailed (c : CMD) (r : Z)
  | CardCapacityStatusNotSet (frame : list Z)
  | CannotGetCardInfo.

Record SDCardCSD := {
  CSDStruct : Z; SysSpecVersion : Z; CSD_Reserved1 : Z; TAAC : Z; NSAC : Z; MaxBusClkFrec : Z;
  CardComdClasses : Z; RdBlockLen : Z; PartBlockRead : Z; WrBlockMisalign : Z; RdBlockMisalign : Z;
  DSRImpl : Z; CSD_Reserved2 : Z; DeviceSize : Z; EraseGrSize : Z; EraseGrMul : Z;
  WrProtectGrSize : Z; WrProtectGrEnable : Z; ManDeflECC : Z; WrSpeedFact : Z; MaxWrBlockLen : Z;
  WriteBlockPaPartial : Z; Reserved3 : Z; ContentProtectAppli : Z; FileFormatGroup : Z; CopyFlag : Z;
  PermWrProtect : Z; TempWrProtect : Z; FileFormat : Z; ECC : Z; CSD_CRC : Z; Reserved4 : Z
}.

Record SDCardCID := {
  ManufacturerID : Z; OEM_AppliID : Z; ProdName1 : Z; ProdName2 : Z; ProdRev : Z; ProdSN : Z;
  CID_Reserved1 : Z; ManufactDate : Z; CID_CRC : Z; CID_Reserved2 : Z
}.

Record SDCardInfo := { SD_csd : SDCardCSD; SD_cid : SDCardCID; CardCapacity : Z; CardBlockSize : Z }.

(** Fields of the 18 bytes read for a register; [<<] keeps the width of its
    operand. *)
Definition csd_of (csd_tab : list Z) : SDCardCSD :=
  let t i := default 0 (csd_tab !! i) in
  {| CSDStruct := Z.shiftr (Z.land (t 0%nat) 0xC0) 6;
     SysSpecVersion := Z.shiftr (Z.land (t 0%nat) 0x3C) 2;
     CSD_Reserved1 := Z.land (t 0%nat) 0x03;
     TAAC := t 1%nat;
     NSAC := t 2%nat;
     MaxBusClkFrec := t 3%nat;
     CardComdClasses := Z.lor (wrap16 (Z.shiftl (t 4%nat) 4)) (Z.shiftr (Z.land (t 5%nat) 0xF0) 4);
     RdBlockLen := Z.land (t 5%nat) 0x0F;
     PartBlockRead := Z.shiftr (Z.land (t 6%nat) 0x80) 7;
     WrBlockMisalign := Z.shiftr (Z.land (t 6%nat) 0x40) 6;
     RdBlockMisalign := Z.shiftr (Z.land (t 6%nat) 0x20) 5;
     DSRImpl := Z.shiftr (Z.land (t 6%nat) 0x10) 4;
     CSD_Reserved2 := 0;
     DeviceSize := Z.lor (Z.lor (wrap32 (Z.shiftl (Z.land (t 7%nat) 0x3F) 16)) (wrap32 (Z.shiftl (t 8%nat) 8))) (t 9%nat);
     EraseGrSize := Z.shiftr (Z.land (t 10%nat) 0x40) 6;
     EraseGrMul := Z.lor (wrap8 (Z.shiftl (Z.land (t 10%nat) 0x3F) 1)) (Z.shiftr (Z.land (t 11%nat) 0x80) 7);
     WrProtectGrSize := Z.land (t 11%nat) 0x7F;
     WrProtectGrEnable := Z.shiftr (Z.land (t 12%nat) 0x80) 7;
     ManDeflECC := Z.shiftr (Z.land (t 12%nat) 0x60) 5;
     WrSpeedFact := Z.shiftr (Z.land (t 12%nat) 0x1C) 2;
     MaxWrBlockLen := Z.lor (wrap8 (Z.shiftl (Z.land (t 12%nat) 0x03) 2)) (Z.shiftr (Z.land (t 13%nat) 0xC0) 6);
     WriteBlockPaPartial := Z.shiftr (Z.land (t 13%nat) 0x20) 5;
     Reserved3 := 0;
     ContentProtectAppli := Z.land (t 13%nat) 0x01;
     FileFormatGroup := Z.shiftr (Z.land (t 14%nat) 0x80) 7;
     CopyFlag := Z.shiftr (Z.land (t 14%nat) 0x40) 6;
     PermWrProtect := Z.shiftr (Z.land (t 14%nat) 0x20) 5;
     TempWrProtect := Z.shiftr (Z.land (t 14%nat) 0x10) 4;
     FileFormat := Z.shiftr (Z.land (t 14%nat) 0x0C) 2;
     ECC := Z.land (t 14%nat) 0x03;
     CSD_CRC := Z.shiftr (Z.land (t 15%nat) 0xFE) 1;
     Reserved4 := 1 |}.

Definition cid_of (cid_tab : list Z) : SDCardCID :=
  let t i := default 0 (cid_tab !! i) in
  {| ManufacturerID := t 0%nat;
     OEM_AppliID := Z.lor (wrap16 (Z.shiftl (t 1%nat) 8)) (t 2%nat);
     ProdName1 := Z.lor (Z.lor (Z.lor (wrap32 (Z.shiftl (t 3%nat) 24)) (wrap32 (Z.shiftl (t 4%nat) 16)))
                    (wrap32 (Z.shiftl (t 5%nat) 8))) (t 6%nat);
     ProdName2 := t 7%nat;
     ProdRev := t 8%nat;
     ProdSN := Z.lor (Z.lor (Z.lor (wrap32 (Z.shiftl (t 9%nat) 24)) (wrap32 (Z.shiftl (t 10%nat) 16)))
                    (wrap32 (Z.shiftl (t 11%nat) 8))) (t 12%nat);
     CID_Reserved1 := Z.shiftr (Z.land (t 13%nat) 0xF0) 4;
     ManufactDate := Z.lor (wrap16 (Z.shiftl (Z.land (t 13%nat) 0x0F) 8)) (t 14%nat);
     CID_CRC := Z.shiftr (Z.land (t 15%nat) 0xFE) 1;
     CID_Reserved2 := 1 |}.

(** ** The driver *)

Record SDCard := { spi_cs : Z; cs_gpionum : Z }.

Definition SDCard_new (spi_cs cs_gpionum : Z) : SDCard := {| spi_cs := spi_cs; cs_gpionum := cs_gpionum |}.

(** [chunks(n)] and [chunks_mut(n)] of a slice: pieces of [n] elements. *)
Fixpoint chunks_fuel {A} (fuel n : nat) (l : list A) : list (list A) :=
  match fuel, l with
  | S fuel', _ :: _ => take n l :: chunks_fuel fuel' n (drop n l)
  | _, _ => []
  end.
Definition chunks {A} (n : nat) (l : list A) : list (list A) := chunks_fuel (length l) n l.

(** [for (a, b) in dst.iter_mut().zip(src) { *a = *b }]. *)
Definition copy_zip (dst src : list Z) : list Z := take (length dst) src ++ drop (length src) dst.

Section driver.
Context {W : Type} `{K210 W} (sd : SDCard).

Definition CS_HIGH : M W unit := modify (set_pin (cs_gpionum sd) true).
Definition CS_LOW : M W unit := modify (set_pin (cs_gpionum sd) false).
Definition HIGH_SPEED_ENABLE : M W unit := modify (set_clk_rate 10000000).
Definition lowlevel_init : M W unit :=
  _ ← modify (set_direction (cs_gpionum sd) OUTPUT); modify (set_clk_rate 200000).

Definition write_data (data : list Z) : M W unit :=
  _ ← modify (configure MODE0 FF_STANDARD 8 0 0 0 0 AITM_STANDARD TRANS);
  modify (send_data (spi_cs sd) data).

(** [read_data] into a buffer of [n] bytes. *)
Definition read_data (n : nat) : M W (list Z) :=
  _ ← modify (configure MODE0 FF_STANDARD 8 0 0 0 0 AITM_STANDARD RECV);
  run (recv_data (spi_cs sd) n).

Definition cmd_frame (cmd : CMD) (arg crc : Z) : list Z :=
  [Z.lor (cmd_code cmd) 0x40; wrap8 (Z.shiftr arg 24); Z.land (Z.shiftr arg 16) 0xff;
   Z.land (Z.shiftr arg 8) 0xff; Z.land arg 0xff; crc].

Definition send_cmd (cmd : CMD) (arg crc : Z) : M W unit :=
  _ ← CS_LOW; write_data (cmd_frame cmd arg crc).

Definition end_cmd : M W unit := _ ← CS_HIGH; write_data [0xff].

Fixpoint response_loop (timeout : nat) : M W Z :=
  match timeout with
  | O => mret 0xFF
  | S timeout' =>
      result ← read_data 1;
      r ← index result 0;
      if r =? 0xFF then response_loop timeout' else mret r
  end.
Definition get_response : M W Z := response_loop (Z.to_nat 0x0FFF).

(** [while response\[0\] == 0 { read_data(response) }], with [fuel] rounds. *)
Fixpoint busy_loop (fuel : nat) (response : Z) : M W unit :=
  if response =? 0 then
    match fuel with
    | O => panic_with PFuel
    | S fuel' => response ← read_data 1; r ← index response 0; busy_loop fuel' r
    end
  else mret tt.

Definition get_dataresponse (fuel : nat) : M W Z :=
  response ← read_data 1;
  r ← index response 0;
  if negb (Z.land r 0x1F =? 0x05) then mret 0xFF
  else
    response ← read_data 1;
    r ← index response 0;
    _ ← busy_loop fuel r;
    mret 0.

Definition get_csdregister : M W (Result SDCardCSD unit) :=
  _ ← send_cmd CMD9 0 0;
  r ← get_response;
  if negb (r =? 0) then _ ← end_cmd; mret (RErr tt)
  else
    r ← get_response;
    if negb (r =? SD_START_DATA_SINGLE_BLOCK_READ) then _ ← end_cmd; mret (RErr tt)
    else
      csd_tab ← read_data 18;
      _ ← end_cmd;
      mret (ROk (csd_of csd_tab)).

Definition get_cidregister : M W (Result SDCardCID unit) :=
  _ ← send_cmd CMD10 0 0;
  r ← get_response;
  if negb (r =? 0) then _ ← end_cmd; mret (RErr tt)
  else
    r ← get_response;
    if negb (r =? SD_START_DATA_SINGLE_BLOCK_READ) then _ ← end_cmd; mret (RErr tt)
    else
      cid_tab ← read_data 18;
      _ ← end_cmd;
      mret (ROk (cid_of cid_tab)).

(** [1 << RdBlockLen] and the capacity, as [u64]. *)
Definition info_of (csd : SDCardCSD) (cid : SDCardCID) : SDCardInfo :=
  let block_size := wrap64 (Z.shiftl 1 (RdBlockLen csd mod 64)) in
  {| SD_csd := csd; SD_cid := cid; CardBlockSize := block_size;
     CardCapacity := wrap64 (wrap64 (wrap64 (DeviceSize csd + 1) * 1024) * block_size) |}.

Definition get_cardinfo : M W (Result SDCardInfo unit) :=
  csd ← get_csdregister;
  match csd with
  | RErr e => mret (RErr e)
  | ROk csd =>
      cid ← get_cidregister;
      match cid with
      | RErr e => mret (RErr e)
      | ROk cid => mret (ROk (info_of csd cid))
      end
  end.

(** The loop over CMD55 and ACMD41: the index it ends with, or the error it
    returns.  The [result] of its body is local to the body. *)
Fixpoint acmd41_loop (index : nat) : M W (Result nat InitError) :=
  match index with
  | O => mret (ROk O)
  | S index' =>
      _ ← send_cmd CMD55 0 0;
      result ← get_response;
      _ ← end_cmd;
      if negb (result =? 0x01) then mret (RErr (CMDFailed CMD55 result))
      else
        _ ← send_cmd ACMD41 0x40000000 0;
        result ← get_response;
        _ ← end_cmd;
        if result =? 0 then mret (ROk index) else acmd41_loop index'
  end.

(** The loop over CMD58, with the frame it read last. *)
Fixpoint cmd58_loop (index : nat) (frame : list Z) : M W (nat * list Z) :=
  match index with
  | O => mret (O, frame)
  | S index' =>
      _ ← send_cmd CMD58 0 1;
      result ← get_response;
      frame ← read_data 4;
      _ ← end_cmd;
      if result =? 0 then mret (index, frame) else cmd58_loop index' frame
  end.

Definition init : M W (Result SDCardInfo InitError) :=
  _ ← lowlevel_init;
  _ ← CS_HIGH;
  _ ← write_data (replicate 10 0xff);
  _ ← send_cmd CMD0 0 0x95;
  result ← get_response;
  _ ← end_cmd;
  if negb (result =? 0x01) then mret (RErr (CMDFailed CMD0 result)) else
  _ ← send_cmd CMD8 0x01AA 0x87;
  result ← get_response;
  _ ← read_data 4;
  _ ← end_cmd;
  if negb (result =? 0x01) then mret (RErr (CMDFailed CMD8 result)) else
  index ← acmd41_loop 255;
  match index with
  | RErr e => mret (RErr e)
  | ROk O => mret (RErr (CMDFailed ACMD41 result))
  | ROk (S _) =>
      '(index, frame) ← cmd58_loop 255 (replicate 4 0);
      match index with
      | O => mret (RErr (CMDFailed CMD58 result))
      | S _ =>
          f0 ← Prelude.index frame 0;
          if Z.land f0 0x40 =? 0 then mret (RErr (CardCapacityStatusNotSet frame)) else
          _ ← HIGH_SPEED_ENABLE;
          info ← get_cardinfo;
          mret (match info with ROk i => ROk i | RErr _ => RErr CannotGetCardInfo end)
      end
  end.

(** The loop over the chunks of the buffer: the chunks, filled as far as the
    loop got, and [error]. *)
Fixpoint read_chunks (cs : list (list Z)) : M W (list (list Z) * bool) :=
  match cs with
  | [] => mret ([], false)
  | chunk :: cs' =>
      r ← get_response;
      if negb (r =? SD_START_DATA_SINGLE_BLOCK_READ) then mret (cs, true)
      else
        tmp_chunk ← read_data 512;
        _ ← read_data 2;
        '(rest, error) ← read_chunks cs';
        mret (copy_zip chunk tmp_chunk :: rest, error)
  end.

Definition read_sector (data_buf : list Z) (sector : Z) : M W (list Z * Result unit unit) :=
  _ ← assert_ ((SEC_LEN <=? lengthZ data_buf) && (lengthZ data_buf mod SEC_LEN =? 0));
  let flag := negb (lengthZ data_buf =? SEC_LEN) in
  _ ← (if flag then send_cmd CMD18 sector 0 else send_cmd CMD17 sector 0);
  r ← get_response;
  if negb (r =? 0) then _ ← end_cmd; mret (data_buf, RErr tt)
  else
    '(cs, error) ← read_chunks (chunks 512 data_buf);
    _ ← end_cmd;
    _ ← (if flag then
           _ ← send_cmd CMD12 0 0;
           _ ← get_response;
           _ ← end_cmd;
           end_cmd
         else mret tt);
    mret (concat cs, if error : bool then RErr tt else ROk tt).

(** The loop over the chunks to write; [tmp_chunk] outlives an iteration. *)
Fixpoint write_chunks (fuel : nat) (frame tmp_chunk : list Z) (cs : list (list Z)) : M W (Result unit unit) :=
  match cs with
  | [] => _ ← end_cmd; _ ← end_cmd; mret (ROk tt)
  | chunk :: cs' =>
      _ ← write_data frame;
      let tmp_chunk := copy_zip tmp_chunk chunk in
      _ ← write_data tmp_chunk;
      _ ← write_data [0xff; 0xff];
      r ← get_dataresponse fuel;
      if negb (r =? 0) then _ ← end_cmd; mret (RErr tt)
      else write_chunks fuel frame tmp_chunk cs'
  end.

Definition write_sector (fuel : nat) (data_buf : list Z) (sector : Z) : M W (Result unit unit) :=
  _ ← assert_ ((SEC_LEN <=? lengthZ data_buf) && (lengthZ data_buf mod SEC_LEN =? 0));
  frame ← (if lengthZ data_buf =? SEC_LEN then
             _ ← send_cmd CMD24 sector 0;
             mret [0xff; SD_START_DATA_SINGLE_BLOCK_WRITE]
           else
             let n := lengthZ data_buf / SEC_LEN in
             n ← unwrap (if n <? 2 ^ 32 then Some n else None);
             _ ← send_cmd ACMD23 n 0;
             _ ← get_response;
             _ ← end_cmd;
             _ ← send_cmd CMD25 sector 0;
             mret [0xff; SD_START_DATA_MULTIPLE_BLOCK_WRITE]);
  r ← get_response;
  if negb (r =? 0) then _ ← end_cmd; mret (RErr tt)
  else write_chunks fuel frame (replicate 512 0) (chunks 512 data_buf).

End driver.

(** ** The device of the kernel *)

Definition SD_CS_GPIONUM : Z := 7.
Definition SD_CS : Z := 3.

Section device.
Context {W : Type} `{K210 W}.

Definition io_init : M W unit :=
  _ ← modify (set_function SPI0_SCLK F_SPI0_SCLK);
  _ ← modify (set_function SPI0_MOSI F_SPI0_D0);
  _ ← modify (set_function SPI0_MISO F_SPI0_D1);
  _ ← modify (set_function SPI0_CS0 (F_gpiohs SD_CS_GPIONUM));
  modify (set_io_pull SPI0_CS0 PULL_DOWN).

Definition set_pll (p : pll) (freq : Z) : M W unit :=
  o ← run (pll_set_freq p freq); _ ← unwrap o; mret tt.

Definition init_sdcard : M W SDCard :=
  _ ← modify (usleep 100000);
  _ ← set_pll PLL0 800000000;
  _ ← set_pll PLL1 300000000;
  _ ← set_pll PLL2 45158400;
  _ ← modify (uarths_configure 115200);
  _ ← io_init;
  let sd := SDCard_new SD_CS SD_CS_GPIONUM in
  info ← init sd;
  info ← unwrap_result info;
  let num_sectors := CardCapacity info / 512 in
  _ ← assert_ (0 <? num_sectors);
  mret sd.

Definition SDCardWrapper_new : M W SDCard := init_sdcard.

(** [read_block] fills a buffer of one block. *)
Definition SDCardWrapper (fuel : nat) (sd : SDCard) : BlockDevice W := {|
  read_block id :=
    '(buf, r) ← read_sector sd (replicate 512 0) (wrap32 id);
    _ ← unwrap_result r;
    mret buf;
  write_block id buf :=
    r ← write_sector sd fuel buf (wrap32 id);
    unwrap_result r
|}.
End device.

(** ** The registers as 128-bit numbers

    The card sends a register with its most significant byte first; a field of
    the SD specification is a range of bits of the number. *)

Definition be_value (bs : list Z) : Z := foldl (λ v b, v * 256 + b) 0 bs.
Definition slice (x lo w : Z) : Z := Z.shiftr x lo mod 2 ^ w.
Definition bits (x hi lo : Z) : Z := slice x lo (hi - lo + 1).

Definition csd_spec (R : Z) : SDCardCSD :=
  {| CSDStruct := bits R 127 126; SysSpecVersion := bits R 125 122; CSD_Reserved1 := bits R 121 120;
     TAAC := bits R 119 112; NSAC := bits R 111 104; MaxBusClkFrec := bits R 103 96;
     CardComdClasses := bits R 95 84; RdBlockLen := bits R 83 80; PartBlockRead := bits R 79 79;
     WrBlockMisalign := bits R 78 78; RdBlockMisalign := bits R 77 77; DSRImpl := bits R 76 76;
     CSD_Reserved2 := 0; DeviceSize := bits R 69 48; EraseGrSize := bits R 46 46;
     EraseGrMul := bits R 45 39; WrProtectGrSize := bits R 38 32; WrProtectGrEnable := bits R 31 31;
     ManDeflECC := bits R 30 29; WrSpeedFact := bits R 28 26; MaxWrBlockLen := bits R 25 22;
     WriteBlockPaPartial := bits R 21 21; Reserved3 := 0; ContentProtectAppli := bits R 16 16;
     FileFormatGroup := bits R 15 15; CopyFlag := bits R 14 14; PermWrProtect := bits R 13 13;
     TempWrProtect := bits R 12 12; FileFormat := bits R 11 10; ECC := bits R 9 8;
     CSD_CRC := bits R 7 1; Reserved4 := 1 |}.

Definition cid_spec (R : Z) : SDCardCID :=
  {| ManufacturerID := bits R 127 120; OEM_AppliID := bits R 119 104; ProdName1 := bits R 103 72;
     ProdName2 := bits R 71 64; ProdRev := bits R 63 56; ProdSN := bits R 55 24;
     CID_Reserved1 := bits R 23 20; ManufactDate := bits R 19 8; CID_CRC := bits R 7 1; CID_Reserved2 := 1 |}.

Lemma slice_range x lo w : 0 <= w → 0 <= slice x lo w < 2 ^ w.
Proof. intros. apply Z.mod_pos_bound. lia. Qed.

Lemma slice_slice x lo w lo' w' : 0 <= lo → 0 <= lo' → 0 <= w' → lo' + w' <= w →
  slice (slice x lo w) lo' w' = slice x (lo + lo') w'.
Proof.
  intros H0 H1 H2 H3. unfold slice. apply Z.bits_inj'. intros n Hn. destruct (decide (n < w')).
  - rewrite !Z.mod_pow2_bits_low, !Z.shiftr_spec by lia.
    rewrite Z.mod_pow2_bits_low, Z.shiftr_spec by lia. f_equal. lia.
  - rewrite !Z.mod_pow2_bits_high by lia. done.
Qed.

Lemma slice_join x lo w w' : 0 <= lo → 0 <= w → 0 <= w' →
  Z.lor (Z.shiftl (slice x (lo + w) w') w) (slice x lo w) = slice x lo (w + w').
Proof.
  intros H0 H1 H2. unfold slice. apply Z.bits_inj'. intros n Hn. rewrite Z.lor_spec, Z.shiftl_spec by lia.
  destruct (decide (n < w)).
  - rewrite Z.testbit_neg_r by lia. rewrite !Z.mod_pow2_bits_low by lia. done.
  - rewrite (Z.mod_pow2_bits_high _ w) by lia. rewrite orb_false_r. destruct (decide (n < w + w')).
    + rewrite !Z.mod_pow2_bits_low, !Z.shiftr_spec by lia. f_equal. lia.
    + rewrite !Z.mod_pow2_bits_high by lia. done.
Qed.

Lemma slice_mask b mask k w : 0 <= k → 0 <= w → mask = Z.shiftl (Z.ones w) k →
  Z.shiftr (Z.land b mask) k = slice b k w.
Proof.
  intros Hk Hw ->. unfold slice. rewrite Z.shiftr_land, Z.shiftr_shiftl_l by lia.
  replace (k - k) with 0 by lia. rewrite Z.shiftl_0_r. by rewrite Z.land_ones by lia.
Qed.

Lemma slice_mask0 b mask w : 0 <= w → mask = Z.ones w → Z.land b mask = slice b 0 w.
Proof. intros Hw ->. unfold slice. by rewrite Z.shiftr_0_r, Z.land_ones by lia. Qed.

Lemma be_value_app l1 l2 : be_value (l1 ++ l2) = be_value l1 * 256 ^ lengthZ l2 + be_value l2.
Proof.
  unfold be_value. rewrite foldl_app. generalize (foldl (λ v b, v * 256 + b) 0 l1). induction l2 as [|b l2 IH] using rev_ind; intros v.
  - unfold lengthZ. simpl. lia.
  - rewrite !foldl_app. simpl. rewrite IH, lengthZ_app. rewrite Z.pow_add_r by (unfold lengthZ; lia).
    change (lengthZ [b]) with 1. lia.
Qed.

Lemma be_value_range bs : Forall is_byte bs → 0 <= be_value bs < 256 ^ lengthZ bs.
Proof.
  induction bs as [|b bs IH] using rev_ind; [by vm_compute|]. rewrite Forall_app, Forall_singleton. intros [Hbs Hb].
  rewrite be_value_app, lengthZ_app, Z.pow_add_r by (unfold lengthZ; lia). change (lengthZ [b]) with 1.
  change (be_value [b]) with b. unfold is_byte in Hb. specialize (IH Hbs). lia.
Qed.

(** A byte of the register is a slice of its number. *)
Lemma be_value_byte bs i b : Forall is_byte bs → bs !! i = Some b →
  b = slice (be_value bs) (8 * (lengthZ bs - 1 - Z.of_nat i)) 8.
Proof.
  intros Hbs Hi. pose proof (Forall_lookup_1 _ _ _ _ Hbs Hi) as Hb. pose proof (lookup_lt_Some _ _ _ Hi) as Hlt.
  apply take_drop_middle in Hi as Hm. set (l2 := drop (S i) bs) in *.
  assert (lengthZ bs - 1 - Z.of_nat i = lengthZ l2) as -> by (unfold l2, lengthZ; rewrite length_drop; lia).
  assert (Forall is_byte l2) as Hl2 by (by apply Forall_drop). pose proof (be_value_range _ Hl2) as R.
  rewrite <- Hm. rewrite be_value_app. change (be_value (b :: l2)) with (be_value ([b] ++ l2)).
  rewrite (be_value_app [b]). change (be_value [b]) with (0 * 256 + b).
  unfold slice. rewrite Z.shiftr_div_pow2 by (unfold lengthZ; lia).
  rewrite Z.pow_mul_r by (unfold lengthZ; lia). change (2 ^ 8) with 256.
  change (lengthZ (b :: l2)) with (Z.of_nat (S (length l2))). rewrite Nat2Z.inj_succ, Z.pow_succ_r by lia.
  fold (lengthZ l2). set (p := 256 ^ lengthZ l2) in *. assert (0 < p) by (unfold p, lengthZ; lia).
  replace (be_value (take i bs) * (256 * p) + ((0 * 256 + b) * p + be_value l2))
    with (be_value l2 + (be_value (take i bs) * 256 + b) * p) by lia.
  rewrite Z.div_add, (Z.div_small (be_value l2)) by lia. rewrite Z.add_0_l, Z.add_comm, Z.mod_add by lia.
  unfold is_byte in Hb. by rewrite Z.mod_small.
Qed.

(** A shift within the width of the field loses nothing. *)
Lemma wrap_join W x lo w w' : 0 <= lo → 0 <= w → 0 <= w' → w + w' <= W →
  Z.lor (wrap W (Z.shiftl (slice x (lo + w) w') w)) (slice x lo w) = slice x lo (w + w').
Proof.
  intros. rewrite wrap_small; [by apply slice_join|]. rewrite Z.shiftl_mul_pow2 by lia.
  pose proof (slice_range x (lo + w) w' ltac:(lia)). assert (2 ^ (w + w') <= 2 ^ W) by (apply Z.pow_le_mono_r; lia).
  rewrite Z.pow_add_r in * by lia. nia.
Qed.

Lemma wrap_join3 W x lo w1 w2 w3 : 0 <= lo → 0 <= w1 → 0 <= w2 → 0 <= w3 → w1 + w2 + w3 <= W →
  Z.lor (Z.lor (wrap W (Z.shiftl (slice x (lo + w1 + w2) w3) (w1 + w2))) (wrap W (Z.shiftl (slice x (lo + w1) w2) w1)))
    (slice x lo w1) = slice x lo (w1 + w2 + w3).
Proof.
  intros. rewrite <- Z.lor_assoc, wrap_join by lia. replace (lo + w1 + w2) with (lo + (w1 + w2)) by lia.
  by apply wrap_join; lia.
Qed.

Lemma wrap_join4 W x lo w1 w2 w3 w4 : 0 <= lo → 0 <= w1 → 0 <= w2 → 0 <= w3 → 0 <= w4 → w1 + w2 + w3 + w4 <= W →
  Z.lor (Z.lor (Z.lor (wrap W (Z.shiftl (slice x (lo + w1 + w2 + w3) w4) (w1 + w2 + w3)))
    (wrap W (Z.shiftl (slice x (lo + w1 + w2) w3) (w1 + w2)))) (wrap W (Z.shiftl (slice x (lo + w1) w2) w1)))
    (slice x lo w1) = slice x lo (w1 + w2 + w3 + w4).
Proof.
  intros. rewrite <- (Z.lor_assoc (wrap W (Z.shiftl _ (w1 + w2 + w3)))), <- (Z.lor_assoc (wrap W (Z.shiftl _ (w1 + w2 + w3)))).
  rewrite wrap_join3 by lia. replace (lo + w1 + w2 + w3) with (lo + (w1 + w2 + w3)) by lia. by apply wrap_join; lia.
Qed.

(** The bytes of a register of 18 bytes, two of them a checksum. *)
Definition reg_value (tab : list Z) : Z := be_value (take 16 tab).

Lemma reg_byte tab i : length tab = 18%nat → Forall is_byte tab → (i < 16)%nat →
  default 0 (tab !! i) = slice (reg_value tab) (8 * (15 - Z.of_nat i)) 8.
Proof.
  intros Hl Hb Hi. destruct (lookup_lt_is_Some_2 tab i ltac:(lia)) as [b Hx]. rewrite Hx. simpl.
  unfold reg_value. rewrite (be_value_byte (take 16 tab) i b); [|by apply Forall_take|by rewrite lookup_take_lt].
  f_equal. unfold lengthZ. rewrite length_take. lia.
Qed.

(** Fields from their bytes, their masks and their shifts. *)
Ltac reg_bytes Hl Hb :=
  repeat match goal with
  | |- context [default 0 (?t !! ?i)] => rewrite (reg_byte t i Hl Hb) by lia
  end.
Ltac reg_masks :=
  repeat match goal with
  | |- context [Z.shiftr (Z.land ?b ?m) ?k] =>
      let n := eval vm_compute in (Z.log2 (Z.shiftr m k) + 1) in
      rewrite (slice_mask b m k n) by (lia || reflexivity)
  | |- context [Z.land ?b ?m] =>
      let n := eval vm_compute in (Z.log2 m + 1) in
      rewrite (slice_mask0 b m n) by (lia || reflexivity)
  end.
Ltac reg_field Hl Hb := reg_bytes Hl Hb; reg_masks; unfold bits; rewrite ?slice_slice by lia.

Lemma csd_of_eq tab : length tab = 18%nat → Forall is_byte tab → csd_of tab = csd_spec (reg_value tab).
Proof.
  intros Hl Hb. unfold csd_of, csd_spec. cbv zeta. f_equal; try (reg_field Hl Hb; reflexivity).
  - reg_field Hl Hb. apply (wrap_join 16 _ 84 4 8); lia.
  - reg_field Hl Hb. apply (wrap_join3 32 _ 48 8 8 6); lia.
  - reg_field Hl Hb. apply (wrap_join 8 _ 39 1 6); lia.
  - reg_field Hl Hb. apply (wrap_join 8 _ 22 2 2); lia.
Qed.

Lemma cid_of_eq tab : length tab = 18%nat → Forall is_byte tab → cid_of tab = cid_spec (reg_value tab).
Proof.
  intros Hl Hb. unfold cid_of, cid_spec. cbv zeta. f_equal; try (reg_field Hl Hb; reflexivity).
  - reg_field Hl Hb. apply (wrap_join 16 _ 104 8 8); lia.
  - reg_field Hl Hb. apply (wrap_join4 32 _ 72 8 8 8 8); lia.
  - reg_field Hl Hb. apply (wrap_join4 32 _ 24 8 8 8 8); lia.
  - reg_field Hl Hb. apply (wrap_join 16 _ 8 8 4); lia.
Qed.

(** ** Any board

    What holds whatever the card answers, or whether there is one. *)

Section any.
Context {W : Type} `{K210 W} (sd : SDCard).
Implicit Types w : W.

Lemma wp_run {St A} (f : St → A * St) (Q : A → St → Prop) s : Q (f s).1 (f s).2 → wp (run f) Q s.
Proof. unfold wp, run. by destruct (f s). Qed.

Lemma any_write data (Q : unit → W → Prop) w : (∀ w', Q tt w') → wp (write_data sd data) Q w.
Proof. intros HQ. unfold write_data. wp_steps. apply HQ. Qed.

Lemma any_read n (Q : list Z → W → Prop) w :
  (∀ l w', length l = n → Forall is_byte l → Q l w') → wp (read_data sd n) Q w.
Proof. intros HQ. unfold read_data. wp_steps. apply wp_run, HQ; [apply recv_len|apply recv_byte]. Qed.

Lemma any_send cmd arg crc (Q : unit → W → Prop) w : (∀ w', Q tt w') → wp (send_cmd sd cmd arg crc) Q w.
Proof. intros HQ. unfold send_cmd, CS_LOW. wp_steps. by apply any_write. Qed.

Lemma any_end (Q : unit → W → Prop) w : (∀ w', Q tt w') → wp (end_cmd sd) Q w.
Proof. intros HQ. unfold end_cmd, CS_HIGH. wp_steps. by apply any_write. Qed.

Lemma any_response (Q : Z → W → Prop) w : (∀ r w', is_byte r → Q r w') → wp (get_response sd) Q w.
Proof.
  intros HQ. unfold get_response. generalize (Z.to_nat 0x0FFF). intros n. revert w.
  induction n as [|n IH]; intros w; cbn [response_loop].
  - wp_steps. apply HQ. done.
  - wp_steps. apply any_read. intros [|b [|]] w' Hl Hb; try done. apply Forall_cons in Hb as [Hb _].
    wp_steps. eapply wp_index; [done|]. destruct (b =? 0xFF); [done|]. wp_steps. auto.
Qed.

(** A routine that returns, with the equation that says so. *)
Lemma wp_eq {St A} (m : M St A) (Q : A → St → Prop) s : wp m (λ _ _, True) s → (∀ a s', m s = Ok (a, s') → Q a s') → wp m Q s.
Proof. intros Hm HQ. apply wp_ok in Hm as (a & s' & E & _). unfold wp. rewrite E. by apply HQ. Qed.

Lemma eq_send cmd arg crc (Q : unit → W → Prop) w :
  (∀ w', send_cmd sd cmd arg crc w = Ok (tt, w') → Q tt w') → wp (send_cmd sd cmd arg crc) Q w.
Proof. intros HQ. apply wp_eq; [by apply any_send|]. intros []. apply HQ. Qed.
Lemma eq_end (Q : unit → W → Prop) w : (∀ w', end_cmd sd w = Ok (tt, w') → Q tt w') → wp (end_cmd sd) Q w.
Proof. intros HQ. apply wp_eq; [by apply any_end|]. intros []. apply HQ. Qed.
Lemma eq_response (Q : Z → W → Prop) w : (∀ r w', get_response sd w = Ok (r, w') → Q r w') → wp (get_response sd) Q w.
Proof. intros HQ. apply wp_eq; [by apply any_response|done]. Qed.
Lemma eq_read n (Q : list Z → W → Prop) w :
  (∀ l w', read_data sd n w = Ok (l, w') → length l = n → Forall is_byte l → Q l w') → wp (read_data sd n) Q w.
Proof.
  intros HQ. apply wp_eq; [by apply any_read|]. intros l w' E.
  assert (wp (read_data sd n) (λ l _, length l = n ∧ Forall is_byte l) w) as Hl by (by apply any_read).
  unfold wp in Hl. rewrite E in Hl. destruct Hl. by apply HQ.
Qed.

(** One command and its answer: [asked] for a command without data,
    [asked_frame] for one whose answer is followed by four bytes, [reg_sent] for a
    register of 18 bytes behind the answers [0] and [0xFE] and [reg_refused] when
    one of these two did not come. *)
Definition asked (c : CMD) (arg crc : Z) w (r : Z) w' : Prop := ∃ w1 w2,
  send_cmd sd c arg crc w = Ok (tt, w1) ∧ get_response sd w1 = Ok (r, w2) ∧ end_cmd sd w2 = Ok (tt, w').
Definition asked_frame (c : CMD) (arg crc : Z) w (r : Z) (f : list Z) w' : Prop := ∃ w1 w2 w3,
  send_cmd sd c arg crc w = Ok (tt, w1) ∧ get_response sd w1 = Ok (r, w2) ∧ read_data sd 4 w2 = Ok (f, w3) ∧
  length f = 4%nat ∧ end_cmd sd w3 = Ok (tt, w').
Definition reg_sent (c : CMD) w (t : list Z) w' : Prop := ∃ w1 w2 w3 w4,
  send_cmd sd c 0 0 w = Ok (tt, w1) ∧ get_response sd w1 = Ok (0, w2) ∧
  get_response sd w2 = Ok (SD_START_DATA_SINGLE_BLOCK_READ, w3) ∧ read_data sd 18 w3 = Ok (t, w4) ∧
  length t = 18%nat ∧ Forall is_byte t ∧ end_cmd sd w4 = Ok (tt, w').
Definition reg_refused (c : CMD) w w' : Prop :=
  (∃ r, asked c 0 0 w r w' ∧ r ≠ 0) ∨
  ∃ r w1 w2 w3, send_cmd sd c 0 0 w = Ok (tt, w1) ∧ get_response sd w1 = Ok (0, w2) ∧
    get_response sd w2 = Ok (r, w3) ∧ r ≠ SD_START_DATA_SINGLE_BLOCK_READ ∧ end_cmd sd w3 = Ok (tt, w').

Lemma wp_asked {B} c arg crc (k : Z → M W B) (Q : B → W → Prop) w :
  (∀ r w', asked c arg crc w r w' → wp (k r) Q w') →
  wp (_ ← send_cmd sd c arg crc; r ← get_response sd; _ ← end_cmd sd; k r) Q w.
Proof.
  intros HQ. apply wp_bind, eq_send. intros w1 E1. apply wp_bind, eq_response. intros r w2 E2.
  apply wp_bind, eq_end. intros w3 E3. apply HQ. by exists w1, w2.
Qed.
Lemma wp_asked_frame {B} c arg crc (k : Z → list Z → M W B) (Q : B → W → Prop) w :
  (∀ r f w', asked_frame c arg crc w r f w' → wp (k r f) Q w') →
  wp (_ ← send_cmd sd c arg crc; r ← get_response sd; f ← read_data sd 4; _ ← end_cmd sd; k r f) Q w.
Proof.
  intros HQ. apply wp_bind, eq_send. intros w1 E1. apply wp_bind, eq_response. intros r w2 E2.
  apply wp_bind, eq_read. intros f w3 E3 Hf _. apply wp_bind, eq_end. intros w4 E4. apply HQ. by exists w1, w2, w3.
Qed.

(** One step of a driver routine on an arbitrary board. *)
Ltac any_step :=
  lazymatch goal with
  | |- wp (mbind _ _) _ _ => apply wp_bind
  | |- wp (mret _) _ _ => apply wp_ret
  | |- wp (modify _) _ _ => apply wp_modify
  | |- wp (send_cmd _ _ _ _) _ _ => apply any_send; intros ?
  | |- wp (end_cmd _) _ _ => apply any_end; intros ?
  | |- wp (write_data _ _) _ _ => apply any_write; intros ?
  | |- wp (get_response _) _ _ => apply any_response; intros ? ? ?
  | |- wp (read_data _ _) _ _ => apply any_read; intros ? ? ? ?
  end.
Ltac any_steps := repeat any_step; cbn beta.

(** Reading a register, with what its bytes are turned into. *)
Lemma wp_register {A} (decode : list Z → A) c (Q : Result A unit → W → Prop) w :
  (∀ w', reg_refused c w w' → Q (RErr tt) w') → (∀ t w', reg_sent c w t w' → Q (ROk (decode t)) w') →
  wp (_ ← send_cmd sd c 0 0; r ← get_response sd;
      if negb (r =? 0) then _ ← end_cmd sd; mret (RErr tt)
      else r ← get_response sd;
        if negb (r =? SD_START_DATA_SINGLE_BLOCK_READ) then _ ← end_cmd sd; mret (RErr tt)
        else tab ← read_data sd 18; _ ← end_cmd sd; mret (ROk (decode tab))) Q w.
Proof.
  intros HE HQ. apply wp_bind, eq_send. intros w1 E1. apply wp_bind, eq_response. intros r w2 E2.
  destruct (Z.eqb_spec r 0) as [->|Hr]; cbn [negb].
  - apply wp_bind, eq_response. intros r w3 E3. destruct (Z.eqb_spec r SD_START_DATA_SINGLE_BLOCK_READ) as [->|Hr]; cbn [negb].
    + apply wp_bind, eq_read. intros t w4 E4 Hl Hb. apply wp_bind, eq_end. intros w5 E5. apply wp_ret, HQ. by exists w1, w2, w3, w4.
    + apply wp_bind, eq_end. intros w4 E4. apply wp_ret, HE. right. by exists r, w1, w2, w3.
  - apply wp_bind, eq_end. intros w3 E3. apply wp_ret, HE. left. exists r. split; [by exists w1, w2|done].
Qed.

(** What [get_cardinfo] gives, and the commands it comes from. *)
Definition info_run w (r : Result SDCardInfo unit) w' : Prop :=
  match r with
  | ROk i => ∃ t u w1, reg_sent CMD9 w t w1 ∧ reg_sent CMD10 w1 u w' ∧ i = info_of (csd_of t) (cid_of u)
  | RErr _ => reg_refused CMD9 w w' ∨ ∃ t w1, reg_sent CMD9 w t w1 ∧ reg_refused CMD10 w1 w'
  end.

Lemma any_cardinfo w : wp (get_cardinfo sd) (λ r w', info_run w r w') w.
Proof.
  unfold get_cardinfo. wp_steps. apply (wp_register csd_of CMD9).
  - intros w' Hr. wp_steps. by left.
  - intros t w' Ht. wp_steps. apply (wp_register cid_of CMD10).
    + intros w2 Hr. wp_steps. right. by exists t, w'.
    + intros u w2 Hu. wp_steps. by exists t, u, w'.
Qed.

(** [n] rounds of CMD55 and ACMD41, after each of which the card is still idle;
    [n] readings of the operating conditions that were refused. *)
Inductive idle_rounds : nat → W → W → Prop :=
  | ir_nil w : idle_rounds 0 w w
  | ir_cons n w w1 w2 w3 r : asked CMD55 0 0 w 0x01 w1 → asked ACMD41 0x40000000 0 w1 r w2 → r ≠ 0 →
      idle_rounds n w2 w3 → idle_rounds (S n) w w3.
Inductive ocr_rounds : nat → W → W → Prop :=
  | or_nil w : ocr_rounds 0 w w
  | or_cons n w w1 w2 r f : asked_frame CMD58 0 1 w r f w1 → r ≠ 0 → ocr_rounds n w1 w2 → ocr_rounds (S n) w w2.

Lemma any_acmd41 n (Q : Result nat InitError → W → Prop) w :
  (∀ w', idle_rounds n w w' → Q (ROk O) w') →
  (∀ i w1 w2 w', (i < n)%nat → idle_rounds i w w1 → asked CMD55 0 0 w1 0x01 w2 → asked ACMD41 0x40000000 0 w2 0 w' →
     Q (ROk (n - i)%nat) w') →
  (∀ i r w1 w', (i < n)%nat → idle_rounds i w w1 → asked CMD55 0 0 w1 r w' → r ≠ 0x01 → Q (RErr (CMDFailed CMD55 r)) w') →
  wp (acmd41_loop sd n) Q w.
Proof.
  revert w. induction n as [|n IH]; intros w HO HS HE; cbn [acmd41_loop]; [apply wp_ret, HO; constructor|].
  apply wp_asked. intros r w1 H1. destruct (Z.eqb_spec r 0x01) as [->|Hr]; cbn [negb].
  - apply wp_asked. intros r w2 H2. destruct (Z.eqb_spec r 0) as [->|Hr].
    + apply wp_ret. apply (HS O w w1); [lia|constructor|done|done].
    + apply IH.
      * intros w' Hn. apply HO. by econstructor.
      * intros i w3 w4 w' Hi Hn. replace (n - i)%nat with (S n - S i)%nat by lia. apply HS; [lia|by econstructor].
      * intros i r' w3 w' Hi Hn. apply (HE (S i) r' w3 w'); [lia|by econstructor].
  - apply wp_ret. apply (HE O r w); [lia|constructor|done|done].
Qed.

Lemma any_cmd58 n frame (Q : nat * list Z → W → Prop) w :
  (∀ f w', ocr_rounds n w w' → Q (O, f) w') →
  (∀ i f w1 w', (i < n)%nat → ocr_rounds i w w1 → asked_frame CMD58 0 1 w1 0 f w' → Q ((n - i)%nat, f) w') →
  wp (cmd58_loop sd n frame) Q w.
Proof.
  revert w frame. induction n as [|n IH]; intros w frame HO HS; cbn [cmd58_loop]; [apply wp_ret, HO; constructor|].
  apply wp_asked_frame. intros r f w1 H1. destruct (Z.eqb_spec r 0) as [->|Hr].
  - apply wp_ret. apply (HS O f w); [lia|constructor|done].
  - apply IH.
    + intros f' w' Hn. apply HO. by econstructor.
    + intros i f' w2 w' Hi Hn. replace (n - i)%nat with (S n - S i)%nat by lia. apply HS; [lia|by econstructor].
Qed.

(** The stages of the start-up, each with the answers that lead to it. *)
Definition powered w w0 : Prop :=
  ∃ w1 w2, lowlevel_init sd w = Ok (tt, w1) ∧ CS_HIGH sd w1 = Ok (tt, w2) ∧ write_data sd (replicate 10 0xff) w2 = Ok (tt, w0).
Definition reset w w1 : Prop := ∃ w0, powered w w0 ∧ asked CMD0 0 0x95 w0 0x01 w1.
Definition voltage_ok w w2 : Prop := ∃ w1 f, reset w w1 ∧ asked_frame CMD8 0x01AA 0x87 w1 0x01 f w2.
Definition initialised w w' : Prop := ∃ w2 i w3 w4, voltage_ok w w2 ∧ (i < 255)%nat ∧ idle_rounds i w2 w3 ∧
  asked CMD55 0 0 w3 0x01 w4 ∧ asked ACMD41 0x40000000 0 w4 0 w'.
Definition capacity_ok w w' : Prop := ∃ w3 i w4 f0 f, initialised w w3 ∧ (i < 255)%nat ∧ ocr_rounds i w3 w4 ∧
  asked_frame CMD58 0 1 w4 0 (f0 :: f) w' ∧ Z.land f0 0x40 ≠ 0.

(** The start-up of a card, from [w]: what the card answered to each command, in
    the order of the commands, and the result that [init] gives for it. *)
Inductive init_run w : Result SDCardInfo InitError → W → Prop :=
  | in_cmd0 w0 r w1 : powered w w0 → asked CMD0 0 0x95 w0 r w1 → r ≠ 0x01 → init_run w (RErr (CMDFailed CMD0 r)) w1
  | in_cmd8 w1 r f w2 : reset w w1 → asked_frame CMD8 0x01AA 0x87 w1 r f w2 → r ≠ 0x01 →
      init_run w (RErr (CMDFailed CMD8 r)) w2
  | in_cmd55 w2 i w3 r w4 : voltage_ok w w2 → (i < 255)%nat → idle_rounds i w2 w3 → asked CMD55 0 0 w3 r w4 → r ≠ 0x01 →
      init_run w (RErr (CMDFailed CMD55 r)) w4
  | in_acmd41 w2 w3 : voltage_ok w w2 → idle_rounds 255 w2 w3 → init_run w (RErr (CMDFailed ACMD41 0x01)) w3
  | in_cmd58 w3 w4 : initialised w w3 → ocr_rounds 255 w3 w4 → init_run w (RErr (CMDFailed CMD58 0x01)) w4
  | in_capacity w3 i w4 f0 f w5 : initialised w w3 → (i < 255)%nat → ocr_rounds i w3 w4 → asked_frame CMD58 0 1 w4 0 (f0 :: f) w5 →
      Z.land f0 0x40 = 0 → init_run w (RErr (CardCapacityStatusNotSet (f0 :: f))) w5
  | in_info w5 w6 w7 : capacity_ok w w5 → HIGH_SPEED_ENABLE w5 = Ok (tt, w6) → info_run w6 (RErr tt) w7 →
      init_run w (RErr CannotGetCardInfo) w7
  | in_ok w5 w6 i w7 : capacity_ok w w5 → HIGH_SPEED_ENABLE w5 = Ok (tt, w6) → info_run w6 (ROk i) w7 → init_run w (ROk i) w7.

Lemma any_init w : wp (init sd) (λ r w', init_run w r w') w.
Proof.
  unfold init. apply wp_bind, wp_eq; [unfold lowlevel_init, HIGH_SPEED_ENABLE; any_steps; done|]. intros [] w1 E1.
  apply wp_bind, wp_eq; [unfold CS_HIGH; any_steps; done|]. intros [] w2 E2.
  apply wp_bind, wp_eq; [by apply any_write|]. intros [] w3 E3.
  assert (powered w w3) as Hp by (by exists w1, w2). clear E1 E2 E3 w1 w2.
  apply wp_asked. intros r w4 H0. destruct (Z.eqb_spec r 0x01) as [->|Hr]; cbn [negb]; [|apply wp_ret; by eapply in_cmd0].
  assert (reset w w4) as Hre by (by exists w3). clear Hp H0.
  apply (wp_asked_frame CMD8 _ _ (λ r _, _)). intros r f w5 H8. destruct (Z.eqb_spec r 0x01) as [->|Hr]; cbn [negb]; [|apply wp_ret; by eapply in_cmd8].
  assert (voltage_ok w w5) as Hv by (by exists w4, f). clear Hre H8. apply wp_bind, any_acmd41.
  { intros w' Hi. apply wp_ret. by eapply in_acmd41. }
  2: { intros i r w1 w' Hi Hn Ha Hr. apply wp_ret. by eapply in_cmd55. }
  intros i w6 w7 w8 Hi Hn Ha1 Ha2. destruct (255 - i)%nat as [|m] eqn:Hm; [lia|].
  assert (initialised w w8) as Hin by (by exists w5, i, w6, w7). clear Hv Hn Ha1 Ha2 Hm Hi m i. apply wp_bind, any_cmd58.
  { intros f' w' Hn. apply wp_ret. by eapply in_cmd58. }
  intros i fr w1 w2 Hi Hn Ha. destruct (255 - i)%nat as [|m] eqn:Hm; [lia|].
  assert (length fr = 4%nat) as Hl by (destruct Ha as (? & ? & ? & _ & _ & _ & ? & _); done).
  destruct fr as [|f0 fr]; [done|]. wp_steps. eapply wp_index; [done|].
  destruct (Z.eqb_spec (Z.land f0 0x40) 0) as [Hz|Hz]; [apply wp_ret; by eapply in_capacity|].
  assert (capacity_ok w w2) as Hc by (by exists w8, i, w1, f0, fr).
  apply wp_bind, wp_eq; [unfold HIGH_SPEED_ENABLE; any_steps; done|]. intros [] w9 E9.
  apply wp_bind. eapply wp_mono; [apply any_cardinfo|]. intros [info|[]] w' Hinfo; apply wp_ret; [by eapply in_ok|by eapply in_info].
Qed.
End any.

(** ** Size and capacity *)

Definition u_range (w x : Z) : Prop := 0 <= x < 2 ^ w.

Lemma bits_range x hi lo w : 0 <= hi - lo + 1 <= w → u_range w (bits x hi lo).
Proof.
  intros Hw. unfold u_range, bits. pose proof (slice_range x lo (hi - lo + 1) ltac:(lia)).
  assert (2 ^ (hi - lo + 1) <= 2 ^ w) by (apply Z.pow_le_mono_r; lia). lia.
Qed.

(** The capacity does not overflow. *)
Lemma info_of_capacity R S :
  CardBlockSize (info_of (csd_spec R) (cid_spec S)) = 2 ^ bits R 83 80 ∧
  CardCapacity (info_of (csd_spec R) (cid_spec S)) = (bits R 69 48 + 1) * 1024 * 2 ^ bits R 83 80.
Proof.
  pose proof (bits_range R 83 80 4 ltac:(lia)) as H1. pose proof (bits_range R 69 48 22 ltac:(lia)) as H2.
  unfold u_range in *. cbn [info_of CardCapacity CardBlockSize csd_spec RdBlockLen DeviceSize].
  set (l := bits R 83 80) in *. set (n := bits R 69 48) in *.
  assert (1 <= 2 ^ l < 2 ^ 16) as Hl by (split; [apply (Z.pow_le_mono_r 2 0 l)|apply Z.pow_lt_mono_r]; lia).
  rewrite Z.mod_small, Z.shiftl_1_l by lia. rewrite (wrap_small 64 (2 ^ l)) by lia. split; [done|].
  rewrite (wrap_small 64 (n + 1)), (wrap_small 64 ((n + 1) * 1024)), wrap_small by nia. done.
Qed.

(** The fields of the CSD and CID registers that the driver assembles from
    masked and shifted bytes are the bit ranges that the SD specification gives
    them in the 128-bit registers, whatever the card sent. *)
Theorem registers_decoded t : length t = 18%nat → Forall is_byte t →
  csd_of t = csd_spec (reg_value t) ∧ cid_of t = cid_spec (reg_value t).
Proof. intros Hl Hb. split; [by apply csd_of_eq|by apply cid_of_eq]. Qed.

(** C39: Whatever the card sends, [get_cardinfo] returns.  When it succeeds, the
    fields of the CSD and CID records that it assembles from masked and shifted
    bytes are the bit ranges that the SD specification gives them in the 128-bit
    registers that the card sent in answer to CMD9 and then to CMD10, and the
    capacity is (C_SIZE + 1) * 1024 blocks of [2 ^ READ_BL_LEN] bytes, without
    overflow.  It fails only when the card refused one of the two commands or did
    not start the data. *)
Theorem card_info_decoded {W} `{K210 W} sd (w : W) : ∃ r w', get_cardinfo sd w = Ok (r, w') ∧
  match r with
  | ROk i => ∃ t u w1, reg_sent sd CMD9 w t w1 ∧ reg_sent sd CMD10 w1 u w' ∧
      SD_csd i = csd_spec (reg_value t) ∧ SD_cid i = cid_spec (reg_value u) ∧
      CardBlockSize i = 2 ^ bits (reg_value t) 83 80 ∧
      CardCapacity i = (bits (reg_value t) 69 48 + 1) * 1024 * 2 ^ bits (reg_value t) 83 80
  | RErr _ => reg_refused sd CMD9 w w' ∨ ∃ t w1, reg_sent sd CMD9 w t w1 ∧ reg_refused sd CMD10 w1 w'
  end.
Proof.
  destruct (wp_ok _ _ _ (any_cardinfo sd w)) as (r & w' & E & Hr). exists r, w'. split; [exact E|]. destruct r as [i|[]]; [|exact Hr].
  destruct Hr as (t & u & w1 & Ht & Hu & ->). exists t, u, w1. split; [exact Ht|]. split; [exact Hu|].
  destruct Ht as (? & ? & ? & ? & _ & _ & _ & _ & Hl & Hb & _), Hu as (? & ? & ? & ? & _ & _ & _ & _ & Hl' & Hb' & _).
  rewrite (csd_of_eq t), (cid_of_eq u) by done. destruct (info_of_capacity (reg_value t) (reg_value u)) as [-> ->]. done.
Qed.

(** C40: Whatever the card answers, [init] returns (every wait is bounded), and its
    result is the one for what the card answered, command by command.  CMD0, CMD8
    and CMD55 are named in the error with the answer that was not [0x01], at the
    first such answer.  When the card is still idle after 255 rounds of CMD55 and
    ACMD41, or refuses CMD58 255 times, the error names that command with [0x01],
    the earlier answer to CMD8: the answer of the loop is lost in a variable of the
    loop's body.  The other errors are an operating-conditions register without
    its capacity bit, with the four bytes read, and a card that after all this
    refuses one of its registers; otherwise the result is the information that
    [get_cardinfo] reads. *)
Theorem init_outcomes {W} `{K210 W} sd (w : W) : ∃ r w', init sd w = Ok (r, w') ∧ init_run sd w r w'.
Proof. exact (wp_ok _ _ _ (any_init sd w)). Qed.

Lemma registers_decoded_witness :
  csd_of (map Z.of_nat (seq 100 18)) = csd_spec (reg_value (map Z.of_nat (seq 100 18))) ∧
  cid_of (map Z.of_nat (seq 100 18)) = cid_spec (reg_value (map Z.of_nat (seq 100 18))).
Proof.
  apply (registers_decoded (map Z.of_nat (seq 100 18))); [done|].
  apply Forall_fmap, Forall_forall. intros i ?%elem_of_seq. unfold is_byte. simpl. lia.
Defined.
