(* ===== verification/SdProtocol.v ===== *)
(** * The SD card driver against the SD protocol

    The card is not code of the repository: what the driver relies on is stated
    as an automaton of the bytes a card in SPI mode exchanges with its host, not
    deterministic where the SD specification leaves the card free (the bytes
    before an answer, the length of a busy period, checksums), and unconstrained
    when the host breaks the protocol.  The card answers within the number of times
    the driver asks (its polling limits); a slower card is one the driver reports as
    failed.  Every board whose bus ends at such a card
    ([CardBus]) makes the driver a block device: a read returns what was last
    written. *)

From S2P Require Import Prelude Codec BlockDev Sdcard.

(** ** The card *)

(** Its blocks and registers; [c_idle] is the number of ACMD41 it still answers
    with "idle" ([None] once it is operational), [c_app] whether the last command
    was CMD55. *)
Record Card := {
  c_disk : disk;
  c_csd : list Z;
  c_cid : list Z;
  c_ocr : list Z;
  c_idle : option nat;
  c_app : bool
}.

Definition with_disk (d : disk) (m : Card) : Card :=
  {| c_disk := d; c_csd := c_csd m; c_cid := c_cid m; c_ocr := c_ocr m; c_idle := c_idle m; c_app := c_app m |}.
Definition with_idle (i : option nat) (a : bool) (m : Card) : Card :=
  {| c_disk := c_disk m; c_csd := c_csd m; c_cid := c_cid m; c_ocr := c_ocr m; c_idle := i; c_app := a |}.

(** Where a card is: not selected, in a command frame, sending [q], waiting for
    the start of a block to write, receiving the block and its checksum. *)
Inductive phase :=
  | Off
  | Frame (got : list Z)
  | Out (q : list Z) (next : phase)
  | Stream (s : Z)
  | Token (s : Z)
  | Data (s : Z) (got : list Z).

Definition sending (q : list Z) (next : phase) : phase := match q with [] => next | _ => Out q next end.

(** The limit of the driver's polling. *)
Definition soon (n : nat) : Prop := Z.of_nat n < 0x0FFF.

(** The answer of one byte, after some idle bytes. *)
Definition r1 (n : nat) (r : Z) : list Z := replicate n 0xFF ++ [r].
(** A data block with its start token and its checksum. *)
Definition block (n : nat) (bs crc : list Z) : list Z := replicate n 0xFF ++ [0xFE] ++ bs ++ crc.

Section card.
Context (cap : Z) (busy : nat).

(** Answers to a command with its argument. *)
Inductive answer (m : Card) : Z → Z → Card → list Z → phase → Prop :=
  | a_reset a n k : soon n → (k < 255)%nat →
      answer m 0 a (with_idle (Some k) false m) (r1 n 0x01) (Frame [])
  | a_voltage a n k r7 : soon n → c_idle m = Some k → length r7 = 4%nat →
      answer m 8 a (with_idle (Some k) false m) (r1 n 0x01 ++ r7) (Frame [])
  | a_app a n k : soon n → c_idle m = Some k →
      answer m 55 a (with_idle (Some k) true m) (r1 n 0x01) (Frame [])
  | a_op_wait a n k : soon n → c_idle m = Some (S k) → c_app m = true →
      answer m 41 a (with_idle (Some k) false m) (r1 n 0x01) (Frame [])
  | a_op_done a n : soon n → c_idle m = Some 0%nat → c_app m = true →
      answer m 41 a (with_idle None false m) (r1 n 0x00) (Frame [])
  | a_ocr a n : soon n → c_idle m = None →
      answer m 58 a (with_idle None false m) (r1 n 0x00 ++ c_ocr m) (Frame [])
  | a_csd a n n' crc : soon n → soon n' → c_idle m = None → length crc = 2%nat →
      answer m 9 a (with_idle None false m) (r1 n 0x00 ++ block n' (c_csd m) crc) (Frame [])
  | a_cid a n n' crc : soon n → soon n' → c_idle m = None → length crc = 2%nat →
      answer m 10 a (with_idle None false m) (r1 n 0x00 ++ block n' (c_cid m) crc) (Frame [])
  | a_read a n n' crc : soon n → soon n' → c_idle m = None → length crc = 2%nat → 0 <= a < cap →
      answer m 17 a (with_idle None false m) (r1 n 0x00 ++ block n' (c_disk m a) crc) (Frame [])
  | a_read_many a n : soon n → c_idle m = None → 0 <= a < cap →
      answer m 18 a (with_idle None false m) (r1 n 0x00) (Stream a)
  | a_stop a n r : soon n → c_idle m = None → 0 <= r < 128 →
      answer m 12 a (with_idle None false m) (r1 n r) (Frame [])
  | a_write a n : soon n → c_idle m = None → 0 <= a < cap →
      answer m 24 a (with_idle None false m) (r1 n 0x00) (Token a).

(** The commands a card must answer; any other is not covered. *)
Definition covered (m : Card) (c a : Z) : Prop :=
  c = 0 ∨ (c ∈ [8; 55] ∧ is_Some (c_idle m)) ∨ (c = 41 ∧ is_Some (c_idle m) ∧ c_app m = true) ∨
  (c ∈ [58; 9; 10; 12] ∧ c_idle m = None) ∨ (c ∈ [17; 18; 24] ∧ c_idle m = None ∧ 0 <= a < cap).

Definition frame_cmd (f : list Z) : Z := Z.land (default 0 (f !! 0%nat)) 0x3F.
Definition frame_arg (f : list Z) : Z := be_value (take 4 (drop 1 f)).

(** What the host may send. *)
Definition host_ok (p : phase) (m : Card) (i : Z) : Prop :=
  match p with
  | Off => True
  | Frame [] => i = 0xFF ∨ Z.land i 0xC0 = 0x40
  | Frame (b :: got) => (length got < 4)%nat ∨
      (length got = 4%nat ∧ covered m (frame_cmd (b :: got ++ [i])) (frame_arg (b :: got ++ [i])))
  | Out q _ => i = 0xFF ∧ q ≠ []
  | Stream s => i = 0xFF ∧ 0 <= s < cap
  | Token _ => i = 0xFF ∨ i = 0xFE
  | Data _ got => (length got <= 513)%nat
  end.

(** One byte in each direction: [i] from the host, [o] from the card. *)
Inductive exch : phase * Card → Z → Z → phase * Card → Prop :=
  | x_off m i o : is_byte o → exch (Off, m) i o (Off, m)
  | x_idle m : exch (Frame [], m) 0xFF 0xFF (Frame [], m)
  | x_start m i : Z.land i 0xC0 = 0x40 → exch (Frame [], m) i 0xFF (Frame [i], m)
  | x_frame m b got i : (length got < 4)%nat → exch (Frame (b :: got), m) i 0xFF (Frame (b :: got ++ [i]), m)
  | x_answer m b got i m' q next : length got = 4%nat → let f := b :: got ++ [i] in
      answer m (frame_cmd f) (frame_arg f) m' q next → exch (Frame (b :: got), m) i 0xFF (Out q next, m')
  | x_out m o q next : exch (Out (o :: q) next, m) 0xFF o (sending q next, m)
  | x_stream m s n crc o q : soon n → length crc = 2%nat → 0 <= s < cap → block n (c_disk m s) crc = o :: q →
      exch (Stream s, m) 0xFF o (Out q (Stream (s + 1)), m)
  | x_token_idle m s : exch (Token s, m) 0xFF 0xFF (Token s, m)
  | x_token m s : exch (Token s, m) 0xFE 0xFF (Data s [], m)
  | x_data m s got i : (length got < 513)%nat → exch (Data s got, m) i 0xFF (Data s (got ++ [i]), m)
  | x_written m s got i r n : length got = 513%nat → is_byte r → Z.land r 0x1F = 0x05 → (n <= busy)%nat →
      exch (Data s got, m) i 0xFF (Out (r :: replicate n 0) (Frame []), with_disk (upd (c_disk m) s (take 512 got)) m)
  | x_broken p m i o c' : ¬ host_ok p m i → is_byte o → exch (p, m) i o c'.

Inductive exchs : phase * Card → list Z → list Z → phase * Card → Prop :=
  | xs_nil c : exchs c [] [] c
  | xs_cons c i o c1 ins outs c2 : exch c i o c1 → exchs c1 ins outs c2 → exchs c (i :: ins) (o :: outs) c2.

(** Boards with a card at the end of the SPI bus, selected by the GPIO pin. *)
Class CardBus (W : Type) `{K210 W} := {
  powered : W → Card → Prop;
  at_ : W → phase * Card → Prop;
  bus_usleep : ∀ w m n, powered w m → powered (usleep n w) m;
  bus_pll : ∀ w m p f, powered w m → is_Some (pll_set_freq p f w).1 ∧ powered (pll_set_freq p f w).2 m;
  bus_uart : ∀ w m n, powered w m → powered (uarths_configure n w) m;
  bus_function : ∀ w m i f, powered w m → powered (set_function i f w) m;
  bus_pull : ∀ w m i p, powered w m → powered (set_io_pull i p w) m;
  bus_lowlevel : ∀ w m, powered w m → ∃ p, at_ (set_clk_rate 200000 (set_direction SD_CS_GPIONUM OUTPUT w)) (p, m);
  bus_speed : ∀ w c, at_ w c → at_ (set_clk_rate 10000000 w) c;
  bus_high : ∀ w p m, at_ w (p, m) → at_ (set_pin SD_CS_GPIONUM true w) (Off, m);
  bus_low : ∀ w m, at_ w (Off, m) → at_ (set_pin SD_CS_GPIONUM false w) (Frame [], m);
  bus_send : ∀ w c data, Forall is_byte data → at_ w c → ∃ outs c', exchs c data outs c' ∧
    at_ (send_data SD_CS data (configure MODE0 FF_STANDARD 8 0 0 0 0 AITM_STANDARD TRANS w)) c';
  bus_recv : ∀ w c n, at_ w c →
    let r := recv_data SD_CS n (configure MODE0 FF_STANDARD 8 0 0 0 0 AITM_STANDARD RECV w) in
    ∃ c', exchs c (replicate n 0xFF) r.1 c' ∧ at_ r.2 c'
}.

(** ** The automaton, step by step *)

(** The host keeps the protocol. *)
Ltac not_broken := exfalso;
  match goal with H : ¬ host_ok _ _ _ |- _ => apply H; simpl; first [done|lia|tauto|split; done] end.

Lemma exch_out o q nx m o' c : exch (Out (o :: q) nx, m) 0xFF o' c → o' = o ∧ c = (sending q nx, m).
Proof. inversion 1; subst; [done|]. not_broken. Qed.

Lemma exch_off m i o c : exch (Off, m) i o c → c = (Off, m).
Proof. inversion 1; subst; [done|]. not_broken. Qed.

Lemma exch_frame b got m i o c : (length got < 4)%nat → exch (Frame (b :: got), m) i o c →
  c = (Frame (b :: got ++ [i]), m).
Proof. intros Hl. inversion 1; subst; [done|lia|]. not_broken. Qed.

Lemma exch_start m i o c : Z.land i 0xC0 = 0x40 → exch (Frame [], m) i o c → c = (Frame [i], m).
Proof. intros Hi. inversion 1; subst; [done|done|]. not_broken. Qed.

Lemma exch_idle m o c : exch (Frame [], m) 0xFF o c → o = 0xFF ∧ c = (Frame [], m).
Proof. inversion 1; subst; [done|done|]. not_broken. Qed.

Lemma exch_answer b got m i o c : length got = 4%nat →
  covered m (frame_cmd (b :: got ++ [i])) (frame_arg (b :: got ++ [i])) → exch (Frame (b :: got), m) i o c →
  ∃ m' q nx, answer m (frame_cmd (b :: got ++ [i])) (frame_arg (b :: got ++ [i])) m' q nx ∧ c = (Out q nx, m').
Proof. intros Hl Hc. inversion 1; subst; [lia|eauto|]. not_broken. Qed.

Lemma exch_stream s m o c : 0 <= s < cap → exch (Stream s, m) 0xFF o c →
  ∃ n crc q, soon n ∧ length crc = 2%nat ∧ block n (c_disk m s) crc = o :: q ∧ c = (Out q (Stream (s + 1)), m).
Proof. intros Hs. inversion 1; subst; [by eauto 10|]. not_broken. Qed.

Lemma exch_token s m o c : exch (Token s, m) 0xFE o c → c = (Data s [], m).
Proof. inversion 1; subst; [done|]. not_broken. Qed.
Lemma exch_token_idle s m o c : exch (Token s, m) 0xFF o c → c = (Token s, m).
Proof. inversion 1; subst; [done|]. not_broken. Qed.

Lemma exch_data s got m i o c : (length got < 513)%nat → exch (Data s got, m) i o c → c = (Data s (got ++ [i]), m).
Proof. intros Hl. inversion 1; subst; [done|lia|]. not_broken. Qed.

Lemma exch_written s got m i o c : length got = 513%nat → exch (Data s got, m) i o c →
  ∃ r n, is_byte r ∧ Z.land r 0x1F = 0x05 ∧ (n <= busy)%nat ∧
    c = (Out (r :: replicate n 0) (Frame []), with_disk (upd (c_disk m) s (take 512 got)) m).
Proof. intros Hl. inversion 1; subst; [lia|by eauto 10|]. not_broken. Qed.

Lemma answer_sending m c a m' q nx : answer m c a m' q nx → Out q nx = sending q nx.
Proof.
  assert (∀ n r l, r1 n r ++ l ≠ []) as Hr by (intros n r l; unfold r1; by destruct n).
  assert (∀ l, l ≠ [] → Out l nx = sending l nx) as Hs by (by intros []).
  destruct 1; apply Hs; try apply Hr; rewrite <- (app_nil_r (r1 _ _)); apply Hr.
Qed.

Lemma answer_read m a m' q nx : answer m 17 a m' q nx →
  m' = with_idle None false m ∧ nx = Frame [] ∧ ∃ n n' crc, soon n ∧ soon n' ∧ length crc = 2%nat ∧
    q = r1 n 0x00 ++ block n' (c_disk m a) crc.
Proof. inversion 1; subst; naive_solver. Qed.
Lemma answer_read_many m a m' q nx : answer m 18 a m' q nx →
  m' = with_idle None false m ∧ nx = Stream a ∧ ∃ n, soon n ∧ q = r1 n 0x00 ++ [].
Proof. inversion 1; subst. split_and!; [done|done|]. eexists. split; [done|]. by rewrite app_nil_r. Qed.
Lemma answer_stop m a m' q nx : answer m 12 a m' q nx →
  m' = with_idle None false m ∧ ∃ n r, soon n ∧ r ≠ 0xFF ∧ q = r1 n r ++ [].
Proof. inversion 1; subst. split; [done|]. eexists _, _. rewrite app_nil_r. split_and!; [done| |done]. lia. Qed.
Lemma answer_write m a m' q nx : answer m 24 a m' q nx →
  m' = with_idle None false m ∧ nx = Token a ∧ ∃ n, soon n ∧ q = r1 n 0x00 ++ [].
Proof. inversion 1; subst. split_and!; [done|done|]. eexists. split; [done|]. by rewrite app_nil_r. Qed.

Lemma answer_reset m a m' q nx : answer m 0 a m' q nx →
  ∃ k n, (k < 255)%nat ∧ m' = with_idle (Some k) false m ∧ nx = Frame [] ∧ soon n ∧ q = r1 n 0x01 ++ [].
Proof. inversion 1; subst. eexists _, _. rewrite app_nil_r. done. Qed.
Lemma answer_voltage m k a m' q nx : c_idle m = Some k → answer m 8 a m' q nx →
  m' = with_idle (Some k) false m ∧ nx = Frame [] ∧ ∃ n r7, soon n ∧ length r7 = 4%nat ∧ q = r1 n 0x01 ++ r7.
Proof. intros Hk. inversion 1; subst. naive_solver. Qed.
Lemma answer_app m k a m' q nx : c_idle m = Some k → answer m 55 a m' q nx →
  m' = with_idle (Some k) true m ∧ nx = Frame [] ∧ ∃ n, soon n ∧ q = r1 n 0x01 ++ [].
Proof.
  intros Hk. inversion 1; subst. split_and!; [congruence|done|]. eexists. rewrite app_nil_r. done.
Qed.
Lemma answer_op m k a m' q nx : c_idle m = Some k → answer m 41 a m' q nx →
  nx = Frame [] ∧ ∃ n, soon n ∧
    ((k = 0%nat ∧ m' = with_idle None false m ∧ q = r1 n 0x00 ++ []) ∨
     (∃ k', k = S k' ∧ m' = with_idle (Some k') false m ∧ q = r1 n 0x01 ++ [])).
Proof.
  intros Hk. inversion 1 as [| | |? n k' Hn Hk'|? n Hn Hk'| | | | | | |]; subst; rewrite Hk in Hk'; injection Hk' as ->;
    (split; [done|]); exists n; (split; [done|]); [right; exists k'|left]; by rewrite app_nil_r.
Qed.
Lemma answer_ocr m a m' q nx : answer m 58 a m' q nx →
  m' = with_idle None false m ∧ nx = Frame [] ∧ ∃ n, soon n ∧ q = r1 n 0x00 ++ c_ocr m.
Proof. inversion 1; subst. eauto. Qed.
Lemma answer_csd m a m' q nx : answer m 9 a m' q nx →
  m' = with_idle None false m ∧ nx = Frame [] ∧ ∃ n n' crc, soon n ∧ soon n' ∧ length crc = 2%nat ∧
    q = r1 n 0x00 ++ block n' (c_csd m) crc.
Proof. inversion 1; subst. naive_solver. Qed.
Lemma answer_cid m a m' q nx : answer m 10 a m' q nx →
  m' = with_idle None false m ∧ nx = Frame [] ∧ ∃ n n' crc, soon n ∧ soon n' ∧ length crc = 2%nat ∧
    q = r1 n 0x00 ++ block n' (c_cid m) crc.
Proof. inversion 1; subst. naive_solver. Qed.

(** Sequences of bytes. *)

Lemma exchs_app c ins1 ins2 outs c' : exchs c (ins1 ++ ins2) outs c' →
  ∃ outs1 outs2 c1, outs = outs1 ++ outs2 ∧ exchs c ins1 outs1 c1 ∧ exchs c1 ins2 outs2 c'.
Proof.
  revert c outs. induction ins1 as [|i ins1 IH]; intros c outs Hx; simpl in *.
  - exists [], outs, c. by repeat constructor.
  - inversion Hx as [|? ? o ? ? ? ? H1 Hr]; subst. destruct (IH _ _ Hr) as (outs1 & outs2 & c3 & -> & Hx1 & Hx2).
    exists (o :: outs1), outs2, c3. split_and!; [done| |done]. by econstructor.
Qed.

Lemma exchs_out q1 q2 nx m outs c :
  exchs (sending (q1 ++ q2) nx, m) (replicate (length q1) 0xFF) outs c → outs = q1 ∧ c = (sending q2 nx, m).
Proof.
  revert outs. induction q1 as [|o q1 IH]; intros outs Hx; simpl in *;
    inversion Hx as [|? ? ? ? ? ? ? H1 Hr]; subst; [done|].
  apply exch_out in H1 as [-> ->]. by destruct (IH _ Hr) as [-> ->].
Qed.

Lemma exchs_off m ins outs c : exchs (Off, m) ins outs c → c = (Off, m).
Proof.
  intros Hx. remember (Off, m) as c0. induction Hx as [|? ? ? ? ? ? ? H1 _ IH]; [done|]. subst.
  apply exch_off in H1 as ->. by apply IH.
Qed.

Lemma exchs_data s m ins : ∀ got outs c, (length got + length ins <= 513)%nat →
  exchs (Data s got, m) ins outs c → c = (Data s (got ++ ins), m).
Proof.
  induction ins as [|i ins IH]; intros got outs c Hl Hx; inversion Hx as [|? ? ? ? ? ? ? H1 Hr]; subst;
    [by rewrite app_nil_r|]. simpl in Hl.
  apply exch_data in H1 as ->; [|lia]. apply IH in Hr as ->; [|rewrite length_app; simpl; lia].
  by rewrite <- app_assoc.
Qed.

(** ** The driver on the bus *)

Section bus.
Context {W : Type} `{CardBus W}.
Implicit Types (w : W) (m : Card).
Let sd := SDCard_new SD_CS SD_CS_GPIONUM.

Lemma wp_write_data data (Q : unit → W → Prop) w c :
  Forall is_byte data → at_ w c → (∀ w' outs c', exchs c data outs c' → at_ w' c' → Q tt w') →
  wp (write_data sd data) Q w.
Proof.
  intros Hd Hw HQ. unfold write_data. wp_steps. destruct (bus_send w c data Hd Hw) as (outs & c' & Hx & Hw'). eauto.
Qed.

Lemma wp_read_data n (Q : list Z → W → Prop) w c :
  at_ w c → (∀ l w' c', length l = n → Forall is_byte l → exchs c (replicate n 0xFF) l c' → at_ w' c' → Q l w') →
  wp (read_data sd n) Q w.
Proof.
  intros Hw HQ. unfold read_data. wp_steps. apply wp_run. destruct (bus_recv w c n Hw) as (c' & Hx & Hw').
  eapply HQ; [apply recv_len|apply recv_byte|exact Hx|exact Hw'].
Qed.

(** Reading what the card has to send. *)
Lemma wp_read_out q1 q2 nx m (Q : list Z → W → Prop) w :
  at_ w (sending (q1 ++ q2) nx, m) → (∀ w', at_ w' (sending q2 nx, m) → Q q1 w') →
  wp (read_data sd (length q1)) Q w.
Proof.
  intros Hw HQ. eapply wp_read_data; [exact Hw|]. intros l w' c' _ _ [-> ->]%exchs_out Hw'. auto.
Qed.

Lemma wp_end_cmd p m (Q : unit → W → Prop) w :
  at_ w (p, m) → (∀ w', at_ w' (Off, m) → Q tt w') → wp (end_cmd sd) Q w.
Proof.
  intros Hw HQ. unfold end_cmd, CS_HIGH. wp_steps. eapply wp_write_data; [by repeat constructor|by eapply bus_high|].
  intros w' outs c' ->%exchs_off Hw'. auto.
Qed.

Lemma wp_response_loop t n r q nx m (Q : Z → W → Prop) w :
  (n < t)%nat → r ≠ 0xFF → at_ w (sending (r1 n r ++ q) nx, m) →
  (∀ w', at_ w' (sending q nx, m) → Q r w') → wp (response_loop sd t) Q w.
Proof.
  revert n w. induction t as [|t IH]; intros n w Hn Hr Hw HQ; [lia|]. cbn [response_loop]. wp_steps.
  destruct n as [|n].
  - apply (wp_read_out [r] q nx m); [exact Hw|]. intros w' Hw'. wp_steps. eapply wp_index; [done|].
    rewrite (proj2 (Z.eqb_neq _ _) Hr). wp_steps. auto.
  - apply (wp_read_out [0xFF] (r1 n r ++ q) nx m); [exact Hw|]. intros w' Hw'. wp_steps. eapply wp_index; [done|].
    rewrite Z.eqb_refl. apply (IH n); [lia|done|done|done].
Qed.

Lemma wp_get_response n r q nx m (Q : Z → W → Prop) w :
  soon n → r ≠ 0xFF → at_ w (sending (r1 n r ++ q) nx, m) →
  (∀ w', at_ w' (sending q nx, m) → Q r w') → wp (get_response sd) Q w.
Proof. intros Hn. apply wp_response_loop. unfold soon in Hn. lia. Qed.

(** The token before a block, and the block. *)
Lemma wp_get_token n bs crc q nx m (Q : Z → W → Prop) w :
  soon n → at_ w (sending (block n bs crc ++ q) nx, m) →
  (∀ w', at_ w' (sending ((bs ++ crc) ++ q) nx, m) → Q 0xFE w') → wp (get_response sd) Q w.
Proof.
  intros Hn Hw. eapply (wp_get_response n); [done|done|]. unfold r1, block in *. by rewrite <- !app_assoc in *.
Qed.

(** Reading [n] bytes of what the card has to send. *)
Lemma wp_read_n n q1 q2 nx m (Q : list Z → W → Prop) w :
  length q1 = n → at_ w (sending (q1 ++ q2) nx, m) → (∀ w', at_ w' (sending q2 nx, m) → Q q1 w') →
  wp (read_data sd n) Q w.
Proof. intros <-. apply wp_read_out. Qed.

(** A command reaches the card. *)
Lemma cmd_frame_decoded cmd arg crc : 0 <= arg < 2 ^ 32 →
  Z.land (Z.lor (cmd_code cmd) 0x40) 0xC0 = 0x40 ∧ frame_cmd (cmd_frame cmd arg crc) = cmd_code cmd ∧
  frame_arg (cmd_frame cmd arg crc) = arg.
Proof.
  intros Ha. split_and!; [by destruct cmd|by destruct cmd|].
  unfold frame_arg, cmd_frame. simpl. unfold be_value. simpl.
  rewrite !Z.shiftr_div_pow2, !(Z.land_ones _ 8 : _ → Z.land _ 0xff = _) by lia. unfold wrap. zdiv.
Qed.

Lemma cmd_frame_bytes cmd arg crc : is_byte crc → Forall is_byte (cmd_frame cmd arg crc).
Proof.
  intros Hc. unfold cmd_frame, is_byte in *. rewrite !(Z.land_ones _ 8 : _ → Z.land _ 0xff = _) by lia.
  pose proof (Z.mod_pos_bound (Z.shiftr arg 24) 256) as B1. pose proof (Z.mod_pos_bound (Z.shiftr arg 16) 256) as B2.
  pose proof (Z.mod_pos_bound (Z.shiftr arg 8) 256) as B3. pose proof (Z.mod_pos_bound arg 256) as B4.
  unfold wrap. repeat constructor; try (apply B1 || apply B2 || apply B3 || apply B4 || lia); by destruct cmd.
Qed.

Lemma wp_send_cmd cmd arg crc m (Q : unit → W → Prop) w :
  is_byte crc → 0 <= arg < 2 ^ 32 → covered m (cmd_code cmd) arg → at_ w (Off, m) →
  (∀ w' m' q nx, answer m (cmd_code cmd) arg m' q nx → at_ w' (sending q nx, m') → Q tt w') →
  wp (send_cmd sd cmd arg crc) Q w.
Proof.
  intros Hcrc Ha Hc Hw HQ. unfold send_cmd, CS_LOW. wp_steps.
  eapply wp_write_data; [by apply cmd_frame_bytes|by eapply bus_low|].
  intros w' outs c' Hx Hw'. destruct (cmd_frame_decoded cmd arg crc Ha) as (F1 & F2 & F3).
  unfold cmd_frame in *. inversion_clear Hx as [|? ? ? ? ? ? ? H1 Hx1]. apply exch_start in H1 as ->; [|done].
  inversion_clear Hx1 as [|? ? ? ? ? ? ? H1 Hx2]. apply exch_frame in H1 as ->; [|simpl; lia].
  inversion_clear Hx2 as [|? ? ? ? ? ? ? H1 Hx1]. apply exch_frame in H1 as ->; [|simpl; lia].
  inversion_clear Hx1 as [|? ? ? ? ? ? ? H1 Hx2]. apply exch_frame in H1 as ->; [|simpl; lia].
  inversion_clear Hx2 as [|? ? ? ? ? ? ? H1 Hx1]. apply exch_frame in H1 as ->; [|simpl; lia].
  inversion_clear Hx1 as [|? ? ? ? ? ? ? H1 Hx2]. inversion Hx2; subst.
  apply exch_answer in H1 as (m' & q & nx & Han & ->); [|done|]; simpl app in *; rewrite F2, F3 in *; [|done].
  eapply HQ; [exact Han|]. by rewrite <- (answer_sending _ _ _ _ _ _ Han).
Qed.

(** An operational card: blocks and registers have their sizes. *)
Record card_wf (m : Card) : Prop := {
  cw_disk : ∀ b, 0 <= b < cap → block_wf (c_disk m b);
  cw_csd : length (c_csd m) = 16%nat;
  cw_cid : length (c_cid m) = 16%nat;
  cw_ocr : ∃ o0 o1 o2 o3, c_ocr m = [o0; o1; o2; o3] ∧ Z.land o0 0x40 ≠ 0
}.

(** [at_ready w d]: between two commands, an operational card holds [d]. *)
Definition at_ready w (d : disk) : Prop :=
  ∃ m, at_ w (Off, m) ∧ c_idle m = None ∧ card_wf m ∧ c_disk m = d.

Lemma card_wf_idle m i a : card_wf m → card_wf (with_idle i a m).
Proof. by intros []. Qed.
Lemma card_wf_disk m s bs : card_wf m → block_wf bs → card_wf (with_disk (upd (c_disk m) s bs) m).
Proof.
  intros [D C I O] Hbs. split; try done. simpl. intros b Hb. unfold upd. case_decide; [done|]. by apply D.
Qed.


(** [chunks] of a whole number of sectors. *)
Lemma chunks_fuel_wf {A} fuel (l : list A) n : length l = (512 * n)%nat → (n <= fuel)%nat →
  length (chunks_fuel fuel 512 l) = n ∧ Forall (λ c, length c = 512%nat) (chunks_fuel fuel 512 l).
Proof.
  revert l n. induction fuel as [|fuel IH]; intros l n Hl Hn; destruct l as [|x l].
  - by destruct n.
  - simpl in Hl. lia.
  - by destruct n.
  - destruct n as [|n]; [done|]. cbn [chunks_fuel]. destruct (IH (drop 512 (x :: l)) n) as [H1 H2]; [|lia|].
    + rewrite length_drop, Hl. lia.
    + split; [cbn [length]; by rewrite H1|]. constructor; [|done]. rewrite length_take, Hl. lia.
Qed.

Lemma chunks_wf {A} (l : list A) n : length l = (512 * n)%nat →
  length (chunks 512 l) = n ∧ Forall (λ c, length c = 512%nat) (chunks 512 l).
Proof. intros Hl. apply chunks_fuel_wf; [done|]. lia. Qed.

Lemma chunks_one {A} n (l : list A) : (0 < n)%nat → length l = n → chunks n l = [l].
Proof.
  intros Hn Hl. unfold chunks. destruct l as [|x l]; [simpl in Hl; lia|]. cbn [length chunks_fuel].
  rewrite take_ge, drop_ge by lia. by destruct (length l).
Qed.

Lemma copy_zip_all dst src : length dst = length src → copy_zip dst src = src.
Proof. intros Hl. unfold copy_zip. rewrite Hl, drop_ge, app_nil_r by lia. by rewrite take_ge by lia. Qed.

(** One block arrives, with its token. *)
Lemma wp_read_chunk chunk cs n bs crc q nx m (Q : list (list Z) * bool → W → Prop) w :
  length chunk = 512%nat → soon n → length bs = 512%nat → length crc = 2%nat →
  at_ w (sending (block n bs crc ++ q) nx, m) →
  (∀ w', at_ w' (sending q nx, m) → wp (read_chunks sd cs) (λ r w', Q (bs :: r.1, r.2) w') w') →
  wp (read_chunks sd (chunk :: cs)) Q w.
Proof.
  intros Hk Hn Hl Hc Hw HQ. cbn [read_chunks]. wp_steps. eapply (wp_get_token n); [done|exact Hw|]. intros w1 Hw1.
  cbn [negb Z.eqb Pos.eqb SD_START_DATA_SINGLE_BLOCK_READ]. rewrite <- app_assoc in Hw1. wp_steps.
  eapply wp_read_n; [exact Hl|exact Hw1|]. intros w2 Hw2. wp_steps.
  eapply wp_read_n; [exact Hc|exact Hw2|]. intros w3 Hw3. wp_steps.
  eapply wp_mono; [by apply HQ|]. intros [rest e] w4 H4. wp_steps. by rewrite copy_zip_all by congruence.
Qed.

(** Blocks of a multiple read: the card chooses a delay before each. *)
Lemma wp_stream_token s m (Q : Z → W → Prop) w :
  0 <= s < cap → at_ w (Stream s, m) →
  (∀ crc w', length crc = 2%nat → at_ w' (sending (c_disk m s ++ crc) (Stream (s + 1)), m) → Q 0xFE w') →
  wp (get_response sd) Q w.
Proof.
  intros Hs Hw HQ. unfold get_response. assert (Z.to_nat 0x0FFF = S (Z.to_nat 0x0FFE)) as -> by lia.
  cbn [response_loop]. wp_steps. eapply wp_read_data; [exact Hw|]. intros l w1 c1 _ _ Hx Hw1.
  inversion_clear Hx as [|? ? o ? ? ? ? H1 Hx1]. inversion Hx1; subst.
  apply exch_stream in H1 as (n & crc & q & Hn & Hc & Hb & ->); [|done].
  wp_steps. eapply wp_index; [done|]. unfold block in Hb. destruct n as [|n]; simpl in Hb; injection Hb as <- <-.
  - cbn [Z.eqb Pos.eqb]. wp_steps. apply (HQ crc); [done|].
    destruct (c_disk m s ++ crc) eqn:E; [|done]. apply app_nil in E as [_ ->]. done.
  - cbn [Z.eqb Pos.eqb]. eapply (wp_response_loop _ n 0xFE (c_disk m s ++ crc) (Stream (s + 1)) m); [|done| |].
    + unfold soon in Hn. lia.
    + unfold r1. rewrite <- app_assoc. unfold sending. destruct (replicate n 255 ++ _) eqn:E; [|exact Hw1].
      by apply app_nil in E as [_ ?].
    + intros w2 Hw2. by apply (HQ crc).
Qed.

Lemma wp_read_stream cs : ∀ s m (Q : list (list Z) * bool → W → Prop) w,
  Forall (λ c, length c = 512%nat) cs → 0 <= s → s + lengthZ cs <= cap → card_wf m → at_ w (Stream s, m) →
  (∀ w' p, at_ w' (p, m) → Q (c_disk m <$> seqZ s (lengthZ cs), false) w') → wp (read_chunks sd cs) Q w.
Proof.
  induction cs as [|c cs IH]; intros s m Q w Hcs Hs Hcap Hm Hw HQ; [by apply wp_ret; eauto|].
  inversion_clear Hcs as [|? ? Hc Hcs']. change (lengthZ (c :: cs)) with (Z.of_nat (S (length cs))) in *.
  rewrite Nat2Z.inj_succ in *. fold (lengthZ cs) in *. pose proof (lengthZ_nonneg cs).
  destruct (cw_disk _ Hm s ltac:(lia)) as [Hl _]. cbn [read_chunks]. wp_steps.
  eapply wp_stream_token; [|exact Hw|]; [lia|]. intros crc w1 Hcrc Hw1.
  cbn [negb Z.eqb Pos.eqb SD_START_DATA_SINGLE_BLOCK_READ]. wp_steps.
  eapply wp_read_n; [exact Hl|exact Hw1|]. intros w2 Hw2. wp_steps.
  eapply (wp_read_n 2 crc []); [exact Hcrc|by rewrite app_nil_r|]. intros w3 Hw3. wp_steps.
  eapply (IH (s + 1)); [done|lia|lia|done|exact Hw3|]. intros w4 p Hw4. wp_steps.
  rewrite copy_zip_all by congruence. rewrite (seqZ_cons s) in HQ by lia.
  replace (Z.pred (Z.succ (lengthZ cs))) with (lengthZ cs) in HQ by lia.
  replace (Z.succ s) with (s + 1) in HQ by lia. by eapply HQ.
Qed.

(** ** Sectors *)

Lemma sector_len_ok (buf : list Z) n : length buf = (512 * n)%nat → (0 < n)%nat →
  (SEC_LEN <=? lengthZ buf) && (lengthZ buf mod SEC_LEN =? 0) = true ∧ (lengthZ buf =? SEC_LEN) = (n =? 1)%nat.
Proof.
  intros Hl Hn. unfold lengthZ, SEC_LEN. rewrite Hl. split.
  - apply andb_true_intro. rewrite Z.leb_le, Z.eqb_eq. split; [lia|].
    replace (Z.of_nat (512 * n)) with (Z.of_nat n * 512) by lia. by apply Z.mod_mul.
  - destruct (Nat.eqb_spec n 1) as [->|]; [done|]. apply Z.eqb_neq. lia.
Qed.

Lemma covered_ready c a m : c ∈ [58; 9; 10; 12] → c_idle m = None → covered m c a.
Proof. unfold covered. tauto. Qed.
Lemma covered_io c a m : c ∈ [17; 18; 24] → c_idle m = None → 0 <= a < cap → covered m c a.
Proof. intros. unfold covered. tauto. Qed.

(** A read of one or more sectors. *)
Lemma wp_read_sector buf n s d (Q : list Z * Result unit unit → W → Prop) w :
  cap <= 2 ^ 32 → length buf = (512 * n)%nat → (0 < n)%nat → 0 <= s → s + Z.of_nat n <= cap → at_ready w d →
  (∀ w', at_ready w' d → Q (concat (d <$> seqZ s (Z.of_nat n)), ROk tt) w') → wp (read_sector sd buf s) Q w.
Proof.
  intros Hcap Hl Hn Hs Hsn (m & Hw & Hi & Hwf & <-) HQ. destruct (sector_len_ok buf n Hl Hn) as [A1 A2].
  destruct (chunks_wf buf n Hl) as [C1 C2]. unfold read_sector. wp_steps. apply wp_assert; [done|]. rewrite A2. wp_steps.
  destruct (Nat.eqb_spec n 1) as [->|Hn1]; cbn [negb].
  - eapply wp_send_cmd; [done| |apply covered_io; [by apply (bool_decide_unpack _)|done|]|exact Hw|]; [lia|lia|].
    intros w1 m1 q nx (-> & -> & k & k' & crc & Hk & Hk' & Hc & ->)%answer_read Hw1.
    wp_steps. eapply wp_get_response; [exact Hk| |exact Hw1|]; [done|]. intros w2 Hw2. cbn [Z.eqb negb]. wp_steps.
    destruct (chunks 512 buf) as [|c [|]]; try done. inversion_clear C2 as [|? ? Hc1 _].
    destruct (cw_disk _ Hwf s ltac:(lia)) as [Hb _].
    eapply (wp_read_chunk c [] k' _ crc []); [exact Hc1|exact Hk'|exact Hb|exact Hc|by rewrite app_nil_r|].
    intros w3 Hw3. cbn [read_chunks]. wp_steps. eapply wp_end_cmd; [exact Hw3|]. intros w4 Hw4. wp_steps.
    apply HQ. exists (with_idle None false m). split_and!; [done|done|by apply card_wf_idle|done].
  - eapply wp_send_cmd; [done| |apply covered_io; [by apply (bool_decide_unpack _)|done|]|exact Hw|]; [lia|lia|].
    intros w1 m1 q nx (-> & -> & k & Hk & ->)%answer_read_many Hw1.
    wp_steps. eapply wp_get_response; [exact Hk| |exact Hw1|]; [done|]. intros w2 Hw2. cbn [Z.eqb negb]. wp_steps.
    eapply wp_read_stream; [done|exact Hs|unfold lengthZ; rewrite C1; lia|by apply card_wf_idle|exact Hw2|].
    intros w3 ph Hw3. wp_steps. eapply wp_end_cmd; [exact Hw3|]. intros w4 Hw4. wp_steps.
    eapply wp_send_cmd; [done|lia| |exact Hw4|]; [apply covered_ready; [by apply (bool_decide_unpack _)|done]|].
    intros w5 m1 q nx (-> & j & r & Hj & Hr & ->)%answer_stop Hw5. wp_steps.
    eapply wp_get_response; [exact Hj|exact Hr|exact Hw5|]. intros w6 Hw6. wp_steps.
    eapply wp_end_cmd; [exact Hw6|]. intros w7 Hw7. wp_steps. eapply wp_end_cmd; [exact Hw7|]. intros w8 Hw8. wp_steps.
    unfold lengthZ. rewrite C1. apply HQ. eexists. split_and!; [exact Hw8|done|by repeat apply card_wf_idle|done].
Qed.

(** The busy period ends. *)
Lemma wp_busy n m (Q : unit → W → Prop) : ∀ fuel w,
  (n <= fuel)%nat → at_ w (sending (replicate n 0) (Frame []), m) → (∀ w' p, at_ w' (p, m) → Q tt w') →
  wp (response ← read_data sd 1; r ← index response 0; busy_loop sd fuel r) Q w.
Proof.
  induction n as [|n IH]; intros fuel w Hn Hw HQ; wp_steps.
  - eapply wp_read_data; [exact Hw|]. intros l w1 c1 _ _ Hx Hw1.
    inversion_clear Hx as [|? ? o ? ? ? ? H1 Hx1]. inversion Hx1; subst. apply exch_idle in H1 as [-> ->].
    wp_steps. eapply wp_index; [done|]. destruct fuel; cbn; by apply (HQ _ (Frame [])).
  - destruct fuel as [|fuel]; [lia|]. apply (wp_read_out [0] (replicate n 0) (Frame []) m); [exact Hw|].
    intros w1 Hw1. wp_steps. eapply wp_index; [done|]. cbn [busy_loop Z.eqb].
    apply IH; [lia|done|done].
Qed.

Lemma wp_dataresponse r n fuel m (Q : Z → W → Prop) w :
  Z.land r 0x1F = 0x05 → (n <= fuel)%nat → at_ w (Out (r :: replicate n 0) (Frame []), m) →
  (∀ w' p, at_ w' (p, m) → Q 0 w') → wp (get_dataresponse sd fuel) Q w.
Proof.
  intros Hr Hn Hw HQ. unfold get_dataresponse. wp_steps.
  apply (wp_read_out [r] (replicate n 0) (Frame []) m); [exact Hw|]. intros w1 Hw1. wp_steps.
  eapply wp_index; [done|]. rewrite Hr. cbn [Z.eqb Pos.eqb negb].
  apply (wp_mono (r ← read_data sd 1; r ← index r 0; _ ← busy_loop sd fuel r; mret 0) (λ v w', v = 0 ∧ Q 0 w')).
  2: { by intros v w' [-> ?]. }
  assert (wp (r ← read_data sd 1; r ← index r 0; busy_loop sd fuel r) (λ _ w', Q 0 w') w1) as Hb
    by (by eapply wp_busy).
  revert Hb. unfold wp, mbind, M_bind. destruct (read_data sd 1 w1) as [[l w2]|]; [|done].
  destruct (index l 0 w2) as [[b w3]|]; [|done]. by destruct (busy_loop sd fuel b w3) as [[[] w4]|].
Qed.

(** A write of one sector. *)
Lemma wp_write_sector fuel bs s d (Q : Result unit unit → W → Prop) w :
  cap <= 2 ^ 32 → (busy <= fuel)%nat → block_wf bs → 0 <= s < cap → at_ready w d →
  (∀ w', at_ready w' (upd d s bs) → Q (ROk tt) w') → wp (write_sector sd fuel bs s) Q w.
Proof.
  intros Hcap Hf Hbs Hs (m & Hw & Hi & Hwf & <-) HQ. pose proof (proj1 Hbs) as Hl.
  destruct (sector_len_ok bs 1 Hl) as [A1 A2]; [lia|].
  destruct (chunks_wf bs 1 Hl) as [C1 _]. unfold write_sector. wp_steps. apply wp_assert; [done|]. rewrite A2.
  cbn [Nat.eqb]. wp_steps.
  eapply wp_send_cmd; [done| |apply covered_io; [by apply (bool_decide_unpack _)|done|done]|exact Hw|]; [lia|].
  intros w1 m1 q nx (-> & -> & k & Hk & ->)%answer_write Hw1. wp_steps.
  eapply wp_get_response; [exact Hk| |exact Hw1|]; [done|]. intros w2 Hw2. cbn [Z.eqb negb].
  rewrite (chunks_one 512 bs) by (done || lia).
  cbn [write_chunks]. wp_steps. eapply wp_write_data; [by repeat constructor|exact Hw2|]. intros w3 outs c3 Hx Hw3.
  inversion_clear Hx as [|? ? ? ? ? ? ? H1 Hx1]. apply exch_token_idle in H1 as ->.
  inversion_clear Hx1 as [|? ? ? ? ? ? ? H1 Hx]. apply exch_token in H1 as ->. inversion Hx; subst.
  wp_steps. rewrite copy_zip_all by (by rewrite length_replicate). eapply wp_write_data; [apply Hbs|exact Hw3|].
  intros w4 outs4 c4 Hx4 Hw4. apply exchs_data in Hx4 as ->; [|simpl; lia]. simpl app in *.
  wp_steps. eapply wp_write_data; [by repeat constructor|exact Hw4|]. intros w5 outs5 c5 Hx5 Hw5.
  inversion_clear Hx5 as [|? ? ? ? ? ? ? H1 Hx1]. apply exch_data in H1 as ->; [|lia].
  inversion_clear Hx1 as [|? ? ? ? ? ? ? H1 Hx2]. inversion Hx2; subst.
  apply exch_written in H1 as (r & n & Hr & Hr5 & Hn & ->); [|rewrite length_app; simpl; lia].
  wp_steps. eapply wp_dataresponse; [exact Hr5| |exact Hw5|]; [lia|]. intros w6 p Hw6. cbn [Z.eqb negb]. wp_steps.
  eapply wp_end_cmd; [exact Hw6|]. intros w7 Hw7. wp_steps. eapply wp_end_cmd; [exact Hw7|]. intros w8 Hw8. wp_steps.
  apply HQ. eexists. split_and!; [exact Hw8|done| |].
  - rewrite <- Hl, take_app_length. by apply card_wf_disk; [apply card_wf_idle|].
  - cbn. by rewrite <- Hl, take_app_length.
Qed.

Definition sd_laws fuel : cap <= 2 ^ 32 → (busy <= fuel)%nat → @BlockDeviceLaws W (SDCardWrapper fuel sd) cap.
Proof.
  intros Hcap Hf. refine (@Build_BlockDeviceLaws W (SDCardWrapper fuel sd) cap at_ready _ _ _).
  - intros w d b (m & _ & _ & Hwf & <-) Hb. by apply Hwf.
  - intros w d b Hw Hb. cbn [read_block SDCardWrapper]. rewrite wrap_small by lia. wp_steps.
    eapply (wp_read_sector _ 1); [done|by rewrite length_replicate|lia|lia|lia|exact Hw|].
    intros w' Hw'. wp_steps. split; [|done].
    change (seqZ b (Z.of_nat 1)) with [0 + b]. cbn. by rewrite app_nil_r.
  - intros w d b bs Hw Hb Hbs. cbn [write_block SDCardWrapper]. rewrite wrap_small by lia. wp_steps.
    eapply wp_write_sector; [done|done|done|done|exact Hw|]. done.
Defined.

(** ** Start-up *)

Lemma covered_idle c a k m : c ∈ [8; 55] → c_idle m = Some k → covered m c a.
Proof. intros Hc Hk. unfold covered. rewrite Hk. eauto. Qed.

(** The card becomes operational. *)
Lemma wp_acmd41 t : ∀ k m (Q : Result nat InitError → W → Prop) w,
  (k < t)%nat → c_idle m = Some k → at_ w (Off, m) →
  (∀ w' i, at_ w' (Off, with_idle None false m) → Q (ROk (S i)) w') → wp (acmd41_loop sd t) Q w.
Proof.
  induction t as [|t IH]; intros k m Q w Hk Hi Hw HQ; [lia|]. cbn [acmd41_loop]. wp_steps.
  eapply wp_send_cmd; [done|lia|eapply covered_idle; [by apply (bool_decide_unpack _)|exact Hi]|exact Hw|].
  intros w1 m1 q nx (-> & -> & n & Hn & ->)%(answer_app _ _ _ _ _ _ Hi) Hw1. wp_steps.
  eapply wp_get_response; [exact Hn| |exact Hw1|]; [done|]. intros w2 Hw2. wp_steps.
  eapply wp_end_cmd; [exact Hw2|]. intros w3 Hw3. cbn [Z.eqb Pos.eqb negb]. wp_steps.
  eapply wp_send_cmd; [done|lia| |exact Hw3|].
  { unfold covered. cbn. split_and?; eauto. right. right. left. eauto. }
  intros w4 m1 q nx Ha Hw4. eapply (answer_op _ k) in Ha as (-> & n4 & Hn4 & Hcase); [|done].
  destruct Hcase as [(-> & -> & ->)|(k' & -> & -> & ->)]; wp_steps;
    (eapply wp_get_response; [exact Hn4| |exact Hw4|]; [done|]); intros w5 Hw5; wp_steps;
    (eapply wp_end_cmd; [exact Hw5|]); intros w6 Hw6; cbn [Z.eqb]; wp_steps.
  - by apply HQ.
  - eapply (IH k'); [lia| |exact Hw6|]; [done|]. intros w7 i Hw7. by apply HQ.
Qed.

Lemma wp_ocr t frame m (Q : nat * list Z → W → Prop) w :
  (0 < t)%nat → c_idle m = None → card_wf m → at_ w (Off, m) →
  (∀ w' i, at_ w' (Off, with_idle None false m) → Q (S i, c_ocr m) w') → wp (cmd58_loop sd t frame) Q w.
Proof.
  intros Ht Hi [_ _ _ (o0 & o1 & o2 & o3 & Ho & _)] Hw HQ. destruct t as [|t]; [lia|]. cbn [cmd58_loop]. wp_steps.
  eapply wp_send_cmd; [done|lia|apply covered_ready; [by apply (bool_decide_unpack _)|exact Hi]|exact Hw|].
  intros w1 m1 q nx (-> & -> & n & Hn & ->)%answer_ocr Hw1. wp_steps.
  eapply wp_get_response; [exact Hn| |exact Hw1|]; [done|]. intros w2 Hw2. wp_steps.
  eapply (wp_read_n 4 (c_ocr m) []); [by rewrite Ho|by rewrite app_nil_r|]. intros w3 Hw3. wp_steps.
  eapply wp_end_cmd; [exact Hw3|]. intros w4 Hw4. cbn [Z.eqb]. wp_steps. by apply HQ.
Qed.

(** A register of 16 bytes and its checksum. *)
Lemma wp_read_register reg crc m (Q : list Z → W → Prop) w :
  length reg = 16%nat → length crc = 2%nat → at_ w (sending ((reg ++ crc) ++ []) (Frame []), m) →
  (∀ t w', length t = 18%nat → Forall is_byte t → reg_value t = be_value reg → at_ w' (Frame [], m) → Q t w') →
  wp (read_data sd 18) Q w.
Proof.
  intros Hl Hc Hw HQ. eapply wp_read_data; [exact Hw|]. intros t w2 c2 Ht Hb Hx Hw2.
  assert (length (reg ++ crc) = 18%nat) as H18 by (rewrite length_app; lia). rewrite <- H18 in Hx.
  apply exchs_out in Hx as [-> ->]. apply HQ; [done|done| |done]. unfold reg_value. by rewrite <- Hl, take_app_length.
Qed.

Lemma wp_csd m (Q : Result SDCardCSD unit → W → Prop) w :
  c_idle m = None → card_wf m → at_ w (Off, m) →
  (∀ w', at_ w' (Off, with_idle None false m) → Q (ROk (csd_spec (be_value (c_csd m)))) w') → wp (get_csdregister sd) Q w.
Proof.
  intros Hi Hwf Hw HQ. unfold get_csdregister. wp_steps.
  eapply wp_send_cmd; [done|lia|apply covered_ready; [by apply (bool_decide_unpack _)|exact Hi]|exact Hw|].
  intros w1 m1 q nx (-> & -> & n & n' & crc & Hn & Hn' & Hc & ->)%answer_csd Hw1. wp_steps.
  eapply wp_get_response; [exact Hn| |exact Hw1|]; [done|]. intros w2 Hw2. cbn [Z.eqb negb]. wp_steps.
  eapply (wp_get_token n' _ crc []); [done|by rewrite app_nil_r|]. intros w3 Hw3.
  cbn [negb Z.eqb Pos.eqb SD_START_DATA_SINGLE_BLOCK_READ]. wp_steps.
  eapply wp_read_register; [apply (cw_csd _ Hwf)|exact Hc|exact Hw3|]. intros t w4 Ht Hb Hr Hw4. wp_steps.
  eapply wp_end_cmd; [exact Hw4|]. intros w5 Hw5. wp_steps. rewrite csd_of_eq, Hr by done. by apply HQ.
Qed.

Lemma wp_cid m (Q : Result SDCardCID unit → W → Prop) w :
  c_idle m = None → card_wf m → at_ w (Off, m) →
  (∀ w', at_ w' (Off, with_idle None false m) → Q (ROk (cid_spec (be_value (c_cid m)))) w') → wp (get_cidregister sd) Q w.
Proof.
  intros Hi Hwf Hw HQ. unfold get_cidregister. wp_steps.
  eapply wp_send_cmd; [done|lia|apply covered_ready; [by apply (bool_decide_unpack _)|exact Hi]|exact Hw|].
  intros w1 m1 q nx (-> & -> & n & n' & crc & Hn & Hn' & Hc & ->)%answer_cid Hw1. wp_steps.
  eapply wp_get_response; [exact Hn| |exact Hw1|]; [done|]. intros w2 Hw2. cbn [Z.eqb negb]. wp_steps.
  eapply (wp_get_token n' _ crc []); [done|by rewrite app_nil_r|]. intros w3 Hw3.
  cbn [negb Z.eqb Pos.eqb SD_START_DATA_SINGLE_BLOCK_READ]. wp_steps.
  eapply wp_read_register; [apply (cw_cid _ Hwf)|exact Hc|exact Hw3|]. intros t w4 Ht Hb Hr Hw4. wp_steps.
  eapply wp_end_cmd; [exact Hw4|]. intros w5 Hw5. wp_steps. rewrite cid_of_eq, Hr by done. by apply HQ.
Qed.

Definition card_info (m : Card) : SDCardInfo :=
  info_of (csd_spec (be_value (c_csd m))) (cid_spec (be_value (c_cid m))).

Lemma wp_init m (Q : Result SDCardInfo InitError → W → Prop) w :
  card_wf m → powered w m →
  (∀ w', at_ready w' (c_disk m) → Q (ROk (card_info m)) w') → wp (init sd) Q w.
Proof.
  intros Hwf Hw HQ. destruct (bus_lowlevel w m Hw) as [p Hw0]. unfold init, lowlevel_init, CS_HIGH. wp_steps.
  eapply wp_write_data; [by repeat constructor|by eapply bus_high|]. intros w1 outs c1 ->%exchs_off Hw1. wp_steps.
  eapply wp_send_cmd; [done|lia|by left|exact Hw1|].
  intros w2 m2 q nx (k & n & Hk & -> & -> & Hn & ->)%answer_reset Hw2. wp_steps.
  eapply wp_get_response; [exact Hn| |exact Hw2|]; [done|]. intros w3 Hw3. wp_steps.
  eapply wp_end_cmd; [exact Hw3|]. intros w4 Hw4. cbn [Z.eqb Pos.eqb negb]. wp_steps.
  eapply wp_send_cmd; [done|lia| |exact Hw4|]; [eapply covered_idle; [by apply (bool_decide_unpack _)|done]|].
  intros w5 m5 q nx Ha Hw5. eapply (answer_voltage _ k) in Ha as (-> & -> & n5 & r7 & Hn5 & Hr7 & ->); [|done]. wp_steps.
  eapply wp_get_response; [exact Hn5| |exact Hw5|]; [done|]. intros w6 Hw6. wp_steps.
  eapply (wp_read_n 4 r7 []); [done|by rewrite app_nil_r|]. intros w7 Hw7. wp_steps.
  eapply wp_end_cmd; [exact Hw7|]. intros w8 Hw8. cbn [Z.eqb Pos.eqb negb]. wp_steps.
  eapply (wp_acmd41 255 k); [lia| |exact Hw8|]; [done|]. intros w9 i Hw9. wp_steps.
  eapply wp_ocr; [lia| | |exact Hw9|]; [done|by repeat apply card_wf_idle|]. intros w10 j Hw10. wp_steps.
  destruct (cw_ocr _ Hwf) as (o0 & o1 & o2 & o3 & Ho & Hbit). cbn [with_idle c_ocr]. rewrite Ho.
  eapply wp_index; [done|]. rewrite (proj2 (Z.eqb_neq _ _) Hbit). unfold HIGH_SPEED_ENABLE, get_cardinfo. wp_steps.
  apply bus_speed in Hw10. eapply wp_csd; [| |exact Hw10|]; [done|by repeat apply card_wf_idle|].
  intros w11 Hw11. wp_steps. eapply wp_cid; [| |exact Hw11|]; [done|by repeat apply card_wf_idle|].
  intros w12 Hw12. wp_steps. apply HQ. eexists. split_and!; [exact Hw12|done|by repeat apply card_wf_idle|done].
Qed.

Lemma wp_set_pll p f m (Q : unit → W → Prop) w :
  powered w m → (∀ w', powered w' m → Q tt w') → wp (set_pll p f) Q w.
Proof.
  intros Hw HQ. destruct (bus_pll w m p f Hw) as [[x Hx] Hw']. unfold set_pll. wp_steps. apply wp_run.
  wp_steps. eapply wp_unwrap; [exact Hx|]. wp_steps. auto.
Qed.

Lemma wp_init_sdcard m (Q : SDCard → W → Prop) w :
  card_wf m → powered w m → (∀ w', at_ready w' (c_disk m) → Q sd w') → wp init_sdcard Q w.
Proof.
  intros Hwf Hw HQ. unfold init_sdcard, io_init. wp_steps.
  eapply wp_set_pll; [by apply bus_usleep|]. intros w1 Hw1. wp_steps.
  eapply wp_set_pll; [exact Hw1|]. intros w2 Hw2. wp_steps.
  eapply wp_set_pll; [exact Hw2|]. intros w3 Hw3. wp_steps. fold sd.
  eapply wp_init; [done|by repeat (apply bus_pull || apply bus_function || apply bus_uart)|].
  intros w4 Hw4. wp_steps. unfold unwrap_result. wp_steps. apply wp_assert; [|wp_steps; by apply HQ].
  destruct (info_of_capacity (be_value (c_csd m)) (be_value (c_cid m))) as [_ Hc]. unfold card_info. rewrite Hc.
  set (R := be_value (c_csd m)). pose proof (bits_range R 69 48 22 ltac:(lia)) as Hn.
  assert (2 ^ 0 <= 2 ^ bits R 83 80) by (apply Z.pow_le_mono_r; [lia|]; pose proof (bits_range R 83 80 4 ltac:(lia)) as Hr; apply Hr).
  unfold u_range in Hn. apply Z.ltb_lt, Z.div_str_pos. nia.
Qed.
End bus.
End card.

(** ** A board with a card

    The automaton run with fixed delays: one idle byte before every answer and
    block, one busy byte after a write. *)

Section board.
Context (cap : Z) (rounds : nat).
#[local] Arguments r1 : simpl never.
#[local] Arguments block : simpl never.

Definition respond (m : Card) (c a : Z) : phase * Card :=
  let idle := with_idle None false m in
  match c_idle m with
  | Some k =>
      if c =? 0 then (Out (r1 1 0x01) (Frame []), with_idle (Some rounds) false m)
      else if c =? 8 then (Out (r1 1 0x01 ++ [0; 0; 1; 0xAA]) (Frame []), with_idle (Some k) false m)
      else if c =? 55 then (Out (r1 1 0x01) (Frame []), with_idle (Some k) true m)
      else if (c =? 41) && c_app m then
        match k with
        | O => (Out (r1 1 0x00) (Frame []), idle)
        | S k' => (Out (r1 1 0x01) (Frame []), with_idle (Some k') false m)
        end
      else (Off, m)
  | None =>
      if c =? 0 then (Out (r1 1 0x01) (Frame []), with_idle (Some rounds) false m)
      else if c =? 58 then (Out (r1 1 0x00 ++ c_ocr m) (Frame []), idle)
      else if c =? 9 then (Out (r1 1 0x00 ++ block 1 (c_csd m) [0; 0]) (Frame []), idle)
      else if c =? 10 then (Out (r1 1 0x00 ++ block 1 (c_cid m) [0; 0]) (Frame []), idle)
      else if c =? 12 then (Out (r1 1 0x00) (Frame []), idle)
      else if bool_decide (0 <= a < cap) then
        if c =? 17 then (Out (r1 1 0x00 ++ block 1 (c_disk m a) [0; 0]) (Frame []), idle)
        else if c =? 18 then (Out (r1 1 0x00) (Stream a), idle)
        else if c =? 24 then (Out (r1 1 0x00) (Token a), idle)
        else (Off, m)
      else (Off, m)
  end.

Definition card_step (c : phase * Card) (i : Z) : Z * (phase * Card) :=
  let '(p, m) := c in
  match p with
  | Off => (0xFF, (Off, m))
  | Frame [] => (0xFF, (if i =? 0xFF then Frame [] else Frame [i], m))
  | Frame (b :: got) =>
      (0xFF, if (length got <? 4)%nat then (Frame (b :: got ++ [i]), m)
             else let f := b :: got ++ [i] in respond m (frame_cmd f) (frame_arg f))
  | Out [] nx => (0xFF, (Off, m))
  | Out (o :: q) nx => (o, (sending q nx, m))
  | Stream s => (0xFF, if bool_decide (0 <= s < cap) then (Out (0xFE :: c_disk m s ++ [0; 0]) (Stream (s + 1)), m) else (Off, m))
  | Token s => (0xFF, (if i =? 0xFE then Data s [] else Token s, m))
  | Data s got =>
      (0xFF, if (length got <? 513)%nat then (Data s (got ++ [i]), m)
             else (Out [0x05; 0] (Frame []), with_disk (upd (c_disk m) s (take 512 got)) m))
  end.

Fixpoint card_run (c : phase * Card) (ins : list Z) : list Z * (phase * Card) :=
  match ins with
  | [] => ([], c)
  | i :: ins' => let '(o, c1) := card_step c i in let '(outs, c2) := card_run c1 ins' in (o :: outs, c2)
  end.

(** Everything on the bus is a byte. *)
Fixpoint phase_bytes (p : phase) : Prop :=
  match p with
  | Out q nx => Forall is_byte q ∧ phase_bytes nx
  | Data _ got => Forall is_byte got
  | _ => True
  end.
Definition mem_bytes (m : Card) : Prop :=
  (∀ b, Forall is_byte (c_disk m b)) ∧ Forall is_byte (c_csd m) ∧ Forall is_byte (c_cid m) ∧ Forall is_byte (c_ocr m).
Definition on_board (w c : phase * Card) : Prop := w = c ∧ phase_bytes c.1 ∧ mem_bytes c.2.

Lemma length_card_run c ins : length (card_run c ins).1 = length ins.
Proof.
  revert c. induction ins as [|i ins IH]; intros c; simpl; [done|]. destruct (card_step c i) as [o c1].
  specialize (IH c1). destruct (card_run c1 ins). simpl in *. lia.
Qed.

#[local] Instance demo_board : K210 (phase * Card).
Proof.
  refine {| configure := λ _ _ _ _ _ _ _ _ _ w, w; set_clk_rate := λ _ w, w;
    send_data := λ _ data w, (card_run w data).2;
    recv_data := λ _ n w, ((λ o, o mod 256) <$> (card_run w (replicate n 0xFF)).1, (card_run w (replicate n 0xFF)).2);
    set_pin := λ _ v w, (if v then Off else Frame [], w.2); set_direction := λ _ _ w, w;
    usleep := λ _ w, w; pll_set_freq := λ _ f w, (Some f, w); uarths_configure := λ _ w, w;
    set_function := λ _ _ w, w; set_io_pull := λ _ _ w, w |}.
  - intros _ n w. simpl. rewrite length_fmap, length_card_run. apply length_replicate.
  - intros _ n w. simpl. apply Forall_fmap, Forall_forall. intros o _. apply Z.mod_pos_bound. lia.
Defined.

Lemma r1_bytes n r : is_byte r → Forall is_byte (r1 n r).
Proof. intros Hr. apply Forall_app. split; [by apply Forall_replicate|by apply Forall_singleton]. Qed.
Lemma block_bytes bs : Forall is_byte bs → Forall is_byte (block 1 bs [0; 0]).
Proof. intros Hb. unfold block. rewrite !Forall_app. split_and!; [..|done|]; by repeat constructor. Qed.

Lemma respond_bytes m c a : mem_bytes m → phase_bytes (respond m c a).1 ∧ mem_bytes (respond m c a).2.
Proof.
  intros Hm. pose proof Hm as (Hd & Hcsd & Hcid & Hocr). unfold respond.
  repeat case_match; (split; [|done]); cbn [fst phase_bytes]; try done; (split; [|done]); rewrite ?Forall_app;
    try (split; [|first [by apply block_bytes|done|by repeat constructor]]); by apply r1_bytes.
Qed.

Context (Hrounds : (rounds < 255)%nat).

Lemma respond_answer m c a : covered cap m c a →
  ∃ m' q nx, respond m c a = (Out q nx, m') ∧ answer cap m c a m' q nx.
Proof.
  assert (soon 1) as H1 by (by unfold soon).
  intros Hc. unfold respond. destruct (c_idle m) as [k|] eqn:Hi; unfold covered in Hc; rewrite Hi in Hc.
  - destruct Hc as [->|[[Hc _]|[(-> & _ & Happ)|[[_ ?]|(_ & ? & _)]]]]; try done.
    + cbn. eexists _, _, _. split; [done|]. by constructor.
    + repeat (apply elem_of_cons in Hc as [->|Hc]); try (by apply elem_of_nil in Hc); cbn;
        eexists _, _, _; (split; [done|]); by econstructor.
    + rewrite Happ. destruct k; cbn; eexists _, _, _; (split; [done|]); by constructor.
  - destruct Hc as [->|[[_ [? ?]]|[(_ & [? ?] & _)|[[Hc _]|(Hc & _ & Ha)]]]]; try done.
    + cbn. eexists _, _, _. split; [done|]. by constructor.
    + repeat (apply elem_of_cons in Hc as [->|Hc]); try (by apply elem_of_nil in Hc); cbn;
        eexists _, _, _; (split; [done|]); by constructor.
    + rewrite bool_decide_eq_true_2 by done.
      repeat (apply elem_of_cons in Hc as [->|Hc]); try (by apply elem_of_nil in Hc); cbn;
        eexists _, _, _; (split; [done|]); by constructor.
Qed.

#[local] Instance covered_dec m c a : Decision (covered cap m c a).
Proof. unfold covered. apply _. Defined.

Lemma card_step_ok c i : is_byte i → phase_bytes c.1 → mem_bytes c.2 →
  exch cap 1 c i (card_step c i).1 (card_step c i).2 ∧ is_byte (card_step c i).1 ∧
  phase_bytes (card_step c i).2.1 ∧ mem_bytes (card_step c i).2.2.
Proof.
  destruct c as [p m]. intros Hi Hp Hm. destruct p as [|[|b got]|[|o q] nx|s|s|s got]; cbn [card_step fst snd] in *.
  - split_and!; [by constructor|done..].
  - split_and!; [|done| |done]; [|by case_match]. destruct (Z.eqb_spec i 0xFF) as [->|Hff]; [constructor|].
    destruct (decide (Z.land i 0xC0 = 0x40)); [by constructor|]. apply x_broken; [|done]. simpl. tauto.
  - split_and!; [|done|case_match; [done|by apply respond_bytes]|case_match; [done|by apply respond_bytes]].
    destruct (Nat.ltb_spec (length got) 4); [by constructor|].
    destruct (decide (length got = 4%nat)) as [Hg|Hg]; [|apply x_broken; [simpl; lia|done]].
    destruct (decide (covered cap m (frame_cmd (b :: got ++ [i])) (frame_arg (b :: got ++ [i])))) as [Hc|Hc].
    + destruct (respond_answer _ _ _ Hc) as (m' & q & nx & -> & Ha). by constructor.
    + apply x_broken; [|done]. cbn [host_ok]. intros [?|[_ ?]]; [lia|done].
  - split_and!; [|done..]. apply x_broken; [|done]. simpl. by intros [_ ?].
  - destruct Hp as [Hq Hn]. apply Forall_cons in Hq as [Ho Hq]. split_and!; [|done| |done].
    + destruct (decide (i = 0xFF)) as [->|?]; [constructor|]. apply x_broken; [|done]. simpl. tauto.
    + by destruct q.
  - split_and!; [|done| |by case_match].
    + case_bool_decide as Hs; [|apply x_broken; [simpl; tauto|done]].
      destruct (decide (i = 0xFF)) as [->|?]; [|apply x_broken; [simpl; tauto|done]].
      by apply (x_stream cap 1 m s 1 [0; 0]).
    + case_bool_decide; [|done]. simpl. split; [|done]. constructor; [done|]. apply Forall_app. split; [apply Hm|].
      by repeat constructor.
  - split_and!; [|done|case_match; [constructor|done]|done]. destruct (Z.eqb_spec i 0xFE) as [->|?]; [constructor|].
    destruct (decide (i = 0xFF)) as [->|?]; [constructor|]. apply x_broken; [|done]. simpl. tauto.
  - destruct (Nat.ltb_spec (length got) 513) as [Hl|Hl].
    + split_and!; [by constructor|done| |done]. apply Forall_app. split; [done|by apply Forall_singleton].
    + split_and!; [|done|simpl; split; [by repeat constructor|done]|].
      * destruct (decide (length got = 513%nat)); [|apply x_broken; [simpl; lia|done]].
        by apply (x_written cap 1 m s got i 5 1).
      * destruct Hm as (Hd & Hr). split; [|done]. intros b. simpl. unfold upd. case_decide; [by apply Forall_take|apply Hd].
Qed.

Lemma card_run_ok ins : ∀ c, Forall is_byte ins → phase_bytes c.1 → mem_bytes c.2 →
  exchs cap 1 c ins (card_run c ins).1 (card_run c ins).2 ∧ Forall is_byte (card_run c ins).1 ∧
  phase_bytes (card_run c ins).2.1 ∧ mem_bytes (card_run c ins).2.2.
Proof.
  induction ins as [|i ins IH]; intros c Hi Hp Hm; [split_and!; [constructor|constructor|done|done]|]. apply Forall_cons in Hi as [Hi Hins].
  destruct (card_step_ok c i Hi Hp Hm) as (S1 & S2 & S3 & S4). cbn [card_run].
  destruct (card_step c i) as [o c1]. cbn [fst snd] in *. destruct (IH c1 Hins S3 S4) as (R1 & R2 & R3 & R4).
  destruct (card_run c1 ins) as [outs c2]. cbn [fst snd] in *. split_and!; [by econstructor|by constructor|done|done].
Qed.

#[local] Instance demo_bus : CardBus cap 1 (phase * Card).
Proof.
  refine {| powered := λ w m, w.2 = m ∧ phase_bytes w.1 ∧ mem_bytes m; at_ := on_board |}; try done.
  - intros [p m'] m (<- & Hp & Hm). exists p. split; [done|by split].
  - intros w p m (-> & _ & Hm). split; [done|by split].
  - intros w m (-> & _ & Hm). split; [done|by split].
  - intros w c data Hd (-> & Hp & Hm). destruct (card_run_ok data c Hd Hp Hm) as (R1 & _ & R3 & R4).
    eexists _, _. split; [exact R1|]. split; [done|by split].
  - intros w c n (-> & Hp & Hm). destruct (card_run_ok (replicate n 0xFF) c) as (R1 & R2 & R3 & R4); [by apply Forall_replicate|done|done|].
    cbv zeta. eexists. split; [|split; [done|by split]]. cbn [recv_data demo_board fst].
    replace (_ <$> _) with (card_run c (replicate n 0xFF)).1; [exact R1|]. symmetry.
    etrans; [|apply list_fmap_id]. apply list_fmap_ext. intros k o Ho. simpl.
    apply Z.mod_small. by apply (Forall_lookup_1 _ _ _ _ R2 Ho).
Defined.
End board.

(** A card of 8 blocks, all zero, with registers of a two-gigabyte card. *)
Definition demo_card : Card :=
  {| c_disk := λ _, replicate 512 0; c_csd := [0x40; 0x0E; 0; 0x32; 0x5B; 0x59; 0; 0; 0x0F; 0xFF; 0x7F; 0x80; 0x0A; 0x40; 0; 1];
     c_cid := replicate 16 1; c_ocr := [0xC0; 0xFF; 0x80; 0]; c_idle := None; c_app := false |}.

Lemma demo_card_wf : card_wf 8 demo_card.
Proof.
  split; [|done|done|by exists 0xC0, 0xFF, 0x80, 0]. intros b _. split; [done|]. by apply Forall_replicate.
Qed.
Lemma demo_card_bytes : mem_bytes demo_card.
Proof. split_and!; [intros b; by apply Forall_replicate|..]; by repeat constructor. Qed.

(** C19: On every board whose bus ends at a card that follows the SD protocol, the
    device that [SDCardWrapper::new] returns is a block device with the card's
    blocks: start-up brings the card into its operational state and does not
    panic, a read of a block returns what was last written to it, and a write
    changes that block and no other; neither panics nor polls for ever. *)
Theorem sd_block_device cap busy {W} `{CardBus cap busy W} fuel (w : W) m :
  let sd := SDCard_new SD_CS SD_CS_GPIONUM in
  let D := SDCardWrapper fuel sd in
  cap <= 2 ^ 32 → (busy <= fuel)%nat → card_wf cap m → powered cap busy w m →
  (∃ w1, SDCardWrapper_new w = Ok (sd, w1) ∧ at_ready cap busy w1 (c_disk m)) ∧
  (∀ w d b, at_ready cap busy w d → 0 <= b < cap →
     ∃ w', @read_block W D b w = Ok (d b, w') ∧ at_ready cap busy w' d) ∧
  (∀ w d b bs, at_ready cap busy w d → 0 <= b < cap → block_wf bs →
     ∃ w', @write_block W D b bs w = Ok (tt, w') ∧ at_ready cap busy w' (upd d b bs)).
Proof.
  intros sd D Hcap Hbusy Hm Hw. split_and!.
  - destruct (wp_ok init_sdcard (λ r w', r = sd ∧ at_ready cap busy w' (c_disk m)) w) as (r & w1 & E & -> & H1); [|eauto].
    eapply wp_init_sdcard; eauto.
  - intros v d b Hv Hb. pose proof (@dev_read W D cap (sd_laws cap busy fuel Hcap Hbusy) v d b Hv Hb) as Hr.
    apply wp_ok in Hr as (bs & w' & E & -> & H'). eauto.
  - intros v d b bs Hv Hb Hbs. pose proof (@dev_write W D cap (sd_laws cap busy fuel Hcap Hbusy) v d b bs Hv Hb Hbs) as Hr.
    apply wp_ok in Hr as ([] & w' & E & H'). eauto.
Qed.

(** [read_sector] with a buffer of [n] sectors returns the blocks [s] to
    [s + n - 1] in order, whether it uses the command for one block or the one for
    many and the command that stops them, and leaves the card ready. *)
Theorem sd_read_many cap busy {W} `{CardBus cap busy W} (w : W) d buf n s :
  cap <= 2 ^ 32 → length buf = (512 * n)%nat → (0 < n)%nat → 0 <= s → s + Z.of_nat n <= cap →
  at_ready cap busy w d →
  ∃ w', read_sector (SDCard_new SD_CS SD_CS_GPIONUM) buf s w =
    Ok ((concat (d <$> seqZ s (Z.of_nat n)), ROk tt), w') ∧ at_ready cap busy w' d.
Proof.
  intros Hcap Hl Hn Hs Hsn Hw.
  destruct (wp_ok (read_sector (SDCard_new SD_CS SD_CS_GPIONUM) buf s)
    (λ r w', r = (concat (d <$> seqZ s (Z.of_nat n)), ROk tt) ∧ at_ready cap busy w' d) w) as (r & w1 & E & -> & H1); [|eauto].
  by eapply wp_read_sector.
Qed.

(** ** Witnesses *)

Definition demo_bus3 : @CardBus 8 1 (phase * Card) (demo_board 8 3) := demo_bus 8 3 (proj1 (Nat.ltb_lt 3 255) eq_refl).

Lemma sd_block_device_witness : ∃ sd w1, @SDCardWrapper_new _ (demo_board 8 3) (Off, demo_card) = Ok (sd, w1).
Proof.
  destruct (@sd_block_device 8 1 _ (demo_board 8 3) demo_bus3 1 (Off, demo_card) demo_card) as ((w1 & E & _) & _).
  - lia.
  - lia.
  - apply demo_card_wf.
  - repeat split; apply demo_card_bytes.
  - exists (SDCard_new SD_CS SD_CS_GPIONUM), w1. exact E.
Defined.

Lemma sd_read_many_witness : ∃ w1,
  @read_sector _ (demo_board 8 3) (SDCard_new SD_CS SD_CS_GPIONUM) (replicate (512 * 3) 0) 2 (Off, demo_card) =
    Ok ((concat (c_disk demo_card <$> seqZ 2 3), ROk tt), w1).
Proof.
  destruct (@sd_read_many 8 1 _ (demo_board 8 3) demo_bus3 (Off, demo_card) (c_disk demo_card) (replicate (512 * 3) 0) 3 2)
    as (w1 & E & _).
  - lia.
  - by rewrite length_replicate.
  - lia.
  - lia.
  - lia.
  - exists demo_card. split_and!; [|done|apply demo_card_wf|done]. repeat split; apply demo_card_bytes.
  - exists w1. exact E.
Defined.
