(* ===== verification/Virtio.v ===== *)
(** * The virtio block device and the block device test

    [os/src/drivers/block/virtio_blk.rs]: the functions that give the
    [virtio-drivers] crate its DMA memory, and the device built on the crate,
    which is a parameter here.  [block_device_test] of
    [os/src/drivers/block/mod.rs] runs on every lawful device. *)

From S2P Require Import Prelude Address FrameAllocator PageTable Codec BlockDev Sdcard.

(** ** DMA memory *)

(** The frame allocator and [QUEUE_FRAMES]. *)
Record Dma := { dm_mm : MM; queue_frames : list Z }.
Definition upd_dm_mm (s : MM) (x : Dma) : Dma := {| dm_mm := s; queue_frames := queue_frames x |}.
Definition push_queue (f : Z) (x : Dma) : Dma := {| dm_mm := dm_mm x; queue_frames := vec_push (queue_frames x) f |}.

(** The iterations [i], [i + 1], ... of the loop; [n] are left. *)
Fixpoint dma_loop (n : nat) (i ppn_base : Z) : M Dma Z :=
  match n with
  | O => mret ppn_base
  | S n' =>
      o ← zoom dm_mm upd_dm_mm frame_alloc;
      frame ← unwrap o;
      let ppn_base := if i =? 0 then frame else ppn_base in
      _ ← assert_ (frame =? wrap64 (ppn_base + i));
      _ ← modify (push_queue frame);
      dma_loop n' (i + 1) ppn_base
  end.

Definition virtio_dma_alloc (pages : Z) : M Dma Z :=
  ppn_base ← dma_loop (Z.to_nat pages) 0 0; mret (Addr_from_PageNum ppn_base).

Fixpoint dma_free_loop (n : nat) (ppn_base : Z) : M Dma unit :=
  match n with
  | O => mret tt
  | S n' => _ ← zoom dm_mm upd_dm_mm (frame_dealloc ppn_base); dma_free_loop n' (step ppn_base)
  end.

Definition virtio_dma_dealloc (pa pages : Z) : M Dma Z :=
  ppn_base ← lift_result (PageNum_from_Addr pa);
  _ ← dma_free_loop (Z.to_nat pages) ppn_base;
  mret 0.

Definition virtio_phys_to_virt (paddr : Z) : Z := paddr.

(** [PageTable::from_token(kernel_token()).translate_va(vaddr).unwrap()]. *)
Definition virtio_virt_to_phys (kernel_token vaddr : Z) : M Dma Z :=
  x ← get; unwrap (translate_va (mem (dm_mm x)) (from_token kernel_token) vaddr).

(** ** The device *)

(** The driver of the crate. *)
Class VirtIOBlk (V : Type) := {
  blk_read : Z → V → Result (list Z) unit * V;
  blk_write : Z → list Z → V → Result unit unit * V
}.

Definition VirtIOBlock {V} `{VirtIOBlk V} : BlockDevice V := {|
  read_block id := r ← run (blk_read id); unwrap_result r;
  write_block id buf := r ← run (blk_write id buf); unwrap_result r
|}.

(** ** The test *)

Section test.
Context {Dev : Type} `{BlockDevice Dev}.

(** The iterations [i], [i + 1], ... of the loop. *)
Fixpoint test_loop (n : nat) (i : Z) : M Dev unit :=
  match n with
  | O => mret tt
  | S n' =>
      let write_buffer := replicate 512 (wrap8 i) in
      _ ← write_block i write_buffer;
      read_buffer ← read_block i;
      _ ← assert_ (bool_decide (write_buffer = read_buffer));
      test_loop n' (i + 1)
  end.
Definition block_device_test : M Dev unit := test_loop 512 0.
End test.

(** ** Lemmas *)

(** Without recycled frames the allocator hands out the frames in order. *)
Lemma wp_alloc_next lo owned s (Q : option Z → MM → Prop) :
  fa_inv lo (fa s) owned → recycled (fa s) = [] → current (fa s) < end_ (fa s) →
  (∀ a', fa_inv lo a' ({[current (fa s)]} ∪ owned) → current a' = current (fa s) + 1 → end_ a' = end_ (fa s) →
     recycled a' = [] → current (fa s) ∉ owned →
     Q (Some (current (fa s))) {| fa := a'; mem := <[current (fa s) := ∅]> (mem s) |}) →
  wp frame_alloc Q s.
Proof.
  intros Hi Hr Hlt HQ. pose proof (fa_bounds _ _ _ Hi) as Hb.
  assert (alloc (fa s) = (Some (current (fa s)), {| current := current (fa s) + 1; end_ := end_ (fa s); recycled := [] |})) as Ha.
  { unfold alloc. rewrite Hr. cbn. rewrite (proj2 (Z.eqb_neq _ _)) by lia.
    rewrite (wrap_small _ (current _ + 1)), wrap_small, PhysPageNum_from_small by lia. do 2 f_equal. lia. }
  destruct (alloc_cases _ _ _ Hi) as [(? & Hn & _)|(_ & p & a' & E & Hp & _ & Hi' & _ & He)]; [congruence|].
  rewrite Ha in E. injection E as <- <-. unfold frame_alloc. wp_steps. rewrite Ha. wp_steps.
  unfold FrameTracker_new. wp_steps. by apply HQ.
Qed.

(** The frames from [base] to the current one were taken by the loop. *)
Record dma_taken (lo : Z) (owned : gset Z) (x0 : Dma) (base i : Z) (x : Dma) : Prop := {
  dt_inv : fa_inv lo (fa (dm_mm x)) (owned ∪ list_to_set (seqZ base i));
  dt_recycled : recycled (fa (dm_mm x)) = [];
  dt_current : current (fa (dm_mm x)) = base + i;
  dt_end : end_ (fa (dm_mm x)) = end_ (fa (dm_mm x0));
  dt_queue : queue_frames x = queue_frames x0 ++ seqZ base i;
  dt_fresh : ∀ f, f ∈ seqZ base i → f ∉ owned;
  dt_pages : ∀ f, page_of (mem (dm_mm x)) f = if decide (f ∈ seqZ base i) then ∅ else page_of (mem (dm_mm x0)) f
}.

Lemma wp_dma_loop lo owned x0 base n : ∀ i b x (Q : Z → Dma → Prop),
  dma_taken lo owned x0 base i x → 0 <= i → (i = 0 ∨ b = base) → (0 < n)%nat →
  base + i + Z.of_nat n <= end_ (fa (dm_mm x0)) →
  (∀ x', dma_taken lo owned x0 base (i + Z.of_nat n) x' → Q base x') → wp (dma_loop n i b) Q x.
Proof.
  induction n as [|n IH]; intros i b x Q [T1 T2 T3 T4 T5 T6 T7] Hi Hb Hn Hend HQ; [lia|]. cbn [dma_loop].
  wp_steps. apply wp_zoom. eapply wp_alloc_next; [exact T1|done|lia|]. intros a' Ha' Hc He Hr Hnew.
  rewrite T3 in *. wp_steps. eapply wp_unwrap; [done|]. pose proof (fa_bounds _ _ _ T1) as Hbd.
  assert ((if i =? 0 then base + i else b) = base) as Hbase by (destruct (Z.eqb_spec i 0); lia). cbn beta. rewrite Hbase.
  wp_steps. apply wp_assert; [rewrite wrap_small by lia; apply Z.eqb_refl|]. wp_steps.
  assert (seqZ base (i + 1) = seqZ base i ++ [base + i]) as Hseq.
  { rewrite seqZ_app by lia. f_equal. }
  assert (dma_taken lo owned x0 base (i + 1) (push_queue (base + i)
    (upd_dm_mm {| fa := a'; mem := <[base + i := ∅]> (mem (dm_mm x)) |} x))) as HT.
  { split; cbn [push_queue upd_dm_mm dm_mm fa mem queue_frames]; rewrite ?Hseq.
    - rewrite list_to_set_app_L. replace (owned ∪ _) with ({[base + i]} ∪ (owned ∪ list_to_set (seqZ base i))) by set_solver.
      done.
    - done.
    - lia.
    - congruence.
    - unfold vec_push. by rewrite T5, app_assoc.
    - intros f. rewrite elem_of_app, list_elem_of_singleton. intros [Hf| ->]; [by apply T6|set_solver].
    - intros f. destruct (decide (f = base + i)) as [->|Hne].
      + rewrite page_of_insert, decide_True by set_solver. done.
      + rewrite page_of_insert_ne, T7 by done. apply decide_ext.
        rewrite elem_of_app, list_elem_of_singleton. naive_solver. }
  destruct n as [|n].
  - cbn [dma_loop]. wp_steps. apply HQ. by replace (i + Z.of_nat 1) with (i + 1) by lia.
  - eapply (IH (i + 1)); [exact HT|lia|by right|lia|lia|]. intros x' Hx'. apply HQ.
    by replace (i + Z.of_nat (S (S n))) with (i + 1 + Z.of_nat (S n)) by lia.
Qed.

Lemma dma_taken_start lo owned x : fa_inv lo (fa (dm_mm x)) owned → recycled (fa (dm_mm x)) = [] →
  dma_taken lo owned x (current (fa (dm_mm x))) 0 x.
Proof.
  intros Hi Hr. change (seqZ (current (fa (dm_mm x))) 0) with (@nil Z). split; try done.
  - change (seqZ _ 0) with (@nil Z). cbn. by rewrite union_empty_r_L.
  - lia.
  - change (seqZ _ 0) with (@nil Z). by rewrite app_nil_r.
  - change (seqZ _ 0) with (@nil Z). by intros f ?%elem_of_nil.
Qed.

(** Recycled frames that are not in order. *)
Lemma dma_fragmented lo owned x rest a b n :
  fa_inv lo (fa (dm_mm x)) owned → recycled (fa (dm_mm x)) = rest ++ [b; a] → b ≠ a + 1 →
  dma_loop (S (S n)) 0 0 x = Panic PAssert.
Proof.
  intros Hi Hr Hab. pose proof (fa_bounds _ _ _ Hi) as Hb.
  assert (0 <= a < 2 ^ 44 ∧ 0 <= b < 2 ^ 44) as [Ha' Hb'].
  { pose proof (fa_recycled _ _ _ Hi a) as R1. pose proof (fa_recycled _ _ _ Hi b) as R2. rewrite Hr in R1, R2.
    assert (a ∈ rest ++ [b; a]) by set_solver. assert (b ∈ rest ++ [b; a]) by set_solver. naive_solver lia. }
  cbn [dma_loop]. apply panic_bind. apply wp_zoom. unfold frame_alloc. wp_steps. unfold alloc at 1. rewrite Hr.
  change (rest ++ [b; a]) with (rest ++ [b] ++ [a]). rewrite app_assoc, vec_pop_snoc, PhysPageNum_from_small by lia.
  unfold FrameTracker_new. wp_steps. apply panic_bind. eapply wp_unwrap; [done|]. cbn [Z.eqb]. apply panic_bind.
  apply wp_assert; [rewrite Z.add_0_r, wrap_small by lia; apply Z.eqb_refl|]. apply panic_bind. wp_steps.
  apply panic_bind. apply wp_zoom. unfold frame_alloc. wp_steps. unfold alloc at 1.
  cbn [dm_mm push_queue upd_dm_mm fa recycled upd_mem]. rewrite vec_pop_snoc, PhysPageNum_from_small by lia.
  unfold FrameTracker_new. wp_steps. apply panic_bind. eapply wp_unwrap; [done|]. apply panic_bind_l.
  change (0 + 1) with 1. cbn [Z.eqb]. rewrite wrap_small by lia. unfold assert_. by rewrite (proj2 (Z.eqb_neq _ _)).
Qed.

Lemma wp_dma_free lo n : ∀ owned base x (Q : unit → Dma → Prop),
  fa_inv lo (fa (dm_mm x)) owned → (∀ f, f ∈ seqZ base (Z.of_nat n) → f ∈ owned) →
  (∀ x', fa_inv lo (fa (dm_mm x')) (owned ∖ list_to_set (seqZ base (Z.of_nat n))) →
     queue_frames x' = queue_frames x → mem (dm_mm x') = mem (dm_mm x) → Q tt x') →
  wp (dma_free_loop n base) Q x.
Proof.
  induction n as [|n IH]; intros owned base x Q Hi Hown HQ; cbn [dma_free_loop].
  - wp_steps. apply HQ; [|done|done]. change (seqZ base (Z.of_nat 0)) with (@nil Z). cbn. by rewrite difference_empty_L.
  - rewrite seqZ_cons in * by lia. replace (Z.pred (Z.of_nat (S n))) with (Z.of_nat n) in * by lia.
    assert (base ∈ owned) as Hb by (apply Hown; left). pose proof (fa_bounds _ _ _ Hi) as Hbd.
    pose proof (proj1 (fa_owned _ _ _ Hi base) Hb) as [Hr _].
    wp_steps. apply wp_zoom. eapply wp_frame_dealloc; [exact Hi|exact Hb|]. intros a' Ha' _ _.
    unfold step. rewrite wrap_small by lia. replace (base + 1) with (Z.succ base) by lia.
    eapply IH; [exact Ha'| |].
    + intros f Hf. apply elem_of_difference. split; [apply Hown; by right|]. apply elem_of_seqZ in Hf.
      rewrite elem_of_singleton. lia.
    + intros x' Hx' Hq Hm. apply HQ; [|done|done]. cbn. by rewrite difference_difference_l_L in Hx'.
Qed.

Lemma wp_test_loop {Dev} `{BlockDevice Dev} cap (L : BlockDeviceLaws Dev cap) n : ∀ i v D,
  dev_ok v D → 0 <= i → i + Z.of_nat n <= cap →
  wp (test_loop n i) (λ _ v', ∃ D', dev_ok v' D' ∧
    ∀ b, 0 <= b < cap → D' b = if decide (i <= b < i + Z.of_nat n) then replicate 512 (wrap8 b) else D b) v.
Proof.
  induction n as [|n IH]; intros i v D Hv Hi Hc; cbn [test_loop].
  - wp_steps. exists D. split; [done|]. intros b Hb. by rewrite decide_False by lia.
  - wp_steps. assert (block_wf (replicate 512 (wrap8 i))) as Hwf.
    { split; [by rewrite length_replicate|]. apply Forall_replicate. apply wrap_range. lia. }
    eapply wp_mono; [apply (dev_write v D i _ Hv); [lia|exact Hwf]|]. intros [] v1 Hv1. wp_steps.
    eapply wp_mono; [apply (dev_read v1 _ i Hv1); lia|]. intros bs v2 [-> Hv2]. wp_steps. rewrite upd_same.
    apply wp_assert; [by apply bool_decide_eq_true_2|]. eapply wp_mono; [apply (IH (i + 1) v2 _ Hv2); lia|].
    intros [] v3 (D' & Hv3 & HD'). exists D'. split; [done|]. intros b Hb. rewrite HD' by done.
    destruct (decide (b = i)) as [->|Hne].
    + rewrite decide_False, decide_True, upd_same by lia. done.
    + rewrite upd_other by done. apply decide_ext. lia.
Qed.

(** ** Properties *)

(** The memory that [virtio_dma_alloc] gives the device is physically
    contiguous: while no frame has been recycled it returns the address of the
    next [pages] frames, all fresh, zeroed and kept alive in [QUEUE_FRAMES], and
    [virtio_dma_dealloc] gives them back to the allocator without dropping their
    trackers.  Once the two frames recycled last are not in order, it panics. *)
Theorem dma_alloc_contiguous lo owned x pages :
  fa_inv lo (fa (dm_mm x)) owned → 0 < pages →
  (recycled (fa (dm_mm x)) = [] → current (fa (dm_mm x)) + pages <= end_ (fa (dm_mm x)) →
   ∃ x', virtio_dma_alloc pages x = Ok (current (fa (dm_mm x)) * 4096, x') ∧
     dma_taken lo owned x (current (fa (dm_mm x))) pages x' ∧
     ∃ x'', virtio_dma_dealloc (current (fa (dm_mm x)) * 4096) pages x' = Ok (0, x'') ∧
       fa_inv lo (fa (dm_mm x'')) owned ∧ queue_frames x'' = queue_frames x') ∧
  (∀ rest a b, recycled (fa (dm_mm x)) = rest ++ [b; a] → b ≠ a + 1 → 2 <= pages →
   virtio_dma_alloc pages x = Panic PAssert).
Proof.
  intros Hi Hp. pose proof (fa_bounds _ _ _ Hi) as Hbd. split.
  - intros Hr Hend. set (c := current (fa (dm_mm x))) in *.
    destruct (wp_ok (virtio_dma_alloc pages) (λ pa x', pa = c * 4096 ∧ dma_taken lo owned x c pages x') x)
      as (pa & x' & E & -> & HT).
    { unfold virtio_dma_alloc. wp_steps. eapply (wp_dma_loop lo owned x c); [by apply dma_taken_start|lia|by left|lia|lia|].
      intros x' HT. wp_steps. rewrite Z.add_0_l, Z2Nat.id in HT by lia. split; [|done].
      unfold Addr_from_PageNum, PAGE_SIZE_BITS. rewrite Z.shiftl_mul_pow2 by lia. rewrite wrap_small; lia. }
    exists x'. split_and!; [done|done|].
    destruct (wp_ok (virtio_dma_dealloc (c * 4096) pages) (λ r x'', r = 0 ∧ fa_inv lo (fa (dm_mm x'')) owned ∧
      queue_frames x'' = queue_frames x') x') as (r & x'' & E' & -> & H1 & H2); [|eauto].
    destruct HT as [T1 T2 T3 T4 T5 T6 T7].
    unfold virtio_dma_dealloc. wp_steps. eapply wp_lift_result; [apply page_num_of_page|]. wp_steps. eapply wp_dma_free; [exact T1| |]; rewrite Z2Nat.id by lia; [set_solver|].
    intros x'' Hx'' Hq _. wp_steps. split_and!; [done| |done].
    replace owned with ((owned ∪ list_to_set (seqZ c pages)) ∖ list_to_set (seqZ c pages)); [done|]. set_solver.
  - intros rest a b Hr Hab Hp2. unfold virtio_dma_alloc. apply panic_bind_l.
    replace (Z.to_nat pages) with (S (S (Z.to_nat (pages - 2)))) by lia. by eapply dma_fragmented.
Qed.

(** [block_device_test] passes on every lawful block device of at least 512
    blocks, and leaves in block [i] the 512 bytes [i mod 256]. *)
Theorem block_device_test_passes {Dev} `{BlockDevice Dev} cap (L : BlockDeviceLaws Dev cap) v D :
  512 <= cap → dev_ok v D →
  ∃ v' D', block_device_test v = Ok (tt, v') ∧ dev_ok v' D' ∧
    ∀ b, 0 <= b < cap → D' b = if decide (b < 512) then replicate 512 (b mod 256) else D b.
Proof.
  intros Hc Hv. destruct (wp_ok _ _ _ (wp_test_loop cap L 512 0 v D Hv ltac:(lia) ltac:(lia))) as ([] & v' & E & D' & Hv' & HD').
  exists v', D'. split_and!; [done|done|]. intros b Hb. rewrite HD' by done. apply decide_ext. lia.
Qed.

(** ** Witnesses *)

Definition demo_dma : Dma :=
  {| dm_mm := {| fa := FrameAllocator.init StackFrameAllocator_new 0x80500 0x80800; mem := ∅ |}; queue_frames := [] |}.

Lemma dma_alloc_contiguous_witness : ∃ x', virtio_dma_alloc 2 demo_dma = Ok (0x80500000, x').
Proof.
  destruct (dma_alloc_contiguous 0x80500 ∅ demo_dma 2) as [H1 _]; [by apply init_fa_inv|done|].
  destruct H1 as (x' & E & _); [done|done|]. by exists x'.
Defined.

Lemma block_device_test_passes_witness : ∃ v', @block_device_test File BlockFile demo_file = Ok (tt, v').
Proof.
  destruct (@block_device_test_passes File BlockFile 4096 demo_file_laws demo_file (file_block demo_file)) as (v' & D' & E & _).
  - lia.
  - apply demo_file_ok.
  - exists v'. exact E.
Defined.
