(* ===== verification/BlockCache.v ===== *)
(** * The block cache of easy-fs

    [easy-fs/src/block_cache.rs].

    [BlockStore] is the interface through which the rest of the file system
    reaches blocks: [get_block_cache(id, dev).lock()] takes a handle and locks
    it, [read]/[modify] reinterpret the bytes, and the end of the statement
    releases lock and handle.  [BlockStoreLaws] says what the store promises: it
    behaves as an array of blocks as long as no block is locked twice and fewer
    than 16 handles are live.  The cache manager over a block device implements
    the interface; the device is a parameter. *)

From S2P Require Import Prelude Codec BlockDev.

(** ** The interface *)

Class BlockStore (St : Type) := {
  (** [get_block_cache(id, ..).lock()] *)
  acquire : Z → M St unit;
  (** the bytes of a locked block *)
  block_bytes : Z → St → list Z;
  (** an assignment through the reference given by [get_mut] *)
  store_bytes : Z → list Z → M St unit;
  (** the guard and the handle go out of scope *)
  release : Z → M St unit;
  (** [block_cache_sync_all] *)
  sync_all : M St unit
}.

Definition splice (bs : list Z) (off : nat) (new : list Z) : list Z :=
  take off bs ++ new ++ drop (off + length new) bs.

(** [&self.cache\[offset\]]: the index is checked. *)
Definition addr_of_offset {St} (offset : Z) : M St Z :=
  if offset <? BLOCK_SZ then mret offset else panic_with PIndex.

(** The checks of [get_ref] and [get_mut]. *)
Definition get_addr {St} (type_size : nat) (offset : Z) : M St Z :=
  _ ← assert_ (wrap64 (offset + Z.of_nat type_size) <=? BLOCK_SZ);
  addr_of_offset offset.

(** [get_block_cache(id, dev).lock().read(offset, f)]. *)
Definition read_block_as {St T V} `{BlockStore St} `{Repr T} (id offset : Z) (f : T → M St V) : M St V :=
  _ ← acquire id;
  _ ← get_addr (size_of T) offset;
  s ← get;
  v ← f (decode (take (size_of T) (drop (Z.to_nat offset) (block_bytes id s))));
  _ ← release id;
  mret v.

(** [get_block_cache(id, dev).lock().modify(offset, f)]; [f] returns its result
    and the new value of the referenced object. *)
Definition modify_block_as {St T V} `{BlockStore St} `{Repr T} (id offset : Z)
    (f : T → M St (V * T)) : M St V :=
  _ ← acquire id;
  _ ← get_addr (size_of T) offset;
  s ← get;
  r ← f (decode (take (size_of T) (drop (Z.to_nat offset) (block_bytes id s))));
  s' ← get;
  _ ← store_bytes id (splice (block_bytes id s') (Z.to_nat offset) (encode (snd r)));
  _ ← release id;
  mret (fst r).

Definition BLOCK_CACHE_SIZE : nat := 16.

(** [store_ok s d h]: the store holds the disk [d], and the blocks of [h] are
    locked by the caller. *)
Class BlockStoreLaws (St : Type) `{BlockStore St} (cap : Z) := {
  store_ok : St → disk → gset Z → Prop;
  store_ext : ∀ s d d' h, store_ok s d h → (∀ b, 0 <= b < cap → d' b = d b) → store_ok s d' h;
  store_wf : ∀ s d h b, store_ok s d h → 0 <= b < cap → block_wf (d b);
  store_acquire : ∀ s d h id, store_ok s d h → 0 <= id < cap → id ∉ h →
    (size h < BLOCK_CACHE_SIZE)%nat → wp (acquire id) (λ _ s', store_ok s' d ({[id]} ∪ h)) s;
  store_read : ∀ s d h id, store_ok s d h → id ∈ h → block_bytes id s = d id;
  store_write : ∀ s d h id bs, store_ok s d h → id ∈ h → block_wf bs →
    wp (store_bytes id bs) (λ _ s', store_ok s' (upd d id bs) h) s;
  store_release : ∀ s d h id, store_ok s d h → id ∈ h →
    wp (release id) (λ _ s', store_ok s' d (h ∖ {[id]})) s;
  store_sync : ∀ s d, store_ok s d ∅ → wp sync_all (λ _ s', store_ok s' d ∅) s
}.

Lemma splice_wf bs off new :
  block_wf bs → (off + length new <= 512)%nat → Forall is_byte new → block_wf (splice bs off new).
Proof.
  intros [Hl Hb] Ho Hn. unfold splice. split.
  - rewrite !length_app, length_take, length_drop, Hl. lia.
  - apply Forall_app. split; [by apply Forall_take|].
    apply Forall_app. split; [done|by apply Forall_drop].
Qed.

Lemma splice_read bs off new :
  (off <= length bs)%nat → take (length new) (drop off (splice bs off new)) = new.
Proof.
  intros Hl. unfold splice. rewrite drop_app_length' by (rewrite length_take; lia).
  by rewrite take_app_length.
Qed.

Lemma splice_lookup bs off new i :
  (off + length new <= length bs)%nat →
  splice bs off new !! i =
  if decide (off <= i < off + length new)%nat then new !! (i - off)%nat else bs !! i.
Proof.
  intros Hl. unfold splice. destruct (decide (i < off)%nat).
  - rewrite decide_False by lia. rewrite lookup_app_l by (rewrite length_take; lia).
    by rewrite lookup_take_lt by lia.
  - rewrite lookup_app_r by (rewrite length_take; lia). rewrite length_take.
    replace (off `min` length bs)%nat with off by lia. destruct (decide _).
    + by rewrite lookup_app_l by lia.
    + rewrite lookup_app_r, lookup_drop by lia. f_equal. lia.
Qed.

Lemma splice_all bs new : length new = length bs → splice bs 0 new = new.
Proof. intros H. unfold splice. rewrite take_0. simpl. by rewrite drop_ge, app_nil_r by lia. Qed.

(** ** Rules for the clients of the interface *)

Lemma wp_get_addr {St} n offset (Q : Z → St → Prop) s :
  (0 < n)%nat → 0 <= offset → offset + Z.of_nat n <= BLOCK_SZ → Q offset s →
  wp (get_addr n offset) Q s.
Proof.
  unfold BLOCK_SZ, get_addr. intros Hn H0 Hoff Hk. wp_steps. rewrite wrap_small by lia.
  apply wp_assert; [unfold BLOCK_SZ; lia|]. unfold addr_of_offset, BLOCK_SZ.
  destruct (Z.ltb_spec offset 512); [|lia]. by wp_steps.
Qed.

Section clients.
Context {St : Type} {cap : Z} `{HS : BlockStore St} `{HL : !BlockStoreLaws St cap}.

Lemma wp_acquire s d h id (Q : unit → St → Prop) :
  store_ok s d h → 0 <= id < cap → id ∉ h → (size h < BLOCK_CACHE_SIZE)%nat →
  (∀ s', store_ok s' d ({[id]} ∪ h) → Q tt s') → wp (acquire id) Q s.
Proof. intros. eapply wp_mono; [by eapply store_acquire|]. intros []; auto. Qed.

Lemma wp_release s d h id (Q : unit → St → Prop) :
  store_ok s d ({[id]} ∪ h) → id ∉ h → (∀ s', store_ok s' d h → Q tt s') → wp (release id) Q s.
Proof.
  intros Hs Hh HQ. eapply wp_mono; [eapply store_release; [done|set_solver]|].
  intros [] s' Hs'. apply HQ. by replace (({[id]} ∪ h) ∖ {[id]}) with h in Hs' by set_solver.
Qed.

(** Bytes of the object of type [T] at [offset] in block [id]. *)
Definition at_block {T} `{Repr T} (d : disk) (id offset : Z) : T :=
  decode (take (size_of T) (drop (Z.to_nat offset) (d id))).

Lemma wp_read_block_as {T V} `{Repr T} `{!ReprLaws T} s d h id offset (f : T → M St V) Q :
  store_ok s d h → 0 <= id < cap → id ∉ h → (size h < BLOCK_CACHE_SIZE)%nat →
  0 <= offset → offset + Z.of_nat (size_of T) <= BLOCK_SZ →
  (∀ s1, store_ok s1 d ({[id]} ∪ h) →
     wp (f (at_block d id offset))
       (λ v s2, ∃ d2, store_ok s2 d2 ({[id]} ∪ h) ∧ ∀ s3, store_ok s3 d2 h → Q v s3) s1) →
  wp (read_block_as id offset f) Q s.
Proof.
  intros Hs Hid Hh Hsz H0 Hoff Hf. unfold read_block_as. wp_steps.
  eapply wp_acquire; [done..|]. intros s1 Hs1. wp_steps.
  apply wp_get_addr; [by apply size_pos|done..|]. wp_steps.
  rewrite (store_read s1 d ({[id]} ∪ h) id Hs1) by set_solver.
  eapply wp_mono; [by apply Hf|]. intros v s2 (d2 & Hs2 & HQ). wp_steps.
  eapply wp_release; [done..|]. intros s3 Hs3. wp_steps. auto.
Qed.

Lemma wp_modify_block_as {T V} `{Repr T} `{!ReprLaws T} s d h id offset (f : T → M St (V * T)) Q :
  store_ok s d h → 0 <= id < cap → id ∉ h → (size h < BLOCK_CACHE_SIZE)%nat →
  0 <= offset → offset + Z.of_nat (size_of T) <= BLOCK_SZ →
  (∀ s1, store_ok s1 d ({[id]} ∪ h) →
     wp (f (at_block d id offset))
       (λ r s2, valid (snd r) ∧ ∃ d2, store_ok s2 d2 ({[id]} ∪ h) ∧
          ∀ s3, store_ok s3 (upd d2 id (splice (d2 id) (Z.to_nat offset) (encode (snd r)))) h →
            Q (fst r) s3) s1) →
  wp (modify_block_as id offset f) Q s.
Proof.
  intros Hs Hid Hh Hsz H0 Hoff Hf. unfold modify_block_as. wp_steps.
  eapply wp_acquire; [done..|]. intros s1 Hs1. wp_steps.
  apply wp_get_addr; [by apply size_pos|done..|]. wp_steps.
  rewrite (store_read s1 d ({[id]} ∪ h) id Hs1) by set_solver.
  eapply wp_mono; [by apply Hf|]. intros r s2 (Hv & d2 & Hs2 & HQ). wp_steps.
  rewrite (store_read s2 d2 ({[id]} ∪ h) id Hs2) by set_solver.
  eapply wp_mono; [eapply store_write; [done|set_solver|]|].
  { apply splice_wf; [by eapply store_wf|rewrite encode_length by done; unfold BLOCK_SZ in *; lia|
      by apply encode_byte]. }
  intros [] s3 Hs3. wp_steps. eapply wp_release; [done..|]. intros s4 Hs4. wp_steps. auto.
Qed.

(** The disk with the object at [offset] in block [id] replaced. *)
Definition put_at {T} `{Repr T} (d : disk) (id offset : Z) (x : T) : disk :=
  upd d id (splice (d id) (Z.to_nat offset) (encode x)).

Lemma at_put_same {T} `{Repr T} `{!ReprLaws T} d id offset (x : T) :
  block_wf (d id) → 0 <= offset → offset + Z.of_nat (size_of T) <= BLOCK_SZ → valid x →
  at_block (put_at d id offset x) id offset = x.
Proof.
  intros [Hl _] H0 Hoff Hv. unfold at_block, put_at. rewrite upd_same.
  rewrite <- (encode_length x Hv). rewrite splice_read by (unfold BLOCK_SZ in *; lia).
  by apply decode_encode.
Qed.

Lemma at_put_other {T U} `{Repr T} `{Repr U} d id offset id' offset' (x : T) :
  id' ≠ id → at_block (put_at d id offset x) id' offset' = at_block (T := U) d id' offset'.
Proof. intros. unfold at_block, put_at. by rewrite upd_other. Qed.

Lemma put_other {T} `{Repr T} d id offset (x : T) b : b ≠ id → put_at d id offset x b = d b.
Proof. intros. unfold put_at. by rewrite upd_other. Qed.

(** An object of the same block that does not overlap. *)
Lemma at_put_disjoint {T U} `{Repr T} `{Repr U} `{!ReprLaws T} d id offset offset' (x : T) :
  block_wf (d id) → valid x → 0 <= offset → offset + Z.of_nat (size_of T) <= BLOCK_SZ → 0 <= offset' →
  offset' + Z.of_nat (size_of U) <= offset ∨ offset + Z.of_nat (size_of T) <= offset' →
  at_block (put_at d id offset x) id offset' = at_block (T := U) d id offset'.
Proof.
  intros [Hl _] Hv Ho Hfit Ho' Hdis. unfold at_block, put_at, BLOCK_SZ in *. rewrite upd_same. f_equal.
  pose proof (encode_length x Hv) as Hlen. apply list_eq. intros i.
  destruct (decide (i < size_of U)%nat); [|by rewrite !lookup_take_ge by lia].
  rewrite !lookup_take_lt, !lookup_drop by done. rewrite splice_lookup by lia. by rewrite decide_False by lia.
Qed.

(** Storing the value that is there changes nothing. *)
Lemma put_at_id {T} `{Repr T} `{!ReprLaws T} d id offset b :
  block_wf (d id) → 0 <= offset → offset + Z.of_nat (size_of T) <= BLOCK_SZ →
  put_at d id offset (at_block d id offset : T) b = d b.
Proof.
  intros [Hl Hb] H0 Hoff. unfold put_at, BLOCK_SZ in *. destruct (decide (b = id)) as [->|Hne].
  - rewrite upd_same. unfold at_block. rewrite encode_decode.
    + unfold splice. rewrite length_take, length_drop.
      replace (size_of T `min` (length (d id) - Z.to_nat offset))%nat with (size_of T) by lia.
      by rewrite <- drop_drop, (take_drop (size_of T)), take_drop.
    + rewrite length_take, length_drop. lia.
    + by apply Forall_take, Forall_drop.
  - by rewrite upd_other.
Qed.

(** A closure that does not touch the store. *)
Lemma wp_read_pure {T V} `{Repr T} `{!ReprLaws T} s d h id offset (f : T → V) Q :
  store_ok s d h → 0 <= id < cap → id ∉ h → (size h < BLOCK_CACHE_SIZE)%nat →
  0 <= offset → offset + Z.of_nat (size_of T) <= BLOCK_SZ →
  (∀ s', store_ok s' d h → Q (f (at_block d id offset)) s') →
  wp (read_block_as id offset (λ x, mret (f x))) Q s.
Proof.
  intros. eapply wp_read_block_as; [done..|]. intros s1 Hs1. wp_steps. eauto.
Qed.

Lemma wp_modify_pure {T V} `{Repr T} `{!ReprLaws T} s d h id offset (f : T → V * T) Q :
  store_ok s d h → 0 <= id < cap → id ∉ h → (size h < BLOCK_CACHE_SIZE)%nat →
  0 <= offset → offset + Z.of_nat (size_of T) <= BLOCK_SZ →
  (valid (at_block (T := T) d id offset) → valid (snd (f (at_block d id offset)))) →
  (∀ s', store_ok s' (put_at d id offset (snd (f (at_block d id offset)))) h →
     Q (fst (f (at_block d id offset))) s') →
  wp (modify_block_as id offset (λ x, mret (f x))) Q s.
Proof.
  intros Hs Hid Hh Hsz H0 Hoff Hv HQ. eapply wp_modify_block_as; [done..|]. intros s1 Hs1. wp_steps.
  split; [|exists d; eauto]. pose proof (store_wf s d h id Hs Hid) as [Hl Hb].
  apply Hv, decode_valid; [|by apply Forall_take, Forall_drop].
  unfold BLOCK_SZ in *. rewrite length_take, length_drop. lia.
Qed.

(** The closure panics. *)
Lemma modify_panics {T V} `{Repr T} `{!ReprLaws T} s d h id offset (f : T → M St (V * T)) p :
  store_ok s d h → 0 <= id < cap → id ∉ h → (size h < BLOCK_CACHE_SIZE)%nat →
  0 <= offset → offset + Z.of_nat (size_of T) <= BLOCK_SZ →
  (∀ s1, f (at_block d id offset) s1 = Panic p) →
  modify_block_as id offset f s = Panic p.
Proof.
  intros Hs Hid Hh Hsz H0 Hoff Hf. unfold modify_block_as. apply panic_bind.
  eapply wp_acquire; [done..|]. intros s1 Hs1. apply panic_bind.
  apply wp_get_addr; [by apply size_pos|done..|]. apply panic_bind, wp_get, panic_bind_l.
  rewrite (store_read s1 d ({[id]} ∪ h) id Hs1) by set_solver. apply Hf.
Qed.
End clients.

(** ** The implementation *)

Record BlockCache := mkBlockCache {
  cache : list Z;
  block_id : Z;
  modified : bool
}.

(** An entry of the queue: the key, the cache behind the [Arc<Mutex<..>>], the
    handles held outside the queue ([strong_count - 1]) and the lock. *)
Record Slot := mkSlot {
  slot_key : Z;
  slot_cache : BlockCache;
  slot_handles : nat;
  slot_locked : bool
}.

Record CacheState (Dev : Type) := mkCacheState {
  queue : list Slot;
  device : Dev
}.
Arguments mkCacheState {Dev} queue device.
Arguments queue {Dev} c.
Arguments device {Dev} c.

Definition strong_count (p : Slot) : nat := S (slot_handles p).

Section manager.
Context {Dev : Type} `{BlockDevice Dev}.
Implicit Types s : CacheState Dev.

Definition on_device {A} (m : M Dev A) : M (CacheState Dev) A :=
  zoom device (λ v s, mkCacheState (queue s) v) m.
Definition set_queue (q : list Slot) : M (CacheState Dev) unit :=
  modify (λ s, mkCacheState q (device s)).

(** [BlockCache::new]. *)
Definition BlockCache_new (id : Z) : M (CacheState Dev) BlockCache :=
  bs ← on_device (read_block id);
  mret (mkBlockCache bs id false).

(** [BlockCache::sync], also the destructor. *)
Definition sync (bc : BlockCache) : M (CacheState Dev) BlockCache :=
  if modified bc then
    _ ← on_device (write_block (block_id bc) (cache bc));
    mret (mkBlockCache (cache bc) (block_id bc) false)
  else mret bc.

(** [BlockCacheManager::get_block_cache]; the handle returned is counted in the
    slot. *)
Definition get_block_cache (id : Z) : M (CacheState Dev) unit :=
  s ← get;
  match find_index (λ p, slot_key p =? id) (queue s) with
  | Some i =>
      set_queue (alter (λ p, mkSlot (slot_key p) (slot_cache p) (S (slot_handles p)) (slot_locked p)) i
                   (queue s))
  | None =>
      _ ← (if (length (queue s) =? BLOCK_CACHE_SIZE)%nat then
             match find_index (λ p, (strong_count p =? 1)%nat) (queue s) with
             | Some idx =>
                 match queue s !! idx with
                 | Some p => _ ← set_queue (delete idx (queue s)); _ ← sync (slot_cache p); mret tt
                 | None => mret tt
                 end
             | None => panic_with PExplicit
             end
           else mret tt);
      bc ← BlockCache_new id;
      s' ← get;
      set_queue (queue s' ++ [mkSlot id bc 1 false])
  end.

(** The slot a live handle refers to: its index in the queue. *)
Definition slot_index (id : Z) s : option nat := find_index (λ p, slot_key p =? id) (queue s).

Definition update_slot (id : Z) (f : Slot → Slot) : M (CacheState Dev) unit :=
  s ← get;
  i ← unwrap (slot_index id s);
  set_queue (alter f i (queue s)).

(** [spin::Mutex::lock]: on one hart a second lock spins for ever. *)
Definition lock (id : Z) : M (CacheState Dev) unit :=
  s ← get;
  i ← unwrap (slot_index id s);
  p ← unwrap (queue s !! i);
  if slot_locked p then panic_with PDeadlock
  else set_queue (<[i := mkSlot (slot_key p) (slot_cache p) (slot_handles p) true]> (queue s)).

(** [block_cache_sync_all]. *)
Definition block_cache_sync_all : M (CacheState Dev) unit :=
  s ← get;
  fold_m (λ _ i,
    s ← get;
    p ← unwrap (queue s !! i);
    if slot_locked p then panic_with PDeadlock
    else
      bc ← sync (slot_cache p);
      s' ← get;
      set_queue (<[i := mkSlot (slot_key p) bc (slot_handles p) (slot_locked p)]> (queue s')))
    tt (seq 0 (length (queue s))).

#[global] Instance CacheState_store : BlockStore (CacheState Dev) := {|
  acquire id := _ ← get_block_cache id; lock id;
  block_bytes id s :=
    match slot_index id s with
    | Some i => match queue s !! i with Some p => cache (slot_cache p) | None => [] end
    | None => []
    end;
  store_bytes id bs :=
    update_slot id (λ p, mkSlot (slot_key p)
      (mkBlockCache bs (block_id (slot_cache p)) true) (slot_handles p) (slot_locked p));
  release id :=
    update_slot id (λ p, mkSlot (slot_key p) (slot_cache p) (pred (slot_handles p)) false);
  sync_all := block_cache_sync_all
|}.
End manager.

(** ** The cache refines the array of blocks *)

Section refinement.
Context {Dev : Type} {cap : Z} `{HD : BlockDevice Dev} `{HDL : !BlockDeviceLaws Dev cap}.
Implicit Types s : CacheState Dev.
Implicit Types q : list Slot.

Definition keys q : list Z := slot_key <$> q.

(** An entry holds the current contents of its block; unless it is marked as
    modified the device holds them too.  It has a handle, and is locked, exactly
    when the caller holds the block. *)
Record slot_inv (d D : disk) (h : gset Z) (p : Slot) : Prop := {
  si_range : 0 <= slot_key p < cap;
  si_id : block_id (slot_cache p) = slot_key p;
  si_bytes : cache (slot_cache p) = d (slot_key p);
  si_clean : modified (slot_cache p) = false → D (slot_key p) = d (slot_key p);
  si_handles : slot_handles p = if decide (slot_key p ∈ h) then 1%nat else 0%nat;
  si_locked : slot_locked p = bool_decide (slot_key p ∈ h)
}.

Record queue_inv (d D : disk) (h : gset Z) q : Prop := {
  qi_nodup : NoDup (keys q);
  qi_length : (length q <= BLOCK_CACHE_SIZE)%nat;
  qi_slots : ∀ p, p ∈ q → slot_inv d D h p;
  qi_held : ∀ b, b ∈ h → b ∈ keys q;
  qi_miss : ∀ b, 0 <= b < cap → b ∉ keys q → d b = D b
}.

Definition cache_ok s (d : disk) (h : gset Z) : Prop :=
  ∃ D : disk, dev_ok (device s) D ∧ queue_inv d D h (queue s) ∧
    ∀ b, 0 <= b < cap → block_wf (d b).

Lemma find_key q i p :
  NoDup (keys q) → q !! i = Some p → find_index (λ p', slot_key p' =? slot_key p) q = Some i.
Proof.
  intros Hnd Hi. apply find_index_Some. split.
  - exists p. split; [done|]. apply Z.eqb_refl.
  - intros j p' Hj Hp'. apply Z.eqb_neq. intros Heq.
    enough (j = i) by lia. eapply NoDup_lookup; [exact Hnd| |].
    + unfold keys. by rewrite list_lookup_fmap, Hp'.
    + unfold keys. by rewrite list_lookup_fmap, Hi, Heq.
Qed.

Lemma alter_lookup (f : Slot → Slot) q i p : q !! i = Some p → alter f i q = <[i := f p]> q.
Proof.
  intros Hi. apply list_eq. intros j. destruct (decide (i = j)) as [->|Hne].
  - rewrite list_lookup_alter_eq, list_lookup_insert_eq by (by eapply lookup_lt_Some). by rewrite Hi.
  - by rewrite list_lookup_alter_ne, list_lookup_insert_ne by done.
Qed.

Lemma keys_insert q i p p' :
  q !! i = Some p → slot_key p' = slot_key p → keys (<[i := p']> q) = keys q.
Proof.
  intros Hi Hk. unfold keys. rewrite list_fmap_insert, Hk. apply list_insert_id.
  by rewrite list_lookup_fmap, Hi.
Qed.

Lemma find_key_insert q i p p' :
  NoDup (keys q) → q !! i = Some p → slot_key p' = slot_key p →
  find_index (λ x, slot_key x =? slot_key p) (<[i := p']> q) = Some i.
Proof.
  intros Hnd Hi Hk. rewrite <- Hk. apply find_key; [by erewrite keys_insert|].
  apply list_lookup_insert_eq. by eapply lookup_lt_Some.
Qed.

(** Replacing one entry, while nothing else changes. *)
Lemma queue_inv_insert d D h d' D' h' q i p p' :
  queue_inv d D h q → q !! i = Some p → slot_key p' = slot_key p →
  slot_inv d' D' h' p' →
  (∀ b, b ≠ slot_key p → d' b = d b) → (∀ b, b ≠ slot_key p → D' b = D b) →
  (∀ b, b ≠ slot_key p → b ∈ h' ↔ b ∈ h) →
  queue_inv d' D' h' (<[i := p']> q).
Proof.
  intros [Hnd Hlen Hsl Hheld Hmiss] Hi Hk Hp' Hd HD' Hh.
  assert (Hkey : slot_key p ∈ keys q).
  { unfold keys. apply list_elem_of_fmap. exists p. split; [done|by eapply list_elem_of_lookup_2]. }
  split.
  - by erewrite keys_insert.
  - by rewrite length_insert.
  - intros p2 [j Hj]%list_elem_of_lookup. apply list_lookup_insert_Some in Hj as [(-> & -> & _)|(Hne & Hj)]; [done|].
    assert (slot_key p2 ≠ slot_key p).
    { intros Heq. apply Hne. eapply NoDup_lookup; [exact Hnd| |]; unfold keys;
        rewrite list_lookup_fmap; [by rewrite Hi|by rewrite Hj, <- Heq]. }
    destruct (Hsl p2) as [H1 H2 H3 H4 H5 H6]; [by eapply list_elem_of_lookup_2|].
    split; rewrite ?Hd, ?HD' by done; try done.
    + rewrite H5. by apply decide_ext, symmetry, Hh.
    + rewrite H6. by apply bool_decide_ext, symmetry, Hh.
  - intros b Hb. erewrite keys_insert by done.
    destruct (decide (b = slot_key p)) as [->|]; [done|]. by apply Hheld, Hh.
  - intros b Hb. erewrite keys_insert by done. intros Hnk.
    assert (b ≠ slot_key p) by (by intros ->). rewrite Hd, HD' by done. auto.
Qed.

Lemma held_slot d D h q id :
  queue_inv d D h q → id ∈ h →
  ∃ i p, q !! i = Some p ∧ slot_key p = id ∧ find_index (λ p', slot_key p' =? id) q = Some i ∧
    slot_inv d D h p.
Proof.
  intros Hq Hid. pose proof (qi_held _ _ _ _ Hq id Hid) as Hk. unfold keys in Hk.
  apply list_elem_of_fmap in Hk as (p & -> & Hp). pose proof Hp as [i Hi]%list_elem_of_lookup.
  exists i, p. split_and!; [done|done| |by eapply qi_slots].
  by eapply find_key; [eapply qi_nodup|].
Qed.

Lemma wp_set_queue q (Q : unit → CacheState Dev → Prop) s :
  Q tt (mkCacheState q (device s)) → wp (set_queue q) Q s.
Proof. intros. unfold set_queue. by wp_steps. Qed.

(** Write-back of an entry. *)
Lemma wp_sync bc D (Q : BlockCache → CacheState Dev → Prop) s :
  dev_ok (device s) D → 0 <= block_id bc < cap → block_wf (cache bc) →
  (∀ v D', dev_ok v D' → D' (block_id bc) = (if modified bc then cache bc else D (block_id bc)) →
     (∀ b, b ≠ block_id bc → D' b = D b) →
     Q (mkBlockCache (cache bc) (block_id bc) false) (mkCacheState (queue s) v)) →
  wp (sync bc) Q s.
Proof.
  intros Hdev Hid Hwf HQ. unfold sync, on_device. destruct bc as [bs id [|]]; simpl in *.
  - wp_steps. apply wp_zoom. eapply wp_mono; [by eapply dev_write|]. intros [] v Hv. wp_steps.
    eapply HQ; [exact Hv|by rewrite upd_same|by intros; apply upd_other].
  - wp_steps. destruct s as [q v]. by eapply HQ.
Qed.

(** When the queue is full and fewer than 16 blocks are held, an entry without
    handles exists. *)
Lemma evict_exists d D h q :
  queue_inv d D h q → length q = BLOCK_CACHE_SIZE → (size h < BLOCK_CACHE_SIZE)%nat →
  ∃ i p, find_index (λ p, (strong_count p =? 1)%nat) q = Some i ∧ q !! i = Some p ∧ slot_key p ∉ h.
Proof.
  intros Hq Hlen Hsz. destruct (find_index (λ p, (strong_count p =? 1)%nat) q) as [i|] eqn:Hf.
  - apply find_index_Some in Hf as [(p & Hp & Hc) _]. exists i, p. split_and!; [done|done|].
    pose proof (si_handles _ _ _ _ (qi_slots _ _ _ _ Hq p ltac:(by eapply list_elem_of_lookup_2))) as Hh.
    unfold strong_count in Hc. rewrite Hh in Hc. by destruct (decide (slot_key p ∈ h)).
  - exfalso. assert (list_to_set (keys q) ⊆ h) as Hsub.
    { intros k Hk. rewrite elem_of_list_to_set in Hk. unfold keys in Hk.
      apply list_elem_of_fmap in Hk as (p & -> & Hp). pose proof Hp as [j Hj]%list_elem_of_lookup.
      pose proof (proj1 (find_index_None _ _) Hf j p Hj) as Hc. simpl in Hc.
      pose proof (si_handles _ _ _ _ (qi_slots _ _ _ _ Hq p Hp)) as Hh.
      unfold strong_count in Hc. rewrite Hh in Hc. by destruct (decide (slot_key p ∈ h)). }
    apply subseteq_size in Hsub. rewrite size_list_to_set in Hsub by apply (qi_nodup _ _ _ _ Hq).
    unfold keys in Hsub. rewrite length_fmap in Hsub. lia.
Qed.

Lemma queue_inv_delete d D D' h q i p :
  queue_inv d D h q → q !! i = Some p → slot_key p ∉ h → D' (slot_key p) = d (slot_key p) →
  (∀ b, b ≠ slot_key p → D' b = D b) →
  queue_inv d D' h (delete i q) ∧ (length (delete i q) < length q)%nat.
Proof.
  intros [Hnd Hlen Hsl Hheld Hmiss] Hi Hnh HDp HD'.
  pose proof (delete_Permutation q i p Hi) as Hperm.
  assert (Hkp : keys q ≡ₚ slot_key p :: keys (delete i q)).
  { unfold keys. by rewrite Hperm at 1. }
  pose proof Hnd as Hnd'. rewrite Hkp in Hnd'. apply NoDup_cons in Hnd' as [Hnin Hnd'].
  split; [|apply Permutation_length in Hperm; simpl in Hperm; lia]. split; [done| | | |].
  - apply Permutation_length in Hperm. simpl in Hperm. lia.
  - intros p2 Hp2. assert (slot_key p2 ≠ slot_key p).
    { intros Heq. apply Hnin. rewrite <- Heq. unfold keys. by apply list_elem_of_fmap_2. }
    destruct (Hsl p2) as [H1 H2 H3 H4 H5 H6]; [rewrite Hperm; by constructor|].
    split; rewrite ?HD' by done; done.
  - intros b Hb. pose proof (Hheld b Hb) as Hk. rewrite Hkp in Hk.
    apply elem_of_cons in Hk as [->|]; done.
  - intros b Hb Hnk. destruct (decide (b = slot_key p)) as [->|Hne]; [done|].
    rewrite HD' by done. apply Hmiss; [done|]. rewrite Hkp. by apply not_elem_of_cons.
Qed.

(** The entry [p] once the caller has locked it. *)
Definition locked_slot (p : Slot) : Slot :=
  mkSlot (slot_key p) (slot_cache p) (slot_handles p) true.

(** What [get_block_cache] leaves: an unlocked entry for the block, in a queue
    that satisfies the invariant once it is locked. *)
Definition ready (d : disk) (h : gset Z) (id : Z) s : Prop :=
  ∃ D i p, dev_ok (device s) D ∧ queue s !! i = Some p ∧ slot_key p = id ∧
    slot_locked p = false ∧ find_index (λ p', slot_key p' =? id) (queue s) = Some i ∧
    queue_inv d D ({[id]} ∪ h) (<[i := locked_slot p]> (queue s)).

Lemma hit_ready d D h q v i id :
  dev_ok v D → queue_inv d D h q → id ∉ h → find_index (λ p, slot_key p =? id) q = Some i →
  ready d h id (mkCacheState
    (alter (λ p, mkSlot (slot_key p) (slot_cache p) (S (slot_handles p)) (slot_locked p)) i q) v).
Proof.
  intros Hv Hq Hid Hf. pose proof Hf as [(p & Hi & Hkp) _]%find_index_Some.
  apply Z.eqb_eq in Hkp. rewrite (alter_lookup _ _ _ _ Hi).
  destruct (qi_slots _ _ _ _ Hq p) as [H1 H2 H3 H4 H5 H6]; [by eapply list_elem_of_lookup_2|].
  eexists D, i, _. simpl.
  assert (Hlt : (i < length q)%nat) by (by eapply lookup_lt_Some).
  split_and!; [done|by apply list_lookup_insert_eq|done| | |]; simpl.
  - rewrite H6, Hkp. by apply bool_decide_eq_false.
  - subst id. by apply find_key_insert; [apply (qi_nodup _ _ _ _ Hq)|..].
  - rewrite list_insert_insert_eq. eapply queue_inv_insert; [exact Hq|exact Hi|done| |done|done|set_solver].
    unfold locked_slot. split; simpl; try done.
    + rewrite H5, decide_False, decide_True by set_solver. done.
    + symmetry. apply bool_decide_eq_true. set_solver.
Qed.

Lemma miss_ready d D h q v id :
  dev_ok v D → queue_inv d D h q → 0 <= id < cap → id ∉ keys q → (length q < BLOCK_CACHE_SIZE)%nat →
  ready d h id (mkCacheState (q ++ [mkSlot id (mkBlockCache (D id) id false) 1 false]) v).
Proof.
  intros Hv [Hnd Hlen Hsl Hheld Hmiss] Hid Hnk Hlt.
  eexists D, (length q), _. simpl. split_and!; [done|by apply list_lookup_middle|done|done| |]; simpl.
  - apply find_index_Some. split.
    + eexists. split; [by apply list_lookup_middle|apply Z.eqb_refl].
    + intros j p Hj Hp. rewrite lookup_app_l in Hp by done. apply Z.eqb_neq. intros Heq.
      apply Hnk. rewrite <- Heq. unfold keys. apply list_elem_of_fmap_2. by eapply list_elem_of_lookup_2.
  - rewrite insert_app_r_alt by done. rewrite Nat.sub_diag. simpl. unfold locked_slot. simpl. split.
    + unfold keys. rewrite fmap_app. simpl. apply NoDup_app. split_and!; [done| |apply NoDup_singleton].
      intros k Hk. rewrite list_elem_of_singleton. by intros ->.
    + rewrite length_app. simpl. lia.
    + intros p [Hp|Hp%list_elem_of_singleton]%elem_of_app.
      * assert (slot_key p ≠ id).
        { intros <-. apply Hnk. unfold keys. by apply list_elem_of_fmap_2. }
        destruct (Hsl p Hp) as [H1 H2 H3 H4 H5 H6]. split; try done.
        -- rewrite H5. apply decide_ext. set_solver.
        -- rewrite H6. apply bool_decide_ext. set_solver.
      * subst p. split; simpl; [done|done| | | |].
        -- symmetry. by apply Hmiss.
        -- intros _. symmetry. by apply Hmiss.
        -- by rewrite decide_True by set_solver.
        -- symmetry. apply bool_decide_eq_true. set_solver.
    + intros b [->%elem_of_singleton|Hb]%elem_of_union; unfold keys; rewrite fmap_app; apply elem_of_app.
      * right. by apply list_elem_of_singleton.
      * left. by apply Hheld.
    + intros b Hb Hk. apply Hmiss; [done|]. intros Hk'. apply Hk. unfold keys.
      rewrite fmap_app. apply elem_of_app. by left.
Qed.

Lemma wp_new_slot d D h id s :
  dev_ok (device s) D → queue_inv d D h (queue s) → 0 <= id < cap → id ∉ keys (queue s) →
  (length (queue s) < BLOCK_CACHE_SIZE)%nat →
  wp (BlockCache_new id) (λ bc, wp (s' ← get; set_queue (queue s' ++ [mkSlot id bc 1 false]))
    (λ _ s', ready d h id s')) s.
Proof.
  intros Hv Hq Hid Hnk Hlt. unfold BlockCache_new, on_device. wp_steps. apply wp_zoom.
  eapply wp_mono; [by eapply dev_read|]. intros bs v [-> Hv']. wp_steps. apply wp_set_queue. simpl.
  by eapply miss_ready.
Qed.

Lemma miss_keys q id : find_index (λ p, slot_key p =? id) q = None → id ∉ keys q.
Proof.
  intros Hf Hk. unfold keys in Hk. apply list_elem_of_fmap in Hk as (p & -> & [i Hi]%list_elem_of_lookup).
  pose proof (proj1 (find_index_None _ _) Hf i p Hi) as Hne. simpl in Hne.
  by rewrite Z.eqb_refl in Hne.
Qed.

Lemma wp_get_block_cache d h id s :
  cache_ok s d h → 0 <= id < cap → id ∉ h → (size h < BLOCK_CACHE_SIZE)%nat →
  wp (get_block_cache id) (λ _ s', ready d h id s') s.
Proof.
  intros (D & Hv & Hq & Hwf) Hid Hh Hsz. unfold get_block_cache. wp_steps.
  destruct (find_index _ (queue s)) as [i|] eqn:Hf.
  { apply wp_set_queue. by eapply hit_ready. }
  apply miss_keys in Hf. wp_steps. destruct (Nat.eqb_spec (length (queue s)) BLOCK_CACHE_SIZE) as [Hfull|Hn].
  - destruct (evict_exists _ _ _ _ Hq Hfull Hsz) as (i & p & -> & Hi & Hp). rewrite Hi.
    pose proof (qi_slots _ _ _ _ Hq p ltac:(by eapply list_elem_of_lookup_2)) as [H1 H2 H3 H4 H5 H6].
    wp_steps. apply wp_set_queue. wp_steps. eapply wp_sync; [exact Hv|by rewrite H2|by rewrite H3; auto|].
    intros v D' Hv' HD1 HD2. wp_steps. rewrite H2 in HD1, HD2. simpl.
    assert (D' (slot_key p) = d (slot_key p)) as HDp.
    { rewrite HD1. destruct (modified (slot_cache p)); [done|]. by apply H4. }
    destruct (queue_inv_delete _ _ _ _ _ _ _ Hq Hi Hp HDp HD2) as [Hq' Hlt].
    eapply wp_new_slot; [done|done|done| |simpl; lia]. simpl. intros Hk. apply Hf.
    revert Hk. unfold keys. rewrite list_fmap_delete. apply list_elem_of_delete_inv.
  - wp_steps. eapply wp_new_slot; [done..|]. pose proof (qi_length _ _ _ _ Hq). lia.
Qed.

Lemma cache_acquire s d h id :
  cache_ok s d h → 0 <= id < cap → id ∉ h → (size h < BLOCK_CACHE_SIZE)%nat →
  wp (acquire id) (λ _ s', cache_ok s' d ({[id]} ∪ h)) s.
Proof.
  intros Hok Hid Hh Hsz. pose proof Hok as (_ & _ & _ & Hwf). simpl. wp_steps.
  eapply wp_mono; [by apply wp_get_block_cache|]. clear s Hok Hsz.
  intros [] s (D & i & p & Hv & Hi & Hk & Hl & Hf & Hq). unfold lock, slot_index. wp_steps.
  eapply wp_unwrap; [exact Hf|]. wp_steps. eapply wp_unwrap; [exact Hi|]. rewrite Hl.
  apply wp_set_queue. exists D. simpl. by split_and!.
Qed.

Lemma cache_read s d h id : cache_ok s d h → id ∈ h → block_bytes id s = d id.
Proof.
  intros (D & Hv & Hq & Hwf) Hid. simpl. unfold slot_index.
  destruct (held_slot _ _ _ _ _ Hq Hid) as (i & p & Hi & <- & Hf & Hp). rewrite Hf, Hi.
  apply (si_bytes _ _ _ _ Hp).
Qed.

Lemma wp_update_slot f (Q : unit → CacheState Dev → Prop) s d D h id :
  queue_inv d D h (queue s) → id ∈ h →
  (∀ i p, queue s !! i = Some p → slot_key p = id → slot_inv d D h p →
     Q tt (mkCacheState (<[i := f p]> (queue s)) (device s))) →
  wp (update_slot id f) Q s.
Proof.
  intros Hq Hid HQ. unfold update_slot, slot_index. wp_steps.
  destruct (held_slot _ _ _ _ _ Hq Hid) as (i & p & Hi & Hk & Hf & Hp).
  eapply wp_unwrap; [exact Hf|]. cbn beta. apply wp_set_queue. rewrite (alter_lookup _ _ _ _ Hi). eauto.
Qed.

Lemma cache_write s d h id bs :
  cache_ok s d h → id ∈ h → block_wf bs →
  wp (store_bytes id bs) (λ _ s', cache_ok s' (upd d id bs) h) s.
Proof.
  intros (D & Hv & Hq & Hwf) Hid Hbs. simpl. eapply wp_update_slot; [done..|].
  intros i p Hi <- Hp. exists D. simpl. split_and!; [done| |].
  - destruct Hp as [H1 H2 H3 H4 H5 H6].
    eapply queue_inv_insert; [exact Hq|exact Hi|done| |intros; by apply upd_other|done|done].
    split; simpl; try done. by rewrite upd_same.
  - intros b Hb. destruct (decide (b = slot_key p)) as [->|]; [by rewrite upd_same|].
    rewrite upd_other by done. auto.
Qed.

Lemma cache_release s d h id :
  cache_ok s d h → id ∈ h → wp (release id) (λ _ s', cache_ok s' d (h ∖ {[id]})) s.
Proof.
  intros (D & Hv & Hq & Hwf) Hid. simpl. eapply wp_update_slot; [done..|].
  intros i p Hi <- Hp. exists D. simpl. split_and!; [done| |done].
  destruct Hp as [H1 H2 H3 H4 H5 H6].
  eapply queue_inv_insert; [exact Hq|exact Hi|done| |done|done|set_solver].
  split; simpl; try done.
  - rewrite H5, decide_True, decide_False by set_solver. done.
  - symmetry. apply bool_decide_eq_false. set_solver.
Qed.

(** After [block_cache_sync_all] the device holds the contents of every block. *)
Lemma cache_sync_all s d :
  cache_ok s d ∅ →
  wp block_cache_sync_all
    (λ _ s', cache_ok s' d ∅ ∧ ∃ D, dev_ok (device s') D ∧ ∀ b, 0 <= b < cap → D b = d b) s.
Proof.
  intros (D0 & Hv0 & Hq0 & Hwf). unfold block_cache_sync_all. wp_steps.
  eapply wp_mono.
  { apply (wp_fold_m (λ pre _ t, ∃ D, dev_ok (device t) D ∧ queue_inv d D ∅ (queue t) ∧
      length (queue t) = length (queue s) ∧
      ∀ j p, j ∈ pre → queue t !! j = Some p → D (slot_key p) = d (slot_key p))).
    - exists D0. split_and!; [done..|]. intros ? ? []%not_elem_of_nil.
    - intros pre i post [] t Hl (D & Hv & Hq & Hlen & Hdone).
      assert (Hi : (i < length (queue t))%nat).
      { rewrite Hlen. assert (i ∈ seq 0 (length (queue s))) as Hin by (rewrite Hl; set_solver).
        apply elem_of_seq in Hin. lia. }
      apply lookup_lt_is_Some in Hi as [p Hp]. wp_steps. eapply wp_unwrap; [exact Hp|].
      destruct (qi_slots _ _ _ _ Hq p) as [H1 H2 H3 H4 H5 H6]; [by eapply list_elem_of_lookup_2|].
      rewrite H6, bool_decide_eq_false_2 by set_solver. wp_steps.
      eapply wp_sync; [exact Hv|by rewrite H2|rewrite H3; auto|].
      intros v D' Hv' HD1 HD2. wp_steps. apply wp_set_queue. simpl. rewrite H2 in HD1, HD2.
      assert (D' (slot_key p) = d (slot_key p)) as HDp.
      { rewrite HD1. destruct (modified (slot_cache p)); [done|auto]. }
      exists D'. simpl. split_and!; [done| |by rewrite length_insert|].
      + eapply queue_inv_insert; [exact Hq|exact Hp|done| |done|done|done].
        split; simpl; try done.
      + intros j p' Hj Hp'. apply list_lookup_insert_Some in Hp' as [(-> & <- & _)|(Hne & Hp')]; [done|].
        apply elem_of_app in Hj as [Hj| ->%list_elem_of_singleton]; [|done].
        destruct (decide (slot_key p' = slot_key p)) as [->|]; [done|]. rewrite HD2 by done. eauto. }
  intros [] t (D & Hv & Hq & Hlen & Hdone). split; [by exists D|]. exists D. split; [done|].
  intros b Hb. destruct (decide (b ∈ keys (queue t))) as [Hk|Hk].
  - unfold keys in Hk. apply list_elem_of_fmap in Hk as (p & -> & [i Hi]%list_elem_of_lookup).
    eapply Hdone; [|exact Hi]. apply elem_of_seq. apply lookup_lt_Some in Hi. lia.
  - symmetry. by eapply qi_miss.
Qed.

#[global] Instance CacheState_laws : BlockStoreLaws (CacheState Dev) cap.
Proof.
  unshelve eapply Build_BlockStoreLaws; [exact cache_ok|..].
  - intros s d d' h (D & Hv & [Hnd Hlen Hsl Hheld Hmiss] & Hwf) Hd. exists D.
    split_and!; [done| |intros b Hb; rewrite Hd by done; auto]. split; try done.
    + intros p Hp. destruct (Hsl p Hp) as [H1 H2 H3 H4 H5 H6]. split; rewrite ?Hd by done; done.
    + intros b Hb Hk. rewrite Hd by done. auto.
  - intros s d h b (D & Hv & Hq & Hwf) Hb. auto.
  - apply cache_acquire.
  - apply cache_read.
  - apply cache_write.
  - apply cache_release.
  - intros s d Hs. simpl. eapply wp_mono; [by apply cache_sync_all|]. by intros ? ? [? _].
Defined.

(** A client's whole-block accesses, and the same accesses on an array. *)
Inductive access :=
  | ARead (id : Z)
  | AWrite (id : Z) (bs : list Z).

Definition access_wf (a : access) : Prop :=
  match a with ARead id => 0 <= id < cap | AWrite id bs => 0 <= id < cap ∧ block_wf bs end.

Definition run_access {St} `{BlockStore St} (a : access) : M St (list Z) :=
  match a with
  | ARead id => read_block_as id 0 (λ x : DataBlock, mret (db_bytes x))
  | AWrite id bs => modify_block_as id 0 (λ x : DataBlock, mret (db_bytes x, mkDataBlock bs))
  end.

Definition disk_access (d : disk) (a : access) : disk :=
  match a with ARead _ => d | AWrite id bs => upd d id bs end.
Definition access_id (a : access) : Z := match a with ARead id => id | AWrite id _ => id end.

Fixpoint run_accesses {St} `{BlockStore St} (l : list access) : M St (list (list Z)) :=
  match l with
  | [] => mret []
  | a :: l' => x ← run_access a; xs ← run_accesses l'; mret (x :: xs)
  end.
Fixpoint disk_accesses (d : disk) (l : list access) : list (list Z) * disk :=
  match l with
  | [] => ([], d)
  | a :: l' => let r := disk_accesses (disk_access d a) l' in (d (access_id a) :: fst r, snd r)
  end.

Lemma wp_run_access s d a :
  cache_ok s d ∅ → access_wf a →
  wp (run_access a) (λ x s', x = d (access_id a) ∧ cache_ok s' (disk_access d a) ∅) s.
Proof.
  intros Hs Ha.
  assert (Hat : ∀ id, 0 <= id < cap → db_bytes (at_block d id 0) = d id).
  { intros id Hid. unfold at_block. cbn -[Z.to_nat]. rewrite drop_0, take_ge; [done|].
    pose proof (store_wf s d ∅ id Hs Hid) as [? _]. lia. }
  assert (Hsz : (size (∅ : gset Z) < BLOCK_CACHE_SIZE)%nat).
  { rewrite size_empty. unfold BLOCK_CACHE_SIZE. lia. }
  destruct a as [id|id bs]; cbn [run_access access_id disk_access].
  - eapply (wp_read_block_as (HL := CacheState_laws)); [exact Hs|done|set_solver|done|done|done|].
    intros s1 Hs1. wp_steps. exists d. split; [done|]. intros s3 Hs3. split; [by apply Hat|done].
  - destruct Ha as [Hid Hbs].
    eapply (wp_modify_block_as (HL := CacheState_laws)); [exact Hs|done|set_solver|done|done|done|].
    intros s1 Hs1. wp_steps. split; [exact Hbs|]. exists d. split; [done|]. intros s3 Hs3.
    split; [by apply Hat|]. simpl in Hs3. change (Z.to_nat 0) with 0%nat in Hs3.
    rewrite splice_all in Hs3; [done|].
    pose proof (store_wf s d ∅ id Hs Hid) as [? _]. destruct Hbs. lia.
Qed.

Lemma wp_run_accesses s d l :
  cache_ok s d ∅ → Forall access_wf l →
  wp (run_accesses l)
    (λ xs s', xs = fst (disk_accesses d l) ∧ cache_ok s' (snd (disk_accesses d l)) ∅) s.
Proof.
  intros Hs Hl. revert s d Hs. induction Hl as [|a l Ha Hl IH]; intros s d Hs; simpl.
  { by wp_steps. }
  wp_steps. eapply wp_mono; [by apply wp_run_access|]. intros x s1 [-> Hs1]. wp_steps.
  eapply wp_mono; [by apply IH|]. intros xs s2 [-> Hs2]. by wp_steps.
Qed.

(** [BlockCacheManager::new]: nothing is cached. *)
Definition BlockCacheManager_new (v : Dev) : CacheState Dev := mkCacheState [] v.

Lemma cache_ok_new v D : dev_ok v D → cache_ok (BlockCacheManager_new v) D ∅.
Proof.
  intros Hv. exists D. split_and!; [done| |intros; by eapply dev_wf]. split; simpl.
  - constructor.
  - unfold BLOCK_CACHE_SIZE. lia.
  - by intros p Hp%not_elem_of_nil.
  - set_solver.
  - done.
Qed.

(** C10: the block cache is transparent.  Starting from a cache that represents
    the disk [d] with no block held, any sequence of accesses to blocks of the
    device succeeds (no panic, no double lock), every access sees the contents
    the array of blocks would give, and after [block_cache_sync_all] the device
    itself holds the final contents of every block: nothing is lost by eviction,
    by the write-back flag or by the order of the queue. *)
Theorem cache_refines_disk s d l :
  cache_ok s d ∅ → Forall access_wf l →
  wp (xs ← run_accesses l; _ ← block_cache_sync_all; mret xs)
    (λ xs s', xs = fst (disk_accesses d l) ∧ cache_ok s' (snd (disk_accesses d l)) ∅ ∧
      ∃ D, dev_ok (device s') D ∧ ∀ b, 0 <= b < cap → D b = snd (disk_accesses d l) b) s.
Proof.
  intros Hs Hl. wp_steps. eapply wp_mono; [by apply wp_run_accesses|]. intros xs s1 [-> Hs1].
  wp_steps. eapply wp_mono; [by apply cache_sync_all|]. intros [] s2 [Hs2 Hdev]. by wp_steps.
Qed.

Lemma acquire_held s d h id : cache_ok s d h → id ∈ h → acquire id s = Panic PDeadlock.
Proof.
  intros (D & Hv & Hq & Hwf). cbn [acquire CacheState_store].
  unfold get_block_cache, get, mbind, M_bind. cbn beta iota.
  intros Hid. destruct (held_slot _ _ _ _ _ Hq Hid) as (i & p & Hi & <- & Hf & Hp). rewrite Hf. simpl.
  rewrite (alter_lookup _ _ _ _ Hi). unfold lock, get, slot_index, mbind, M_bind. simpl.
  assert (Hi' : (i < length (queue s))%nat) by (by eapply lookup_lt_Some).
  rewrite (find_key_insert _ _ p) by (done || apply (qi_nodup _ _ _ _ Hq)). simpl.
  rewrite list_lookup_insert_eq by done. simpl. rewrite (si_locked _ _ _ _ Hp).
  by rewrite bool_decide_eq_true_2.
Qed.

Lemma all_held d D h q :
  queue_inv d D h q → size h = BLOCK_CACHE_SIZE →
  length q = BLOCK_CACHE_SIZE ∧ ∀ p, p ∈ q → slot_key p ∈ h.
Proof.
  intros Hq Hsz. assert (h ⊆ list_to_set (keys q)) as Hsub.
  { intros b Hb. apply elem_of_list_to_set. by eapply qi_held. }
  pose proof (subseteq_size _ _ Hsub) as Hle.
  rewrite size_list_to_set in Hle by apply (qi_nodup _ _ _ _ Hq).
  unfold keys in Hle. rewrite length_fmap in Hle. pose proof (qi_length _ _ _ _ Hq).
  split; [lia|]. intros p Hp. apply (set_subseteq_size_equiv _ _ Hsub).
  - rewrite size_list_to_set by apply (qi_nodup _ _ _ _ Hq). unfold keys. rewrite length_fmap. lia.
  - apply elem_of_list_to_set. unfold keys. by apply list_elem_of_fmap_2.
Qed.

Lemma acquire_exhausted s d h id :
  cache_ok s d h → id ∉ keys (queue s) → size h = BLOCK_CACHE_SIZE → acquire id s = Panic PExplicit.
Proof.
  intros (D & Hv & Hq & Hwf). cbn [acquire CacheState_store].
  unfold get_block_cache, get, mbind, M_bind. cbn beta iota.
  intros Hnk Hsz. destruct (all_held _ _ _ _ Hq Hsz) as [Hlen Hall].
  assert (find_index (λ p, slot_key p =? id) (queue s) = None) as ->.
  { apply find_index_None. intros i p Hi. apply Z.eqb_neq. intros <-. apply Hnk.
    unfold keys. apply list_elem_of_fmap_2. by eapply list_elem_of_lookup_2. }
  rewrite Hlen, Nat.eqb_refl.
  assert (find_index (λ p, (strong_count p =? 1)%nat) (queue s) = None) as ->; [|done].
  apply find_index_None. intros i p Hi%list_elem_of_lookup_2.
  unfold strong_count. rewrite (si_handles _ _ _ _ (qi_slots _ _ _ _ Hq p Hi)).
  by rewrite decide_True by auto.
Qed.

(** the two ways [get_block_cache(id, ..).lock()] cannot succeed.  A block
    that the caller already holds is never granted a second time (the spin lock
    is taken, whatever else is in the queue), and when all 16 entries have live
    handles a block that is not cached makes the manager panic. *)
Theorem acquire_failures s d h id :
  cache_ok s d h →
  (id ∈ h → acquire id s = Panic PDeadlock) ∧
  (id ∉ keys (queue s) → size h = BLOCK_CACHE_SIZE → acquire id s = Panic PExplicit).
Proof. intros Hs. split; [by eapply acquire_held|intros; by eapply acquire_exhausted]. Qed.
End refinement.

(** A cache over the file of [demo_file]. *)
Abbreviation demo_cache_ok := (cache_ok (HDL := demo_file_laws)).

Lemma cache_refines_disk_witness :
  wp (xs ← run_accesses [ARead 3; AWrite 3 (replicate 512 7); ARead 3; ARead 9];
      _ ← block_cache_sync_all; mret xs)
    (λ xs (_ : CacheState File), xs !! 2%nat = Some (replicate 512 7))
    (BlockCacheManager_new demo_file).
Proof.
  eapply wp_mono.
  - apply (cache_refines_disk (HDL := demo_file_laws) _ (file_block demo_file)).
    + apply cache_ok_new, demo_file_ok.
    + repeat constructor; simpl; try lia; apply Forall_replicate; unfold is_byte; lia.
  - intros xs s' (-> & _). reflexivity.
Defined.

Lemma acquire_failures_witness :
  ∃ s, demo_cache_ok s (file_block demo_file) {[3]} ∧ acquire 3 s = Panic PDeadlock.
Proof.
  destruct (wp_ok _ _ _ (cache_acquire (HDL := demo_file_laws) (BlockCacheManager_new demo_file)
    (file_block demo_file) ∅ 3 (cache_ok_new _ _ demo_file_ok) ltac:(lia) ltac:(set_solver)
    ltac:(unfold BLOCK_CACHE_SIZE; rewrite size_empty; lia))) as ([] & s & _ & Hs).
  replace ({[3]} ∪ ∅) with ({[3]} : gset Z) in Hs by set_solver.
  exists s. split; [done|]. apply (acquire_failures s _ _ 3 Hs). set_solver.
Defined.
