(* ===== verification/Bitmap.v ===== *)
(** * The bitmaps of easy-fs

    [easy-fs/src/bitmap.rs]: allocation and deallocation of inode and data block
    numbers in consecutive blocks of 4096 bits.  [bit_of] is the abstract view
    of a bitmap; [alloc] takes the first clear bit of it. *)

From S2P Require Import Prelude Codec BlockDev BlockCache.

Definition BLOCK_BITS : Z := BLOCK_SZ * 8.
Definition U64_MAX : Z := 2 ^ 64 - 1.

Record Bitmap := mkBitmap {
  start_block_id : Z;
  blocks : Z
}.

(** [(block_pos, bits64_pos, inner_pos)]. *)
Definition decomposition (bit : Z) : Z * Z * Z :=
  let block_pos := bit / BLOCK_BITS in
  let bit := bit mod BLOCK_BITS in
  (block_pos, bit / 64, bit mod 64).

Definition Bitmap_new (start_block_id blocks : Z) : Bitmap := mkBitmap start_block_id blocks.
Definition maximum (bm : Bitmap) : Z := wrap64 (blocks bm * BLOCK_BITS).

(** [u64::trailing_ones]. *)
Fixpoint trailing_ones_from (fuel : nat) (w i : Z) : Z :=
  match fuel with
  | O => i
  | S fuel => if Z.testbit w i then trailing_ones_from fuel w (i + 1) else i
  end.
Definition trailing_ones (w : Z) : Z := trailing_ones_from 64 w 0.

(** The closure of [alloc]: set the first clear bit of one block. *)
Definition alloc_in_block (id : Z) (b : BitmapBlock) : option Z * BitmapBlock :=
  match find_index (λ w, negb (w =? U64_MAX)) (bb_words b) with
  | Some bits64_pos =>
      let bits64 := default 0 (bb_words b !! bits64_pos) in
      let inner_pos := trailing_ones bits64 in
      (Some (wrap64 (id * BLOCK_BITS + Z.of_nat bits64_pos * 64 + inner_pos)),
       mkBitmapBlock (<[bits64_pos := Z.lor bits64 (wrap64 (Z.shiftl 1 inner_pos))]> (bb_words b)))
  | None => (None, b)
  end.

Section ops.
Context {St : Type} `{HS : BlockStore St}.

Fixpoint alloc_loop (bm : Bitmap) (ids : list Z) : M St (option Z) :=
  match ids with
  | [] => mret None
  | id :: ids' =>
      pos ← modify_block_as (wrap64 (id + start_block_id bm)) 0 (λ b, mret (alloc_in_block id b));
      match pos with
      | Some p => mret (Some p)
      | None => alloc_loop bm ids'
      end
  end.

Definition alloc (bm : Bitmap) : M St (option Z) := alloc_loop bm (seqZ 0 (blocks bm)).

Definition dealloc (bm : Bitmap) (bit : Z) : M St unit :=
  let '(block_pos, bits64_pos, inner_pos) := decomposition bit in
  modify_block_as (wrap64 (block_pos + start_block_id bm)) 0 (λ b,
    w ← index (bb_words b) bits64_pos;
    let mask := wrap64 (Z.shiftl 1 inner_pos) in
    _ ← assert_ (0 <? Z.land w mask);
    mret (tt, mkBitmapBlock (<[Z.to_nat bits64_pos := wrap64 (w - mask)]> (bb_words b)))).
End ops.

(** ** The abstract view *)

Definition word_of (d : disk) (bm : Bitmap) (i : Z) : Z :=
  default 0 (bb_words (at_block d (start_block_id bm + i / 4096) 0) !! Z.to_nat (i mod 4096 / 64)).
Definition bit_of (d : disk) (bm : Bitmap) (i : Z) : bool := Z.testbit (word_of d bm i) (i mod 64).

(** A bitmap whose blocks are on the device. *)
Definition bm_wf (cap : Z) (bm : Bitmap) : Prop :=
  0 <= start_block_id bm ∧ 0 <= blocks bm ∧ start_block_id bm + blocks bm <= cap ∧
  start_block_id bm + blocks bm < 2 ^ 32.
Definition nbits (bm : Bitmap) : Z := blocks bm * 4096.
Definition in_bitmap (bm : Bitmap) (b : Z) : Prop :=
  start_block_id bm <= b < start_block_id bm + blocks bm.

Lemma decomposition_spec bit :
  0 <= bit → let '(bp, wp, ip) := decomposition bit in
  bit = bp * BLOCK_BITS + wp * 64 + ip ∧ 0 <= bp ∧ 0 <= wp < 64 ∧ 0 <= ip < 64.
Proof. unfold decomposition, BLOCK_BITS, BLOCK_SZ. intros. zdiv. Qed.

Lemma trailing_ones_from_spec fuel w i :
  0 <= i → let r := trailing_ones_from fuel w i in
  i <= r <= i + Z.of_nat fuel ∧ (∀ j, i <= j < r → Z.testbit w j = true) ∧
  (r < i + Z.of_nat fuel → Z.testbit w r = false).
Proof.
  revert i. induction fuel as [|fuel IH]; intros i Hi; cbn zeta; cbn [trailing_ones_from].
  { split_and!; intros; lia. }
  destruct (Z.testbit w i) eqn:Hb.
  - destruct (IH (i + 1) ltac:(lia)) as (H1 & H2 & H3). split_and!; [lia..| |].
    + intros j Hj. destruct (decide (j = i)) as [->|]; [done|]. apply H2. lia.
    + intros. apply H3. lia.
  - split_and!; [lia..| |done]. intros; lia.
Qed.

(** A 64-bit word that is not all ones has a clear bit below 64. *)
Lemma trailing_ones_spec w :
  0 <= w < 2 ^ 64 → w ≠ U64_MAX →
  0 <= trailing_ones w < 64 ∧ (∀ j, 0 <= j < trailing_ones w → Z.testbit w j = true) ∧
  Z.testbit w (trailing_ones w) = false.
Proof.
  intros Hw Hne. unfold trailing_ones.
  destruct (trailing_ones_from_spec 64 w 0 ltac:(lia)) as (H1 & H2 & H3).
  set (r := trailing_ones_from 64 w 0) in *. change (0 + Z.of_nat 64) with 64 in *.
  assert (r ≠ 64) as Hr.
  { intros Heq. apply Hne. rewrite Heq in H2. unfold U64_MAX. change (2 ^ 64 - 1) with (Z.ones 64).
    apply Z.bits_inj'. intros n Hn. destruct (decide (n < 64)).
    - by rewrite H2, Z.ones_spec_low by lia.
    - rewrite Z.ones_spec_high by lia. rewrite <- (Z.mod_small w (2 ^ 64)) by done.
      by rewrite Z.mod_pow2_bits_high by lia. }
  split_and!; [lia|lia|done|]. apply H3. lia.
Qed.

Lemma u64_max_bits j : 0 <= j < 64 → Z.testbit U64_MAX j = true.
Proof. intros. unfold U64_MAX. change (2 ^ 64 - 1) with (Z.ones 64). by apply Z.ones_spec_low. Qed.

Lemma shiftl_1_small p : 0 <= p < 64 → wrap64 (Z.shiftl 1 p) = 2 ^ p.
Proof.
  intros. rewrite Z.shiftl_1_l. apply wrap_small. split; [apply Z.pow_nonneg; lia|].
  apply Z.pow_lt_mono_r; lia.
Qed.

Lemma set_bit_spec w p j :
  0 <= p → Z.testbit (Z.lor w (2 ^ p)) j = if decide (j = p) then true else Z.testbit w j.
Proof.
  intros Hp. rewrite Z.lor_spec. destruct (decide (j = p)) as [->|Hne].
  - by rewrite Z.pow2_bits_true, orb_true_r by lia.
  - by rewrite Z.pow2_bits_false, orb_false_r by lia.
Qed.

Lemma set_bit_bound w p : 0 <= w < 2 ^ 64 → 0 <= p < 64 → 0 <= Z.lor w (2 ^ p) < 2 ^ 64.
Proof.
  intros Hw Hp. assert (0 <= 2 ^ p) by (apply Z.pow_nonneg; lia).
  assert (Z.lor w (2 ^ p) mod 2 ^ 64 = Z.lor w (2 ^ p)) as <-; [|apply Z.mod_pos_bound; lia].
  apply Z.bits_inj'. intros n Hn. destruct (decide (n < 64)).
  - by rewrite Z.mod_pow2_bits_low by lia.
  - rewrite Z.mod_pow2_bits_high, Z.lor_spec, Z.pow2_bits_false by lia.
    rewrite <- (Z.mod_small w (2 ^ 64)) by done. by rewrite Z.mod_pow2_bits_high by lia.
Qed.

(** Subtracting the value of a set bit clears it. *)
Lemma clear_bit_sub w p : 0 <= p → Z.testbit w p = true → w - 2 ^ p = Z.clearbit w p.
Proof.
  intros Hp Hb. rewrite Z.clearbit_spec'. apply Z.sub_nocarry_ldiff.
  apply Z.bits_inj'. intros n Hn. rewrite Z.ldiff_spec, Z.bits_0.
  destruct (decide (n = p)) as [->|].
  - by rewrite Hb, andb_false_r.
  - by rewrite Z.pow2_bits_false by lia.
Qed.

Lemma land_pow2_pos w p : 0 <= p → (0 <? Z.land w (2 ^ p)) = Z.testbit w p.
Proof.
  intros Hp. assert (Z.land w (2 ^ p) = if Z.testbit w p then 2 ^ p else 0) as ->.
  { apply Z.bits_inj'. intros n Hn. rewrite Z.land_spec. destruct (decide (n = p)) as [->|].
    - rewrite Z.pow2_bits_true by lia. destruct (Z.testbit w p); [|by rewrite Z.bits_0].
      by rewrite Z.pow2_bits_true by lia.
    - rewrite Z.pow2_bits_false, andb_false_r by lia.
      destruct (Z.testbit w p); [by rewrite Z.pow2_bits_false by lia|by rewrite Z.bits_0]. }
  destruct (Z.testbit w p); [|done]. apply Z.ltb_lt. apply Z.pow_pos_nonneg; lia.
Qed.

(** ** Effect of changing one word *)

Section laws.
Context {St : Type} {cap : Z} `{HS : BlockStore St} `{HL : !BlockStoreLaws St cap}.

Lemma block_view s d h (id : Z) :
  store_ok s d h → 0 <= id < cap → valid (at_block (T := BitmapBlock) d id 0).
Proof.
  intros Hs Hid. pose proof (store_wf s d h id Hs Hid) as [Hl Hb].
  apply decode_valid; [rewrite length_take, length_drop, Hl; done|by apply Forall_take, Forall_drop].
Qed.

Lemma word_of_put (d : disk) bm bp pos w' words i :
  block_wf (d (start_block_id bm + bp)) → valid (mkBitmapBlock (<[pos := w']> words)) →
  words = bb_words (at_block d (start_block_id bm + bp) 0) → (pos < length words)%nat → 0 <= i →
  word_of (put_at d (start_block_id bm + bp) 0 (mkBitmapBlock (<[pos := w']> words))) bm i =
  if decide (i / 4096 = bp ∧ i mod 4096 / 64 = Z.of_nat pos) then w' else word_of d bm i.
Proof.
  intros Hwf Hv -> Hpos Hi. unfold word_of. destruct (decide (i / 4096 = bp)) as [->|Hne].
  - rewrite at_put_same by done. cbn [bb_words].
    destruct (decide (i mod 4096 / 64 = Z.of_nat pos)) as [Heq|Hne].
    + rewrite decide_True by done. by rewrite Heq, Nat2Z.id, list_lookup_insert_eq.
    + rewrite decide_False by tauto. rewrite list_lookup_insert_ne; [done|]. intros ->.
      apply Hne. rewrite Z2Nat.id; [done|]. zdiv.
  - rewrite decide_False by tauto. by rewrite at_put_other by lia.
Qed.

(** The bit at [i] is the only one to change. *)
Definition bit_changed (d d' : disk) (bm : Bitmap) (i : Z) (v : bool) : Prop :=
  (∀ j, 0 <= j < nbits bm → bit_of d' bm j = if decide (j = i) then v else bit_of d bm j) ∧
  (∀ b, ¬ in_bitmap bm b → d' b = d b).

Lemma put_word_changes_bit s d h bm i w' v words :
  store_ok s d h → bm_wf cap bm → 0 <= i < nbits bm →
  words = bb_words (at_block d (start_block_id bm + i / 4096) 0) →
  0 <= w' < 2 ^ 64 →
  (∀ j, Z.testbit w' j = if decide (j = i mod 64) then v else Z.testbit (word_of d bm i) j) →
  valid (mkBitmapBlock (<[Z.to_nat (i mod 4096 / 64) := w']> words)) ∧
  bit_changed d
    (put_at d (start_block_id bm + i / 4096) 0
       (mkBitmapBlock (<[Z.to_nat (i mod 4096 / 64) := w']> words))) bm i v.
Proof.
  unfold bm_wf, nbits. intros Hs Hbm Hi Hwords Hw' Hbits.
  assert (Hid : 0 <= start_block_id bm + i / 4096 < cap) by zdiv.
  pose proof (block_view s d h _ Hs Hid) as [Hl Hb]. rewrite <- Hwords in Hl, Hb.
  assert (Hpos : (Z.to_nat (i mod 4096 / 64) < length words)%nat) by (rewrite Hl; zdiv).
  assert (Hv : valid (mkBitmapBlock (<[Z.to_nat (i mod 4096 / 64) := w']> words))).
  { split; cbn [bb_words]; [by rewrite length_insert|]. by apply Forall_insert. }
  split; [done|]. split.
  - intros j Hj. unfold bit_of. rewrite word_of_put by (done || lia || by eapply store_wf).
    rewrite Z2Nat.id by zdiv. destruct (decide _) as [[H1 H2]|Hne].
    + rewrite Hbits. destruct (decide (j = i)) as [->|Hji]; [by rewrite decide_True|].
      rewrite decide_False by zdiv. unfold word_of. by rewrite H1, H2.
    + rewrite decide_False; [done|]. intros ->. tauto.
  - intros b Hb'. apply put_other. unfold in_bitmap in Hb'. zdiv.
Qed.

(** ** Allocation *)

Lemma alloc_in_block_Some s d h bm id :
  store_ok s d h → bm_wf cap bm → 0 <= id < blocks bm →
  match alloc_in_block id (at_block d (start_block_id bm + id) 0) with
  | (Some i, b') =>
      id * 4096 <= i < (id + 1) * 4096 ∧ bit_of d bm i = false ∧
      (∀ j, id * 4096 <= j < i → bit_of d bm j = true) ∧ valid b' ∧
      bit_changed d (put_at d (start_block_id bm + id) 0 b') bm i true
  | (None, b') =>
      b' = at_block d (start_block_id bm + id) 0 ∧
      ∀ j, id * 4096 <= j < (id + 1) * 4096 → bit_of d bm j = true
  end.
Proof.
  unfold bm_wf. intros Hs Hbm Hid.
  pose proof (block_view s d h (start_block_id bm + id) Hs ltac:(lia)) as [Hl Hb].
  unfold alloc_in_block. set (words := bb_words (at_block d (start_block_id bm + id) 0)) in *.
  assert (Hword : ∀ j, id * 4096 <= j < (id + 1) * 4096 →
    j / 4096 = id ∧ word_of d bm j = default 0 (words !! Z.to_nat (j mod 4096 / 64))).
  { intros j Hj. assert (j / 4096 = id) as Hq by zdiv. split; [done|]. unfold word_of. by rewrite Hq. }
  destruct (find_index _ words) as [pos|] eqn:Hf.
  - apply find_index_Some in Hf as [(w & Hw & Hne) Hmin]. rewrite Hw. change (default 0 (Some w)) with w.
    assert (Hpos : (pos < 64)%nat) by (rewrite <- Hl; by eapply lookup_lt_Some).
    assert (Hwr : 0 <= w < 2 ^ 64) by (by eapply (Forall_lookup_1 _ _ _ _ Hb)).
    destruct (trailing_ones_spec w Hwr) as (Ht & Hones & Hzero).
    { intros ->. unfold U64_MAX in Hne. by rewrite Z.eqb_refl in Hne. }
    set (t := trailing_ones w) in *. unfold BLOCK_BITS, BLOCK_SZ. rewrite shiftl_1_small by done.
    rewrite wrap_small by lia. set (i := id * (512 * 8) + Z.of_nat pos * 64 + t).
    assert (Hi : id * 4096 <= i < (id + 1) * 4096) by lia.
    assert (Hdec : i / 4096 = id ∧ i mod 4096 / 64 = Z.of_nat pos ∧ i mod 64 = t) by zdiv.
    destruct Hdec as (Hd1 & Hd2 & Hd3).
    assert (Hwi : word_of d bm i = w).
    { rewrite (proj2 (Hword i Hi)), Hd2, Nat2Z.id. by rewrite Hw. }
    split; [done|]. split; [|split].
    + unfold bit_of. by rewrite Hwi, Hd3.
    + intros j Hj. unfold bit_of. rewrite (proj2 (Hword j ltac:(lia))).
      destruct (decide (j mod 4096 / 64 = Z.of_nat pos)) as [Heq|Hlt].
      * rewrite Heq, Nat2Z.id, Hw. apply Hones. zdiv.
      * assert (Hjlt : (Z.to_nat (j mod 4096 / 64) < pos)%nat) by zdiv.
        assert (is_Some (words !! Z.to_nat (j mod 4096 / 64))) as [w2 Hw2]
          by (apply lookup_lt_is_Some; lia).
        rewrite Hw2. pose proof (Hmin _ _ Hjlt Hw2) as Hfull.
        apply negb_false_iff, Z.eqb_eq in Hfull. simpl. rewrite Hfull. apply u64_max_bits. zdiv.
    + pose proof (put_word_changes_bit s d h bm i (Z.lor w (2 ^ t)) true words Hs) as Hput.
      rewrite Hd1, Hd2, Nat2Z.id, Hd3, Hwi in Hput. apply Hput; [done|unfold nbits; lia|done| |].
      * by apply set_bit_bound.
      * intros j. apply set_bit_spec. lia.
  - split; [done|]. intros j Hj. unfold bit_of. rewrite (proj2 (Hword j Hj)).
    assert (is_Some (words !! Z.to_nat (j mod 4096 / 64))) as [w2 Hw2]
      by (apply lookup_lt_is_Some; rewrite Hl; zdiv).
    pose proof (proj1 (find_index_None _ _) Hf _ _ Hw2) as Hfull.
    apply negb_false_iff, Z.eqb_eq in Hfull. rewrite Hw2. simpl. rewrite Hfull.
    apply u64_max_bits. zdiv.
Qed.

(** The caller holds fewer than 16 blocks, none of them of the bitmap. *)
Definition bm_free (bm : Bitmap) (h : gset Z) : Prop :=
  (∀ b, in_bitmap bm b → b ∉ h) ∧ (size h < BLOCK_CACHE_SIZE)%nat.

(** [i] is the first clear bit and has been set; [None] when all bits are set. *)
Definition alloc_post (d : disk) (h : gset Z) (bm : Bitmap) (r : option Z) (s' : St) : Prop :=
  match r with
  | Some i => ∃ d', store_ok s' d' h ∧ 0 <= i < nbits bm ∧ bit_of d bm i = false ∧
      (∀ j, 0 <= j < i → bit_of d bm j = true) ∧ bit_changed d d' bm i true
  | None => store_ok s' d h ∧ ∀ j, 0 <= j < nbits bm → bit_of d bm j = true
  end.

Lemma wp_alloc_loop s d h bm k :
  store_ok s d h → bm_wf cap bm → bm_free bm h → 0 <= k <= blocks bm →
  (∀ j, 0 <= j < k * 4096 → bit_of d bm j = true) →
  wp (alloc_loop bm (seqZ k (blocks bm - k))) (alloc_post d h bm) s.
Proof.
  intros Hs Hbm [Hh Hsz] Hk. remember (Z.to_nat (blocks bm - k)) as n eqn:Hn.
  revert s Hs k Hk Hn. induction n as [|n IH]; intros s Hs k Hk Hn Hset; pose proof Hbm as (?&?&?&?).
  { rewrite seqZ_nil by lia. simpl. apply wp_ret. split; [done|]. intros j Hj. apply Hset.
    unfold nbits in Hj. lia. }
  rewrite seqZ_cons by lia. cbn [alloc_loop]. apply wp_bind. rewrite wrap_small by lia.
  rewrite (Z.add_comm k). pose proof (alloc_in_block_Some s d h bm k Hs Hbm ltac:(lia)) as Hblk.
  eapply wp_modify_pure; [done|lia|apply Hh; unfold in_bitmap; lia|done|done|done| |].
  { destruct (alloc_in_block k _) as [[i|] b']; cbn [snd]; [by intros _; apply Hblk|by destruct Hblk as [-> _]]. }
  intros s' Hs'. destruct (alloc_in_block k _) as [[i|] b']; cbn [fst snd] in *.
  - destruct Hblk as (Hi & Hclear & Hbelow & _ & Hch). apply wp_ret. eexists. split; [exact Hs'|].
    split_and!; [lia|unfold nbits; lia|done| |exact Hch]. intros j Hj.
    destruct (decide (j < k * 4096)); [apply Hset; lia|apply Hbelow; lia].
  - destruct Hblk as [-> Hall].
    replace (Z.pred (blocks bm - k)) with (blocks bm - Z.succ k) by lia. apply IH; [|lia|lia|].
    + eapply store_ext; [exact Hs'|]. intros b Hb. rewrite put_at_id; [done| |done|done].
      eapply store_wf; [exact Hs|lia].
    + intros j Hj. destruct (decide (j < k * 4096)); [apply Hset; lia|apply Hall; lia].
Qed.

Lemma wp_alloc s d h bm :
  store_ok s d h → bm_wf cap bm → bm_free bm h → wp (alloc bm) (alloc_post d h bm) s.
Proof.
  intros Hs Hbm Hfree. unfold alloc. pose proof Hbm as (?&?&?&?).
  replace (blocks bm) with (blocks bm - 0) by lia. apply wp_alloc_loop; [done..|lia|]. intros; lia.
Qed.

(** ** Deallocation *)

Lemma wp_dealloc s d h bm i :
  store_ok s d h → bm_wf cap bm → bm_free bm h → 0 <= i < nbits bm → bit_of d bm i = true →
  wp (dealloc bm i) (λ _ s', ∃ d', store_ok s' d' h ∧ bit_changed d d' bm i false) s.
Proof.
  intros Hs Hbm [Hh Hsz] Hi Hbit. pose proof Hbm as (?&?&?&?).
  unfold dealloc, decomposition, BLOCK_BITS, BLOCK_SZ. change (512 * 8) with 4096.
  unfold nbits in Hi. replace (i mod 4096 mod 64) with (i mod 64) by zdiv.
  rewrite wrap_small, Z.add_comm by zdiv.
  assert (Hid : 0 <= start_block_id bm + i / 4096 < cap) by zdiv.
  pose proof (block_view s d h _ Hs Hid) as [Hl Hb].
  eapply wp_modify_block_as; [exact Hs|done|apply Hh; unfold in_bitmap; zdiv|done|done|done|].
  intros s1 Hs1. set (words := bb_words (at_block d (start_block_id bm + i / 4096) 0)) in *.
  assert (is_Some (words !! Z.to_nat (i mod 4096 / 64))) as [w Hw]
    by (apply lookup_lt_is_Some; rewrite Hl; zdiv).
  assert (Hwi : word_of d bm i = w) by (unfold word_of; fold words; by rewrite Hw).
  assert (Hwr : 0 <= w < 2 ^ 64) by (by eapply (Forall_lookup_1 _ _ _ _ Hb)).
  unfold bit_of in Hbit. rewrite Hwi in Hbit. wp_steps. eapply wp_index.
  { rewrite lookupZ_nat by zdiv. exact Hw. }
  assert (Hm : 0 <= i mod 64 < 64) by zdiv. rewrite shiftl_1_small by done. wp_steps.
  apply wp_assert; [by rewrite land_pow2_pos by lia|]. wp_steps. cbn [fst snd].
  assert (0 <= w - 2 ^ (i mod 64)) as Hge.
  { rewrite clear_bit_sub by (done || lia). rewrite Z.clearbit_spec'. apply Z.ldiff_nonneg. lia. }
  assert (0 < 2 ^ (i mod 64)) by (apply Z.pow_pos_nonneg; lia). rewrite wrap_small by lia.
  destruct (put_word_changes_bit s d h bm i (w - 2 ^ (i mod 64)) false words Hs) as [Hv Hch];
    [done|unfold nbits; lia|done|lia| |].
  { intros j. rewrite Hwi, clear_bit_sub by (done || lia).
    destruct (decide (j = i mod 64)) as [->|]; [by rewrite Z.clearbit_eq|].
    apply Z.clearbit_neq. lia. }
  split; [done|]. exists d. split; [done|]. intros s3 Hs3. eauto.
Qed.

Lemma dealloc_clear_bit s d h bm i :
  store_ok s d h → bm_wf cap bm → bm_free bm h → 0 <= i < nbits bm → bit_of d bm i = false →
  dealloc bm i s = Panic PAssert.
Proof.
  intros Hs Hbm [Hh Hsz] Hi Hbit. pose proof Hbm as (?&?&?&?).
  unfold dealloc, decomposition, BLOCK_BITS, BLOCK_SZ. change (512 * 8) with 4096.
  unfold nbits in Hi. replace (i mod 4096 mod 64) with (i mod 64) by zdiv.
  rewrite wrap_small, Z.add_comm by zdiv.
  assert (Hid : 0 <= start_block_id bm + i / 4096 < cap) by zdiv.
  pose proof (block_view s d h _ Hs Hid) as [Hl _].
  eapply modify_panics; [exact Hs|done|apply Hh; unfold in_bitmap; zdiv|done|done|done|].
  intros s1. set (words := bb_words (at_block d (start_block_id bm + i / 4096) 0)) in *.
  assert (is_Some (words !! Z.to_nat (i mod 4096 / 64))) as [w Hw]
    by (apply lookup_lt_is_Some; rewrite Hl; zdiv).
  unfold bit_of, word_of in Hbit. fold words in Hbit. rewrite Hw in Hbit. simpl in Hbit.
  apply panic_bind. eapply wp_index; [rewrite lookupZ_nat by zdiv; exact Hw|].
  rewrite shiftl_1_small by zdiv. apply panic_bind_l. rewrite land_pow2_pos by zdiv. by rewrite Hbit.
Qed.

(** [Bitmap::alloc] returns the lowest clear bit of the bitmap and sets
    exactly that bit, or returns [None] exactly when every bit is set, leaving
    the disk as it was; it never panics and touches no block outside the bitmap.
    A second allocation therefore never returns a number still in use. *)
Theorem bitmap_alloc_first_clear s d h bm :
  store_ok s d h → bm_wf cap bm → bm_free bm h →
  wp (alloc bm) (λ r s',
    match r with
    | Some i => ∃ d', store_ok s' d' h ∧ 0 <= i < maximum bm ∧ bit_of d bm i = false ∧
        (∀ j, 0 <= j < i → bit_of d bm j = true) ∧ bit_changed d d' bm i true
    | None => store_ok s' d h ∧ ∀ j, 0 <= j < maximum bm → bit_of d bm j = true
    end) s.
Proof.
  intros Hs Hbm Hfree. assert (maximum bm = nbits bm) as ->.
  { destruct Hbm as (?&?&?&?). unfold maximum, nbits, BLOCK_BITS, BLOCK_SZ. rewrite wrap_small; lia. }
  by apply wp_alloc.
Qed.

(** [Bitmap::dealloc] of a number in use clears exactly its bit and nothing
    else on the disk; of a number that is not in use it panics (the [assert!]),
    so a double free is always detected. *)
Theorem bitmap_dealloc_correct s d h bm i :
  store_ok s d h → bm_wf cap bm → bm_free bm h → 0 <= i < nbits bm →
  if bit_of d bm i
  then wp (dealloc bm i) (λ _ s', ∃ d', store_ok s' d' h ∧ bit_changed d d' bm i false) s
  else dealloc bm i s = Panic PAssert.
Proof.
  intros. destruct (bit_of d bm i) eqn:Hb; [by apply wp_dealloc|by eapply dealloc_clear_bit].
Qed.
End laws.

Abbreviation demo_store := (CacheState File).
Abbreviation demo_laws := (CacheState_laws (HDL := demo_file_laws)).

Lemma demo_store_ok :
  store_ok (BlockStoreLaws := demo_laws) (BlockCacheManager_new demo_file) (file_block demo_file) ∅.
Proof. apply (cache_ok_new (HDL := demo_file_laws)), demo_file_ok. Qed.

Lemma demo_bm_wf : bm_wf 4096 (Bitmap_new 1 1).
Proof. unfold bm_wf. simpl. lia. Qed.
Lemma demo_bm_free : bm_free (Bitmap_new 1 1) ∅.
Proof. split; [set_solver|]. rewrite size_empty. unfold BLOCK_CACHE_SIZE. lia. Qed.

Lemma bitmap_alloc_first_clear_witness :
  wp (alloc (Bitmap_new 1 1)) (λ r (_ : demo_store), r = Some 0)
    (BlockCacheManager_new demo_file).
Proof.
  eapply wp_mono.
  - apply (bitmap_alloc_first_clear (HL := demo_laws) _ (file_block demo_file) ∅).
    + exact demo_store_ok.
    + exact demo_bm_wf.
    + exact demo_bm_free.
  - assert (bit_of (file_block demo_file) (Bitmap_new 1 1) 0 = false) as H0 by (vm_compute; done).
    intros [i|] s.
    + intros (d' & _ & Hi & Hclear & Hall & _). destruct (decide (i = 0)) as [->|]; [done|].
      rewrite Hall in H0 by lia. done.
    + intros [_ Hall]. rewrite Hall in H0 by (vm_compute; done). done.
Defined.

Lemma bitmap_dealloc_correct_witness :
  dealloc (Bitmap_new 1 1) 7 (BlockCacheManager_new demo_file : demo_store) = Panic PAssert.
Proof.
  exact (bitmap_dealloc_correct (HL := demo_laws) _ _ ∅ _ 7
    demo_store_ok demo_bm_wf demo_bm_free ltac:(unfold nbits; simpl; lia)).
Defined.
