(* ===== verification/Layout.v ===== *)
(** * On-disk structures of easy-fs

    [easy-fs/src/layout.rs]: the super block, inodes with 28 direct, one indirect
    and one doubly indirect block, and directory entries; their operations; the
    bytes of a file as seen through its inode ([inode_block], [file_bytes]). *)

From S2P Require Import Prelude Codec BlockDev BlockCache.

Definition EFS_MAGIC : Z := 0x3b800001.
Definition INODE_DIRECT_COUNT : Z := 28.
Definition NAME_LENGTH_LIMIT : Z := 27.
Definition INODE_INDIRECT1_COUNT : Z := BLOCK_SZ / 4.
Definition INODE_INDIRECT2_COUNT : Z := INODE_INDIRECT1_COUNT * INODE_INDIRECT1_COUNT.
Definition DIRECT_BOUND : Z := INODE_DIRECT_COUNT.
Definition INDIRECT1_BOUND : Z := DIRECT_BOUND + INODE_INDIRECT1_COUNT.
Definition INDIRECT2_BOUND : Z := INDIRECT1_BOUND + INODE_INDIRECT2_COUNT.

(** Structures made of 32-bit words. *)
Definition words_valid (xs : list Z) : Prop := Forall (λ w, 0 <= w < 2 ^ 32) xs.
Definition word (n : nat) (ws : list Z) : Z := default 0 (ws !! n).

(** ** SuperBlock *)

Record SuperBlock := mkSuperBlock {
  magic : Z;
  sb_total_blocks : Z;
  inode_bitmap_blocks : Z;
  inode_area_blocks : Z;
  data_bitmap_blocks : Z;
  data_area_blocks : Z
}.

Definition sb_words (x : SuperBlock) : list Z :=
  [magic x; sb_total_blocks x; inode_bitmap_blocks x; inode_area_blocks x;
   data_bitmap_blocks x; data_area_blocks x].

#[export] Instance SuperBlock_repr : Repr SuperBlock := {|
  size_of := 24;
  encode x := encode_words 4 (sb_words x);
  decode bs := let w := decode_words 4 6 bs in
    mkSuperBlock (word 0 w) (word 1 w) (word 2 w) (word 3 w) (word 4 w) (word 5 w);
  valid x := words_valid (sb_words x)
|}.

Definition SuperBlock_initialize (total inode_bitmap inode_area data_bitmap data_area : Z) : SuperBlock :=
  mkSuperBlock EFS_MAGIC total inode_bitmap inode_area data_bitmap data_area.
Definition is_valid (x : SuperBlock) : bool := magic x =? EFS_MAGIC.

(** ** DiskInode *)

(** [DiskInodeType]: the discriminant byte. *)
Definition TFile : Z := 0.
Definition TDirectory : Z := 1.

(** The last field is the padding of the [repr(C)] structure. *)
Record DiskInode := mkDiskInode {
  di_size : Z;
  direct : list Z;
  indirect1 : Z;
  indirect2 : Z;
  type_ : Z;
  di_pad : list Z
}.

Definition di_words (x : DiskInode) : list Z :=
  di_size x :: direct x ++ [indirect1 x; indirect2 x].

#[export] Instance DiskInode_repr : Repr DiskInode := {|
  size_of := 128;
  encode x := encode_words 4 (di_words x) ++ type_ x :: di_pad x;
  decode bs := let w := decode_words 4 31 bs in
    mkDiskInode (word 0 w) (take 28 (drop 1 w)) (word 29 w) (word 30 w)
      (default 0 (bs !! 124%nat)) (drop 125 bs);
  valid x := length (direct x) = 28%nat ∧ words_valid (di_words x) ∧
    is_byte (type_ x) ∧ length (di_pad x) = 3%nat ∧ Forall is_byte (di_pad x)
|}.

Definition set_size (n : Z) (x : DiskInode) : DiskInode :=
  mkDiskInode n (direct x) (indirect1 x) (indirect2 x) (type_ x) (di_pad x).
Definition set_direct (l : list Z) (x : DiskInode) : DiskInode :=
  mkDiskInode (di_size x) l (indirect1 x) (indirect2 x) (type_ x) (di_pad x).
Definition set_indirect1 (b : Z) (x : DiskInode) : DiskInode :=
  mkDiskInode (di_size x) (direct x) b (indirect2 x) (type_ x) (di_pad x).
Definition set_indirect2 (b : Z) (x : DiskInode) : DiskInode :=
  mkDiskInode (di_size x) (direct x) (indirect1 x) b (type_ x) (di_pad x).

Definition DiskInode_initialize (t : Z) (x : DiskInode) : DiskInode :=
  mkDiskInode 0 ((λ _, 0) <$> direct x) 0 0 t (di_pad x).
Definition is_dir (x : DiskInode) : bool := type_ x =? TDirectory.
Definition is_file (x : DiskInode) : bool := type_ x =? TFile.

Definition _data_blocks (size : Z) : Z := wrap32 (wrap32 (size + BLOCK_SZ) - 1) / BLOCK_SZ.
Definition data_blocks (x : DiskInode) : Z := _data_blocks (di_size x).

Definition total_blocks (size : Z) : Z :=
  let n := _data_blocks size in
  let total := n in
  let total := if INODE_DIRECT_COUNT <? n then total + 1 else total in
  let total :=
    if INDIRECT1_BOUND <? n then
      total + 1 + (n - INDIRECT1_BOUND + INODE_INDIRECT1_COUNT - 1) / INODE_INDIRECT1_COUNT
    else total in
  wrap32 total.

Section inode.
Context {St : Type} `{HS : BlockStore St}.

Definition blocks_num_needed (x : DiskInode) (new_size : Z) : M St Z :=
  _ ← assert_ (di_size x <=? new_size);
  mret (wrap32 (total_blocks new_size - total_blocks (di_size x))).

Definition get_block_id (x : DiskInode) (inner_id : Z) : M St Z :=
  if inner_id <? INODE_DIRECT_COUNT then index (direct x) inner_id
  else if inner_id <? INDIRECT1_BOUND then
    read_block_as (indirect1 x) 0 (λ b, index (ib_words b) (inner_id - INODE_DIRECT_COUNT))
  else
    let last := inner_id - INDIRECT1_BOUND in
    indirect1 ← read_block_as (indirect2 x) 0 (λ b, index (ib_words b) (last / INODE_INDIRECT1_COUNT));
    read_block_as indirect1 0 (λ b, index (ib_words b) (last mod INODE_INDIRECT1_COUNT)).

(** [new_blocks.next().unwrap()]: the block and the rest of the iterator. *)
Definition next (new_blocks : list Z) : M St (Z * list Z) :=
  match new_blocks with
  | b :: rest => mret (b, rest)
  | [] => panic_with PUnwrap
  end.

(** [arr\[i\] = b]. *)
Definition set_index (arr : list Z) (i b : Z) : M St (list Z) :=
  _ ← index arr i;
  mret (insertZ i b arr).

(** [while current < bound { arr\[current\] = new_blocks.next().unwrap(); current += 1 }]:
    the array, the iterator and [current] afterwards. *)
Definition fill (arr new_blocks : list Z) (current bound : Z) : M St (list Z * list Z * Z) :=
  r ← fold_m (λ r i,
        n ← next (snd r);
        arr' ← set_index (fst r) i (fst n);
        mret (arr', snd n)) (arr, new_blocks) (seqZ current (bound - current));
  mret (r, Z.max current bound).

(** [if b0 == 0 { indirect2\[a0\] = new_blocks.next().unwrap() }]. *)
Definition alloc_sub (ind2 new_blocks : list Z) (a0 b0 : Z) : M St (list Z * list Z) :=
  if b0 =? 0 then
    n ← next new_blocks;
    ind2' ← set_index ind2 a0 (fst n);
    mret (ind2', snd n)
  else mret (ind2, new_blocks).

(** Fill the current entry; returns the rest of the iterator. *)
Definition fill_entry (id b0 : Z) (new_blocks : list Z) : M St (list Z) :=
  modify_block_as id 0 (λ ind1 : IndirectBlock,
    n ← next new_blocks;
    ws ← set_index (ib_words ind1) b0 (fst n);
    mret (snd n, mkIndirectBlock ws)).

(** The loop over the doubly indirect blocks; [fuel] counts the data blocks left. *)
Fixpoint fill2 (fuel : nat) (ind2 : list Z) (new_blocks : list Z) (a0 b0 a1 b1 : Z) : M St (list Z) :=
  if (a0 <? a1) || ((a0 =? a1) && (b0 <? b1)) then
    match fuel with
    | O => panic_with PDeadlock
    | S fuel =>
        r ← alloc_sub ind2 new_blocks a0 b0;
        id ← index (fst r) a0;
        rest ← fill_entry id b0 (snd r);
        let b0 := b0 + 1 in
        if b0 =? INODE_INDIRECT1_COUNT then fill2 fuel (fst r) rest (a0 + 1) 0 a1 b1
        else fill2 fuel (fst r) rest a0 b0 a1 b1
    end
  else mret ind2.

(** The part of [increase_size] from "alloc indirect2" on. *)
Definition grow_indirect2 (x : DiskInode) (new_blocks : list Z) (current_blocks total_blocks : Z) :
    M St DiskInode :=
  r ← (if current_blocks =? INODE_INDIRECT1_COUNT then
         n ← next new_blocks; mret (set_indirect2 (fst n) x, snd n)
       else mret (x, new_blocks));
  let '(x, new_blocks) := r in
  let current_blocks := wrap32 (current_blocks - INODE_INDIRECT1_COUNT) in
  let total_blocks := wrap32 (total_blocks - INODE_INDIRECT1_COUNT) in
  (* fill indirect2 from (a0, b0) -> (a1, b1) *)
  let a0 := current_blocks / INODE_INDIRECT1_COUNT in
  let b0 := current_blocks mod INODE_INDIRECT1_COUNT in
  let a1 := total_blocks / INODE_INDIRECT1_COUNT in
  let b1 := total_blocks mod INODE_INDIRECT1_COUNT in
  _ ← modify_block_as (indirect2 x) 0 (λ b : IndirectBlock,
        ws ← fill2 (Z.to_nat (total_blocks - current_blocks)) (ib_words b) new_blocks a0 b0 a1 b1;
        mret (tt, mkIndirectBlock ws));
  mret x.

(** The part from "alloc indirect1" on. *)
Definition grow_indirect1 (x : DiskInode) (new_blocks : list Z) (current_blocks total_blocks : Z) :
    M St DiskInode :=
  r ← (if current_blocks =? INODE_DIRECT_COUNT then
         n ← next new_blocks; mret (set_indirect1 (fst n) x, snd n)
       else mret (x, new_blocks));
  let '(x, new_blocks) := r in
  let current_blocks := wrap32 (current_blocks - INODE_DIRECT_COUNT) in
  let total_blocks := wrap32 (total_blocks - INODE_DIRECT_COUNT) in
  (* fill indirect1 *)
  r ← modify_block_as (indirect1 x) 0 (λ b : IndirectBlock,
        r ← fill (ib_words b) new_blocks current_blocks (Z.min total_blocks INODE_INDIRECT1_COUNT);
        let '(ws, new_blocks, current_blocks) := r in
        mret (new_blocks, current_blocks, mkIndirectBlock ws));
  let '(new_blocks, current_blocks) := r in
  if total_blocks <=? INODE_INDIRECT1_COUNT then mret x
  else grow_indirect2 x new_blocks current_blocks total_blocks.

Definition increase_size (new_size : Z) (new_blocks : list Z) (x : DiskInode) : M St DiskInode :=
  let current_blocks := data_blocks x in
  let x := set_size new_size x in
  let total_blocks := data_blocks x in
  (* fill direct *)
  r ← fill (direct x) new_blocks current_blocks (Z.min total_blocks INODE_DIRECT_COUNT);
  let '(dir, new_blocks, current_blocks) := r in
  let x := set_direct dir x in
  if total_blocks <=? INODE_DIRECT_COUNT then mret x
  else grow_indirect1 x new_blocks current_blocks total_blocks.

(** [while current < bound { v.push(arr\[current\]); current += 1 }]. *)
Definition push_all (v arr : list Z) (bound : Z) : M St (list Z) :=
  fold_m (λ v i, x ← index arr i; mret (v ++ [x])) v (seqZ 0 bound).

(** The part of [clear_size] from "indirect2 block" on; [v] are the blocks
    collected so far. *)
Definition clear_indirect2 (v : list Z) (x : DiskInode) (n : Z) : M St (list Z * DiskInode) :=
  let v := v ++ [indirect2 x] in
  let n := n - INODE_INDIRECT1_COUNT in
  (* indirect2 *)
  _ ← assert_ (n <=? INODE_INDIRECT2_COUNT);
  let a1 := n / INODE_INDIRECT1_COUNT in
  let b1 := n mod INODE_INDIRECT1_COUNT in
  v ← modify_block_as (indirect2 x) 0 (λ b : IndirectBlock,
        v ← (* full indirect1 blocks *)
            (v ← fold_m (λ v entry,
                   modify_block_as entry 0 (λ ind1 : IndirectBlock,
                     mret (v ++ [entry] ++ ib_words ind1, ind1)))
                   v (take (Z.to_nat a1) (ib_words b));
             (* last indirect1 block *)
             if 0 <? b1 then
               entry ← index (ib_words b) a1;
               modify_block_as entry 0 (λ ind1 : IndirectBlock,
                 mret (v ++ [entry] ++ take (Z.to_nat b1) (ib_words ind1), ind1))
             else mret v);
        mret (v, b));
  mret (v, set_indirect2 0 x).

(** The part from "indirect1 block" on. *)
Definition clear_indirect1 (v : list Z) (x : DiskInode) (n : Z) : M St (list Z * DiskInode) :=
  let v := v ++ [indirect1 x] in
  let n := n - INODE_DIRECT_COUNT in
  (* indirect1 *)
  v ← modify_block_as (indirect1 x) 0 (λ b : IndirectBlock,
        v ← push_all v (ib_words b) (Z.min n INODE_INDIRECT1_COUNT);
        mret (v, b));
  let x := set_indirect1 0 x in
  if n <=? INODE_INDIRECT1_COUNT then mret (v, x) else clear_indirect2 v x n.

(** Returns the blocks to deallocate and the inode. *)
Definition clear_size (x : DiskInode) : M St (list Z * DiskInode) :=
  let n := data_blocks x in
  let x := set_size 0 x in
  (* direct *)
  r ← fold_m (λ r i,
        b ← index (snd r) i;
        dir ← set_index (snd r) i 0;
        mret (fst r ++ [b], dir)) ([], direct x) (seqZ 0 (Z.min n INODE_DIRECT_COUNT));
  let '(v, dir) := r in
  let x := set_direct dir x in
  if n <=? INODE_DIRECT_COUNT then mret (v, x) else clear_indirect1 v x n.

(** [&l\[a..b\]]. *)
Definition slice (l : list Z) (a b : Z) : M St (list Z) :=
  if (a <=? b) && (b <=? lengthZ l) then mret (take (Z.to_nat (b - a)) (drop (Z.to_nat a) l))
  else panic_with PIndex.

(** The loop of [read_at]; the buffer and the number of bytes read. *)
Fixpoint read_loop (fuel : nat) (x : DiskInode) (end_ start start_block read_size : Z) (buf : list Z) :
    M St (list Z * Z) :=
  match fuel with
  | O => panic_with PDeadlock
  | S fuel =>
      let end_current_block := Z.min (wrap64 ((start / BLOCK_SZ + 1) * BLOCK_SZ)) end_ in
      let block_read_size := wrap64 (end_current_block - start) in
      _ ← slice buf read_size (read_size + block_read_size);
      id ← get_block_id x (wrap32 start_block);
      src ← read_block_as id 0 (λ b : DataBlock,
              slice (db_bytes b) (start mod BLOCK_SZ) (start mod BLOCK_SZ + block_read_size));
      let buf := splice buf (Z.to_nat read_size) src in
      let read_size := read_size + block_read_size in
      if end_current_block =? end_ then mret (buf, read_size)
      else read_loop fuel x end_ end_current_block (start_block + 1) read_size buf
  end.

Definition DiskInode_read_at (x : DiskInode) (offset : Z) (buf : list Z) : M St (list Z * Z) :=
  let end_ := Z.min (wrap64 (offset + lengthZ buf)) (di_size x) in
  if end_ <=? offset then mret (buf, 0)
  else read_loop (Z.to_nat (end_ / BLOCK_SZ - offset / BLOCK_SZ + 1)) x end_ offset (offset / BLOCK_SZ) 0 buf.

Fixpoint write_loop (fuel : nat) (x : DiskInode) (end_ start start_block write_size : Z) (buf : list Z) :
    M St Z :=
  match fuel with
  | O => panic_with PDeadlock
  | S fuel =>
      let end_current_block := Z.min (wrap64 ((start / BLOCK_SZ + 1) * BLOCK_SZ)) end_ in
      let block_write_size := wrap64 (end_current_block - start) in
      id ← get_block_id x (wrap32 start_block);
      _ ← modify_block_as id 0 (λ b : DataBlock,
            src ← slice buf write_size (write_size + block_write_size);
            _ ← slice (db_bytes b) (start mod BLOCK_SZ) (start mod BLOCK_SZ + block_write_size);
            mret (tt, mkDataBlock (splice (db_bytes b) (Z.to_nat (start mod BLOCK_SZ)) src)));
      let write_size := write_size + block_write_size in
      if end_current_block =? end_ then mret write_size
      else write_loop fuel x end_ end_current_block (start_block + 1) write_size buf
  end.

(** The file size must be adjusted before. *)
Definition DiskInode_write_at (x : DiskInode) (offset : Z) (buf : list Z) : M St Z :=
  let end_ := Z.min (wrap64 (offset + lengthZ buf)) (di_size x) in
  _ ← assert_ (offset <=? end_);
  write_loop (Z.to_nat (end_ / BLOCK_SZ - offset / BLOCK_SZ + 1)) x end_ offset (offset / BLOCK_SZ) 0 buf.
End inode.

(** ** DirEntry *)

Record DirEntry := mkDirEntry {
  de_name : list Z;
  de_inode_number : Z
}.
Definition DIRENT_SZ : Z := 32.

#[export] Instance DirEntry_repr : Repr DirEntry := {|
  size_of := 32;
  encode x := de_name x ++ encode_words 4 [de_inode_number x];
  decode bs := mkDirEntry (take 28 bs) (word 0 (decode_words 4 1 (drop 28 bs)));
  valid x := length (de_name x) = 28%nat ∧ Forall is_byte (de_name x) ∧
    0 <= de_inode_number x < 2 ^ 32
|}.

Definition DirEntry_empty : DirEntry := mkDirEntry (replicate 28 0) 0.

(** [bytes\[..name.len()\]] panics when the name has more than 28 bytes. *)
Definition DirEntry_new (name : list Z) (inode_number : Z) : result DirEntry :=
  if lengthZ name <=? NAME_LENGTH_LIMIT + 1 then
    Ok (mkDirEntry (splice (replicate 28 0) 0 name) inode_number)
  else Panic PIndex.

Definition as_bytes (x : DirEntry) : list Z := encode x.

(** [core::str::from_utf8(..).is_ok()]: well-formed UTF-8. *)
Definition in_range (lo hi b : Z) : bool := (lo <=? b) && (b <=? hi).
Abbreviation cont := (in_range 0x80 0xBF).
Fixpoint from_utf8 (bs : list Z) : bool :=
  match bs with
  | [] => true
  | b0 :: r1 =>
      if b0 <? 0x80 then from_utf8 r1 else
      match r1 with
      | [] => false
      | b1 :: r2 =>
          if in_range 0xC2 0xDF b0 then cont b1 && from_utf8 r2 else
          match r2 with
          | [] => false
          | b2 :: r3 =>
              if (b0 =? 0xE0) && in_range 0xA0 0xBF b1 || (b0 =? 0xED) && in_range 0x80 0x9F b1 ||
                 (in_range 0xE1 0xEC b0 || in_range 0xEE 0xEF b0) && cont b1
              then cont b2 && from_utf8 r3 else
              match r3 with
              | [] => false
              | b3 :: r4 =>
                  ((b0 =? 0xF0) && in_range 0x90 0xBF b1 || (b0 =? 0xF4) && in_range 0x80 0x8F b1 ||
                   in_range 0xF1 0xF3 b0 && cont b1) && cont b2 && cont b3 && from_utf8 r4
              end
          end
      end
  end.

(** [name]: the bytes before the first 0; a name without one makes the index
    [self.name\[28\]] panic. *)
Definition DirEntry_name (x : DirEntry) : result (list Z) :=
  match find_index (λ b, b =? 0) (de_name x) with
  | Some len => let s := take len (de_name x) in if from_utf8 s then Ok s else Panic PUnwrap
  | None => Panic PIndex
  end.
Definition inode_number (x : DirEntry) : Z := de_inode_number x.

(** ** Layouts *)

Lemma word_eta n (ws : list Z) : (n < length ws)%nat → ws !! n = Some (word n ws).
Proof. intros H. unfold word. apply lookup_lt_is_Some in H as [x ->]. done. Qed.

#[export] Instance SuperBlock_laws : ReprLaws SuperBlock.
Proof.
  split; cbn [size_of encode decode valid SuperBlock_repr].
  - lia.
  - intros x _. by rewrite length_encode_words.
  - intros. apply encode_words_byte.
  - intros x Hv. rewrite <- (app_nil_r (encode_words 4 (sb_words x))).
    rewrite (decode_encode_words 4 (sb_words x)) by done. by destruct x.
  - intros bs Hl Hb. transitivity (encode_words 4 (decode_words 4 6 bs)).
    + done.
    + rewrite encode_decode_words by (done || rewrite Hl; done). by rewrite take_ge by (rewrite Hl; done).
  - intros bs Hl Hb. unfold sb_words, words_valid. simpl.
    pose proof (decode_words_bound 4 6 bs ltac:(rewrite Hl; done) Hb) as Hw.
    assert (length (decode_words 4 6 bs) = 6%nat) by apply length_decode_words.
    by destruct (decode_words 4 6 bs) as [|? [|? [|? [|? [|? [|? [|]]]]]]].
Qed.

Lemma di_words_split (ws : list Z) :
  length ws = 31%nat → word 0 ws :: take 28 (drop 1 ws) ++ [word 29 ws; word 30 ws] = ws.
Proof.
  intros Hl. destruct ws as [|w0 ws]; [done|]. unfold word. simpl. rewrite drop_0. f_equal.
  rewrite <- (take_drop 28 ws) at 4. f_equal. simpl in Hl.
  assert (Hd : length (drop 28 ws) = 2%nat) by (rewrite length_drop; lia).
  assert (ws !! 28%nat = drop 28 ws !! 0%nat) as -> by (by rewrite lookup_drop).
  assert (ws !! 29%nat = drop 28 ws !! 1%nat) as -> by (by rewrite lookup_drop).
  by destruct (drop 28 ws) as [|? [|? [|]]].
Qed.

#[export] Instance DiskInode_laws : ReprLaws DiskInode.
Proof.
  assert (Hlen : ∀ x : DiskInode, length (direct x) = 28%nat → length (di_words x) = 31%nat).
  { intros x Hd. unfold di_words. simpl. rewrite length_app, Hd. done. }
  split; cbn [size_of encode decode valid DiskInode_repr].
  - lia.
  - intros x (Hd & Hw & Ht & Hp & Hpb). rewrite length_app, length_encode_words, (Hlen x Hd). simpl. lia.
  - intros x (Hd & Hw & Ht & Hp & Hpb). apply Forall_app. split; [apply encode_words_byte|by constructor].
  - intros x (Hd & Hw & Ht & Hp & Hpb).
    assert (Henc : length (encode_words 4 (di_words x)) = 124%nat)
      by (rewrite length_encode_words, (Hlen x Hd); done).
    assert (decode_words 4 31 (encode_words 4 (di_words x) ++ type_ x :: di_pad x) = di_words x) as ->.
    { rewrite <- (Hlen x Hd). by apply decode_encode_words. }
    generalize dependent (encode_words 4 (di_words x)). intros E HE.
    rewrite lookup_app_r, (drop_app_ge E) by lia. rewrite HE. simpl. rewrite drop_0.
    destruct x as [sz dir i1 i2 t p]. unfold di_words, word. simpl in *. rewrite drop_0. f_equal.
    + by rewrite take_app_length'.
    + by rewrite lookup_app_r, Hd by lia.
    + by rewrite lookup_app_r, Hd by lia.
  - intros bs Hl Hb. unfold di_words. cbn [di_size direct indirect1 indirect2].
    rewrite di_words_split by apply length_decode_words.
    rewrite encode_decode_words by (done || rewrite Hl; lia).
    transitivity (take 124 bs ++ drop 124 bs); [f_equal|apply take_drop].
    assert (is_Some (bs !! 124%nat)) as [t Ht] by (apply lookup_lt_is_Some; lia).
    rewrite Ht. simpl. symmetry. by apply drop_S.
  - intros bs Hl Hb. cbn [direct type_ di_pad]. split_and!.
    + rewrite length_take, length_drop, length_decode_words. done.
    + unfold di_words. cbn [di_size direct indirect1 indirect2].
    rewrite di_words_split by apply length_decode_words.
      apply (decode_words_bound 4 31); [rewrite Hl; lia|done].
    + assert (is_Some (bs !! 124%nat)) as [t Ht] by (apply lookup_lt_is_Some; lia).
      rewrite Ht. simpl. by eapply (Forall_lookup_1 _ _ _ _ Hb).
    + rewrite length_drop, Hl. done.
    + by apply Forall_drop.
Qed.

#[export] Instance DirEntry_laws : ReprLaws DirEntry.
Proof.
  split; cbn [size_of encode decode valid DirEntry_repr].
  - lia.
  - intros x (Hl & _ & _). rewrite length_app, length_encode_words, Hl. done.
  - intros x (_ & Hb & _). apply Forall_app. split; [done|apply encode_words_byte].
  - intros x (Hl & _ & Hn). rewrite take_app_length', drop_app_length' by done.
    rewrite <- (app_nil_r (encode_words 4 [de_inode_number x])).
    rewrite (decode_encode_words 4 [de_inode_number x]) by (repeat constructor; apply Hn).
    by destruct x.
  - intros bs Hl Hb. cbn [de_name de_inode_number].
    transitivity (take 28 bs ++ drop 28 bs); [f_equal|apply take_drop].
    transitivity (encode_words 4 (decode_words 4 1 (drop 28 bs))).
    + done.
    + rewrite encode_decode_words; [|by apply Forall_drop|rewrite length_drop, Hl; done].
      by rewrite take_ge by (rewrite length_drop, Hl; done).
  - intros bs Hl Hb. cbn [de_name de_inode_number]. split_and!.
    + rewrite length_take, Hl. done.
    + by apply Forall_take.
    + apply le_value_bound. by apply Forall_take, Forall_drop.
    + pose proof (le_value_bound (take 4 (drop 28 bs)) ltac:(by apply Forall_take, Forall_drop)) as Hv.
      rewrite length_take, length_drop, Hl in Hv. apply Hv.
Qed.

(** ** The blocks of an inode

    [inode_block d x k] is the block of the [k]-th 512 bytes of the file,
    [inode_meta d x n] the indirect blocks of a file of [n] data blocks. *)

Definition ind_words (d : disk) (b : Z) : list Z := ib_words (at_block d b 0).

Definition inode_block (d : disk) (x : DiskInode) (k : Z) : Z :=
  if k <? 28 then word (Z.to_nat k) (direct x)
  else if k <? 156 then word (Z.to_nat (k - 28)) (ind_words d (indirect1 x))
  else word (Z.to_nat ((k - 156) mod 128))
         (ind_words d (word (Z.to_nat ((k - 156) / 128)) (ind_words d (indirect2 x)))).

(** Number of second-level indirect blocks. *)
Definition nsub (n : Z) : Z := (n - 156 + 127) / 128.

Definition inode_meta (d : disk) (x : DiskInode) (n : Z) : list Z :=
  (if 28 <? n then [indirect1 x] else []) ++
  (if 156 <? n then indirect2 x :: take (Z.to_nat (nsub n)) (ind_words d (indirect2 x)) else []).
Definition inode_data (d : disk) (x : DiskInode) (n : Z) : list Z := inode_block d x <$> seqZ 0 n.

(** The [i]-th byte of the file. *)
Definition file_byte (d : disk) (x : DiskInode) (i : Z) : Z :=
  default 0 (d (inode_block d x (i / 512)) !! Z.to_nat (i mod 512)).

Ltac unfold_layout :=
  unfold INDIRECT2_BOUND, INDIRECT1_BOUND, DIRECT_BOUND, INODE_INDIRECT2_COUNT,
    INODE_INDIRECT1_COUNT, INODE_DIRECT_COUNT, BLOCK_SZ in *;
  change (512 / 4) with 128 in *; change (28 + 128) with 156 in *.

Section views.
Context {St : Type} {cap : Z} `{HS : BlockStore St} `{HL : !BlockStoreLaws St cap}.

Lemma at_valid {T} `{Repr T} `{!ReprLaws T} (s : St) d h id offset :
  store_ok s d h → 0 <= id < cap → 0 <= offset → offset + Z.of_nat (size_of T) <= BLOCK_SZ →
  valid (at_block d id offset : T).
Proof.
  intros Hs Hid H0 Hoff. pose proof (store_wf s d h id Hs Hid) as [Hl Hb]. unfold BLOCK_SZ in Hoff.
  apply decode_valid; [rewrite length_take, length_drop, Hl; lia|by apply Forall_take, Forall_drop].
Qed.

Lemma ind_length (s : St) d h id : store_ok s d h → 0 <= id < cap → length (ind_words d id) = 128%nat.
Proof. intros Hs Hid. by destruct (at_valid (T := IndirectBlock) s d h id 0 Hs Hid). Qed.

(** A word of an indirect block. *)
Lemma wp_read_ind s d h id i (Q : Z → St → Prop) :
  store_ok s d h → 0 <= id < cap → id ∉ h → (size h < BLOCK_CACHE_SIZE)%nat → 0 <= i < 128 →
  (∀ s', store_ok s' d h → Q (word (Z.to_nat i) (ind_words d id)) s') →
  wp (read_block_as id 0 (λ b, index (ib_words b) i)) Q s.
Proof.
  intros Hs Hid Hh Hsz Hi HQ. eapply wp_read_block_as; [done..|]. intros s1 Hs1.
  eapply wp_index.
  - rewrite lookupZ_nat by lia. apply word_eta. fold (ind_words d id).
    rewrite (ind_length s d h id Hs Hid). lia.
  - exists d. split; [done|exact HQ].
Qed.

(** Blocks the caller can take: on the device, and not held. *)
Definition takeable (h : gset Z) (b : Z) : Prop := 0 <= b < cap ∧ b ∉ h.

Lemma meta_elem d x n b :
  b ∈ inode_meta d x n ↔
  (28 < n ∧ b = indirect1 x) ∨ (156 < n ∧ b = indirect2 x) ∨
  (156 < n ∧ b ∈ take (Z.to_nat (nsub n)) (ind_words d (indirect2 x))).
Proof.
  unfold inode_meta. destruct (Z.ltb_spec 28 n), (Z.ltb_spec 156 n);
    rewrite elem_of_app, ?elem_of_cons, ?elem_of_nil; naive_solver lia.
Qed.

Lemma meta_sub (s : St) d h x n a :
  store_ok s d h → 0 <= indirect2 x < cap → 156 < n <= 16540 → 0 <= a < nsub n →
  word (Z.to_nat a) (ind_words d (indirect2 x)) ∈ inode_meta d x n.
Proof.
  intros Hs Hi2 Hn Ha. apply meta_elem. right; right. split; [lia|].
  apply list_elem_of_lookup. exists (Z.to_nat a). rewrite lookup_take_lt by lia. apply word_eta.
  rewrite (ind_length s d h _ Hs Hi2). unfold nsub in Ha. zdiv.
Qed.

(** [get_block_id] follows the tree. *)
Lemma wp_get_block_id s d h x n k (Q : Z → St → Prop) :
  store_ok s d h → (size h < BLOCK_CACHE_SIZE)%nat → length (direct x) = 28%nat →
  Forall (takeable h) (inode_meta d x n) → 0 <= k < n → n <= INDIRECT2_BOUND →
  (∀ s', store_ok s' d h → Q (inode_block d x k) s') →
  wp (get_block_id x k) Q s.
Proof.
  intros Hs Hsz Hdir Hmeta Hk Hn. unfold get_block_id, inode_block. unfold_layout.
  rewrite Forall_forall in Hmeta.
  destruct (Z.ltb_spec k 28); intros HQ.
  { eapply wp_index; [|by apply HQ]. rewrite lookupZ_nat by lia. apply word_eta. lia. }
  destruct (Z.ltb_spec k 156).
  { destruct (Hmeta (indirect1 x)) as [? ?]; [apply meta_elem; left; split; [lia|done]|].
    apply (wp_read_ind s d h); [done..|lia|done]. }
  destruct (Hmeta (indirect2 x)) as [Hr2 ?]; [apply meta_elem; right; left; split; [lia|done]|].
  wp_steps. apply (wp_read_ind s d h); [done..|zdiv|]. intros s1 Hs1.
  destruct (Hmeta (word (Z.to_nat ((k - 156) / 128)) (ind_words d (indirect2 x)))) as [? ?].
  { apply (meta_sub s d h x n); [done|done|lia|]. unfold nsub. zdiv. }
  apply (wp_read_ind s1 d h); [done..|zdiv|done].
Qed.

(** ** Reading *)

Lemma splice_app bs off a b :
  (off + length a <= length bs)%nat →
  splice (splice bs off a) (off + length a) b = splice bs off (a ++ b).
Proof.
  intros Hl. unfold splice. rewrite length_app.
  rewrite take_app_ge, (drop_app_ge (take off bs)) by (rewrite ?length_take; lia).
  rewrite !length_take. replace (off `min` length bs)%nat with off by lia.
  replace (off + length a - off)%nat with (length a) by lia.
  rewrite take_app_length. rewrite drop_app_ge by lia. rewrite drop_drop, <- !app_assoc.
  do 4 f_equal. lia.
Qed.

Lemma length_splice bs off a : (off + length a <= length bs)%nat → length (splice bs off a) = length bs.
Proof. intros. unfold splice. rewrite !length_app, length_take, length_drop. lia. Qed.

(** The end of the current block, and the bytes before it. *)
Lemma block_step start end_ :
  0 <= start < end_ → end_ < 2 ^ 63 →
  let e := Z.min (wrap64 ((start / BLOCK_SZ + 1) * BLOCK_SZ)) end_ in
  start < e <= end_ ∧ wrap64 (e - start) = e - start ∧ start mod 512 + (e - start) <= 512 ∧
  (e < end_ → e / 512 = start / 512 + 1 ∧ e mod 512 = 0).
Proof. unfold BLOCK_SZ. intros Hs He. cbn zeta. rewrite !wrap_small by zdiv. zdiv. Qed.

Lemma block_bytes_eq d x start m :
  0 <= start → 0 <= m → start mod 512 + m <= 512 →
  length (d (inode_block d x (start / 512))) = 512%nat →
  take (Z.to_nat m) (drop (Z.to_nat (start mod 512)) (d (inode_block d x (start / 512)))) =
  file_byte d x <$> seqZ start m.
Proof.
  intros Hs Hm Hfit Hl. apply list_eq. intros i. rewrite list_lookup_fmap.
  destruct (decide (Z.of_nat i < m)) as [Hi|Hi].
  - assert (seqZ start m !! i = Some (start + Z.of_nat i)) as -> by (apply lookup_seqZ; lia). simpl.
    rewrite lookup_take_lt, lookup_drop by lia. unfold file_byte.
    replace ((start + Z.of_nat i) / 512) with (start / 512) by zdiv.
    replace (Z.to_nat ((start + Z.of_nat i) mod 512)) with (Z.to_nat (start mod 512) + i)%nat by zdiv.
    assert (is_Some (d (inode_block d x (start / 512)) !! (Z.to_nat (start mod 512) + i)%nat)) as [v ->]; [|done].
    apply lookup_lt_is_Some. zdiv.
  - rewrite lookup_take_ge by lia. assert (seqZ start m !! i = None) as -> by (apply lookup_seqZ_ge; lia).
    done.
Qed.

(** Every block of the file can be taken. *)
Definition inode_takeable (d : disk) (h : gset Z) (x : DiskInode) (n : Z) : Prop :=
  length (direct x) = 28%nat ∧ n <= INDIRECT2_BOUND ∧
  Forall (takeable h) (inode_meta d x n) ∧ Forall (takeable h) (inode_data d x n).

Lemma data_takeable d h x n k :
  inode_takeable d h x n → 0 <= k < n → takeable h (inode_block d x k).
Proof.
  intros (_ & _ & _ & Hd) Hk. rewrite Forall_forall in Hd. apply Hd. unfold inode_data.
  apply list_elem_of_fmap_2. apply elem_of_seqZ. lia.
Qed.

Lemma wp_slice (l : list Z) a b (Q : list Z → St → Prop) s :
  0 <= a <= b → b <= lengthZ l → Q (take (Z.to_nat (b - a)) (drop (Z.to_nat a) l)) s →
  wp (slice l a b) Q s.
Proof.
  intros Ha Hb HQ. unfold slice. destruct (Z.leb_spec a b), (Z.leb_spec b (lengthZ l)); try lia. done.
Qed.

Lemma wp_read_loop s d h x n end_ fuel start rs buf :
  store_ok s d h → (size h < BLOCK_CACHE_SIZE)%nat → inode_takeable d h x n →
  end_ <= 512 * n → 0 <= start < end_ → 0 <= rs → rs + (end_ - start) <= lengthZ buf →
  (Z.to_nat (end_ / 512 - start / 512 + 1) <= fuel)%nat →
  wp (read_loop fuel x end_ start (start / 512) rs buf)
    (λ r s', store_ok s' d h ∧
       r = (splice buf (Z.to_nat rs) (file_byte d x <$> seqZ start (end_ - start)), rs + (end_ - start))) s.
Proof.
  intros Hs Hsz Hx Hend. revert s Hs start rs buf.
  pose proof Hx as (Hdir & Hn & Hmeta & _). unfold_layout.
  induction fuel as [|fuel IH]; intros s Hs start rs buf Hst Hrs Hbuf Hfuel; [zdiv|].
  cbn [read_loop]. destruct (block_step start end_ Hst ltac:(lia)) as (He & Hw & Hfit & Hnext).
  set (e := Z.min _ end_) in *. rewrite Hw. unfold BLOCK_SZ. wp_steps. apply wp_slice; [lia..|].
  rewrite wrap_small by zdiv. wp_steps.
  eapply wp_get_block_id; [done|done|done|done|zdiv|done|]. intros s1 Hs1. wp_steps.
  destruct (data_takeable d h x n (start / 512) Hx ltac:(zdiv)) as [Hb1 Hb2].
  pose proof (store_wf s1 d h _ Hs1 Hb1) as [Hlen _].
  eapply wp_read_block_as; [exact Hs1|done|done|done|done|done|]. intros s2 Hs2.
  assert (db_bytes (at_block d (inode_block d x (start / 512)) 0) = d (inode_block d x (start / 512))) as ->.
  { unfold at_block. cbn -[Z.to_nat]. rewrite drop_0, take_ge; [done|]. lia. }
  apply wp_slice; [zdiv|unfold lengthZ; lia|]. exists d. split; [done|]. intros s3 Hs3.
  replace (start mod 512 + (e - start) - start mod 512) with (e - start) by lia.
  rewrite block_bytes_eq by (lia || zdiv).
  destruct (Z.eqb_spec e end_) as [->|Hne].
  { wp_steps. done. }
  destruct (Hnext ltac:(lia)) as [Hq Hr]. rewrite <- Hq.
  assert (Hlm : length (file_byte d x <$> seqZ start (e - start)) = Z.to_nat (e - start)).
  { by rewrite length_fmap, length_seqZ. }
  unfold lengthZ in Hbuf.
  eapply wp_mono; [apply IH; [done|lia|lia| |lia]|].
  { unfold lengthZ. rewrite length_splice by lia. lia. }
  intros r s4 [Hs4 ->]. split; [done|]. f_equal; [|lia].
  replace (Z.to_nat (rs + (e - start))) with (Z.to_nat rs + length (file_byte d x <$> seqZ start (e - start)))%nat by lia.
  rewrite splice_app by lia. f_equal. rewrite <- fmap_app. f_equal.
  replace (end_ - start) with ((e - start) + (end_ - e)) by lia.
  rewrite seqZ_app by lia. do 2 f_equal; lia.
Qed.

Lemma data_blocks_bound x : 0 <= di_size x → di_size x <= 512 * 16540 → di_size x <= 512 * data_blocks x.
Proof.
  intros. unfold data_blocks, _data_blocks, BLOCK_SZ.
  rewrite (wrap_small 32 (di_size x + 512)), wrap_small by lia. zdiv.
Qed.

(** Bytes a transfer of [len] bytes at [offset] covers. *)
Definition span (x : DiskInode) (offset len : Z) : Z :=
  Z.max 0 (Z.min (offset + len) (di_size x) - offset).

Lemma wp_DiskInode_read_at s d h x offset buf :
  store_ok s d h → (size h < BLOCK_CACHE_SIZE)%nat → 0 <= di_size x <= 512 * INDIRECT2_BOUND →
  inode_takeable d h x (data_blocks x) → 0 <= offset → offset + lengthZ buf < 2 ^ 64 →
  wp (DiskInode_read_at x offset buf) (λ r s', store_ok s' d h ∧
    r = (splice buf 0 (file_byte d x <$> seqZ offset (span x offset (lengthZ buf))),
         span x offset (lengthZ buf))) s.
Proof.
  intros Hs Hsz Hsize Hx Hoff Hlen. unfold DiskInode_read_at, span. unfold_layout.
  assert (0 <= lengthZ buf) by (unfold lengthZ; lia). rewrite wrap_small by lia.
  destruct (Z.leb_spec (Z.min (offset + lengthZ buf) (di_size x)) offset).
  { wp_steps. split; [done|]. rewrite Z.max_l by lia. rewrite seqZ_nil by lia. done. }
  pose proof (data_blocks_bound x ltac:(lia) ltac:(lia)).
  rewrite Z.max_r by lia. eapply wp_mono; [apply wp_read_loop with (n := data_blocks x); (done || lia)|].
  intros r s' [Hs' ->]. split; [done|]. done.
Qed.

(** ** Writing *)

Lemma inode_block_stable (s : St) d d' h x n :
  store_ok s d h → inode_takeable d h x n → (∀ b, b ∈ inode_meta d x n → d' b = d b) →
  inode_meta d' x n = inode_meta d x n ∧
  ∀ k, 0 <= k < n → inode_block d' x k = inode_block d x k.
Proof.
  intros Hs (Hdir & Hn & Hmeta & _) Hd. unfold_layout. rewrite Forall_forall in Hmeta.
  assert (Hind : ∀ b, b ∈ inode_meta d x n → ind_words d' b = ind_words d b).
  { intros b Hb. unfold ind_words, at_block. by rewrite Hd. }
  split.
  - unfold inode_meta. destruct (Z.ltb_spec 156 n); [|done].
    rewrite (Hind (indirect2 x)); [done|]. apply meta_elem. naive_solver.
  - intros k Hk. unfold inode_block. destruct (Z.ltb_spec k 28); [done|].
    destruct (Z.ltb_spec k 156).
    + rewrite Hind; [done|]. apply meta_elem. left. split; [lia|done].
    + assert (indirect2 x ∈ inode_meta d x n) as H2 by (apply meta_elem; right; left; split; [lia|done]).
      rewrite (Hind _ H2). rewrite Hind; [done|].
      apply (meta_sub s d h x n); [done|by apply Hmeta|lia|]. unfold nsub. zdiv.
Qed.

(** No block is used twice. *)
Definition inode_sep (d : disk) (x : DiskInode) (n : Z) : Prop :=
  NoDup (inode_meta d x n ++ inode_data d x n).

Lemma sep_data_inj d x n i j :
  inode_sep d x n → 0 <= i < n → 0 <= j < n → inode_block d x i = inode_block d x j → i = j.
Proof.
  intros Hsep Hi Hj Heq. apply NoDup_app in Hsep as (_ & _ & Hnd).
  assert (Z.to_nat i = Z.to_nat j) by
    (eapply (NoDup_lookup (inode_data d x n)); [done|..]; unfold inode_data; rewrite list_lookup_fmap;
     [assert (seqZ 0 n !! Z.to_nat i = Some i) as -> by (apply lookup_seqZ; lia)
     |assert (seqZ 0 n !! Z.to_nat j = Some j) as -> by (apply lookup_seqZ; lia)]; simpl; [done|by rewrite Heq]).
  lia.
Qed.

Lemma sep_data_meta d x n k : inode_sep d x n → 0 <= k < n → inode_block d x k ∉ inode_meta d x n.
Proof.
  intros Hsep Hk Hin. apply NoDup_app in Hsep as (_ & Hdis & _). apply (Hdis _ Hin).
  unfold inode_data. apply list_elem_of_fmap_2, elem_of_seqZ. lia.
Qed.

(** [d'] is [d] with the bytes [start..end_] of the file replaced by [f]. *)
Definition wrote (d d' : disk) (x : DiskInode) (n start end_ : Z) (f : Z → Z) : Prop :=
  (∀ i, 0 <= i < 512 * n →
     file_byte d' x i = if decide (start <= i < end_) then f i else file_byte d x i) ∧
  (∀ b, b ∉ inode_data d x n → d' b = d b).

Lemma wrote_stable (s : St) d d' h x n start end_ f :
  store_ok s d h → inode_takeable d h x n → inode_sep d x n → wrote d d' x n start end_ f →
  inode_meta d' x n = inode_meta d x n ∧ inode_data d' x n = inode_data d x n.
Proof.
  intros Hs Hx Hsep [_ Hd]. destruct (inode_block_stable s d d' h x n Hs Hx) as [Hm Hb].
  { intros b Hb. apply Hd. apply NoDup_app in Hsep as (_ & Hdis & _). by apply Hdis. }
  split; [done|]. unfold inode_data. apply list_fmap_ext. intros i k Hk.
  apply Hb. apply list_elem_of_lookup_2, elem_of_seqZ in Hk. lia.
Qed.

Lemma wrote_trans (s : St) d d1 d2 h x n start e end_ f :
  store_ok s d h → inode_takeable d h x n → inode_sep d x n → start <= e <= end_ →
  wrote d d1 x n start e f → wrote d1 d2 x n e end_ f → wrote d d2 x n start end_ f.
Proof.
  intros Hs Hx Hsep He Hw1 Hw2. destruct (wrote_stable _ _ _ _ _ _ _ _ _ Hs Hx Hsep Hw1) as [_ Hdata].
  destruct Hw1 as [H1 F1], Hw2 as [H2 F2]. split.
  - intros i Hi. rewrite H2, H1 by done. repeat case_decide; (done || lia).
  - intros b Hb. rewrite F2, F1 by (by rewrite ?Hdata). done.
Qed.

Lemma file_byte_upd (s : St) d h x n k bs i :
  store_ok s d h → inode_takeable d h x n → inode_sep d x n → 0 <= k < n → 0 <= i < 512 * n →
  file_byte (upd d (inode_block d x k) bs) x i =
  if decide (i / 512 = k) then default 0 (bs !! Z.to_nat (i mod 512)) else file_byte d x i.
Proof.
  intros Hs Hx Hsep Hk Hi. unfold file_byte.
  destruct (inode_block_stable s d (upd d (inode_block d x k) bs) h x n Hs Hx) as [_ Hstab].
  { intros b Hb. apply upd_other. intros ->. by eapply sep_data_meta. }
  rewrite Hstab by zdiv. destruct (decide (i / 512 = k)) as [->|Hne]; [by rewrite upd_same|].
  rewrite upd_other; [done|]. intros Heq. apply Hne. eapply sep_data_inj; [done| |done|done]. zdiv.
Qed.

(** One iteration of the loop. *)
Lemma wrote_step (s : St) d h x n start m src :
  store_ok s d h → inode_takeable d h x n → inode_sep d x n → 0 <= start → 0 < m →
  start / 512 < n → start mod 512 + m <= 512 → length src = Z.to_nat m →
  wrote d (upd d (inode_block d x (start / 512))
             (splice (d (inode_block d x (start / 512))) (Z.to_nat (start mod 512)) src))
    x n start (start + m) (λ i, default 0 (src !! Z.to_nat (i - start))).
Proof.
  intros Hs Hx Hsep Hst Hm Hn Hfit Hlen.
  destruct (data_takeable d h x n (start / 512) Hx ltac:(zdiv)) as [Hb1 _].
  pose proof (store_wf s d h _ Hs Hb1) as [Hl _]. split.
  - intros i Hi. erewrite file_byte_upd by (done || zdiv).
    destruct (decide (i / 512 = start / 512)) as [Heq|Hne]; [|rewrite decide_False by zdiv; done].
    rewrite splice_lookup by zdiv. destruct (decide (start <= i < start + m)).
    + rewrite decide_True by zdiv. do 2 f_equal. zdiv.
    + rewrite decide_False by zdiv. unfold file_byte. by rewrite Heq.
  - intros b Hb. apply upd_other. intros ->. apply Hb. unfold inode_data.
    apply list_elem_of_fmap_2, elem_of_seqZ. zdiv.
Qed.

Lemma wrote_ext d d' x n start end_ f g :
  (∀ i, start <= i < end_ → f i = g i) → wrote d d' x n start end_ f → wrote d d' x n start end_ g.
Proof.
  intros Hfg [H1 H2]. split; [|done]. intros i Hi. rewrite H1 by done. case_decide; auto.
Qed.

Lemma inode_takeable_stable d d' h x n :
  inode_takeable d h x n → inode_meta d' x n = inode_meta d x n → inode_data d' x n = inode_data d x n →
  inode_takeable d' h x n.
Proof. intros (?&?&?&?) Em Ed. unfold inode_takeable. by rewrite Em, Ed. Qed.

Lemma wp_write_loop s d h x n end_ fuel base start buf :
  store_ok s d h → (size h < BLOCK_CACHE_SIZE)%nat → inode_takeable d h x n → inode_sep d x n →
  end_ <= 512 * n → 0 <= base <= start → start < end_ → end_ - base <= lengthZ buf →
  Forall is_byte buf → (Z.to_nat (end_ / 512 - start / 512 + 1) <= fuel)%nat →
  wp (write_loop fuel x end_ start (start / 512) (start - base) buf)
    (λ r s', r = end_ - base ∧ ∃ d', store_ok s' d' h ∧
       wrote d d' x n start end_ (λ i, default 0 (buf !! Z.to_nat (i - base)))) s.
Proof.
  intros Hs Hsz Hx Hsep Hend Hbase Hst Hbuf Hbytes. revert s d Hs start Hx Hsep Hbase Hst.
  induction fuel as [|fuel IH]; intros s d Hs start Hx Hsep Hbase Hst Hfuel; [zdiv|].
  pose proof Hx as (Hdir & Hn & Hmeta & _). unfold_layout.
  cbn [write_loop]. destruct (block_step start end_ ltac:(lia) ltac:(lia)) as (He & Hw & Hfit & Hnext).
  set (e := Z.min _ end_) in *. rewrite Hw. unfold BLOCK_SZ. wp_steps. rewrite wrap_small by zdiv.
  eapply wp_get_block_id; [done|done|done|done|zdiv|done|]. intros s1 Hs1. wp_steps.
  destruct (data_takeable d h x n (start / 512) Hx ltac:(zdiv)) as [Hb1 Hb2].
  pose proof (store_wf s1 d h _ Hs1 Hb1) as [Hlen Hbb].
  eapply wp_modify_block_as; [exact Hs1|done|done|done|done|done|]. intros s2 Hs2.
  assert (db_bytes (at_block d (inode_block d x (start / 512)) 0) = d (inode_block d x (start / 512))) as ->.
  { unfold at_block. cbn -[Z.to_nat]. rewrite drop_0, take_ge; [done|]. lia. }
  wp_steps. apply wp_slice; [lia|lia|]. wp_steps. apply wp_slice; [zdiv|unfold lengthZ; lia|]. wp_steps.
  replace (start - base + (e - start) - (start - base)) with (e - start) by lia.
  set (src := take (Z.to_nat (e - start)) (drop (Z.to_nat (start - base)) buf)).
  assert (Hsrc : length src = Z.to_nat (e - start)).
  { unfold src, lengthZ in *. rewrite length_take, length_drop. lia. }
  cbn [fst snd encode DataBlock_repr]. split.
  { split; cbn [db_bytes].
    - rewrite length_splice; [done|]. zdiv.
    - apply splice_wf; [done|zdiv|]. by apply Forall_take, Forall_drop. }
  exists d. split; [done|]. change (Z.to_nat 0) with 0%nat. cbn [db_bytes]. intros s3 Hs3.
  rewrite splice_all in Hs3 by (rewrite length_splice; zdiv).
  pose proof (wrote_step s d h x n start (e - start) src Hs Hx Hsep ltac:(lia) ltac:(lia) ltac:(zdiv)
    Hfit Hsrc) as Hwrote. replace (start + (e - start)) with e in Hwrote by lia.
  eapply (wrote_ext _ _ _ _ _ _ _ (λ i, default 0 (buf !! Z.to_nat (i - base)))) in Hwrote.
  2: { intros i Hi. unfold src. rewrite lookup_take_lt, lookup_drop by lia. do 2 f_equal. lia. }
  replace (start - base + (e - start)) with (e - base) by lia.
  destruct (Z.eqb_spec e end_) as [->|Hne]; [wp_steps; eauto|].
  destruct (Hnext ltac:(lia)) as [Hq Hr]. rewrite <- Hq.
  destruct (wrote_stable _ _ _ _ _ _ _ _ _ Hs Hx Hsep Hwrote) as [Hm Hd].
  eapply wp_mono; [apply (IH _ _ Hs3)|].
  - by eapply inode_takeable_stable.
  - unfold inode_sep. by rewrite Hm, Hd.
  - lia.
  - lia.
  - lia.
  - intros r s4 (-> & d' & Hs4 & Hw4). split; [done|]. exists d'. split; [done|].
    eapply wrote_trans; [exact Hs|done|done| |exact Hwrote|exact Hw4]. lia.
Qed.

Lemma wp_DiskInode_write_at s d h x offset buf :
  store_ok s d h → (size h < BLOCK_CACHE_SIZE)%nat → 0 <= di_size x <= 512 * INDIRECT2_BOUND →
  inode_takeable d h x (data_blocks x) → inode_sep d x (data_blocks x) →
  0 <= offset < di_size x → buf ≠ [] → offset + lengthZ buf < 2 ^ 64 → Forall is_byte buf →
  wp (DiskInode_write_at x offset buf) (λ r s', r = span x offset (lengthZ buf) ∧
    ∃ d', store_ok s' d' h ∧
      wrote d d' x (data_blocks x) offset (offset + span x offset (lengthZ buf))
        (λ i, default 0 (buf !! Z.to_nat (i - offset)))) s.
Proof.
  intros Hs Hsz Hsize Hx Hsep Hoff Hne Hlen Hbytes. unfold DiskInode_write_at, span. unfold_layout.
  assert (0 < lengthZ buf) by (unfold lengthZ; destruct buf; simpl; [done|lia]).
  rewrite wrap_small by lia. wp_steps. apply wp_assert; [lia|].
  pose proof (data_blocks_bound x ltac:(lia) ltac:(lia)). rewrite Z.max_r by lia.
  replace (offset + (Z.min (offset + lengthZ buf) (di_size x) - offset))
    with (Z.min (offset + lengthZ buf) (di_size x)) by lia.
  replace 0 with (offset - offset) at 1 by lia. eapply wp_mono.
  - apply wp_write_loop with (n := data_blocks x) (base := offset) (d := d) (h := h); (done || lia).
  - done.
Qed.
End views.

(** ** Names of directory entries *)

Definition name_bytes (name : list Z) : Prop := Forall (λ b, 0 < b < 256) name.

Lemma DirEntry_new_name name ino :
  (length name <= 28)%nat →
  DirEntry_new name ino = Ok (mkDirEntry (name ++ replicate (28 - length name) 0) ino).
Proof.
  intros Hl. unfold DirEntry_new, NAME_LENGTH_LIMIT, lengthZ.
  destruct (Z.leb_spec (Z.of_nat (length name)) (27 + 1)); [|lia].
  do 2 f_equal. unfold splice. by rewrite take_0, drop_replicate.
Qed.

Lemma DirEntry_valid name ino :
  (length name <= 28)%nat → name_bytes name → 0 <= ino < 2 ^ 32 →
  valid (mkDirEntry (name ++ replicate (28 - length name) 0) ino).
Proof.
  intros Hl Hb Hi. split_and!; cbn [de_name de_inode_number]; [|apply Forall_app; split|lia|lia].
  - rewrite length_app, length_replicate. lia.
  - eapply Forall_impl; [exact Hb|]. unfold is_byte. lia.
  - apply Forall_replicate. unfold is_byte. lia.
Qed.

Lemma name_no_nul name i b : name_bytes name → name !! i = Some b → (b =? 0) = false.
Proof. intros Hb Hi. apply Z.eqb_neq. eapply (Forall_lookup_1 _ _ _ _ Hb) in Hi. lia. Qed.

(** The entry of [name], and what is read from it. *)
Definition dirent (name : list Z) (ino : Z) : DirEntry :=
  mkDirEntry (name ++ replicate (28 - length name) 0) ino.

Lemma dirent_name name ino :
  name_bytes name → lengthZ name <= NAME_LENGTH_LIMIT → from_utf8 name = true →
  DirEntry_name (dirent name ino) = Ok name.
Proof.
  unfold NAME_LENGTH_LIMIT, lengthZ. intros Hb Hl Hu. unfold DirEntry_name, dirent. cbn [de_name].
  assert (find_index (λ b, b =? 0) (name ++ replicate (28 - length name) 0) = Some (length name)) as ->.
  { apply find_index_Some. split.
    - exists 0. split; [|done]. rewrite lookup_app_r, Nat.sub_diag by lia. apply lookup_replicate. lia.
    - intros j y Hj Hy. rewrite lookup_app_l in Hy by done. by eapply name_no_nul. }
  by rewrite take_app_length, Hu.
Qed.

(** a directory entry keeps its name and inode number through the disk: for
    a well-formed name of at most 27 bytes without NUL, [DirEntry::new] succeeds,
    its image is [DIRENT_SZ] bytes, and the entry read back from the image has the
    same name and inode number. *)
Theorem dirent_roundtrip name ino :
  name_bytes name → lengthZ name <= NAME_LENGTH_LIMIT → from_utf8 name = true → 0 <= ino < 2 ^ 32 →
  ∃ e, DirEntry_new name ino = Ok e ∧ lengthZ (as_bytes e) = DIRENT_SZ ∧
    DirEntry_name (decode (as_bytes e)) = Ok name ∧ inode_number (decode (as_bytes e)) = ino.
Proof.
  unfold NAME_LENGTH_LIMIT, lengthZ. intros Hb Hl Hu Hi.
  eexists. split; [apply DirEntry_new_name; lia|].
  pose proof (DirEntry_valid name ino ltac:(lia) Hb Hi) as Hv. unfold as_bytes. split_and!.
  - by rewrite (encode_length _ Hv).
  - rewrite (decode_encode _ Hv). by apply dirent_name.
  - by rewrite (decode_encode _ Hv).
Qed.

Lemma dirent_roundtrip_witness :
  ∃ e, DirEntry_new [105; 110; 105; 116] 7 = Ok e ∧ lengthZ (as_bytes e) = DIRENT_SZ ∧
    DirEntry_name (decode (as_bytes e)) = Ok [105; 110; 105; 116] ∧ inode_number (decode (as_bytes e)) = 7.
Proof.
  apply (dirent_roundtrip [105; 110; 105; 116] 7).
  - repeat constructor; lia.
  - done.
  - reflexivity.
  - lia.
Defined.

(** the boundary of the name length.  A name of exactly 28 bytes is one more
    than [NAME_LENGTH_LIMIT] allows, but [DirEntry::new] accepts it; the entry has
    no terminator, so every later [name()] on it panics ([find], [ls] and [create]
    in that directory). Longer names make [new] panic. *)
Theorem dirent_name_limit name ino :
  name_bytes name →
  (lengthZ name = NAME_LENGTH_LIMIT + 1 →
     ∃ e, DirEntry_new name ino = Ok e ∧ DirEntry_name e = Panic PIndex) ∧
  (NAME_LENGTH_LIMIT + 1 < lengthZ name → DirEntry_new name ino = Panic PIndex).
Proof.
  unfold NAME_LENGTH_LIMIT, lengthZ. intros Hb. split; intros Hl.
  - eexists. split; [apply DirEntry_new_name; lia|]. unfold DirEntry_name. cbn [de_name].
    replace (28 - length name)%nat with 0%nat by lia. simpl. rewrite app_nil_r.
    assert (find_index (λ b, b =? 0) name = None) as ->; [|done].
    apply find_index_None. intros i y Hy. by eapply name_no_nul.
  - unfold DirEntry_new, NAME_LENGTH_LIMIT, lengthZ.
    by destruct (Z.leb_spec (Z.of_nat (length name)) (27 + 1)); [lia|].
Qed.

Lemma dirent_name_limit_witness :
  ∃ e, DirEntry_new (replicate 28 97) 3 = Ok e ∧ DirEntry_name e = Panic PIndex.
Proof.
  apply (dirent_name_limit (replicate 28 97) 3).
  - apply Forall_replicate. lia.
  - reflexivity.
Defined.
