(* ===== verification/InodeTree.v ===== *)
(** * Growing and clearing an inode

    [DiskInode::increase_size] takes new blocks one after the other in a fixed
    order: the direct blocks, the indirect block, its entries, the doubly
    indirect block, then every second-level block followed by its entries.
    [tree d x n L] says that [L] lists the blocks of an inode of [n] data blocks
    in this order; growing appends the new blocks to the list and
    [DiskInode::clear_size] returns it. *)

From S2P Require Import Prelude Codec BlockDev BlockCache Bitmap Layout.

(** Positions of the data blocks and of the second-level blocks. *)
Definition pos (k : Z) : Z :=
  if k <? 28 then k else if k <? 156 then k + 1 else 159 + 129 * ((k - 156) / 128) + (k - 156) mod 128.
Definition sub_pos (a : Z) : Z := 158 + 129 * a.

(** Blocks of an inode of [n] data blocks. *)
Definition tot (n : Z) : Z :=
  n + (if 28 <? n then 1 else 0) + (if 156 <? n then 1 + nsub n else 0).

(** [P] lists the blocks allocated so far, possibly in the middle of the growth. *)
Record tree_upto (d : disk) (x : DiskInode) (P : list Z) : Prop := {
  tu_data : ∀ k, 0 <= k → pos k < lengthZ P → lookupZ P (pos k) = Some (inode_block d x k);
  tu_ind1 : 28 < lengthZ P → lookupZ P 28 = Some (indirect1 x);
  tu_ind2 : 157 < lengthZ P → lookupZ P 157 = Some (indirect2 x);
  tu_sub : ∀ a, 0 <= a → sub_pos a < lengthZ P →
    lookupZ P (sub_pos a) = Some (word (Z.to_nat a) (ind_words d (indirect2 x)))
}.

Definition tree (d : disk) (x : DiskInode) (n : Z) (L : list Z) : Prop :=
  lengthZ L = tot n ∧ tree_upto d x L.

(** Positions of indirect blocks. *)
Definition meta_pos (p : Z) : Prop := p = 28 ∨ p = 157 ∨ ∃ a, 0 <= a ∧ p = sub_pos a.
Definition meta_of (L : list Z) (b : Z) : Prop := ∃ p, meta_pos p ∧ lookupZ L p = Some b.

(** ** Arithmetic of the positions *)

Ltac pos_lia :=
  unfold pos, sub_pos, tot, nsub in *;
  repeat match goal with
    | |- context [?a <? ?b] => destruct (Z.ltb_spec a b)
    | H : context [?a <? ?b] |- _ => destruct (Z.ltb_spec a b)
    end; zdiv.

Lemma pos_lt_tot k n : 0 <= k → 0 <= n → pos k < tot n ↔ k < n.
Proof. intros. pos_lia. Qed.
Lemma pos_inj j k : 0 <= j → 0 <= k → pos j = pos k → j = k.
Proof. intros. pos_lia. Qed.
Lemma sub_lt_tot a n : 0 <= a → 156 < n → sub_pos a < tot n ↔ a < nsub n.
Proof. intros. pos_lia. Qed.
Lemma pos_not_meta k : 0 <= k → ¬ meta_pos (pos k).
Proof. intros Hk [H|[H|(a & Ha & H)]]; pos_lia. Qed.
Lemma tot_mono n m : 0 <= n <= m → tot n <= tot m.
Proof. intros. pos_lia. Qed.

Lemma tot_diff n m : 0 <= n <= m → m <= 16540 → 0 <= tot m - tot n < 2 ^ 32.
Proof. intros. pos_lia. Qed.

Lemma total_blocks_tot size :
  0 <= size <= 512 * INDIRECT2_BOUND → total_blocks size = tot (_data_blocks size).
Proof.
  intros Hs. unfold total_blocks, _data_blocks. unfold_layout.
  rewrite (wrap_small 32 (size + 512)), (wrap_small 32 (size + 512 - 1)) by lia.
  set (n := (size + 512 - 1) / 512). assert (0 <= n <= 16540) by (unfold n; zdiv).
  unfold tot, nsub. destruct (Z.ltb_spec 28 n), (Z.ltb_spec 156 n); rewrite wrap_small; zdiv.
Qed.

(** ** The view of a tree *)

Lemma tree_data d x n L k :
  tree d x n L → 0 <= k < n → lookupZ L (pos k) = Some (inode_block d x k).
Proof.
  intros [Hl Ht] Hk. apply (tu_data _ _ _ Ht); [lia|]. rewrite Hl. apply pos_lt_tot; lia.
Qed.

Lemma tree_data_elem d x n L b : tree d x n L → b ∈ inode_data d x n → b ∈ L.
Proof.
  intros Ht Hb. unfold inode_data in Hb. apply list_elem_of_fmap in Hb as (k & -> & Hk%elem_of_seqZ).
  eapply lookupZ_elem, tree_data; [done|lia].
Qed.

Lemma tree_meta_elem d x n L b :
  tree d x n L → 0 <= n → b ∈ inode_meta d x n → ∃ p, meta_pos p ∧ lookupZ L p = Some b.
Proof.
  intros [Hl Ht] Hn [[H1 ->]|[[H1 ->]|[H1 Hin]]]%meta_elem.
  - exists 28. split; [by left|]. apply (tu_ind1 _ _ _ Ht). rewrite Hl. pos_lia.
  - exists 157. split; [by right; left|]. apply (tu_ind2 _ _ _ Ht). rewrite Hl. pos_lia.
  - apply list_elem_of_lookup in Hin as [i Hi]. apply lookup_take_Some in Hi as [Hi Hlt].
    exists (sub_pos (Z.of_nat i)). split; [right; right; exists (Z.of_nat i); split; [lia|done]|].
    rewrite (tu_sub _ _ _ Ht); [|lia|rewrite Hl; apply sub_lt_tot; lia].
    rewrite Nat2Z.id. unfold word. by rewrite Hi.
Qed.

Definition positions (n : Z) : list Z :=
  ((if 28 <? n then [28] else []) ++
   (if 156 <? n then 157 :: (sub_pos <$> seqZ 0 (nsub n)) else [])) ++ (pos <$> seqZ 0 n).

Lemma positions_NoDup n : NoDup (positions n).
Proof.
  unfold positions. apply NoDup_app. split_and!.
  - assert (Hsub : NoDup (sub_pos <$> seqZ 0 (nsub n))).
    { apply NoDup_fmap_2; [|apply NoDup_seqZ]. intros ? ?. unfold sub_pos. lia. }
    assert (Hge : ∀ p, p ∈ sub_pos <$> seqZ 0 (nsub n) → 158 <= p).
    { intros p (a & -> & Ha%elem_of_seqZ)%list_elem_of_fmap. unfold sub_pos. lia. }
    destruct (Z.ltb_spec 28 n), (Z.ltb_spec 156 n); simpl; try lia;
      repeat apply NoDup_cons_2; try apply NoDup_nil_2; try done; intros Hin.
    + apply elem_of_cons in Hin as [?|?%Hge]; lia.
    + apply Hge in Hin. lia.
    + by apply not_elem_of_nil in Hin.
  - intros p Hp Hq. apply list_elem_of_fmap in Hq as (k & -> & Hk%elem_of_seqZ).
    apply (pos_not_meta k); [lia|]. revert Hp.
    destruct (Z.ltb_spec 28 n), (Z.ltb_spec 156 n); rewrite ?elem_of_app, ?elem_of_cons, ?list_elem_of_fmap, ?elem_of_nil;
      unfold meta_pos; try naive_solver lia.
    intros [[H1|[]]|[H1|(a & H1 & H2%elem_of_seqZ)]]; [by left|by right; left|].
    right; right. exists a. split; [lia|done].
  - apply NoDup_fmap_2_strong; [|apply NoDup_seqZ].
    intros i j Hi%elem_of_seqZ Hj%elem_of_seqZ. apply pos_inj; lia.
Qed.

Section trees.
Context {St : Type} {cap : Z} `{HS : BlockStore St} `{HL : !BlockStoreLaws St cap}.

Lemma tree_lists (s : St) d h x n L :
  store_ok s d h → tree d x n L → 0 <= n <= 16540 → (156 < n → 0 <= indirect2 x < cap) →
  inode_meta d x n ++ inode_data d x n = (λ p, default 0 (lookupZ L p)) <$> positions n.
Proof.
  intros Hs Ht Hn Hi2. unfold positions. rewrite fmap_app. f_equal.
  - destruct Ht as [Hl Ht]. unfold inode_meta. rewrite fmap_app. f_equal.
    + destruct (Z.ltb_spec 28 n); [|done]. simpl. rewrite (tu_ind1 _ _ _ Ht); [done|]. rewrite Hl. pos_lia.
    + destruct (Z.ltb_spec 156 n); [|done]. rewrite fmap_cons. f_equal.
      * rewrite (tu_ind2 _ _ _ Ht); [done|]. rewrite Hl. pos_lia.
      * apply list_eq. intros i. rewrite !list_lookup_fmap.
        assert (Hw : length (ind_words d (indirect2 x)) = 128%nat) by (eapply ind_length; eauto).
        assert (0 <= nsub n <= 128) by pos_lia.
        destruct (decide (Z.of_nat i < nsub n)) as [Hlt|Hge].
        -- rewrite lookup_take_lt by lia. rewrite word_eta by lia.
           assert (seqZ 0 (nsub n) !! i = Some (Z.of_nat i)) as -> by (apply lookup_seqZ; lia). simpl.
           rewrite (tu_sub _ _ _ Ht); [by rewrite Nat2Z.id|lia|]. rewrite Hl. apply sub_lt_tot; lia.
        -- rewrite lookup_take_ge by lia.
           assert (seqZ 0 (nsub n) !! i = None) as -> by (apply lookup_seqZ_ge; lia). done.
  - unfold inode_data. rewrite <- list_fmap_compose. apply list_fmap_ext. intros i k Hk. simpl.
    apply list_elem_of_lookup_2, elem_of_seqZ in Hk. by rewrite (tree_data d x n L k Ht) by lia.
Qed.

Lemma positions_lt n p : 0 <= n → p ∈ positions n → 0 <= p < tot n.
Proof.
  intros Hn. unfold positions. rewrite !elem_of_app, list_elem_of_fmap.
  intros [[H1|H1]|(k & -> & Hk%elem_of_seqZ)].
  - destruct (Z.ltb_spec 28 n); [|by apply not_elem_of_nil in H1].
    apply list_elem_of_singleton in H1 as ->. pos_lia.
  - destruct (Z.ltb_spec 156 n); [|by apply not_elem_of_nil in H1].
    apply elem_of_cons in H1 as [->|(a & -> & Ha%elem_of_seqZ)%list_elem_of_fmap]; pos_lia.
  - split; [pos_lia|]. apply pos_lt_tot; lia.
Qed.

(** A tree of distinct blocks on the device is a well-formed inode. *)
Lemma tree_wf s d h x n L :
  store_ok s d h → tree d x n L → 0 <= n <= INDIRECT2_BOUND → length (direct x) = 28%nat →
  NoDup L → Forall (takeable (cap := cap) h) L →
  inode_takeable (cap := cap) d h x n ∧ inode_sep d x n.
Proof.
  intros Hs Ht Hn Hdir Hnd Htake. unfold_layout. rewrite Forall_forall in Htake.
  assert (Hsome : ∀ p, p ∈ positions n → ∃ b, lookupZ L p = Some b).
  { intros p Hp. apply lookupZ_is_Some. destruct Ht as [-> _]. apply positions_lt; [lia|done]. }
  assert (Hi2 : 156 < n → 0 <= indirect2 x < cap).
  { intros H1. apply (Htake (indirect2 x)). destruct Ht as [Hl Ht].
    apply (lookupZ_elem _ 157), (tu_ind2 _ _ _ Ht). rewrite Hl. pos_lia. }
  pose proof (tree_lists s d h x n L Hs Ht ltac:(lia) Hi2) as Hlists.
  assert (Hall : Forall (takeable (cap := cap) h) (inode_meta d x n ++ inode_data d x n)).
  { rewrite Hlists. apply Forall_fmap, Forall_forall. intros p Hp. simpl.
    destruct (Hsome p Hp) as [b Hb]. rewrite Hb. apply Htake. by eapply lookupZ_elem. }
  apply Forall_app in Hall as [Hm Hd]. split.
  { unfold inode_takeable. unfold_layout. split_and!; [done|lia|done|done]. }
  unfold inode_sep. rewrite Hlists. apply NoDup_fmap_2_strong; [|apply positions_NoDup].
  intros p q Hp Hq. destruct (Hsome p Hp) as [b Hb], (Hsome q Hq) as [b' Hb']. rewrite Hb, Hb'. simpl.
  intros <-. by eapply lookupZ_inj.
Qed.
End trees.

(** ** Extending a tree *)

Lemma tree_upto_ext d d' x P : (∀ b, d b = d' b) → tree_upto d x P → tree_upto d' x P.
Proof.
  intros Hd [H1 H2 H3 H4].
  assert (Hi : ∀ b, ind_words d' b = ind_words d b) by (intros; unfold ind_words, at_block; by rewrite Hd).
  split; [|done|done|].
  - intros k Hk Hp. rewrite (H1 k Hk Hp). unfold inode_block. by rewrite !Hi.
  - intros a Ha Hp. rewrite (H4 a Ha Hp). by rewrite Hi.
Qed.

(** A new tree [(d', x')] extends the list by [u] when the slots before keep
    their contents and the new slots hold [u]. *)
Lemma tree_extend d x d' x' P u :
  tree_upto d x P →
  (∀ k, 0 <= k → pos k < lengthZ P → inode_block d' x' k = inode_block d x k) →
  (∀ k, 0 <= k → lengthZ P <= pos k < lengthZ P + lengthZ u →
     lookupZ u (pos k - lengthZ P) = Some (inode_block d' x' k)) →
  (28 < lengthZ P → indirect1 x' = indirect1 x) →
  (lengthZ P <= 28 < lengthZ P + lengthZ u → lookupZ u (28 - lengthZ P) = Some (indirect1 x')) →
  (157 < lengthZ P → indirect2 x' = indirect2 x) →
  (lengthZ P <= 157 < lengthZ P + lengthZ u → lookupZ u (157 - lengthZ P) = Some (indirect2 x')) →
  (∀ a, 0 <= a → sub_pos a < lengthZ P →
     word (Z.to_nat a) (ind_words d' (indirect2 x')) = word (Z.to_nat a) (ind_words d (indirect2 x))) →
  (∀ a, 0 <= a → lengthZ P <= sub_pos a < lengthZ P + lengthZ u →
     lookupZ u (sub_pos a - lengthZ P) = Some (word (Z.to_nat a) (ind_words d' (indirect2 x')))) →
  tree_upto d' x' (P ++ u).
Proof.
  intros [H1 H2 H3 H4] Hd Hd' Hi Hi' Hj Hj' Hs Hs'.
  assert (Hlen := lengthZ_app P u). split; rewrite ?Hlen.
  - intros k Hk Hp. destruct (decide (pos k < lengthZ P)).
    + rewrite lookupZ_app_l by pos_lia. rewrite Hd by done. auto.
    + rewrite lookupZ_app_r by lia. apply Hd'; lia.
  - intros Hp. destruct (decide (28 < lengthZ P)).
    + rewrite lookupZ_app_l by lia. rewrite Hi by done. auto.
    + rewrite lookupZ_app_r by lia. apply Hi'; lia.
  - intros Hp. destruct (decide (157 < lengthZ P)).
    + rewrite lookupZ_app_l by lia. rewrite Hj by done. auto.
    + rewrite lookupZ_app_r by lia. apply Hj'; lia.
  - intros a Ha Hp. destruct (decide (sub_pos a < lengthZ P)).
    + rewrite lookupZ_app_l by pos_lia. rewrite Hs by done. auto.
    + rewrite lookupZ_app_r by lia. apply Hs'; lia.
Qed.

Lemma lookupZ_word (u : list Z) i x : 0 <= i → u !! Z.to_nat i = Some x → lookupZ u i = Some x.
Proof. intros. by rewrite lookupZ_nat. Qed.

(** Direct blocks. *)
Lemma tree_direct d x P u :
  tree_upto d x P → length (direct x) = 28%nat → lengthZ P + lengthZ u <= 28 →
  tree_upto d (set_direct (splice (direct x) (length P) u) x) (P ++ u).
Proof.
  intros Ht Hdir Hle. assert (Hlt : ∀ k, 0 <= k → pos k < 28 → k < 28 ∧ pos k = k) by (intros; pos_lia).
  unfold lengthZ in *. eapply tree_extend; [exact Ht|..]; unfold lengthZ; try done; try lia.
  - intros k Hk Hp. destruct (Hlt k Hk ltac:(lia)) as [Hk28 Hpk]. unfold inode_block.
    destruct (Z.ltb_spec k 28); [|lia]. cbn [direct set_direct]. unfold word.
    rewrite splice_lookup by lia. by rewrite decide_False by lia.
  - intros k Hk Hp. destruct (Hlt k Hk ltac:(lia)) as [Hk28 Hpk]. unfold inode_block.
    destruct (Z.ltb_spec k 28); [|lia]. cbn [direct set_direct]. unfold word.
    rewrite splice_lookup by lia. rewrite decide_True by lia. apply lookupZ_word; [lia|].
    rewrite Hpk. replace (Z.to_nat (k - Z.of_nat (length P))) with (Z.to_nat k - length P)%nat by lia.
    assert (is_Some (u !! (Z.to_nat k - length P)%nat)) as [v ->] by (apply lookup_lt_is_Some; lia). done.
  - intros a Ha Hp. unfold sub_pos in *. lia.
Qed.

(** The indirect block. *)
Lemma tree_ind1 d x P b :
  tree_upto d x P → lengthZ P = 28 → tree_upto d (set_indirect1 b x) (P ++ [b]).
Proof.
  intros Ht Hl. eapply tree_extend; [exact Ht|..]; rewrite ?Hl; change (lengthZ [b]) with 1;
    cbn [indirect1 indirect2 set_indirect1]; try lia.
  - intros k Hk Hp. unfold inode_block. destruct (Z.ltb_spec k 28); [done|pos_lia].
  - intros k Hk Hp. exfalso. pos_lia.
  - intros _. reflexivity.
  - intros a Ha Hp. unfold sub_pos in *. lia.
Qed.

(** Entries of the indirect block. *)
Lemma tree_ind1_fill d x P u :
  tree_upto d x P → 29 <= lengthZ P → lengthZ P + lengthZ u <= 157 →
  block_wf (d (indirect1 x)) → length (ind_words d (indirect1 x)) = 128%nat →
  valid (mkIndirectBlock (splice (ind_words d (indirect1 x)) (length P - 29) u)) →
  tree_upto (put_at d (indirect1 x) 0
    (mkIndirectBlock (splice (ind_words d (indirect1 x)) (length P - 29) u))) x (P ++ u).
Proof.
  intros Ht Hge Hle Hwf Hl Hv.
  assert (Hlt : ∀ k, 0 <= k → pos k < 157 → k < 28 ∧ pos k = k ∨ 28 <= k < 156 ∧ pos k = k + 1)
    by (intros; pos_lia).
  unfold lengthZ in *. set (ws := splice _ _ _) in *.
  assert (Hws : ind_words (put_at d (indirect1 x) 0 (mkIndirectBlock ws)) (indirect1 x) = ws).
  { unfold ind_words. by rewrite at_put_same. }
  eapply tree_extend; [exact Ht|..]; unfold lengthZ; try done; try lia.
  - intros k Hk Hp. unfold inode_block. destruct (Hlt k Hk ltac:(lia)) as [[? ?]|[? ?]].
    + destruct (Z.ltb_spec k 28); [done|lia].
    + destruct (Z.ltb_spec k 28); [lia|]. destruct (Z.ltb_spec k 156); [|lia].
      rewrite Hws. unfold ws, word. rewrite splice_lookup by lia. by rewrite decide_False by lia.
  - intros k Hk Hp. unfold inode_block. destruct (Hlt k Hk ltac:(lia)) as [[? ?]|[? Hpk]]; [lia|].
    destruct (Z.ltb_spec k 28); [lia|]. destruct (Z.ltb_spec k 156); [|lia].
    rewrite Hws. unfold ws, word. rewrite splice_lookup by lia. rewrite decide_True by lia.
    apply lookupZ_word; [lia|].
    replace (Z.to_nat (pos k - Z.of_nat (length P))) with (Z.to_nat (k - 28) - (length P - 29))%nat by lia.
    assert (is_Some (u !! (Z.to_nat (k - 28) - (length P - 29))%nat)) as [v ->]
      by (apply lookup_lt_is_Some; lia). done.
  - intros a Ha Hp. unfold sub_pos in *. lia.
  - intros a Ha Hp. unfold sub_pos in *. lia.
Qed.

(** The doubly indirect block. *)
Lemma tree_ind2 d x P b :
  tree_upto d x P → lengthZ P = 157 → tree_upto d (set_indirect2 b x) (P ++ [b]).
Proof.
  intros Ht Hl. eapply tree_extend; [exact Ht|..]; rewrite ?Hl; change (lengthZ [b]) with 1;
    cbn [indirect1 indirect2 set_indirect2]; try lia.
  - intros k Hk Hp. unfold inode_block. destruct (Z.ltb_spec k 28); [done|].
    destruct (Z.ltb_spec k 156); [done|pos_lia].
  - intros k Hk Hp. exfalso. pos_lia.
  - intros _. reflexivity.
  - intros a Ha Hp. unfold sub_pos in *. lia.
  - intros a Ha Hp. unfold sub_pos in *. lia.
Qed.

Lemma ind_put_other d id (ws : list Z) b :
  b ≠ id → ind_words (put_at d id 0 (mkIndirectBlock ws)) b = ind_words d b.
Proof. intros. unfold ind_words. by rewrite at_put_other. Qed.
Lemma ind_put_same d id (ws : list Z) :
  block_wf (d id) → valid (mkIndirectBlock ws) → ind_words (put_at d id 0 (mkIndirectBlock ws)) id = ws.
Proof. intros. unfold ind_words. by rewrite at_put_same. Qed.
Lemma word_insert_ne (ws : list Z) i j b : i ≠ j → word i (<[j := b]> ws) = word i ws.
Proof. intros. unfold word. by rewrite list_lookup_insert_ne. Qed.
Lemma word_insert_eq (ws : list Z) i b : (i < length ws)%nat → word i (<[i := b]> ws) = b.
Proof. intros. unfold word. by rewrite list_lookup_insert_eq. Qed.

(** The indirect blocks of a tree are distinct. *)
Lemma tree_ind_distinct d x P :
  tree_upto d x P → NoDup P → 157 < lengthZ P →
  indirect1 x ≠ indirect2 x ∧
  ∀ a, 0 <= a → sub_pos a < lengthZ P →
    word (Z.to_nat a) (ind_words d (indirect2 x)) ≠ indirect1 x ∧
    word (Z.to_nat a) (ind_words d (indirect2 x)) ≠ indirect2 x ∧
    ∀ a', 0 <= a' → sub_pos a' < lengthZ P → a' ≠ a →
      word (Z.to_nat a') (ind_words d (indirect2 x)) ≠ word (Z.to_nat a) (ind_words d (indirect2 x)).
Proof.
  intros [_ H1 H2 H3] Hnd Hl. pose proof (H1 ltac:(lia)) as E1. pose proof (H2 Hl) as E2. split.
  - intros Heq. rewrite Heq in E1. pose proof (lookupZ_inj _ _ _ _ Hnd E1 E2). lia.
  - intros a Ha Hp. pose proof (H3 a Ha Hp) as E3. split_and!.
    + intros Heq. rewrite Heq in E3. pose proof (lookupZ_inj _ _ _ _ Hnd E3 E1). unfold sub_pos in *. lia.
    + intros Heq. rewrite Heq in E3. pose proof (lookupZ_inj _ _ _ _ Hnd E3 E2). unfold sub_pos in *. lia.
    + intros a' Ha' Hp' Hne Heq. pose proof (H3 a' Ha' Hp') as E4. rewrite Heq in E4.
      pose proof (lookupZ_inj _ _ _ _ Hnd E3 E4). unfold sub_pos in *. lia.
Qed.

(** A second-level block. *)
Lemma tree_sub d x P b a :
  tree_upto d x P → NoDup P → lengthZ P = sub_pos a → 0 <= a < 128 →
  block_wf (d (indirect2 x)) → length (ind_words d (indirect2 x)) = 128%nat →
  valid (mkIndirectBlock (<[Z.to_nat a := b]> (ind_words d (indirect2 x)))) →
  tree_upto (put_at d (indirect2 x) 0 (mkIndirectBlock (<[Z.to_nat a := b]> (ind_words d (indirect2 x)))))
    x (P ++ [b]).
Proof.
  intros Ht Hnd Hl Ha Hwf Hlen Hv. unfold sub_pos in Hl.
  destruct (tree_ind_distinct d x P Ht Hnd ltac:(lia)) as [H12 Hsub].
  set (d' := put_at _ _ _ _).
  assert (Hw2 : ind_words d' (indirect2 x) = <[Z.to_nat a := b]> (ind_words d (indirect2 x)))
    by (by apply ind_put_same).
  assert (Hwo : ∀ b', b' ≠ indirect2 x → ind_words d' b' = ind_words d b')
    by (intros; by apply ind_put_other).
  assert (Hww : ∀ a', 0 <= a' < a → word (Z.to_nat a') (ind_words d' (indirect2 x)) =
    word (Z.to_nat a') (ind_words d (indirect2 x))) by (intros; rewrite Hw2; apply word_insert_ne; lia).
  clearbody d'. eapply tree_extend; [exact Ht|..]; rewrite ?Hl; change (lengthZ [b]) with 1; try lia.
  - intros k Hk Hp. unfold inode_block. destruct (Z.ltb_spec k 28); [done|].
    destruct (Z.ltb_spec k 156); [by rewrite Hwo|]. rewrite Hww by pos_lia. rewrite Hwo; [done|].
    apply Hsub; pos_lia.
  - intros k Hk Hp. exfalso. pos_lia.
  - intros a' Ha' Hp. unfold sub_pos in *. apply Hww. lia.
  - intros a' Ha' Hp. unfold sub_pos in *. replace a' with a by lia. rewrite Hw2, word_insert_eq by lia.
    by replace (158 + 129 * a - (158 + 129 * a)) with 0 by lia.
Qed.

(** An entry of a second-level block. *)
Lemma tree_entry d x P b k a sb :
  tree_upto d x P → NoDup P → lengthZ P = pos k → 156 <= k → a = (k - 156) / 128 →
  sb = word (Z.to_nat a) (ind_words d (indirect2 x)) →
  block_wf (d sb) → length (ind_words d sb) = 128%nat →
  valid (mkIndirectBlock (<[Z.to_nat ((k - 156) mod 128) := b]> (ind_words d sb))) →
  tree_upto (put_at d sb 0 (mkIndirectBlock (<[Z.to_nat ((k - 156) mod 128) := b]> (ind_words d sb))))
    x (P ++ [b]).
Proof.
  intros Ht Hnd Hl Hk Ha Hsb Hwf Hlen Hv.
  assert (Hpk : pos k = sub_pos a + 1 + (k - 156) mod 128) by pos_lia.
  assert (Ha0 : 0 <= a) by zdiv. pose proof (Z.mod_pos_bound (k - 156) 128 ltac:(lia)) as Hm.
  destruct (tree_ind_distinct d x P Ht Hnd) as [H12 Hsub]; [unfold sub_pos in *; lia|].
  destruct (Hsub a Ha0 ltac:(lia)) as (Hs1 & Hs2 & Hs3). rewrite <- Hsb in *.
  set (d' := put_at _ _ _ _).
  assert (Hws : ind_words d' sb = <[Z.to_nat ((k - 156) mod 128) := b]> (ind_words d sb))
    by (by apply ind_put_same).
  assert (Hwo : ∀ b', b' ≠ sb → ind_words d' b' = ind_words d b') by (intros; by apply ind_put_other).
  clearbody d'. assert (Hw2 : ind_words d' (indirect2 x) = ind_words d (indirect2 x)) by (by apply Hwo).
  eapply tree_extend; [exact Ht|..]; rewrite ?Hl; change (lengthZ [b]) with 1; try (unfold sub_pos in *; lia).
  - intros j Hj Hp. unfold inode_block. destruct (Z.ltb_spec j 28); [done|].
    destruct (Z.ltb_spec j 156); [by rewrite Hwo|]. rewrite Hw2.
    destruct (decide ((j - 156) / 128 = a)) as [Hja|Hja].
    + rewrite Hja, <- Hsb, Hws. apply word_insert_ne. pos_lia.
    + rewrite Hwo; [done|]. apply Hs3; [zdiv| |done]. rewrite Hl. pos_lia.
  - intros j Hj Hp. assert (j = k) as -> by pos_lia. rewrite Z.sub_diag. unfold inode_block.
    destruct (Z.ltb_spec k 28); [lia|]. destruct (Z.ltb_spec k 156); [lia|].
    rewrite Hw2, <- Ha, <- Hsb, Hws, word_insert_eq by lia. done.
  - intros a' Ha' Hp. by rewrite Hw2.
Qed.

(** ** The loops of [increase_size] *)

Section growth.
Context {St : Type} {cap : Z} `{HS : BlockStore St} `{HL : !BlockStoreLaws St cap}.
(** Block numbers are stored in 32 bits. *)
Hypothesis Hcap : cap <= 2 ^ 32.

Abbreviation takeable_ := (takeable (cap := cap)).

Lemma wp_set_index arr i b (Q : list Z → St → Prop) s :
  0 <= i < lengthZ arr → Q (<[Z.to_nat i := b]> arr) s → wp (set_index arr i b) Q s.
Proof.
  intros Hi HQ. unfold set_index. wp_steps. destruct (lookupZ_is_Some arr i Hi) as [x Hx].
  eapply wp_index; [exact Hx|]. wp_steps. unfold insertZ. by destruct (Z.leb_spec 0 i); [|lia].
Qed.

Lemma wp_next nb b rest (Q : Z * list Z → St → Prop) s :
  nb = b :: rest → Q (b, rest) s → wp (next nb) Q s.
Proof. by intros -> ?. Qed.

Lemma splice_snoc (bs a : list Z) off b :
  (off + length a < length bs)%nat → <[(off + length a)%nat := b]> (splice bs off a) = splice bs off (a ++ [b]).
Proof.
  intros Hl. apply list_eq. intros i.
  rewrite (splice_lookup bs off (a ++ [b])) by (rewrite length_app; simpl; lia).
  rewrite length_app. simpl. destruct (decide (i = off + length a)%nat) as [->|Hne].
  - rewrite list_lookup_insert_eq by (rewrite length_splice; lia). rewrite decide_True by lia.
    rewrite lookup_app_r by lia. by replace (off + length a - off - length a)%nat with 0%nat by lia.
  - rewrite list_lookup_insert_ne by done. rewrite splice_lookup by lia.
    destruct (decide (off <= i < off + length a)%nat).
    + rewrite decide_True by lia. by rewrite lookup_app_l by lia.
    + by rewrite decide_False by lia.
Qed.

(** [fill] moves the first blocks of the iterator into the array. *)
Lemma wp_fill arr nb cur bound (Q : list Z * list Z * Z → St → Prop) s :
  0 <= cur → (cur < bound → bound <= lengthZ arr) → bound - cur <= lengthZ nb →
  Q (splice arr (Z.to_nat cur) (take (Z.to_nat (bound - cur)) nb),
     drop (Z.to_nat (bound - cur)) nb, Z.max cur bound) s →
  wp (fill arr nb cur bound) Q s.
Proof.
  intros Hc Hb Hn HQ. unfold fill. wp_steps. unfold lengthZ in *.
  eapply wp_mono.
  { apply (wp_fold_m (λ pre acc t, t = s ∧
      acc = (splice arr (Z.to_nat cur) (take (length pre) nb), drop (length pre) nb))).
    - split; [done|]. simpl. rewrite drop_0. unfold splice. simpl. by rewrite Nat.add_0_r, take_drop.
    - intros pre i post acc t Hl [-> ->].
      assert (Hi : i = cur + Z.of_nat (length pre) ∧ i < bound).
      { assert (seqZ cur (bound - cur) !! length pre = Some i) as Hlk by (rewrite Hl; by apply list_lookup_middle).
        apply lookup_seqZ in Hlk. lia. }
      wp_steps. cbn [fst snd]. assert (is_Some (nb !! length pre)) as [b Hbk] by (apply lookup_lt_is_Some; lia).
      eapply wp_next; [by apply drop_S|]. wp_steps.
      assert (Hlt : length (take (length pre) nb) = length pre) by (rewrite length_take; lia).
      apply wp_set_index; [unfold lengthZ; rewrite length_splice; lia|]. wp_steps. split; [done|].
      cbn [fst snd]. rewrite length_app. simpl. rewrite Nat.add_1_r. f_equal.
      rewrite (take_S_r _ _ b Hbk). rewrite <- splice_snoc by lia. f_equal. lia. }
  intros acc t [-> ->]. wp_steps. by rewrite length_seqZ.
Qed.

Lemma put_ind_eq d id ws b :
  block_wf (d id) → valid (mkIndirectBlock ws) →
  put_at d id 0 (mkIndirectBlock ws) b = if decide (b = id) then encode_words 4 ws else d b.
Proof.
  intros [Hl _] Hv. unfold put_at, upd. change (Z.to_nat 0) with 0%nat.
  destruct (decide (b = id)); [|done]. apply splice_all. rewrite Hl. apply (encode_length _ Hv).
Qed.

Lemma ind_valid_insert (ws : list Z) i b :
  valid (mkIndirectBlock ws) → 0 <= b < cap → valid (mkIndirectBlock (<[i := b]> ws)).
Proof.
  intros [Hl Hb] Hr. split; cbn [ib_words] in *; [by rewrite length_insert|].
  apply Forall_insert; [done|]. lia.
Qed.

(** In the middle of the loop over the doubly indirect block: [ws] are its
    entries, held by the closure, [P] the blocks in the tree so far and [F] the
    blocks in the end. *)
Record growing (F : list Z) (h : gset Z) (x : DiskInode) (s : St) (d : disk) (ws P : list Z) : Prop := {
  gr_store : store_ok s d ({[indirect2 x]} ∪ h);
  gr_valid : valid (mkIndirectBlock ws);
  gr_tree : tree_upto (put_at d (indirect2 x) 0 (mkIndirectBlock ws)) x P;
  gr_nodup : NoDup F;
  gr_take : Forall (takeable_ h) F;
  gr_ind2 : lookupZ P 157 = Some (indirect2 x)
}.

Lemma growing_length F h x s d ws P : growing F h x s d ws P → length ws = 128%nat.
Proof. by intros [_ [Hl _] _ _ _ _]. Qed.

Lemma prefix_nodup (P Q F : list Z) : NoDup F → P ++ Q = F → NoDup P.
Proof. intros Hnd <-. by apply NoDup_app in Hnd as (? & _ & _). Qed.

Lemma growing_range F h x s d ws P i b :
  growing F h x s d ws P → (∃ Q, P ++ Q = F) → lookupZ P i = Some b → takeable_ h b.
Proof.
  intros Hg [Q HQ] Hb. pose proof (gr_take _ _ _ _ _ _ _ Hg) as Ht. rewrite Forall_forall in Ht.
  apply Ht. rewrite <- HQ. apply elem_of_app. left. by eapply lookupZ_elem.
Qed.

Lemma growing_alloc F h x s d ws P a b rest :
  growing F h x s d ws P → P ++ b :: rest = F → lengthZ P = sub_pos a → 0 <= a < 128 →
  growing F h x s d (<[Z.to_nat a := b]> ws) (P ++ [b]).
Proof.
  intros Hg HF Hl Ha. pose proof (growing_range _ _ _ _ _ _ _ _ _ Hg ltac:(eauto) (gr_ind2 _ _ _ _ _ _ _ Hg)) as [Hr2 Hn2].
  destruct Hg as [Hs Hv Ht Hnd Htk Hi2].
  assert (Hb : 0 <= b < cap).
  { rewrite Forall_forall in Htk. apply (Htk b). rewrite <- HF. set_solver. }
  pose proof (store_wf s d _ _ Hs Hr2) as Hwf.
  pose proof (ind_valid_insert ws (Z.to_nat a) b Hv Hb) as Hv'.
  set (dv := put_at d (indirect2 x) 0 (mkIndirectBlock ws)) in *.
  assert (Hwfv : block_wf (dv (indirect2 x))).
  { unfold dv. rewrite put_ind_eq by done. rewrite decide_True by done. split.
    - apply (encode_length _ Hv).
    - apply encode_words_byte. }
  assert (Hws : ind_words dv (indirect2 x) = ws) by (by apply ind_put_same).
  split; [done|done| |done|done|].
  - eapply tree_upto_ext; [|apply (tree_sub dv x P b a Ht)].
    + intros c. rewrite Hws, !put_ind_eq by done. unfold dv. rewrite put_ind_eq by done. by case_decide.
    + by eapply prefix_nodup.
    + done.
    + done.
    + done.
    + rewrite Hws. apply Hv.
    + by rewrite Hws.
  - rewrite lookupZ_app_l; [done|]. by apply lookupZ_lt in Hi2.
Qed.

Lemma wp_growing_entry F h x s d ws P k v rest :
  growing F h x s d ws P → P ++ v :: rest = F → (S (size h) < BLOCK_CACHE_SIZE)%nat →
  lengthZ P = pos k → 156 <= k < INDIRECT2_BOUND →
  wp (fill_entry (word (Z.to_nat ((k - 156) / 128)) ws) ((k - 156) mod 128) (v :: rest))
    (λ r s', r = rest ∧ ∃ d', growing F h x s' d' ws (P ++ [v]) ∧ ∀ b, ¬ meta_of F b → d' b = d b) s.
Proof.
  intros Hg HF Hsz Hl Hk. unfold fill_entry. unfold_layout. set (a := (k - 156) / 128). set (b0 := (k - 156) mod 128).
  assert (Ha : 0 <= a < 128) by (unfold a; zdiv). assert (Hb0 : 0 <= b0 < 128) by (unfold b0; zdiv).
  assert (Hpk : pos k = sub_pos a + 1 + b0) by (unfold a, b0; pos_lia).
  pose proof (growing_range _ _ _ _ _ _ _ _ _ Hg ltac:(eauto) (gr_ind2 _ _ _ _ _ _ _ Hg)) as [Hr2 Hn2].
  pose proof Hg as [Hs Hv Ht Hnd Htk Hi2].
  pose proof (store_wf s d _ _ Hs Hr2) as Hwf2.
  set (dv := put_at d (indirect2 x) 0 (mkIndirectBlock ws)) in *.
  assert (Hws : ind_words dv (indirect2 x) = ws) by (by apply ind_put_same).
  pose proof (prefix_nodup _ _ _ Hnd HF) as HndP.
  destruct (tree_ind_distinct dv x P Ht HndP) as [_ Hsub]; [unfold sub_pos in *; lia|].
  destruct (Hsub a ltac:(lia) ltac:(lia)) as (_ & Hne & _). rewrite Hws in Hne.
  pose proof (tu_sub _ _ _ Ht a ltac:(lia) ltac:(lia)) as Hlk. rewrite Hws in Hlk.
  destruct (growing_range _ _ _ _ _ _ _ _ _ Hg ltac:(eauto) Hlk) as [Hsr Hsn].
  set (sb := word (Z.to_nat a) ws) in *.
  pose proof (store_wf s d _ _ Hs Hsr) as Hwfs.
  pose proof (at_valid (T := IndirectBlock) s d _ sb 0 Hs Hsr ltac:(done) ltac:(done)) as Hvs.
  assert (Hdv : ind_words dv sb = ind_words d sb) by (by apply ind_put_other).
  assert (Hvr : 0 <= v < cap).
  { rewrite Forall_forall in Htk. apply (Htk v). rewrite <- HF. apply elem_of_app. right. by left. }
  eapply wp_modify_block_as; [exact Hs|done|by rewrite not_elem_of_union, not_elem_of_singleton| |done|done|].
  { rewrite size_union by (by apply disjoint_singleton_l). rewrite size_singleton. lia. }
  intros s1 Hs1. wp_steps. eapply wp_next; [done|]. wp_steps.
  assert (Hvs' : valid (mkIndirectBlock (<[Z.to_nat b0 := v]> (ind_words d sb)))).
  { apply ind_valid_insert; [|done]. unfold ind_words. by destruct (at_block d sb 0). }
  apply wp_set_index.
  { fold (ind_words d sb). unfold lengthZ. rewrite (ind_length s d _ sb Hs Hsr). lia. }
  wp_steps. cbn [fst snd]. split; [exact Hvs'|]. exists d. split; [done|]. intros s3 Hs3.
  split; [done|]. fold (ind_words d sb) in Hs3.
  set (new := <[Z.to_nat b0 := v]> (ind_words d sb)) in *.
  exists (put_at d sb 0 (mkIndirectBlock new)). split; [split; [exact Hs3|done| |done|done|]|].
  - eapply tree_upto_ext; [|apply (tree_entry dv x P v k a sb Ht); [done..|lia|done|by rewrite Hws| | | ]].
    + intros c. rewrite Hdv. fold b0. fold new.
      rewrite (put_ind_eq dv), (put_ind_eq _ (indirect2 x) ws c) by (done || unfold dv; by rewrite put_other).
      unfold dv. rewrite !put_ind_eq by done. repeat case_decide; congruence.
    + unfold dv. by rewrite put_other.
    + rewrite Hdv. by eapply ind_length.
    + by rewrite Hdv.
  - rewrite lookupZ_app_l; [done|]. by apply lookupZ_lt in Hi2.
  - intros b Hb. apply put_other. intros ->. apply Hb.
    exists (sub_pos a). split; [right; right; exists a; split; [lia|done]|].
    rewrite <- HF, lookupZ_app_l by (rewrite Hl, Hpk; unfold sub_pos; lia). exact Hlk.
Qed.

(** The loop condition compares data block numbers. *)
Lemma fill2_cond n m :
  0 <= n → 0 <= m →
  ((n / 128 <? m / 128) || ((n / 128 =? m / 128) && (n mod 128 <? m mod 128))) = (n <? m).
Proof.
  intros. destruct (Z.ltb_spec (n / 128) (m / 128)), (Z.eqb_spec (n / 128) (m / 128)),
    (Z.ltb_spec (n mod 128) (m mod 128)), (Z.ltb_spec n m); simpl; try done; zdiv.
Qed.

(** Blocks in the tree when the loop is about to add data block [k]. *)
Definition filled (k : Z) : Z :=
  sub_pos ((k - 156) / 128) + (if (k - 156) mod 128 =? 0 then 0 else 1 + (k - 156) mod 128).

Lemma filled_next k :
  156 <= k → filled (k + 1) = pos k + 1 ∧ pos k = sub_pos ((k - 156) / 128) + 1 + (k - 156) mod 128 ∧
  filled k <= pos k.
Proof.
  intros. unfold filled. destruct (Z.eqb_spec ((k - 156) mod 128) 0), (Z.eqb_spec ((k + 1 - 156) mod 128) 0);
    pos_lia.
Qed.

Lemma filled_mono k m : 156 <= k <= m → filled k <= filled m.
Proof.
  intros. unfold filled. destruct (Z.eqb_spec ((k - 156) mod 128) 0), (Z.eqb_spec ((m - 156) mod 128) 0); pos_lia.
Qed.

Lemma filled_tot k : 156 < k → filled k = tot k.
Proof. intros. unfold filled. destruct (Z.eqb_spec ((k - 156) mod 128) 0); pos_lia. Qed.

Lemma filled_cons (P nb F : list Z) n :
  P ++ nb = F → n < lengthZ F → lengthZ P = n → ∃ v rest, nb = v :: rest.
Proof.
  intros <- Hlt Hl. rewrite lengthZ_app in Hlt. destruct nb as [|v rest]; [|eauto].
  unfold lengthZ at 2 in Hlt. simpl in Hlt. lia.
Qed.
Lemma lengthZ_snoc {A} (P : list A) v : lengthZ (P ++ [v]) = lengthZ P + 1.
Proof. by rewrite lengthZ_app. Qed.

Lemma wp_alloc_sub F h x s d ws P nb k :
  growing F h x s d ws P → P ++ nb = F → 156 <= k < INDIRECT2_BOUND →
  lengthZ P = filled k → filled k < lengthZ F →
  wp (alloc_sub ws nb ((k - 156) / 128) ((k - 156) mod 128))
    (λ r s', s' = s ∧ ∃ P', growing F h x s d (fst r) P' ∧ P' ++ snd r = F ∧ lengthZ P' = pos k) s.
Proof.
  intros Hg HF Hk HlP Hlt. unfold_layout. destruct (filled_next k ltac:(lia)) as (_ & Hpk & _).
  unfold alloc_sub, filled in *. destruct (Z.eqb_spec ((k - 156) mod 128) 0) as [Hz|Hz].
  - destruct (filled_cons _ _ _ _ HF Hlt HlP) as (b & rest & ->).
    wp_steps. eapply wp_next; [done|]. wp_steps. apply wp_set_index.
    { unfold lengthZ. rewrite (growing_length _ _ _ _ _ _ _ Hg). zdiv. }
    wp_steps. split; [done|]. exists (P ++ [b]). cbn [fst snd]. split_and!.
    + eapply growing_alloc; [done|done|lia|zdiv].
    + by rewrite <- app_assoc.
    + rewrite lengthZ_snoc. lia.
  - wp_steps. split; [done|]. exists P. split_and!; [done|done|]. lia.
Qed.

Lemma wp_fill2 F h x fuel s d ws P nb k m :
  growing F h x s d ws P → P ++ nb = F → (S (size h) < BLOCK_CACHE_SIZE)%nat →
  156 <= k <= m → m <= INDIRECT2_BOUND → lengthZ P = filled k → lengthZ F = filled m →
  (Z.to_nat (m - k) <= fuel)%nat →
  wp (fill2 fuel ws nb ((k - 156) / 128) ((k - 156) mod 128) ((m - 156) / 128) ((m - 156) mod 128))
    (λ ws' s', ∃ d', growing F h x s' d' ws' F ∧ ∀ b, ¬ meta_of F b → d' b = d b) s.
Proof.
  intros Hg HF Hsz Hk Hm HlP HlF. unfold_layout. revert k s d ws P nb Hg HF Hk HlP.
  induction fuel as [|fuel IH]; intros k s d ws P nb Hg HF Hk HlP Hfuel; cbn [fill2];
    rewrite fill2_cond by lia; destruct (Z.ltb_spec (k - 156) (m - 156)); try lia.
  1,3: assert (k = m) as -> by lia; assert (P = F) as ->;
    [apply (app_inj_1 P F nb []); [unfold lengthZ in *; lia|by rewrite app_nil_r]|wp_steps; by eauto].
  destruct (filled_next k ltac:(lia)) as (Hf1 & Hpk & Hle).
  pose proof (filled_mono (k + 1) m ltac:(lia)) as Hmono.
  wp_steps. eapply wp_mono; [eapply wp_alloc_sub; [done|done|unfold_layout; lia|done|lia]|].
  clear ws P nb Hg HF HlP. intros [ws nb] ? (-> & P & Hg & HF & HlP). cbn [fst snd] in *.
  wp_steps. eapply wp_index.
  { rewrite lookupZ_nat by zdiv. apply word_eta. rewrite (growing_length _ _ _ _ _ _ _ Hg). zdiv. }
  destruct (filled_cons P nb F (pos k) HF ltac:(lia) HlP) as (v & rest & ->).
  wp_steps. eapply wp_mono; [eapply wp_growing_entry; [done|done|done|done|unfold_layout; lia]|].
  intros r s' (-> & d' & Hg' & Hfr).
  assert (Hrec : wp (fill2 fuel ws rest ((k + 1 - 156) / 128) ((k + 1 - 156) mod 128)
    ((m - 156) / 128) ((m - 156) mod 128))
    (λ ws' s'', ∃ d'', growing F h x s'' d'' ws' F ∧ ∀ b, ¬ meta_of F b → d'' b = d' b) s').
  { apply (IH (k + 1) s' d' ws (P ++ [v])); [done|by rewrite <- app_assoc|lia| |lia].
    rewrite lengthZ_snoc. lia. }
  eapply (wp_mono _ _ (λ ws' s'', ∃ d'', growing F h x s'' d'' ws' F ∧ ∀ b, ¬ meta_of F b → d'' b = d b)) in Hrec.
  2: { intros ws' s'' (d'' & Hg'' & Hfr''). exists d''. split; [done|]. intros b Hb.
       by rewrite Hfr'', Hfr. }
  unfold_layout. destruct (Z.eqb_spec ((k - 156) mod 128 + 1) 128) as [He|He].
  - replace ((k + 1 - 156) / 128) with ((k - 156) / 128 + 1) in Hrec by zdiv.
    by replace ((k + 1 - 156) mod 128) with 0 in Hrec by zdiv.
  - replace ((k + 1 - 156) / 128) with ((k - 156) / 128) in Hrec by zdiv.
    by replace ((k + 1 - 156) mod 128) with ((k - 156) mod 128 + 1) in Hrec by zdiv.
Qed.

(** ** [increase_size] *)

(** The new inode and disk hold the tree [F]; only its indirect blocks changed. *)
Definition grown (F : list Z) (h : gset Z) (x x' : DiskInode) (d : disk) (s' : St) : Prop :=
  valid x' ∧ di_size x' = di_size x ∧ type_ x' = type_ x ∧
  ∃ d', store_ok s' d' h ∧ tree_upto d' x' F ∧ ∀ b, ¬ meta_of F b → d' b = d b.

Lemma grown_trans F h x x1 x2 d d1 s :
  grown F h x1 x2 d1 s → di_size x1 = di_size x → type_ x1 = type_ x →
  (∀ b, ¬ meta_of F b → d1 b = d b) → grown F h x x2 d s.
Proof.
  intros (Hv & H1 & H2 & d' & Hs & Ht & Hf) E1 E2 Hd. unfold grown. rewrite H1, H2.
  split_and!; [done..|]. exists d'. split_and!; [done..|]. intros b Hb. rewrite Hf, Hd by done. done.
Qed.

Lemma valid_direct_length (x : DiskInode) : valid x → length (direct x) = 28%nat.
Proof. by intros [? _]. Qed.

Lemma valid_set_indirect2 (x : DiskInode) b : valid x → 0 <= b < cap → valid (set_indirect2 b x).
Proof.
  intros (Hd & Hw & Ht & Hp & Hpb) Hb. split; [done|]. split; [|done]. unfold words_valid, di_words in *. simpl.
  rewrite Forall_cons, Forall_app in Hw |- *. destruct Hw as (? & ? & Hi). split; [done|]. split; [done|].
  inversion Hi; subst. repeat constructor; try done; lia.
Qed.
Lemma valid_set_indirect1 (x : DiskInode) b : valid x → 0 <= b < cap → valid (set_indirect1 b x).
Proof.
  intros (Hd & Hw & Ht & Hp & Hpb) Hb. split; [done|]. split; [|done]. unfold words_valid, di_words in *. simpl.
  rewrite Forall_cons, Forall_app in Hw |- *. destruct Hw as (? & ? & Hi). split; [done|]. split; [done|].
  inversion Hi as [|? ? ? Hi']; subst. constructor; [lia|done].
Qed.
Lemma valid_set_direct (x : DiskInode) l :
  valid x → length l = 28%nat → words_valid l → valid (set_direct l x).
Proof.
  intros (Hd & Hw & Ht & Hp & Hpb) Hl Hlw. split; [done|]. split; [|done]. unfold words_valid, di_words in *. simpl.
  rewrite Forall_cons, Forall_app in Hw |- *. by destruct Hw as (? & ? & Hi).
Qed.

(** The loop over the doubly indirect block, in place. *)
Lemma wp_grow2_fill F h x s d P nb c m :
  store_ok s d h → valid x → tree_upto d x P → P ++ nb = F → NoDup F → Forall (takeable_ h) F →
  (S (size h) < BLOCK_CACHE_SIZE)%nat → lookupZ P 157 = Some (indirect2 x) →
  156 <= c <= m → m <= INDIRECT2_BOUND → lengthZ P = filled c → lengthZ F = filled m →
  wp (_ ← modify_block_as (indirect2 x) 0 (λ b : IndirectBlock,
        ws ← fill2 (Z.to_nat (m - 156 - (c - 156))) (ib_words b) nb
              ((c - 156) / 128) ((c - 156) mod 128) ((m - 156) / 128) ((m - 156) mod 128);
        mret (tt, mkIndirectBlock ws)); mret x) (λ x' s', grown F h x x' d s') s.
Proof.
  intros Hs Hv Ht HF Hnd Htk Hsz Hi2 Hc Hm HlP HlF. unfold_layout.
  assert (H2F : lookupZ F 157 = Some (indirect2 x)).
  { rewrite <- HF, lookupZ_app_l; [done|]. by apply lookupZ_lt in Hi2. }
  assert (takeable_ h (indirect2 x)) as [Hr2 Hn2].
  { rewrite Forall_forall in Htk. by eapply Htk, lookupZ_elem. }
  pose proof (store_wf s d h _ Hs Hr2) as Hwf.
  wp_steps. eapply wp_modify_block_as; [exact Hs|done|done|lia|done|done|]. intros s1 Hs1.
  assert (Hg : growing F h x s1 d (ind_words d (indirect2 x)) P).
  { split; try done.
    - pose proof (at_valid (T := IndirectBlock) s d h _ 0 Hs Hr2 ltac:(done) ltac:(done)) as Hvi.
      unfold ind_words. by destruct (at_block d (indirect2 x) 0).
    - eapply tree_upto_ext; [|exact Ht]. intros b. symmetry.
      replace (mkIndirectBlock (ind_words d (indirect2 x))) with (at_block (T := IndirectBlock) d (indirect2 x) 0).
      + by apply put_at_id.
      + unfold ind_words. by destruct (at_block d (indirect2 x) 0). }
  wp_steps. eapply wp_mono; [eapply wp_fill2; [exact Hg|done|done|done|unfold_layout; lia|done|done|lia]|].
  intros ws s2 (d' & Hg' & Hfr). wp_steps. cbn [fst snd].
  split; [apply (gr_valid _ _ _ _ _ _ _ Hg')|]. exists d'. split; [apply (gr_store _ _ _ _ _ _ _ Hg')|].
  intros s3 Hs3. wp_steps. split_and!; [done..|]. eexists. split_and!; [exact Hs3|apply (gr_tree _ _ _ _ _ _ _ Hg')|].
  intros b Hb. rewrite upd_other; [by apply Hfr|]. intros ->. apply Hb. exists 157. split; [by right; left|done].
Qed.

Lemma wp_grow_indirect2 F h x s d P nb c m :
  store_ok s d h → valid x → tree_upto d x P → P ++ nb = F → NoDup F → Forall (takeable_ h) F →
  (S (size h) < BLOCK_CACHE_SIZE)%nat → 156 <= c <= m → 156 < m <= INDIRECT2_BOUND →
  lengthZ P = tot c → lengthZ F = tot m →
  wp (grow_indirect2 x nb (c - 28) (m - 28)) (λ x' s', grown F h x x' d s') s.
Proof.
  intros Hs Hv Ht HF Hnd Htk Hsz Hc Hm HlP HlF. unfold_layout. unfold grow_indirect2. unfold_layout.
  rewrite <- filled_tot in HlF by lia.
  replace (c - 28 - 128) with (c - 156) by lia. replace (m - 28 - 128) with (m - 156) by lia.
  rewrite !wrap_small by lia. destruct (Z.eqb_spec (c - 28) 128) as [Heq|Hne].
  - assert (c = 156) as -> by lia. change (tot 156) with 157 in HlP.
    destruct (filled_cons P nb F 157 HF) as (b & rest & ->); [|done|].
    { rewrite HlF. pose proof (filled_mono 156 m ltac:(lia)) as H1. change (filled 156) with 158 in H1. lia. }
    assert (takeable_ h b) as [Hb _].
    { rewrite Forall_forall in Htk. apply Htk. rewrite <- HF. apply elem_of_app. right. by left. }
    apply wp_bind. apply wp_bind. eapply wp_next; [done|]. apply wp_ret. cbn [fst snd].
    eapply wp_mono; [eapply (wp_grow2_fill F h _ s d (P ++ [b]) rest 156 m); try done|].
    + by apply valid_set_indirect2.
    + by apply tree_ind2.
    + by rewrite <- app_assoc.
    + rewrite lookupZ_app_r by lia. rewrite HlP. done.
    + unfold_layout. lia.
    + rewrite lengthZ_snoc, HlP. done.
    + intros x' s' Hg. eapply grown_trans; [exact Hg|done..].
  - apply wp_bind, wp_ret. apply (wp_grow2_fill F h x s d P nb c m); try done.
    + apply (tu_ind2 _ _ _ Ht). rewrite HlP. pos_lia.
    + unfold_layout. lia.
    + rewrite HlP. rewrite filled_tot by lia. done.
Qed.

Lemma ind_valid_splice (ws u : list Z) off h :
  valid (mkIndirectBlock ws) → (off + length u <= 128)%nat → Forall (takeable_ h) u →
  valid (mkIndirectBlock (splice ws off u)).
Proof.
  intros [Hl Hb] Hle Hu. cbn [ib_words] in *. split; cbn [ib_words].
  - rewrite length_splice; [done|]. lia.
  - unfold splice. apply Forall_app. split; [by apply Forall_take|]. apply Forall_app.
    split; [|by apply Forall_drop]. eapply Forall_impl; [exact Hu|]. intros b [? _]. lia.
Qed.

Lemma ind_block_eta d id : mkIndirectBlock (ind_words d id) = at_block d id 0.
Proof. unfold ind_words. by destruct (at_block d id 0). Qed.

Lemma wp_grow1_fill F h x s d P nb c m :
  store_ok s d h → tree_upto d x P → P ++ nb = F → NoDup F → Forall (takeable_ h) F →
  (size h < BLOCK_CACHE_SIZE)%nat → lookupZ P 28 = Some (indirect1 x) →
  28 <= c <= m → 28 < m <= INDIRECT2_BOUND → lengthZ P = Z.max (c + 1) (tot c) → lengthZ F = tot m →
  wp (modify_block_as (indirect1 x) 0 (λ b : IndirectBlock,
        r ← fill (ib_words b) nb (c - 28) (Z.min (m - 28) 128);
        let '(ws, nb', cur) := r in mret (nb', cur, mkIndirectBlock ws)))
    (λ r s', ∃ d' P', store_ok s' d' h ∧ tree_upto d' x P' ∧ P' ++ fst r = F ∧
       snd r = Z.max c (Z.min m 156) - 28 ∧ lengthZ P' = Z.max (lengthZ P) (Z.min m 156 + 1) ∧
       ∀ b, ¬ meta_of F b → d' b = d b) s.
Proof.
  intros Hs Ht HF Hnd Htk Hsz Hi1 Hc Hm HlP HlF. unfold_layout.
  assert (H1F : lookupZ F 28 = Some (indirect1 x)).
  { rewrite <- HF, lookupZ_app_l; [done|]. by apply lookupZ_lt in Hi1. }
  assert (takeable_ h (indirect1 x)) as [Hr1 Hn1].
  { rewrite Forall_forall in Htk. by eapply Htk, lookupZ_elem. }
  pose proof (store_wf s d h _ Hs Hr1) as Hwf. pose proof (ind_length s d h _ Hs Hr1) as Hlen.
  assert (Hnb : lengthZ nb = lengthZ F - lengthZ P) by (rewrite <- HF, lengthZ_app; lia).
  assert (Hneed : Z.min (m - 28) 128 - (c - 28) <= lengthZ nb ∧ (c <= 156 → lengthZ P = c + 1)) by pos_lia.
  destruct Hneed as [Hneed HcP].
  eapply wp_modify_block_as; [exact Hs|done|done|done|done|done|]. intros s1 Hs1. fold (ind_words d (indirect1 x)).
  wp_steps. apply wp_fill; [lia|intros _; unfold lengthZ; lia|done|]. wp_steps. cbn [fst snd].
  set (k := Z.to_nat (Z.min (m - 28) 128 - (c - 28))). set (u := take k nb).
  assert (Hu : length u = k) by (unfold u, lengthZ in *; rewrite length_take; lia).
  assert (Htu : Forall (takeable_ h) u).
  { apply Forall_take. rewrite <- HF in Htk. by apply Forall_app in Htk as [_ ?]. }
  assert (Hvs : valid (mkIndirectBlock (ind_words d (indirect1 x)))).
  { rewrite ind_block_eta. by eapply at_valid. }
  assert (Hfr : ∀ v b, ¬ meta_of F b → put_at d (indirect1 x) 0 (mkIndirectBlock v) b = d b).
  { intros v b Hb. apply put_other. intros ->. apply Hb. exists 28. split; [by left|done]. }
  destruct (decide (c <= 156)) as [Hle|Hgt].
  - assert (Hoff : Z.to_nat (c - 28) = (length P - 29)%nat) by (unfold lengthZ in *; lia). rewrite Hoff.
    assert (Hvs' : valid (mkIndirectBlock (splice (ind_words d (indirect1 x)) (length P - 29) u)))
      by (eapply ind_valid_splice; [done|lia|done]).
    split; [exact Hvs'|]. exists d. split; [done|]. intros s3 Hs3.
    eexists _, (P ++ u). split_and!; [exact Hs3| | |cbn [snd]; lia| |by apply Hfr].
    + apply tree_ind1_fill; [done| | |done|done|done]; unfold lengthZ in *; lia.
    + rewrite <- app_assoc. unfold u. cbn [fst]. by rewrite take_drop.
    + rewrite lengthZ_app. unfold lengthZ in *. lia.
  - assert (k = 0%nat) as Hk0 by (unfold k; lia). unfold u. rewrite Hk0, take_0, drop_0.
    assert (splice (ind_words d (indirect1 x)) (Z.to_nat (c - 28)) [] = ind_words d (indirect1 x)) as ->.
    { unfold splice. simpl. by rewrite Nat.add_0_r, take_drop. }
    split; [exact Hvs|]. exists d. split; [done|]. intros s3 Hs3.
    eexists _, P. split_and!; [exact Hs3| |done|cbn [snd]; lia|lia|by apply Hfr].
    eapply tree_upto_ext; [|exact Ht]. intros b. symmetry. rewrite ind_block_eta. by apply put_at_id.
Qed.

Lemma wp_grow1_tail F h x s d P nb c m :
  store_ok s d h → valid x → tree_upto d x P → P ++ nb = F → NoDup F → Forall (takeable_ h) F →
  (S (size h) < BLOCK_CACHE_SIZE)%nat → lookupZ P 28 = Some (indirect1 x) →
  28 <= c <= m → 28 < m <= INDIRECT2_BOUND → lengthZ P = Z.max (c + 1) (tot c) → lengthZ F = tot m →
  wp (r ← modify_block_as (indirect1 x) 0 (λ b : IndirectBlock,
            r ← fill (ib_words b) nb (c - 28) (Z.min (m - 28) 128);
            let '(ws, nb', cur) := r in mret (nb', cur, mkIndirectBlock ws));
      let '(nb, cur) := r in
      if m - 28 <=? 128 then mret x else grow_indirect2 x nb cur (m - 28))
    (λ x' s', grown F h x x' d s') s.
Proof.
  intros Hs Hv Ht HF Hnd Htk Hsz Hi1 Hc Hm HlP HlF.
  apply wp_bind. eapply wp_mono; [eapply wp_grow1_fill; (done || lia)|]. unfold_layout.
  intros [nb' cur] s1 (d1 & P1 & Hs1 & Ht1 & HF1 & Hcur & Hl1 & Hfr).
  cbn [fst snd] in *. subst cur.
  destruct (Z.leb_spec (m - 28) 128).
  - wp_steps. assert (P1 = F) as ->.
    { apply (app_inj_1 P1 F nb' []); [|by rewrite app_nil_r].
      enough (lengthZ P1 = lengthZ F) by (unfold lengthZ in *; lia). rewrite Hl1, HlP, HlF. pos_lia. }
    split_and!; [done..|]. by exists d1.
  - eapply wp_mono; [apply (wp_grow_indirect2 F h x s1 d1 P1 nb' (Z.max c (Z.min m 156)) m); try done|].
    + lia.
    + unfold_layout. lia.
    + rewrite Hl1, HlP. pos_lia.
    + intros x' s' Hg. by eapply grown_trans; [exact Hg|..].
Qed.

Lemma wp_grow_indirect1 F h x s d P nb c m :
  store_ok s d h → valid x → tree_upto d x P → P ++ nb = F → NoDup F → Forall (takeable_ h) F →
  (S (size h) < BLOCK_CACHE_SIZE)%nat → 28 <= c <= m → 28 < m <= INDIRECT2_BOUND →
  lengthZ P = tot c → lengthZ F = tot m →
  wp (grow_indirect1 x nb c m) (λ x' s', grown F h x x' d s') s.
Proof.
  intros Hs Hv Ht HF Hnd Htk Hsz Hc Hm HlP HlF. unfold grow_indirect1. unfold_layout.
  rewrite !wrap_small by lia. destruct (Z.eqb_spec c 28) as [->|Hne].
  - change (tot 28) with 28 in HlP.
    destruct (filled_cons P nb F 28 HF) as (b & rest & ->); [rewrite HlF; pos_lia|done|].
    assert (takeable_ h b) as [Hb _].
    { rewrite Forall_forall in Htk. apply Htk. rewrite <- HF. apply elem_of_app. right. by left. }
    apply wp_bind, wp_bind. eapply wp_next; [done|]. apply wp_ret. cbn [fst snd].
    eapply wp_mono; [apply (wp_grow1_tail F h (set_indirect1 b x) s d (P ++ [b]) rest 28 m); try done|].
    + by apply valid_set_indirect1.
    + by apply tree_ind1.
    + by rewrite <- app_assoc.
    + rewrite lookupZ_app_r by lia. rewrite HlP. done.
    + rewrite lengthZ_snoc, HlP. done.
    + intros x' s' Hg. by eapply grown_trans; [exact Hg|..].
  - apply wp_bind, wp_ret. apply (wp_grow1_tail F h x s d P nb c m); try done.
    + apply (tu_ind1 _ _ _ Ht). rewrite HlP. pos_lia.
    + rewrite HlP. pos_lia.
Qed.

Lemma tree_set_size d x n P : tree_upto d x P → tree_upto d (set_size n x) P.
Proof. intros [H1 H2 H3 H4]. split; [exact H1|exact H2|exact H3|exact H4]. Qed.

Lemma set_direct_id (x : DiskInode) : set_direct (direct x) x = x.
Proof. by destruct x. Qed.

Lemma data_blocks_range size :
  0 <= size <= 512 * INDIRECT2_BOUND → 0 <= _data_blocks size <= INDIRECT2_BOUND.
Proof.
  unfold_layout. intros. unfold _data_blocks. unfold_layout.
  rewrite (wrap_small 32 (size + 512)), wrap_small by lia. zdiv.
Qed.
Lemma data_blocks_mono size size' :
  0 <= size <= size' → size' <= 512 * INDIRECT2_BOUND → _data_blocks size <= _data_blocks size'.
Proof.
  unfold_layout. intros. unfold _data_blocks. unfold_layout.
  rewrite (wrap_small 32 (size + 512)), (wrap_small 32 (size' + 512)), !wrap_small by lia. zdiv.
Qed.

(** Phase 1: the direct blocks. *)
Lemma grow_direct d x L nb m h :
  tree d x (data_blocks x) L → valid x → 0 <= data_blocks x <= m → lengthZ (L ++ nb) = tot m →
  Forall (takeable_ h) (L ++ nb) →
  let k := Z.to_nat (Z.min m 28 - data_blocks x) in
  let x' := set_direct (splice (direct x) (Z.to_nat (data_blocks x)) (take k nb)) x in
  Z.min m 28 - data_blocks x <= lengthZ nb ∧ valid x' ∧ tree_upto d x' (L ++ take k nb) ∧
  lengthZ (L ++ take k nb) = tot (Z.max (data_blocks x) (Z.min m 28)).
Proof.
  intros [Hl Ht] Hv Hm HlF Htk k x'. pose proof (valid_direct_length x Hv) as Hdir.
  set (n := data_blocks x) in *. rewrite lengthZ_app, Hl in HlF.
  assert (Hneed : Z.min m 28 - n <= lengthZ nb ∧ (n < 28 → tot n = n)) by pos_lia.
  destruct Hneed as [Hneed Htn]. split; [done|].
  assert (Hlu : length (take k nb) = k) by (unfold k, lengthZ in *; rewrite length_take; lia).
  apply Forall_app in Htk as [_ Htk]. destruct (decide (n < 28)) as [Hlt|Hge].
  - rewrite (Htn Hlt) in Hl. assert (Hn : Z.to_nat n = length L) by (unfold lengthZ in *; lia).
    split_and!.
    + apply valid_set_direct; [done|rewrite length_splice; unfold lengthZ in *; lia|]. unfold splice.
      destruct Hv as (_ & Hw & _). unfold words_valid, di_words in *. rewrite Forall_cons, Forall_app in Hw.
      destruct Hw as (_ & Hw & _). rewrite !Forall_app. split_and!; [by apply Forall_take| |by apply Forall_drop].
      apply Forall_take. eapply Forall_impl; [exact Htk|]. intros b [? _]. lia.
    + unfold x'. rewrite Hn. apply tree_direct; [done..|]. unfold lengthZ in *. lia.
    + rewrite lengthZ_app. unfold lengthZ at 2. rewrite Hlu. pos_lia.
  - assert (k = 0%nat) as Hk by (unfold k; lia). unfold x'. rewrite Hk, take_0, app_nil_r.
    assert (splice (direct x) (Z.to_nat n) [] = direct x) as ->.
    { unfold splice. simpl. by rewrite Nat.add_0_r, take_drop. }
    rewrite set_direct_id. split_and!; [done|done|]. rewrite Hl. f_equal. lia.
Qed.

Lemma wp_increase_size s d h x L nb new_size :
  store_ok s d h → (S (size h) < BLOCK_CACHE_SIZE)%nat → valid x → tree d x (data_blocks x) L →
  NoDup (L ++ nb) → Forall (takeable_ h) (L ++ nb) →
  di_size x <= new_size <= 512 * INDIRECT2_BOUND →
  lengthZ nb = tot (_data_blocks new_size) - tot (data_blocks x) →
  wp (increase_size new_size nb x)
    (λ x' s', grown (L ++ nb) h (set_size new_size x) x' d s') s.
Proof.
  intros Hs Hsz Hv Ht Hnd Htk Hsize Hnb. unfold increase_size.
  assert (Hsx : 0 <= di_size x).
  { destruct Hv as (_ & Hw & _). apply Forall_cons in Hw as [? _]. lia. }
  pose proof (data_blocks_range new_size ltac:(lia)) as Hr.
  pose proof (data_blocks_range (di_size x) ltac:(lia)) as Hr0.
  pose proof (data_blocks_mono (di_size x) new_size ltac:(lia) ltac:(lia)) as Hmono.
  change (data_blocks (set_size new_size x)) with (_data_blocks new_size).
  change (_data_blocks (di_size x)) with (data_blocks x) in *.
  set (m := _data_blocks new_size) in *.
  assert (HlF : lengthZ (L ++ nb) = tot m) by (destruct Ht as [Hl _]; rewrite lengthZ_app, Hl; lia).
  assert (Hv' : valid (set_size new_size x)).
  { destruct Hv as (Hd & Hw & Hrest). split; [done|]. split; [|done]. unfold words_valid, di_words in *. simpl.
    apply Forall_cons in Hw as [_ Hw]. apply Forall_cons. split; [|done]. unfold_layout. lia. }
  destruct (grow_direct d x L nb m h Ht Hv ltac:(lia) HlF Htk) as (Hneed & Hvx & Htx & HlP).
  cbn zeta in *. set (k := Z.to_nat (Z.min m 28 - data_blocks x)) in *. unfold_layout. wp_steps.
  apply wp_fill; [lia|intros; unfold lengthZ; cbn [direct set_size]; rewrite (valid_direct_length x Hv); lia|done|].
  cbn [direct set_size]. fold k.
  set (x1 := set_direct _ _). set (dir := splice _ _ _) in *.
  assert (Hvx1 : valid x1).
  { destruct Hvx as (Hd & Hw & Hrest). split; [done|]. split; [|done]. unfold words_valid, di_words in *. simpl in *.
    apply Forall_cons in Hw as [_ Hw]. apply Forall_cons. split; [lia|done]. }
  assert (Htx1 : tree_upto d x1 (L ++ take k nb)).
  { apply (tree_set_size d _ new_size) in Htx. exact Htx. }
  assert (HFeq : (L ++ take k nb) ++ drop k nb = L ++ nb) by (by rewrite <- app_assoc, take_drop).
  destruct (Z.leb_spec m 28).
  - wp_steps. split_and!; [done|done|done|]. exists d. split_and!; [done| |done].
    assert (L ++ take k nb = L ++ nb) as <-; [|done].
    apply (app_inj_1 _ _ (drop k nb) []); [|by rewrite app_nil_r].
    enough (lengthZ (L ++ take k nb) = lengthZ (L ++ nb)) by (unfold lengthZ in *; lia).
    rewrite HlP, HlF. f_equal. lia.
  - eapply wp_mono; [apply (wp_grow_indirect1 (L ++ nb) h x1 s d (L ++ take k nb) (drop k nb)
      (Z.max (data_blocks x) (Z.min m 28)) m); try done|].
    + lia.
    + unfold_layout. lia.
    + intros x' s' Hg. by eapply grown_trans; [exact Hg|..].
Qed.

(** ** [clear_size] *)

(** Pushing [w] extends the prefix of [L] collected so far. *)
Lemma push_segment (L w : list Z) j :
  (j + length w <= length L)%nat → (∀ i y, w !! i = Some y → L !! (j + i)%nat = Some y) →
  take j L ++ w = take (j + length w) L.
Proof.
  intros Hl Hw. rewrite <- take_take_drop. f_equal. apply list_eq. intros i.
  destruct (decide (i < length w)%nat).
  - assert (is_Some (w !! i)) as [y Hy] by (by apply lookup_lt_is_Some).
    rewrite Hy, lookup_take_lt, lookup_drop by done. symmetry. by apply Hw.
  - rewrite lookup_ge_None_2, lookup_take_ge by lia. done.
Qed.

Lemma wp_push_all v (arr : list Z) bound (Q : list Z → St → Prop) s :
  0 <= bound <= lengthZ arr → Q (v ++ take (Z.to_nat bound) arr) s → wp (push_all v arr bound) Q s.
Proof.
  intros Hb HQ. unfold push_all. unfold lengthZ in *. eapply wp_mono.
  { apply (wp_fold_m (λ pre acc t, t = s ∧ acc = v ++ take (length pre) arr)).
    - split; [done|]. simpl. by rewrite app_nil_r.
    - intros pre i post acc t Hl [-> ->].
      assert (seqZ 0 bound !! length pre = Some i) as Hlk by (rewrite Hl; by apply list_lookup_middle).
      apply lookup_seqZ in Hlk as [-> Hlt]. wp_steps.
      assert (is_Some (arr !! length pre)) as [y Hy] by (apply lookup_lt_is_Some; lia).
      eapply wp_index; [rewrite lookupZ_nat by lia; rewrite Z.add_0_l, Nat2Z.id; exact Hy|]. wp_steps.
      split; [done|]. rewrite length_app. simpl. rewrite Nat.add_1_r, (take_S_r _ _ y Hy).
      by rewrite app_assoc. }
  intros acc t [-> ->]. by rewrite length_seqZ.
Qed.

(** A closure that leaves the block as it is. *)
Lemma wp_modify_keep {V} s d h id (f : IndirectBlock → M St V) Q :
  store_ok s d h → takeable_ h id → (size h < BLOCK_CACHE_SIZE)%nat →
  (∀ s1, store_ok s1 d ({[id]} ∪ h) →
     wp (f (at_block d id 0)) (λ v s2, store_ok s2 d ({[id]} ∪ h) ∧ ∀ s3, store_ok s3 d h → Q v s3) s1) →
  wp (modify_block_as id 0 (λ b, v ← f b; mret (v, b))) Q s.
Proof.
  intros Hs [Hr Hn] Hsz Hf. eapply wp_modify_block_as; [exact Hs|done..|]. intros s1 Hs1. wp_steps.
  eapply wp_mono; [by apply Hf|]. intros v s2 [Hs2 HQ]. wp_steps. cbn [fst snd].
  split; [by eapply at_valid|]. exists d. split; [done|]. intros s3 Hs3. apply HQ.
  eapply store_ext; [exact Hs3|]. intros b Hb. symmetry. apply put_at_id; [by eapply store_wf|done|done].
Qed.

Lemma wp_clear_direct v0 (dir : list Z) n (Q : list Z * list Z → St → Prop) s :
  0 <= n <= lengthZ dir → words_valid dir →
  (∀ dir', length dir' = length dir → words_valid dir' → Q (v0 ++ take (Z.to_nat n) dir, dir') s) →
  wp (fold_m (λ r i, b ← index (snd r) i; dir ← set_index (snd r) i 0; mret (fst r ++ [b], dir))
        (v0, dir) (seqZ 0 n)) Q s.
Proof.
  intros Hn Hd HQ. unfold lengthZ in *. eapply wp_mono.
  { apply (wp_fold_m (λ pre acc t, t = s ∧ fst acc = v0 ++ take (length pre) dir ∧
      length (snd acc) = length dir ∧ words_valid (snd acc) ∧
      ∀ j, (length pre <= j)%nat → snd acc !! j = dir !! j)).
    - split_and!; try done. simpl. by rewrite app_nil_r.
    - intros pre i post [v dr] t Hl (-> & Hv & Hlen & Hw & Hsame). cbn [fst snd] in *.
      assert (seqZ 0 n !! length pre = Some i) as Hlk by (rewrite Hl; by apply list_lookup_middle).
      apply lookup_seqZ in Hlk as [-> Hlt]. wp_steps.
      assert (is_Some (dir !! length pre)) as [y Hy] by (apply lookup_lt_is_Some; lia).
      eapply wp_index; [rewrite lookupZ_nat by lia; rewrite Z.add_0_l, Nat2Z.id, Hsame by lia; exact Hy|]. wp_steps.
      apply wp_set_index; [unfold lengthZ; lia|]. wp_steps. cbn [fst snd]. split_and!; [done| | | |].
      + rewrite length_app. simpl. rewrite Nat.add_1_r, (take_S_r _ _ y Hy), Hv. by rewrite app_assoc.
      + by rewrite length_insert.
      + apply Forall_insert; [done|lia].
      + intros j. rewrite length_app. simpl. intros Hj. rewrite list_lookup_insert_ne by lia.
        apply Hsame. lia. }
  intros [v dr] t (-> & Hv & Hlen & Hw & _). cbn [fst snd] in *. rewrite length_seqZ in Hv. subst v. auto.
Qed.

Lemma wp_modify_keep_pure {V} s d h id (f : IndirectBlock → V) Q :
  store_ok s d h → takeable_ h id → (size h < BLOCK_CACHE_SIZE)%nat →
  (∀ s3, store_ok s3 d h → Q (f (at_block d id 0)) s3) →
  wp (modify_block_as id 0 (λ b, mret (f b, b))) Q s.
Proof.
  intros Hs [Hr Hn] Hsz HQ.
  apply (wp_modify_pure s d h id 0 (λ b : IndirectBlock, (f b, b)) Q Hs Hr Hn Hsz); [done|done|done|].
  cbn [fst snd]. intros s3 Hs3. apply HQ. eapply store_ext; [exact Hs3|].
  intros b Hb. symmetry. apply put_at_id; [by eapply store_wf|done|done].
Qed.

(** Facts about the tree that [clear_size] walks. *)
Section clear.
Context (s0 : St) (d : disk) (h : gset Z) (x : DiskInode) (n : Z) (L : list Z).
Hypothesis Hs0 : store_ok s0 d h.
Hypothesis Hv : valid x.
Hypothesis Ht : tree d x n L.
Hypothesis Hnd : NoDup L.
Hypothesis Htk : Forall (takeable_ h) L.
Hypothesis Hsz : (S (size h) < BLOCK_CACHE_SIZE)%nat.
Hypothesis Hn : 0 <= n <= INDIRECT2_BOUND.

Lemma tree_take p b : lookupZ L p = Some b → takeable_ h b.
Proof. intros Hb. rewrite Forall_forall in Htk. by eapply Htk, lookupZ_elem. Qed.

Lemma tree_nat (p : Z) (i : nat) b : lookupZ L p = Some b → p = Z.of_nat i → L !! i = Some b.
Proof. intros Hb ->. rewrite lookupZ_nat in Hb by lia. by rewrite Nat2Z.id in Hb. Qed.

Lemma tree_len : Z.of_nat (length L) = tot n.
Proof. apply Ht. Qed.

Lemma collect_direct : take (Z.to_nat (Z.min n 28)) (direct x) = take (Z.to_nat (Z.min n 28)) L.
Proof.
  unfold_layout. pose proof (valid_direct_length x Hv) as Hdir. apply list_eq. intros i.
  destruct (decide (Z.of_nat i < Z.min n 28)) as [Hi|Hi]; [|by rewrite !lookup_take_ge by lia].
  rewrite !lookup_take_lt by lia. rewrite word_eta by lia. symmetry.
  pose proof (tree_data d x n L (Z.of_nat i) Ht ltac:(lia)) as Hd. unfold inode_block in Hd.
  destruct (Z.ltb_spec (Z.of_nat i) 28); [|lia]. rewrite Nat2Z.id in Hd.
  eapply tree_nat; [exact Hd|]. pos_lia.
Qed.

Lemma tree_indirect1 : 28 < n → lookupZ L 28 = Some (indirect1 x).
Proof. intros. destruct Ht as [Hl Ht']. apply (tu_ind1 _ _ _ Ht'). rewrite Hl. pos_lia. Qed.
Lemma tree_indirect2 : 156 < n → lookupZ L 157 = Some (indirect2 x).
Proof. intros. destruct Ht as [Hl Ht']. apply (tu_ind2 _ _ _ Ht'). rewrite Hl. pos_lia. Qed.

Lemma ind_len id : takeable_ h id → length (ind_words d id) = 128%nat.
Proof. intros [Hr _]. by eapply ind_length. Qed.

Lemma collect_ind1 :
  28 < n →
  (take 28 L ++ [indirect1 x]) ++ take (Z.to_nat (Z.min (n - 28) 128)) (ind_words d (indirect1 x)) =
  take (Z.to_nat (Z.min n 156 + 1)) L.
Proof.
  intros H28. unfold_layout. pose proof (tree_indirect1 H28) as H1. pose proof tree_len as Hl.
  pose proof (ind_len _ (tree_take _ _ H1)) as Hw.
  assert (Htot : Z.min n 156 + 1 <= tot n) by pos_lia.
  rewrite (push_segment L [indirect1 x] 28); simpl; [|lia|].
  2: { intros [|i] y; simpl; [|done]. intros [= <-]. by eapply tree_nat. }
  rewrite push_segment; [rewrite length_take, Hw; f_equal; lia|rewrite length_take, Hw; lia|].
  intros i y [Hy Hi]%lookup_take_Some.
  pose proof (tree_data d x n L (28 + Z.of_nat i) Ht ltac:(lia)) as Hd. unfold inode_block in Hd.
  destruct (Z.ltb_spec (28 + Z.of_nat i) 28); [lia|]. destruct (Z.ltb_spec (28 + Z.of_nat i) 156); [|lia].
  replace (Z.to_nat (28 + Z.of_nat i - 28)) with i in Hd by lia. unfold word in Hd. rewrite Hy in Hd.
  eapply tree_nat; [exact Hd|]. pos_lia.
Qed.

(** The second-level block [a] and its entries below [m]. *)
Lemma collect_sub a (m : nat) :
  156 < n → 0 <= a → 156 + 128 * a + Z.of_nat m <= n → (0 < m <= 128)%nat →
  let entry := word (Z.to_nat a) (ind_words d (indirect2 x)) in
  takeable_ h entry ∧ entry ≠ indirect2 x ∧
  take (Z.to_nat (sub_pos a)) L ++ [entry] ++ take m (ind_words d entry) =
  take (Z.to_nat (sub_pos a) + S m) L.
Proof.
  intros H156 Ha Hle Hm entry. pose proof tree_len as Hl. destruct Ht as [HlZ Ht'].
  assert (Hsub : lookupZ L (sub_pos a) = Some entry).
  { apply (tu_sub _ _ _ Ht'); [done|]. rewrite HlZ. apply sub_lt_tot; [done|done|]. pos_lia. }
  pose proof (tree_take _ _ Hsub) as Htke. pose proof (ind_len _ Htke) as Hw.
  destruct (tree_ind_distinct d x L Ht' Hnd) as [_ Hdist]; [rewrite HlZ; pos_lia|].
  split; [done|]. split; [apply Hdist; [done|pose proof (lookupZ_lt _ _ _ Hsub); lia]|].
  assert (Htot : sub_pos a + 1 + Z.of_nat m <= tot n) by pos_lia. unfold sub_pos in Htot |- *.
  assert (Hlw : length ([entry] ++ take m (ind_words d entry)) = S m).
  { simpl. rewrite length_take, Hw. lia. }
  rewrite push_segment; rewrite ?Hlw; [f_equal; lia|lia|]. intros [|i] y; simpl.
  - intros [= <-]. eapply tree_nat; [exact Hsub|]. unfold sub_pos. lia.
  - intros [Hy Hi]%lookup_take_Some.
    pose proof (tree_data d x n L (156 + 128 * a + Z.of_nat i) Ht ltac:(lia)) as Hd. unfold inode_block in Hd.
    destruct (Z.ltb_spec (156 + 128 * a + Z.of_nat i) 28); [lia|].
    destruct (Z.ltb_spec (156 + 128 * a + Z.of_nat i) 156); [lia|].
    replace ((156 + 128 * a + Z.of_nat i - 156) / 128) with a in Hd by zdiv. fold entry in Hd.
    replace (Z.to_nat ((156 + 128 * a + Z.of_nat i - 156) mod 128)) with i in Hd by zdiv.
    unfold word in Hd at 1. rewrite Hy in Hd. eapply tree_nat; [exact Hd|]. pos_lia.
Qed.

Lemma takeable_held id b : takeable_ h b → b ≠ id → takeable_ ({[id]} ∪ h) b.
Proof. intros [Hr Hn'] Hne. split; [done|]. by rewrite not_elem_of_union, not_elem_of_singleton. Qed.

Lemma held_size id : id ∉ h → (size ({[id]} ∪ h) < BLOCK_CACHE_SIZE)%nat.
Proof. intros. rewrite size_union by (by apply disjoint_singleton_l). rewrite size_singleton. lia. Qed.

(** The loop over the full second-level blocks. *)
Lemma wp_clear_full s a1 :
  156 < n → a1 = (n - 156) / 128 → store_ok s d ({[indirect2 x]} ∪ h) →
  wp (fold_m (λ v entry, modify_block_as entry 0 (λ ind1 : IndirectBlock,
        mret (v ++ [entry] ++ ib_words ind1, ind1))) (take 158 L)
        (take (Z.to_nat a1) (ind_words d (indirect2 x))))
    (λ v s', v = take (Z.to_nat (sub_pos a1)) L ∧ store_ok s' d ({[indirect2 x]} ∪ h)) s.
Proof.
  intros H156 Ha Hs. unfold_layout. pose proof (tree_take _ _ (tree_indirect2 H156)) as Hi2.
  pose proof (ind_len _ Hi2) as Hw.
  eapply wp_mono.
  { apply (wp_fold_m (λ pre v s', v = take (Z.to_nat (sub_pos (Z.of_nat (length pre)))) L ∧
      store_ok s' d ({[indirect2 x]} ∪ h))).
    - split; [|done]. done.
    - intros pre entry post v s' Hl [-> Hs'].
      assert (take (Z.to_nat a1) (ind_words d (indirect2 x)) !! length pre = Some entry) as Hlk
        by (rewrite Hl; by apply list_lookup_middle).
      apply lookup_take_Some in Hlk as [Hlk Hlt].
      destruct (collect_sub (Z.of_nat (length pre)) 128 H156 ltac:(lia) ltac:(zdiv) ltac:(lia))
        as (Htke & Hne & Hseg). rewrite Nat2Z.id in *.
      assert (word (length pre) (ind_words d (indirect2 x)) = entry) as Hent by (unfold word; by rewrite Hlk).
      rewrite Hent in *. pose proof (ind_len _ Htke) as Hwe.
      apply (wp_modify_keep_pure s' d ({[indirect2 x]} ∪ h) entry); [done|by apply takeable_held| |].
      { apply held_size. apply Hi2. }
      intros s3 Hs3. split; [|done]. fold (ind_words d entry).
      rewrite (take_ge (ind_words d entry)) in Hseg by (rewrite Hwe; lia). rewrite Hseg. f_equal.
      rewrite length_app. simpl. unfold sub_pos. lia. }
  intros v s' [-> Hs']. split; [|done]. rewrite length_take, Hw. do 2 f_equal. f_equal. zdiv.
Qed.

Lemma wp_clear_indirect2 s x1 :
  156 < n → store_ok s d h → indirect2 x1 = indirect2 x →
  wp (clear_indirect2 (take 157 L) x1 (n - 28))
    (λ r s', r = (L, set_indirect2 0 x1) ∧ store_ok s' d h) s.
Proof.
  intros H156 Hs Hx1. unfold clear_indirect2. unfold_layout. rewrite Hx1.
  pose proof (tree_indirect2 H156) as Hlk2. pose proof (tree_take _ _ Hlk2) as Hi2. pose proof tree_len as Hl.
  replace (n - 28 - 128) with (n - 156) by lia. wp_steps. apply wp_assert; [lia|]. wp_steps.
  eapply wp_modify_keep; [exact Hs|done|lia|]. intros s1 Hs1. fold (ind_words d (indirect2 x)). wp_steps.
  rewrite (push_segment L [indirect2 x] 157); simpl; [|pos_lia|].
  2: { intros [|i] y; simpl; [|done]. intros [= <-]. by eapply tree_nat. }
  eapply wp_mono; [by apply wp_clear_full|]. intros v s2 [-> Hs2].
  assert (Hlast : ∀ j, Z.of_nat j = tot n → take j L = L) by (intros; apply take_ge; lia).
  destruct (Z.ltb_spec 0 ((n - 156) mod 128)) as [Hb1|Hb1].
  - destruct (collect_sub ((n - 156) / 128) (Z.to_nat ((n - 156) mod 128)) H156 ltac:(zdiv) ltac:(zdiv) ltac:(zdiv))
      as (Htke & Hne & Hseg).
    wp_steps. eapply wp_index.
    { rewrite lookupZ_nat by zdiv. apply word_eta. rewrite (ind_len _ Hi2). zdiv. }
    apply (wp_modify_keep_pure s2 d ({[indirect2 x]} ∪ h)); [done|by apply takeable_held|by apply held_size, Hi2|].
    intros s3 Hs3. split; [done|]. intros s4 Hs4. wp_steps. split; [|done]. f_equal.
    etransitivity; [exact Hseg|]. apply Hlast. pos_lia.
  - wp_steps. split; [done|]. intros s4 Hs4. wp_steps. split; [|done]. f_equal. apply Hlast. pos_lia.
Qed.

Lemma wp_clear_indirect1 s x1 :
  28 < n → store_ok s d h → indirect1 x1 = indirect1 x → indirect2 x1 = indirect2 x → valid x1 → 0 < cap →
  wp (clear_indirect1 (take 28 L) x1 n)
    (λ r s', fst r = L ∧ (valid (snd r) ∧ di_size (snd r) = di_size x1 ∧ type_ (snd r) = type_ x1) ∧
       store_ok s' d h) s.
Proof.
  intros H28 Hs Hx1 Hx2 Hvx Hc0. unfold clear_indirect1. unfold_layout. rewrite Hx1.
  pose proof (tree_indirect1 H28) as Hlk1. pose proof (tree_take _ _ Hlk1) as Hi1. pose proof tree_len as Hl.
  wp_steps. eapply wp_modify_keep; [exact Hs|done|lia|]. intros s1 Hs1. fold (ind_words d (indirect1 x)).
  apply wp_push_all; [unfold lengthZ; rewrite (ind_len _ Hi1); lia|]. split; [done|]. intros s2 Hs2.
  rewrite collect_ind1 by done.
  assert (Hv1 : valid (set_indirect1 0 x1)) by (apply valid_set_indirect1; [done|lia]).
  destruct (Z.leb_spec (n - 28) 128).
  - wp_steps. cbn [fst snd]. split_and!; try done. rewrite take_ge; [done|]. pos_lia.
  - replace (Z.to_nat (Z.min n 156 + 1)) with 157%nat by lia.
    eapply wp_mono; [apply (wp_clear_indirect2 s2 (set_indirect1 0 x1)); [lia|done|done]|].
    intros r s3 [-> Hs3]. cbn [fst snd]. split_and!; try done. apply valid_set_indirect2; [done|lia].
Qed.
End clear.

Lemma wp_clear_size s d h x L :
  store_ok s d h → (S (size h) < BLOCK_CACHE_SIZE)%nat → valid x → 0 <= di_size x <= 512 * INDIRECT2_BOUND →
  tree d x (data_blocks x) L → NoDup L → Forall (takeable_ h) L → 0 < cap →
  wp (clear_size x)
    (λ r s', fst r = L ∧ (valid (snd r) ∧ di_size (snd r) = 0 ∧ type_ (snd r) = type_ x) ∧ store_ok s' d h) s.
Proof.
  intros Hs Hsz Hv Hsize Ht Hnd Htk Hc0. unfold clear_size. pose proof (data_blocks_range _ Hsize) as Hn.
  change (_data_blocks (di_size x)) with (data_blocks x) in Hn. set (n := data_blocks x) in *.
  pose proof (valid_direct_length x Hv) as Hdir. unfold_layout. wp_steps.
  cbn [direct set_size]. apply wp_clear_direct.
  { unfold lengthZ. lia. }
  { destruct Hv as (_ & Hw & _). apply Forall_cons in Hw as [_ Hw]. by apply Forall_app in Hw as [? _]. }
  intros dir Hld Hwd. simpl app. set (x1 := set_direct dir (set_size 0 x)).
  assert (Hv1 : valid x1).
  { apply valid_set_direct; [|lia|done]. destruct Hv as (Hd & Hw & Hrest). split; [done|]. split; [|done].
    unfold words_valid, di_words in *. simpl. apply Forall_cons in Hw as [_ Hw]. apply Forall_cons.
    split; [lia|done]. }
  rewrite (collect_direct d h x n L) by (done || (unfold_layout; lia)).
  destruct (Z.leb_spec n 28).
  - wp_steps. cbn [fst snd]. split_and!; try done. apply take_ge. destruct Ht as [Hl _].
    unfold lengthZ in Hl. pos_lia.
  - replace (Z.to_nat (Z.min n 28)) with 28%nat by lia.
    eapply wp_mono; [apply (wp_clear_indirect1 s d h x n L) with (x1 := x1); try done; unfold_layout; lia|].
    done.
Qed.

(** ** Contents across the operations *)

(** An inode whose blocks are [L]: valid, of a size the tree can hold, its
    blocks distinct, on the device and not held. *)
Record inode_ok (d : disk) (h : gset Z) (x : DiskInode) (L : list Z) : Prop := {
  io_valid : valid x;
  io_size : 0 <= di_size x <= 512 * INDIRECT2_BOUND;
  io_tree : tree d x (data_blocks x) L;
  io_nodup : NoDup L;
  io_take : Forall (takeable_ h) L
}.

Lemma inode_ok_wf s d h x L :
  store_ok s d h → inode_ok d h x L →
  inode_takeable (cap := cap) d h x (data_blocks x) ∧ inode_sep d x (data_blocks x).
Proof.
  intros Hs [Hv Hsz Ht Hnd Htk]. eapply tree_wf; [exact Hs|done| |by apply valid_direct_length|done|done].
  by apply data_blocks_range.
Qed.

(** Data blocks are not indirect blocks. *)
Lemma data_not_meta F k b : NoDup F → 0 <= k → lookupZ F (pos k) = Some b → ¬ meta_of F b.
Proof.
  intros Hnd Hk Hb (p & Hp & Hlk). apply (pos_not_meta k Hk).
  by rewrite (lookupZ_inj _ _ _ _ Hnd Hb Hlk).
Qed.

Lemma grown_contents d d' x x' L nb :
  tree d x (data_blocks x) L → tree_upto d' x' (L ++ nb) → NoDup (L ++ nb) →
  (∀ b, ¬ meta_of (L ++ nb) b → d' b = d b) → 0 <= di_size x <= 512 * INDIRECT2_BOUND →
  ∀ i, 0 <= i < 512 * data_blocks x → file_byte d' x' i = file_byte d x i.
Proof.
  intros Ht Ht' Hnd Hfr Hsz i Hi. pose proof (tree_data d x _ L (i / 512) Ht ltac:(zdiv)) as Hd.
  assert (Hd' : lookupZ (L ++ nb) (pos (i / 512)) = Some (inode_block d x (i / 512))).
  { rewrite lookupZ_app_l; [done|]. by apply lookupZ_lt in Hd. }
  assert (inode_block d' x' (i / 512) = inode_block d x (i / 512)) as Heq.
  { pose proof (lookupZ_lt _ _ _ Hd'). rewrite (tu_data _ _ _ Ht') in Hd'; [by simplify_eq|zdiv|lia]. }
  unfold file_byte. rewrite Heq, Hfr; [done|]. eapply data_not_meta; [done| |exact Hd']. zdiv.
Qed.

Lemma increase_size_lemma s d h x L nb new_size :
  store_ok s d h → (S (size h) < BLOCK_CACHE_SIZE)%nat → inode_ok d h x L →
  NoDup (L ++ nb) → Forall (takeable_ h) nb → di_size x <= new_size <= 512 * INDIRECT2_BOUND →
  lengthZ nb = total_blocks new_size - total_blocks (di_size x) →
  wp (increase_size new_size nb x) (λ x' s', ∃ d', store_ok s' d' h ∧ inode_ok d' h x' (L ++ nb) ∧
    di_size x' = new_size ∧ type_ x' = type_ x ∧
    (∀ i, 0 <= i < 512 * data_blocks x → file_byte d' x' i = file_byte d x i) ∧
    (∀ b, ¬ meta_of (L ++ nb) b → d' b = d b)) s.
Proof.
  intros Hs Hsz [Hv Hsize Ht Hnd Htk] HndF Htn Hns Hnb.
  rewrite !total_blocks_tot in Hnb by lia.
  assert (HtkF : Forall (takeable_ h) (L ++ nb)) by (by apply Forall_app).
  eapply wp_mono; [by apply wp_increase_size|].
  intros x' s' (Hv' & Hsz' & Hty & d' & Hs' & Ht' & Hfr). exists d'.
  split; [done|]. split; [|split_and!; try done; by eapply grown_contents].
  split; [done|rewrite Hsz'; simpl; lia| |done|done]. split; [|done].
  destruct Ht as [Hl _]. unfold data_blocks. rewrite lengthZ_app, Hl, Hsz'. simpl.
  rewrite Hnb. unfold data_blocks. lia.
Qed.

(** [DiskInode::increase_size] is correct.  Given exactly the blocks that
    [blocks_num_needed] asks for, fresh and distinct, it does not panic (the
    iterator never runs out, no cached block is locked twice) and builds the tree
    of the new size: the blocks of the new inode are the old ones followed by the
    new ones, all distinct, the old contents of the file are unchanged, and no
    block of the device is written except the indirect blocks of the inode. *)
Theorem increase_size_correct s d h x L nb new_size :
  store_ok s d h → (S (size h) < BLOCK_CACHE_SIZE)%nat → inode_ok d h x L →
  NoDup (L ++ nb) → Forall (takeable_ h) nb → di_size x <= new_size <= 512 * INDIRECT2_BOUND →
  lengthZ nb = total_blocks new_size - total_blocks (di_size x) →
  wp (increase_size new_size nb x) (λ x' s', ∃ d', store_ok s' d' h ∧ inode_ok d' h x' (L ++ nb) ∧
    di_size x' = new_size ∧ type_ x' = type_ x ∧
    (∀ i, 0 <= i < 512 * data_blocks x → file_byte d' x' i = file_byte d x i) ∧
    (∀ b, ¬ meta_of (L ++ nb) b → d' b = d b)) s.
Proof. apply increase_size_lemma. Qed.

Lemma clear_size_returns_lemma s d h x L :
  store_ok s d h → (S (size h) < BLOCK_CACHE_SIZE)%nat → inode_ok d h x L → 0 < cap →
  wp (clear_size x) (λ r s', fst r = L ∧ NoDup (fst r) ∧ lengthZ (fst r) = total_blocks (di_size x) ∧
    di_size (snd r) = 0 ∧ type_ (snd r) = type_ x ∧ inode_ok d h (snd r) [] ∧ store_ok s' d h) s.
Proof.
  intros Hs Hsz [Hv Hsize Ht Hnd Htk] Hc. eapply wp_mono; [by apply wp_clear_size|].
  intros [v x'] s' (-> & (Hv' & Hsz' & Hty) & Hs'). cbn [fst snd] in *. split_and!; try done.
  - destruct Ht as [Hl _]. rewrite Hl. symmetry. by apply total_blocks_tot.
  - split; [done|rewrite Hsz'; unfold_layout; lia| |by constructor|by constructor].
    unfold data_blocks. rewrite Hsz'. split; [done|]. split; unfold lengthZ; simpl; try lia.
    + intros k Hk Hp. exfalso. pos_lia.
    + intros a Ha Hp. exfalso. pos_lia.
Qed.

(** [DiskInode::clear_size] returns every block of the inode exactly once,
    data and indirect blocks, [total_blocks] of them (what [Inode::clear] asserts),
    in the order in which they were added; it leaves an empty inode of the same
    type and does not change the disk. *)
Theorem clear_size_returns_blocks s d h x L :
  store_ok s d h → (S (size h) < BLOCK_CACHE_SIZE)%nat → inode_ok d h x L → 0 < cap →
  wp (clear_size x) (λ r s', fst r = L ∧ NoDup (fst r) ∧ lengthZ (fst r) = total_blocks (di_size x) ∧
    di_size (snd r) = 0 ∧ type_ (snd r) = type_ x ∧ inode_ok d h (snd r) [] ∧ store_ok s' d h) s.
Proof. apply clear_size_returns_lemma. Qed.

(** what [DiskInode::write_at] writes is what [DiskInode::read_at] reads.
    Writing a non-empty buffer inside the file returns its length; a following
    read of any range returns the written bytes where the ranges overlap and the
    previous contents elsewhere, up to the end of the file, across block
    boundaries and through the direct, indirect and doubly indirect blocks. *)
Theorem write_then_read s d h x L offset buf offset' buf' :
  store_ok s d h → (size h < BLOCK_CACHE_SIZE)%nat → inode_ok d h x L → buf ≠ [] → Forall is_byte buf →
  0 <= offset → offset + lengthZ buf <= di_size x → 0 <= offset' → offset' + lengthZ buf' < 2 ^ 64 →
  wp (n ← DiskInode_write_at x offset buf; r ← DiskInode_read_at x offset' buf'; mret (n, r))
    (λ r s', fst r = lengthZ buf ∧
       let m := span x offset' (lengthZ buf') in
       snd (snd r) = m ∧
       fst (snd r) = splice buf' 0
         ((λ i, if decide (offset <= i < offset + lengthZ buf) then default 0 (buf !! Z.to_nat (i - offset))
                else file_byte d x i) <$> seqZ offset' m)) s.
Proof.
  intros Hs Hsz Hx Hne Hb Ho Hfit Ho' Hlen'. destruct (inode_ok_wf _ _ _ _ _ Hs Hx) as [Htk Hsep].
  pose proof (io_size _ _ _ _ Hx) as Hsize. assert (0 < lengthZ buf) by (destruct buf; [done|unfold lengthZ; simpl; lia]).
  assert (Hspan : span x offset (lengthZ buf) = lengthZ buf) by (unfold span; lia).
  unfold_layout. wp_steps. eapply wp_mono.
  { apply (wp_DiskInode_write_at s d h x offset buf); (done || unfold_layout; lia). }
  intros n s1 (-> & d1 & Hs1 & Hw). rewrite Hspan in Hw |- *.
  destruct (wrote_stable _ _ _ _ _ _ _ _ _ Hs Htk Hsep Hw) as [Hm Hd].
  wp_steps. eapply wp_mono.
  { apply (wp_DiskInode_read_at s1 d1 h x offset' buf'); try done.
    by eapply inode_takeable_stable. }
  intros r s2 [Hs2 ->]. wp_steps. cbn [fst snd]. split_and!; [done..|]. f_equal.
  apply list_fmap_ext. intros j i Hi%list_elem_of_lookup_2%elem_of_seqZ. destruct Hw as [Hw _]. apply Hw.
  pose proof (data_blocks_bound x ltac:(lia) ltac:(lia)). unfold span in Hi. lia.
Qed.
End growth.

(** ** A concrete inode

    A file of 600 bytes in blocks 10 and 11 of the demonstration device. *)

Definition demo_inode : DiskInode := mkDiskInode 600 (10 :: 11 :: replicate 26 0) 0 0 TFile [0; 0; 0].

Lemma demo_inode_ok d : inode_ok (cap := 4096) d ∅ demo_inode [10; 11].
Proof.
  split.
  - split_and!; try done; unfold words_valid, di_words, is_byte; simpl; repeat constructor; lia.
  - simpl. unfold_layout. lia.
  - split; [done|]. split; try done.
    + intros k Hk Hp. unfold lengthZ in Hp. simpl in Hp.
      assert (k = 0 ∨ k = 1) as [->| ->] by pos_lia; done.
    + intros a Ha Hp. unfold lengthZ, sub_pos in Hp. simpl in Hp. lia.
  - apply (bool_decide_unpack _). vm_compute. done.
  - repeat constructor; try lia; set_solver.
Qed.

Lemma increase_size_correct_witness :
  wp (increase_size 1500 [12] demo_inode)
    (λ x' (_ : demo_store), di_size x' = 1500) (BlockCacheManager_new demo_file).
Proof.
  eapply wp_mono.
  - apply (increase_size_correct (HL := demo_laws) ltac:(lia) _ (file_block demo_file) ∅ demo_inode [10; 11] [12]).
    + exact demo_store_ok.
    + rewrite size_empty. unfold BLOCK_CACHE_SIZE. lia.
    + apply demo_inode_ok.
    + apply (bool_decide_unpack _). vm_compute. done.
    + repeat constructor; try lia; set_solver.
    + simpl. unfold_layout. lia.
    + reflexivity.
  - intros x' s' (d' & _ & _ & Hsz & _). exact Hsz.
Defined.

Lemma clear_size_returns_blocks_witness :
  wp (clear_size demo_inode) (λ r (_ : demo_store), fst r = [10; 11] ∧ di_size (snd r) = 0)
    (BlockCacheManager_new demo_file).
Proof.
  eapply wp_mono.
  - apply (clear_size_returns_blocks (HL := demo_laws) ltac:(lia) _ (file_block demo_file) ∅ demo_inode [10; 11]).
    + exact demo_store_ok.
    + rewrite size_empty. unfold BLOCK_CACHE_SIZE. lia.
    + apply demo_inode_ok.
    + lia.
  - intros r s' (H1 & _ & _ & H2 & _). done.
Defined.

Lemma write_then_read_witness :
  wp (n ← DiskInode_write_at demo_inode 510 [1; 2; 3; 4];
      r ← DiskInode_read_at demo_inode 510 [9; 9; 9; 9; 9]; mret (n, r))
    (λ r (_ : demo_store), fst r = 4 ∧ fst (snd r) = [1; 2; 3; 4; 0])
    (BlockCacheManager_new demo_file).
Proof.
  eapply wp_mono.
  - apply (write_then_read (HL := demo_laws) _ (file_block demo_file) ∅ demo_inode [10; 11]).
    + exact demo_store_ok.
    + rewrite size_empty. unfold BLOCK_CACHE_SIZE. lia.
    + apply demo_inode_ok.
    + done.
    + repeat constructor; unfold is_byte; lia.
    + lia.
    + simpl. unfold lengthZ. simpl. lia.
    + lia.
    + unfold lengthZ. simpl. lia.
  - intros [n [b m]] s' (H1 & H2 & H3). simpl in H1, H2, H3. split; [exact H1|].
    simpl. rewrite H3. vm_compute. reflexivity.
Defined.
