(* ===== verification/Efs.v ===== *)
(** * The easy-fs file system

    [easy-fs/src/efs.rs]: the areas of the device, formatting and opening it, and
    the allocation of inodes and data blocks.  The structure does not change
    after [create] or [open]: its lock only makes the operations of [vfs.rs]
    atomic. *)

From S2P Require Import Prelude Codec BlockDev BlockCache Bitmap Layout.

Record EasyFileSystem := mkEfs {
  inode_bitmap : Bitmap;
  data_bitmap : Bitmap;
  inode_area_start_block : Z;
  data_area_start_block : Z
}.

Definition INODE_SIZE : Z := 128.

(** [get_disk_inode_pos]: block and offset of an inode. *)
Definition get_disk_inode_pos (efs : EasyFileSystem) (inode_id : Z) : Z * Z :=
  let inodes_per_block := BLOCK_SZ / INODE_SIZE in
  (wrap32 (inode_area_start_block efs + inode_id / inodes_per_block),
   inode_id mod inodes_per_block * INODE_SIZE).

Definition get_data_block_id (efs : EasyFileSystem) (data_block_id : Z) : Z :=
  wrap32 (data_area_start_block efs + data_block_id).

(** The areas computed by [create]: the file system and the fields of the super
    block. *)
Definition efs_layout (total_blocks inode_bitmap_blocks : Z) : EasyFileSystem * SuperBlock :=
  let inode_bitmap := Bitmap_new 1 inode_bitmap_blocks in
  let inode_num := maximum inode_bitmap in
  let inode_area_blocks := wrap32 (wrap64 (wrap64 (inode_num * INODE_SIZE) + BLOCK_SZ - 1) / BLOCK_SZ) in
  let inode_total_blocks := wrap32 (inode_bitmap_blocks + inode_area_blocks) in
  let data_total_blocks := wrap32 (wrap32 (total_blocks - 1) - inode_total_blocks) in
  let data_bitmap_blocks := wrap32 (data_total_blocks + 4096) / 4097 in
  let data_area_blocks := wrap32 (data_total_blocks - data_bitmap_blocks) in
  let data_bitmap :=
    Bitmap_new (wrap32 (1 + inode_bitmap_blocks + inode_area_blocks)) data_bitmap_blocks in
  (mkEfs inode_bitmap data_bitmap (wrap32 (1 + inode_bitmap_blocks))
     (wrap32 (1 + inode_total_blocks + data_bitmap_blocks)),
   SuperBlock_initialize total_blocks inode_bitmap_blocks inode_area_blocks data_bitmap_blocks
     data_area_blocks).

Section efs.
Context {St : Type} `{HS : BlockStore St}.

Definition zero_block (id : Z) : M St unit :=
  modify_block_as id 0 (λ b : DataBlock, mret (tt, mkDataBlock ((λ _, 0) <$> db_bytes b))).

Definition alloc_inode (efs : EasyFileSystem) : M St Z :=
  r ← alloc (inode_bitmap efs);
  i ← unwrap r;
  mret (wrap32 i).

(** Returns a block number of the device, not of the data area. *)
Definition alloc_data (efs : EasyFileSystem) : M St Z :=
  r ← alloc (data_bitmap efs);
  i ← unwrap r;
  mret (wrap32 (wrap32 i + data_area_start_block efs)).

Definition dealloc_data (efs : EasyFileSystem) (block_id : Z) : M St unit :=
  _ ← zero_block block_id;
  dealloc (data_bitmap efs) (wrap32 (block_id - data_area_start_block efs)).

Definition create (total_blocks inode_bitmap_blocks : Z) : M St EasyFileSystem :=
  let '(efs, sb) := efs_layout total_blocks inode_bitmap_blocks in
  (* clear all blocks *)
  _ ← fold_m (λ _ i, zero_block i) tt (seqZ 0 total_blocks);
  (* initialize SuperBlock *)
  _ ← modify_block_as 0 0 (λ _ : SuperBlock, mret (tt, sb));
  (* create a inode for root node "/" *)
  root ← alloc_inode efs;
  _ ← assert_ (root =? 0);
  let '(root_inode_block_id, root_inode_offset) := get_disk_inode_pos efs 0 in
  _ ← modify_block_as root_inode_block_id root_inode_offset (λ x : DiskInode,
        mret (tt, DiskInode_initialize TDirectory x));
  _ ← sync_all;
  mret efs.

Definition open : M St EasyFileSystem :=
  read_block_as 0 0 (λ sb : SuperBlock,
    _ ← assert_ (is_valid sb);
    let inode_total_blocks := wrap32 (inode_bitmap_blocks sb + inode_area_blocks sb) in
    mret (mkEfs (Bitmap_new 1 (inode_bitmap_blocks sb))
            (Bitmap_new (wrap32 (1 + inode_total_blocks)) (data_bitmap_blocks sb))
            (wrap32 (1 + inode_bitmap_blocks sb))
            (wrap32 (1 + inode_total_blocks + data_bitmap_blocks sb)))).
End efs.

(** ** The areas of the device *)

(** The areas without machine arithmetic. *)
Definition data_bitmap_size (total ib : Z) : Z := (total - 1 - 1025 * ib + 4096) / 4097.

Definition layout_ok (total ib : Z) : Prop := 1 <= ib ∧ 1 + 1025 * ib < total ∧ total < 2 ^ 31.

Lemma efs_layout_eq total ib :
  layout_ok total ib →
  let db := data_bitmap_size total ib in
  efs_layout total ib =
  (mkEfs (mkBitmap 1 ib) (mkBitmap (1 + 1025 * ib) db) (1 + ib) (1 + 1025 * ib + db),
   mkSuperBlock EFS_MAGIC total ib (1024 * ib) db (total - 1 - 1025 * ib - db)) ∧
  1 <= db ∧ 1 + 1025 * ib + db <= total.
Proof.
  intros (H1 & H2 & H3) db. assert (Hdb : 1 <= db ∧ 1 + 1025 * ib + db <= total) by (unfold db, data_bitmap_size; zdiv).
  split; [|done]. unfold efs_layout, maximum, SuperBlock_initialize, Bitmap_new, BLOCK_BITS, BLOCK_SZ, INODE_SIZE.
  cbn [blocks].
  rewrite (wrap_small 64 (ib * (512 * 8))) by lia.
  rewrite (wrap_small 64 (ib * (512 * 8) * 128)) by lia.
  rewrite (wrap_small 64 (_ + 512 - 1)) by lia.
  replace ((ib * (512 * 8) * 128 + 512 - 1) / 512) with (1024 * ib) by zdiv.
  rewrite (wrap_small 32 (1024 * ib)) by lia. rewrite (wrap_small 32 (ib + 1024 * ib)) by lia.
  rewrite (wrap_small 32 (total - 1)) by lia. rewrite (wrap_small 32 (total - 1 - _)) by lia.
  rewrite (wrap_small 32 (total - 1 - (ib + 1024 * ib) + 4096)) by lia.
  replace ((total - 1 - (ib + 1024 * ib) + 4096) / 4097) with db by (unfold db, data_bitmap_size; f_equal; lia).
  rewrite !wrap_small by lia. do 3 f_equal; lia.
Qed.

(** the areas laid out by [EasyFileSystem::create].  Super block, inode
    bitmap, inode area, data bitmap and data area follow each other without gap
    or overlap and end at the last block of the device; every inode number of the
    inode bitmap has a slot of its own inside the inode area, not crossing a
    block; and the data bitmap has a bit for every block of the data area. *)
Theorem efs_areas total ib :
  layout_ok total ib →
  let efs := fst (efs_layout total ib) in
  let sb := snd (efs_layout total ib) in
  start_block_id (inode_bitmap efs) = 1 ∧
  inode_area_start_block efs = start_block_id (inode_bitmap efs) + blocks (inode_bitmap efs) ∧
  start_block_id (data_bitmap efs) = inode_area_start_block efs + inode_area_blocks sb ∧
  data_area_start_block efs = start_block_id (data_bitmap efs) + blocks (data_bitmap efs) ∧
  data_area_start_block efs + data_area_blocks sb = total ∧
  data_area_blocks sb <= nbits (data_bitmap efs) ∧
  (∀ i, 0 <= i < nbits (inode_bitmap efs) →
     inode_area_start_block efs <= fst (get_disk_inode_pos efs i) < start_block_id (data_bitmap efs) ∧
     0 <= snd (get_disk_inode_pos efs i) ∧ snd (get_disk_inode_pos efs i) + INODE_SIZE <= BLOCK_SZ) ∧
  (∀ i j, 0 <= i < nbits (inode_bitmap efs) → 0 <= j < nbits (inode_bitmap efs) →
     get_disk_inode_pos efs i = get_disk_inode_pos efs j → i = j).
Proof.
  intros Hok. destruct (efs_layout_eq total ib Hok) as (-> & Hdb & Hle). destruct Hok as (H1 & H2 & H3).
  cbn [fst snd inode_bitmap data_bitmap start_block_id blocks inode_area_start_block data_area_start_block
    inode_area_blocks data_area_blocks]. unfold nbits, get_disk_inode_pos, INODE_SIZE, BLOCK_SZ.
  cbn [fst snd blocks inode_area_start_block]. change (512 / 128) with 4.
  assert (Hdb' : data_bitmap_size total ib * 4097 >= total - 1 - 1025 * ib) by (unfold data_bitmap_size; zdiv).
  split_and!; try lia.
  - intros i Hi. rewrite wrap_small by zdiv. zdiv.
  - intros i j Hi Hj. rewrite !wrap_small by zdiv. intros [= Ha Hb]. zdiv.
Qed.

Lemma efs_areas_witness :
  let efs := fst (efs_layout 4096 1) in data_area_start_block efs = 1027 ∧ layout_ok 4096 1 ∧
  get_disk_inode_pos efs 5 ≠ get_disk_inode_pos efs 1.
Proof.
  assert (Hok : layout_ok 4096 1) by (unfold layout_ok; lia).
  split; [reflexivity|]. split; [exact Hok|]. intros Heq.
  pose proof (efs_areas 4096 1 Hok) as (_ & _ & _ & _ & _ & _ & _ & Hinj).
  specialize (Hinj 5 1 ltac:(vm_compute; split; congruence) ltac:(vm_compute; split; congruence) Heq). lia.
Defined.

(** ** Allocation of data blocks *)

Definition zeros : list Z := replicate 512 0.

Lemma zeros_wf : block_wf zeros.
Proof. split; [done|]. apply Forall_replicate. unfold is_byte. lia. Qed.

Section proofs.
Context {St : Type} {cap : Z} `{HS : BlockStore St} `{HL : !BlockStoreLaws St cap}.

Lemma wp_zero_block s d h id (Q : unit → St → Prop) :
  store_ok s d h → 0 <= id < cap → id ∉ h → (size h < BLOCK_CACHE_SIZE)%nat →
  (∀ s', store_ok s' (upd d id zeros) h → Q tt s') → wp (zero_block id) Q s.
Proof.
  intros Hs Hid Hh Hsz HQ. unfold zero_block. pose proof (store_wf s d h id Hs Hid) as [Hl Hb].
  assert (Hz : (λ _ : Z, 0) <$> db_bytes (at_block d id 0) = zeros).
  { unfold at_block. cbn -[Z.to_nat replicate]. rewrite drop_0, take_ge by lia.
    apply list_eq. intros i. rewrite list_lookup_fmap. unfold zeros.
    destruct (decide (i < 512)%nat).
    - assert (is_Some (d id !! i)) as [y ->] by (apply lookup_lt_is_Some; lia).
      by rewrite lookup_replicate_2.
    - rewrite (lookup_ge_None_2 (d id)) by lia. symmetry. apply lookup_ge_None_2. rewrite length_replicate. lia. }
  apply (wp_modify_pure s d h id 0 (λ b : DataBlock, (tt, mkDataBlock ((λ _, 0) <$> db_bytes b))) Q
    Hs Hid Hh Hsz); [done|done| |].
  - intros _. cbn [snd]. rewrite Hz. apply zeros_wf.
  - intros s' Hs'. apply HQ. cbn [snd] in Hs'. rewrite Hz in Hs'. unfold put_at in Hs'.
    rewrite splice_all in Hs'; [done|]. by rewrite Hl.
Qed.

Lemma bm_free_empty bm : bm_free bm ∅.
Proof.
  split; [intros; apply not_elem_of_empty|]. rewrite size_empty. unfold BLOCK_CACHE_SIZE. lia.
Qed.

(** The data bitmap of [efs] is on the device and none of its blocks is held. *)
Definition efs_free (efs : EasyFileSystem) (h : gset Z) : Prop :=
  bm_wf cap (data_bitmap efs) ∧ bm_free (data_bitmap efs) h ∧
  0 <= data_area_start_block efs ∧ data_area_start_block efs + nbits (data_bitmap efs) < 2 ^ 32.

Lemma wp_alloc_data s d h efs :
  store_ok s d h → efs_free efs h →
  (∃ i, 0 <= i < nbits (data_bitmap efs) ∧ bit_of d (data_bitmap efs) i = false) →
  wp (alloc_data efs) (λ b s', ∃ d' i, b = data_area_start_block efs + i ∧
    store_ok s' d' h ∧ 0 <= i < nbits (data_bitmap efs) ∧ bit_of d (data_bitmap efs) i = false ∧
    (∀ j, 0 <= j < i → bit_of d (data_bitmap efs) j = true) ∧
    bit_changed d d' (data_bitmap efs) i true) s.
Proof.
  intros Hs (Hbm & Hfree & H0 & Hmax) (i0 & Hi0 & Hclear). unfold alloc_data. wp_steps.
  eapply wp_mono; [by apply wp_alloc|]. intros [i|] s'; simpl.
  - intros (d' & Hs' & Hi & Hci & Hbelow & Hch). wp_steps.
    rewrite (wrap_small 32 i), wrap_small by lia. exists d', i. split_and!; try done; lia.
  - intros [_ Hall]. rewrite Hall in Hclear by done. done.
Qed.

(** C31: where the data bitmap has more bits than the data area has blocks (the
    image of [easy-fs-fuse] is such a layout), a full data area is not detected:
    [alloc_data] then succeeds and returns the number of a block past the end of
    the device. *)
Theorem alloc_data_overrun s d total ib :
  let efs := fst (efs_layout total ib) in
  let sb := snd (efs_layout total ib) in
  layout_ok total ib → total <= cap → store_ok s d ∅ →
  data_area_blocks sb < nbits (data_bitmap efs) →
  (∀ j, 0 <= j < data_area_blocks sb → bit_of d (data_bitmap efs) j = true) →
  bit_of d (data_bitmap efs) (data_area_blocks sb) = false →
  wp (alloc_data efs) (λ b _, b = total) s.
Proof.
  intros efs sb Hok Hcap Hs. unfold efs, sb. clear efs sb.
  destruct (efs_layout_eq total ib Hok) as (-> & Hdb & Hle). destruct Hok as (H1 & H2 & H3).
  cbn [fst snd data_area_blocks data_bitmap]. set (da := total - 1 - 1025 * ib - _).
  set (bm := mkBitmap _ _). intros Hlt Hset Hclear.
  assert (Hdb' : data_bitmap_size total ib * 4097 <= total - 1 - 1025 * ib + 4096) by (unfold data_bitmap_size; zdiv).
  eapply wp_mono; [apply (wp_alloc_data s d ∅)|].
  - done.
  - split; [split_and!; simpl; lia|]. split; [apply bm_free_empty|]. unfold nbits. simpl. lia.
  - exists da. split; [|done]. split; [unfold da; lia|exact Hlt].
  - intros b s' (d' & i & -> & _ & Hi & Hci & Hbelow & _). cbn [data_area_start_block data_bitmap] in *.
    assert (i = da) as ->; [|unfold da; lia].
    destruct (decide (i < da)); [rewrite Hset in Hci by lia; done|].
    destruct (decide (da < i)); [|lia]. rewrite Hbelow in Hclear by (unfold da in *; lia). done.
Qed.

(** ** Formatting and opening *)

Lemma bit_of_ext (d d' : disk) bm j :
  (∀ b, in_bitmap bm b → d' b = d b) → 0 <= j < nbits bm → bit_of d' bm j = bit_of d bm j.
Proof.
  intros Hd Hj. unfold bit_of, word_of, at_block. rewrite Hd; [done|]. unfold in_bitmap, nbits in *. zdiv.
Qed.

Lemma bit_of_zeros (d : disk) bm j :
  (∀ b, in_bitmap bm b → d b = zeros) → 0 <= j < nbits bm → bit_of d bm j = false.
Proof.
  intros Hd Hj. unfold bit_of, word_of, at_block. rewrite Hd by (unfold in_bitmap, nbits in *; zdiv).
  assert (decode (take (size_of BitmapBlock) (drop (Z.to_nat 0) zeros)) = mkBitmapBlock (replicate 64 0)) as ->
    by (vm_compute; reflexivity).
  cbn [bb_words]. rewrite lookup_replicate_2 by zdiv. apply Z.bits_0.
Qed.

Definition empty_dir : DiskInode := mkDiskInode 0 (replicate 28 0) 0 0 TDirectory [0; 0; 0].

(** What [create] leaves on the device. *)
Record formatted (d : disk) (total ib : Z) : Prop := {
  fm_super : at_block d 0 0 = snd (efs_layout total ib);
  fm_inodes : ∀ i, 0 <= i < nbits (inode_bitmap (fst (efs_layout total ib))) →
    bit_of d (inode_bitmap (fst (efs_layout total ib))) i = bool_decide (i = 0);
  fm_data : ∀ i, 0 <= i < nbits (data_bitmap (fst (efs_layout total ib))) →
    bit_of d (data_bitmap (fst (efs_layout total ib))) i = false;
  fm_root : at_block d (1 + ib) 0 = empty_dir;
  fm_free : ∀ b, data_area_start_block (fst (efs_layout total ib)) <= b < total → d b = zeros
}.

Lemma wp_zero_all s d total :
  store_ok s d ∅ → 0 <= total <= cap →
  wp (fold_m (λ _ i, zero_block i) tt (seqZ 0 total))
    (λ _ s', ∃ d', store_ok s' d' ∅ ∧ ∀ b, 0 <= b < total → d' b = zeros) s.
Proof.
  intros Hs Htot. eapply wp_mono.
  { apply (wp_fold_m (λ pre _ s', ∃ d', store_ok s' d' ∅ ∧ ∀ b, b ∈ pre → d' b = zeros)).
    - exists d. split; [done|]. intros b Hb. by apply not_elem_of_nil in Hb.
    - intros pre i post [] s1 Hl (d1 & Hs1 & Hz).
      assert (Hi : i ∈ seqZ 0 total) by (rewrite Hl; set_solver). apply elem_of_seqZ in Hi.
      eapply wp_zero_block; [exact Hs1|lia|apply not_elem_of_empty| |].
      { rewrite size_empty. unfold BLOCK_CACHE_SIZE. lia. }
      intros s2 Hs2. eexists. split; [exact Hs2|]. intros b Hb. unfold upd.
      destruct (decide (b = i)); [done|]. apply Hz. apply elem_of_app in Hb as [?|Hb]; [done|].
      by apply list_elem_of_singleton in Hb. }
  intros [] s' (d' & Hs' & Hz). exists d'. split; [done|]. intros b Hb. apply Hz, elem_of_seqZ. lia.
Qed.

Lemma empty_dir_valid : valid empty_dir.
Proof.
  split_and!; try done; unfold words_valid, di_words, is_byte, empty_dir, TDirectory; simpl;
    repeat constructor; lia.
Qed.

Lemma zeros_inode : DiskInode_initialize TDirectory (decode (take 128 (drop 0 zeros))) = empty_dir.
Proof. vm_compute. reflexivity. Qed.

(** The first inode of an empty bitmap. *)
Lemma wp_alloc_first s d efs :
  store_ok s d ∅ → bm_wf cap (inode_bitmap efs) → 0 < nbits (inode_bitmap efs) →
  (∀ j, 0 <= j < nbits (inode_bitmap efs) → bit_of d (inode_bitmap efs) j = false) →
  wp (alloc_inode efs) (λ i s', i = 0 ∧ ∃ d', store_ok s' d' ∅ ∧ bit_changed d d' (inode_bitmap efs) 0 true) s.
Proof.
  intros Hs Hbm Hnb Hbits. unfold alloc_inode. wp_steps.
  eapply wp_mono; [apply (wp_alloc s d ∅); [done|done|apply bm_free_empty]|].
  intros [i|] s3; [|intros [_ Hall]; specialize (Hall 0 ltac:(lia)); rewrite Hbits in Hall by lia; done].
  intros (d3 & Hs3 & Hi & _ & Hbelow & Hch). assert (i = 0) as ->.
  { destruct (decide (i = 0)); [done|]. specialize (Hbelow 0 ltac:(lia)). rewrite Hbits in Hbelow by lia. done. }
  wp_steps. eapply wp_unwrap; [done|]. wp_steps. eauto.
Qed.

Lemma wp_create s d total ib :
  layout_ok total ib → total <= cap → store_ok s d ∅ →
  wp (create total ib)
    (λ efs s', efs = fst (efs_layout total ib) ∧ ∃ d', store_ok s' d' ∅ ∧ formatted d' total ib) s.
Proof.
  intros Hok Hcap Hs. unfold create. destruct (efs_layout_eq total ib Hok) as (Heq & Hdb & Hle).
  rewrite Heq. destruct Hok as (H1 & H2 & H3). set (db := data_bitmap_size total ib) in *.
  set (ibm := mkBitmap 1 ib). set (dbm := mkBitmap (1 + 1025 * ib) db).
  assert (Hsize : (size (∅ : gset Z) < BLOCK_CACHE_SIZE)%nat) by (rewrite size_empty; unfold BLOCK_CACHE_SIZE; lia).
  wp_steps. eapply wp_mono; [apply (wp_zero_all s d); [done|lia]|]. intros [] s1 (d1 & Hs1 & Hz).
  wp_steps. set (sb := mkSuperBlock _ _ _ _ _ _).
  assert (Hsbv : valid sb).
  { unfold sb, EFS_MAGIC. repeat constructor; simpl; lia. }
  eapply (wp_modify_pure s1 d1 ∅ 0 0 (λ _ : SuperBlock, (tt, sb))); [done|lia|apply not_elem_of_empty|done|done|done|done|].
  cbn [fst snd]. intros s2 Hs2. set (d2 := put_at d1 0 0 sb) in *.
  assert (Hd2 : ∀ b, 0 < b < total → d2 b = zeros).
  { intros b Hb. unfold d2. rewrite put_other by lia. apply Hz. lia. }
  wp_steps. assert (Hbits : ∀ j, 0 <= j < nbits ibm → bit_of d2 ibm j = false).
  { intros j Hj. apply bit_of_zeros; [|done]. unfold in_bitmap. simpl. intros b Hb. apply Hd2. lia. }
  eapply wp_mono.
  { apply (wp_alloc_first s2 d2 _ Hs2); [split_and!; simpl; lia|unfold nbits; simpl; lia|exact Hbits]. }
  intros i s3 (-> & d3 & Hs3 & Hch & Hfr). wp_steps. apply wp_assert; [done|].
  assert (Hd3 : ∀ b, 1 + ib <= b < total → d3 b = zeros).
  { intros b Hb. rewrite Hfr by (unfold in_bitmap; simpl; lia). apply Hd2. lia. }
  unfold get_disk_inode_pos, BLOCK_SZ, INODE_SIZE. cbn [inode_area_start_block].
  change (0 / (512 / 128)) with 0. change (0 mod (512 / 128) * 128) with 0. rewrite Z.add_0_r, wrap_small by lia.
  assert (Hroot : DiskInode_initialize TDirectory (at_block d3 (1 + ib) 0) = empty_dir).
  { rewrite <- zeros_inode. unfold at_block. by rewrite Hd3 by lia. }
  wp_steps. eapply (wp_modify_pure s3 d3 ∅ (1 + ib) 0 (λ x : DiskInode, (tt, DiskInode_initialize TDirectory x)));
    [done|lia|apply not_elem_of_empty|done|done|done| |].
  { intros _. cbn [snd]. rewrite Hroot. apply empty_dir_valid. }
  cbn [fst snd]. rewrite Hroot. intros s4 Hs4. wp_steps. eapply wp_mono; [by eapply store_sync|]. intros [] s5 Hs5. wp_steps.
  split; [done|]. eexists. split; [exact Hs5|]. set (d5 := put_at d3 (1 + ib) 0 _) in *.
  assert (Hd5 : ∀ b, b ≠ 1 + ib → d5 b = d3 b) by (intros; by apply put_other).
  split; rewrite ?Heq; cbn [fst snd inode_bitmap data_bitmap data_area_start_block]; fold ibm dbm sb.
  - unfold at_block. rewrite Hd5, Hfr by (unfold in_bitmap; simpl; lia).
    apply (at_put_same d1 0 0 sb); [by apply (store_wf s1 d1 ∅); [|lia]|done|done|done].
  - intros j Hj. rewrite (bit_of_ext d3) by (done || (unfold in_bitmap; simpl; intros; apply Hd5; lia)).
    rewrite Hch by done. rewrite Hbits by done. by case_decide; case_bool_decide.
  - intros j Hj. apply bit_of_zeros; [|done]. unfold in_bitmap. simpl. intros b Hb.
    rewrite Hd5 by lia. apply Hd3. lia.
  - unfold d5. rewrite at_put_same; [done|by apply (store_wf s3 d3 ∅); [|lia]|done|done|apply empty_dir_valid].
  - intros b Hb. rewrite Hd5 by lia. apply Hd3. lia.
Qed.

Lemma wp_open s d total ib (Q : EasyFileSystem → St → Prop) :
  layout_ok total ib → total <= cap → store_ok s d ∅ → at_block d 0 0 = snd (efs_layout total ib) →
  (∀ s', store_ok s' d ∅ → Q (fst (efs_layout total ib)) s') → wp open Q s.
Proof.
  intros Hok Hcap Hs Hsb HQ. destruct (efs_layout_eq total ib Hok) as (Heq & Hdb & Hle).
  rewrite Heq in Hsb, HQ. destruct Hok as (H1 & H2 & H3). cbn [fst snd] in *. unfold open.
  eapply wp_read_block_as; [exact Hs|lia|apply not_elem_of_empty| |done|done|].
  { rewrite size_empty. unfold BLOCK_CACHE_SIZE. lia. }
  intros s1 Hs1. rewrite Hsb. wp_steps. apply wp_assert; [done|]. wp_steps. exists d. split; [done|].
  intros s3 Hs3. specialize (HQ s3 Hs3). cbn [inode_bitmap_blocks inode_area_blocks data_bitmap_blocks].
  unfold Bitmap_new. rewrite (wrap_small 32 (ib + 1024 * ib)) by lia. rewrite !wrap_small by lia.
  replace (1 + (ib + 1024 * ib)) with (1 + 1025 * ib) by lia. done.
Qed.

(** formatting and opening.  [EasyFileSystem::create] succeeds on a device
    with [total] blocks, whatever was on it, and leaves the super block, an inode
    bitmap with only the root inode in use, an empty data bitmap, an empty root
    directory and a zeroed data area; [EasyFileSystem::open] then returns the very
    same file system. *)
Theorem create_then_open s d total ib :
  layout_ok total ib → total <= cap → store_ok s d ∅ →
  wp (efs ← create total ib; efs' ← open; mret (efs, efs'))
    (λ r s', fst r = fst (efs_layout total ib) ∧ snd r = fst r ∧
       ∃ d', store_ok s' d' ∅ ∧ formatted d' total ib) s.
Proof.
  intros Hok Hcap Hs. wp_steps. eapply wp_mono; [by apply (wp_create s d)|]. intros efs s1 (-> & d1 & Hs1 & Hf).
  wp_steps. eapply (wp_open s1 d1 total ib); [done|done|done|apply (fm_super _ _ _ Hf)|].
  intros s2 Hs2. wp_steps. eauto.
Qed.
End proofs.

(** A device of 1028 blocks with one data block, in use: the next allocation
    returns block 1028. *)
Definition full_file : File := mkFile (4096 * 512) {[ 1026 * 512 := 1 ]} 0.

Lemma full_file_ok : dev_ok (BlockDeviceLaws := demo_file_laws) full_file (file_block full_file).
Proof.
  split_and!; [done| |done]. apply map_Forall_singleton. unfold is_byte. lia.
Qed.

Lemma alloc_data_overrun_witness :
  wp (alloc_data (fst (efs_layout 1028 1))) (λ b (_ : demo_store), b = 1028) (BlockCacheManager_new full_file).
Proof.
  apply (alloc_data_overrun (HL := demo_laws) _ (file_block full_file) 1028 1).
  - unfold layout_ok. lia.
  - lia.
  - apply (cache_ok_new (HDL := demo_file_laws)), full_file_ok.
  - reflexivity.
  - intros j Hj. change (data_area_blocks (snd (efs_layout 1028 1))) with 1 in Hj.
    replace j with 0 by lia. vm_compute. reflexivity.
  - vm_compute. reflexivity.
Defined.

Lemma create_then_open_witness :
  wp (efs ← create 4096 1; efs' ← open; mret (efs, efs'))
    (λ r (_ : demo_store), snd r = fst r ∧ data_area_start_block (fst r) = 1027)
    (BlockCacheManager_new demo_file).
Proof.
  eapply wp_mono.
  - apply (create_then_open (HL := demo_laws) _ (file_block demo_file) 4096 1).
    + unfold layout_ok. lia.
    + lia.
    + exact demo_store_ok.
  - intros r s' (H1 & H2 & _). rewrite H2, H1. split; reflexivity.
Defined.
