(* ===== verification/Vfs.v ===== *)
(** * Files and directories of easy-fs

    [easy-fs/src/vfs.rs]: [Inode], the handle of a file or directory given to the
    kernel, and its operations. *)

From S2P Require Import Prelude Codec BlockDev BlockCache Bitmap Layout InodeTree Efs.

Record Inode := mkInode {
  inode_block_id : Z;
  inode_block_offset : Z
}.

(** [EasyFileSystem::root_inode]. *)
Definition root_inode (efs : EasyFileSystem) : Inode :=
  let '(block_id, block_offset) := get_disk_inode_pos efs 0 in mkInode block_id block_offset.

Section vfs.
Context {St : Type} `{HS : BlockStore St}.

Definition read_disk_inode {V} (i : Inode) (f : DiskInode → M St V) : M St V :=
  read_block_as (inode_block_id i) (inode_block_offset i) f.
Definition modify_disk_inode {V} (i : Inode) (f : DiskInode → M St (V * DiskInode)) : M St V :=
  modify_block_as (inode_block_id i) (inode_block_offset i) f.

(** [disk_inode.read_at(DIRENT_SZ * i, dirent.as_bytes_mut(), ..)] with its
    assertion, and the entry afterwards. *)
Definition read_dirent (x : DiskInode) (dirent : DirEntry) (i : Z) : M St DirEntry :=
  r ← DiskInode_read_at x (wrap64 (DIRENT_SZ * i)) (encode dirent);
  _ ← assert_ (snd r =? DIRENT_SZ);
  mret (decode (fst r)).

Fixpoint find_loop (name : list Z) (x : DiskInode) (dirent : DirEntry) (l : list Z) : M St (option Z) :=
  match l with
  | [] => mret None
  | i :: l' =>
      e ← read_dirent x dirent i;
      nm ← lift_result (DirEntry_name e);
      if decide (nm = name) then mret (Some (inode_number e)) else find_loop name x e l'
  end.

Definition find_inode_id (name : list Z) (x : DiskInode) : M St (option Z) :=
  _ ← assert_ (is_dir x);
  let file_count := di_size x / DIRENT_SZ in
  find_loop name x DirEntry_empty (seqZ 0 file_count).

Definition inode_of (efs : EasyFileSystem) (inode_id : Z) : Inode :=
  let '(block_id, block_offset) := get_disk_inode_pos efs inode_id in mkInode block_id block_offset.

Definition find (efs : EasyFileSystem) (self : Inode) (name : list Z) : M St (option Inode) :=
  read_disk_inode self (λ x,
    r ← find_inode_id name x;
    mret (inode_of efs <$> r)).

(** Allocate the missing blocks and grow the inode. *)
Definition Inode_increase_size (efs : EasyFileSystem) (new_size : Z) (x : DiskInode) : M St DiskInode :=
  if new_size <? di_size x then mret x else
  blocks_needed ← blocks_num_needed x new_size;
  v ← fold_m (λ v _, b ← alloc_data efs; mret (v ++ [b])) [] (seqZ 0 blocks_needed);
  increase_size new_size v x.

Definition Inode_create (efs : EasyFileSystem) (self : Inode) (name : list Z) : M St (option Inode) :=
  found ← modify_disk_inode self (λ x,
            _ ← assert_ (is_dir x);
            r ← find_inode_id name x;
            mret (r, x));
  match found with
  | Some _ => mret None
  | None =>
      (* create a new file *)
      new_inode_id ← alloc_inode efs;
      (* initialize inode *)
      let '(new_inode_block_id, new_inode_block_offset) := get_disk_inode_pos efs new_inode_id in
      _ ← modify_block_as new_inode_block_id new_inode_block_offset (λ x : DiskInode,
            mret (tt, DiskInode_initialize TFile x));
      _ ← modify_disk_inode self (λ x,
            (* append file in the dirent *)
            let file_count := di_size x / DIRENT_SZ in
            let new_size := wrap64 ((file_count + 1) * DIRENT_SZ) in
            x ← Inode_increase_size efs (wrap32 new_size) x;
            dirent ← lift_result (DirEntry_new name new_inode_id);
            n ← DiskInode_write_at x (wrap64 (file_count * DIRENT_SZ)) (as_bytes dirent);
            mret (tt, x));
      _ ← sync_all;
      mret (Some (inode_of efs new_inode_id))
  end.

Definition ls (self : Inode) : M St (list (list Z)) :=
  read_disk_inode self (λ x,
    let file_count := di_size x / DIRENT_SZ in
    fold_m (λ v i,
      e ← read_dirent x DirEntry_empty i;
      nm ← lift_result (DirEntry_name e);
      mret (v ++ [nm])) [] (seqZ 0 file_count)).

Definition Inode_read_at (self : Inode) (offset : Z) (buf : list Z) : M St (list Z * Z) :=
  read_disk_inode self (λ x, DiskInode_read_at x offset buf).

Definition Inode_write_at (efs : EasyFileSystem) (self : Inode) (offset : Z) (buf : list Z) : M St Z :=
  size ← modify_disk_inode self (λ x,
           x ← Inode_increase_size efs (wrap32 (wrap64 (offset + lengthZ buf))) x;
           n ← DiskInode_write_at x offset buf;
           mret (n, x));
  _ ← sync_all;
  mret size.

Definition clear (efs : EasyFileSystem) (self : Inode) : M St unit :=
  _ ← modify_disk_inode self (λ x,
        r ← clear_size x;
        _ ← assert_ (lengthZ (fst r) =? total_blocks (di_size x));
        _ ← fold_m (λ _ b, dealloc_data efs b) tt (fst r);
        mret (tt, snd r));
  sync_all.
End vfs.

(** ** Allocating several blocks *)

(** Clear bits among the first [n]. *)
Definition free_bits (d : disk) (bm : Bitmap) (n : Z) : nat :=
  length (filter (λ i, bit_of d bm i = false) (seqZ 0 n)).

Lemma filter_ext_in {A} (P P' : A → Prop) `{!∀ x, Decision (P x), !∀ x, Decision (P' x)} (l : list A) :
  (∀ y, y ∈ l → P y ↔ P' y) → filter P l = filter P' l.
Proof.
  induction l as [|y l IH]; intros Hext; [done|]. pose proof (Hext y ltac:(by left)) as Hy.
  assert (filter P l = filter P' l) as Hl by (apply IH; intros z Hz; apply Hext; by right).
  rewrite !filter_cons, Hl. destruct (decide (P y)), (decide (P' y)); tauto.
Qed.

Lemma filter_remove {A} (P P' : A → Prop) `{!∀ x, Decision (P x), !∀ x, Decision (P' x)} (l : list A) x :
  NoDup l → x ∈ l → P x → ¬ P' x → (∀ y, y ∈ l → y ≠ x → P' y ↔ P y) →
  length (filter P l) = S (length (filter P' l)).
Proof.
  intros Hnd. induction Hnd as [|y l Hy Hnd IH]; intros Hx HPx HP'x Hext; [by apply not_elem_of_nil in Hx|].
  apply elem_of_cons in Hx as [<-|Hx].
  - rewrite filter_cons_True, filter_cons_False by done. cbn [length]. f_equal. f_equal.
    apply filter_ext_in. intros z Hz. symmetry. apply Hext; [by right|]. by intros ->.
  - assert (y ≠ x) by (by intros ->). assert (Hyy : P' y ↔ P y) by (apply Hext; [by left|done]).
    assert (IH' : length (filter P l) = S (length (filter P' l))).
    { apply IH; [done..|]. intros z Hz Hne. apply Hext; [by right|done]. }
    rewrite !filter_cons. destruct (decide (P y)), (decide (P' y)); cbn [length]; try tauto; lia.
Qed.

Section proofs.
Context {St : Type} {cap : Z} `{HS : BlockStore St} `{HL : !BlockStoreLaws St cap}.

(** The file system on a device of [cap] blocks: the data bitmap, then the data
    area of [area] blocks. *)
Record efs_ok (efs : EasyFileSystem) (area : Z) : Prop := {
  eo_bm : bm_wf cap (data_bitmap efs);
  eo_start : start_block_id (data_bitmap efs) + blocks (data_bitmap efs) <= data_area_start_block efs;
  eo_area : 0 <= area <= nbits (data_bitmap efs);
  eo_cap : data_area_start_block efs + area <= cap;
  eo_max : data_area_start_block efs + nbits (data_bitmap efs) < 2 ^ 32
}.

(** Data block [b] is in the area and in use. *)
Definition used (d : disk) (efs : EasyFileSystem) (area b : Z) : Prop :=
  data_area_start_block efs <= b < data_area_start_block efs + area ∧
  bit_of d (data_bitmap efs) (b - data_area_start_block efs) = true.

(** What allocating the blocks [v] does. *)
Record allocated (d d' : disk) (efs : EasyFileSystem) (area : Z) (v : list Z) : Prop := {
  al_nodup : NoDup v;
  al_new : ∀ b, b ∈ v → ¬ used d efs area b ∧ used d' efs area b;
  al_keep : ∀ b, used d efs area b → used d' efs area b;
  al_frame : ∀ b, ¬ in_bitmap (data_bitmap efs) b → d' b = d b
}.

Lemma allocated_nil d efs area : allocated d d efs area [].
Proof. split; [constructor|by intros b Hb%not_elem_of_nil|done|done]. Qed.

Lemma free_bits_exists d bm n : (0 < free_bits d bm n)%nat → ∃ i, 0 <= i < n ∧ bit_of d bm i = false.
Proof.
  unfold free_bits. intros Hlt. destruct (filter _ (seqZ 0 n)) as [|i l] eqn:Hf; [simpl in Hlt; lia|].
  assert (i ∈ filter (λ i, bit_of d bm i = false) (seqZ 0 n)) as Hi by (rewrite Hf; by left).
  apply list_elem_of_filter in Hi as [Hi Hr%elem_of_seqZ]. exists i. split; [lia|done].
Qed.

Lemma free_bits_changed d d' bm i n :
  bit_changed d d' bm i true → n <= nbits bm → 0 <= i < n → bit_of d bm i = false →
  free_bits d bm n = S (free_bits d' bm n).
Proof.
  intros [Hch _] Hn Hi Hclear. unfold free_bits. apply (filter_remove _ _ _ i).
  - apply NoDup_seqZ.
  - apply elem_of_seqZ. lia.
  - done.
  - rewrite Hch, decide_True by (done || lia). done.
  - intros j Hj%elem_of_seqZ Hne. rewrite Hch, decide_False by (done || lia). done.
Qed.

Lemma wp_alloc_one s d h efs area :
  store_ok s d h → efs_ok efs area → bm_free (data_bitmap efs) h →
  (0 < free_bits d (data_bitmap efs) area)%nat →
  wp (alloc_data efs) (λ b s', ∃ d', store_ok s' d' h ∧ allocated d d' efs area [b] ∧
    free_bits d (data_bitmap efs) area = S (free_bits d' (data_bitmap efs) area)) s.
Proof.
  intros Hs [Hbm Hst Har Hcp Hmax] Hfree Hpos. destruct (free_bits_exists _ _ _ Hpos) as (i0 & Hi0 & Hc0).
  pose proof Hbm as (?&?&?&?).
  eapply wp_mono; [apply (wp_alloc_data s d h efs)|].
  - done.
  - split_and!; try done; lia.
  - exists i0. split; [lia|done].
  - intros b s' (d' & i & -> & Hs' & Hi & Hci & Hbelow & Hch). exists d'. split; [done|].
    assert (i < area).
    { destruct (decide (i <= i0)); [lia|]. rewrite Hbelow in Hc0 by lia. done. }
    split; [|by eapply free_bits_changed; [done|lia|lia|done]]. pose proof Hch as [Hb Hfr].
    assert (Hd : data_area_start_block efs + i - data_area_start_block efs = i) by lia. split.
    + apply NoDup_singleton.
    + intros b ->%list_elem_of_singleton. unfold used. rewrite Hd, Hci, Hb, decide_True by (done || lia).
      split; [naive_solver|]. split; [lia|done].
    + intros b [Hr Hu]. split; [done|]. rewrite Hb by lia. case_decide; [done|exact Hu].
    + done.
Qed.

Lemma allocated_snoc d d1 d2 efs area v b :
  allocated d d1 efs area v → allocated d1 d2 efs area [b] → allocated d d2 efs area (v ++ [b]).
Proof.
  intros [N1 A1 K1 F1] [N2 A2 K2 F2]. destruct (A2 b ltac:(by left)) as [Hn Hu]. split.
  - apply NoDup_app. split_and!; [done| |apply NoDup_singleton].
    intros c Hc ->%list_elem_of_singleton. apply Hn. by apply A1.
  - intros c [Hc| ->%list_elem_of_singleton]%elem_of_app.
    + destruct (A1 c Hc) as [? ?]. split; [done|]. by apply K2.
    + split; [|done]. intros Hb. by apply Hn, K1.
  - intros c Hc. by apply K2, K1.
  - intros c Hc. rewrite F2, F1 by done. done.
Qed.

(** The loop of [Inode::increase_size]. *)
Lemma wp_alloc_many s d h efs area n :
  store_ok s d h → efs_ok efs area → bm_free (data_bitmap efs) h → 0 <= n →
  n <= Z.of_nat (free_bits d (data_bitmap efs) area) →
  wp (fold_m (λ v _, b ← alloc_data efs; mret (v ++ [b])) [] (seqZ 0 n))
    (λ v s', lengthZ v = n ∧ ∃ d', store_ok s' d' h ∧ allocated d d' efs area v ∧
       Z.of_nat (free_bits d (data_bitmap efs) area) = n + Z.of_nat (free_bits d' (data_bitmap efs) area)) s.
Proof.
  intros Hs Hefs Hfree Hn Hle. eapply wp_mono.
  { apply (wp_fold_m (λ pre v s', length v = length pre ∧ ∃ d', store_ok s' d' h ∧
      allocated d d' efs area v ∧
      free_bits d (data_bitmap efs) area = (length pre + free_bits d' (data_bitmap efs) area)%nat)).
    - split; [done|]. exists d. split_and!; [done|apply allocated_nil|done].
    - intros pre i post v s1 Hl (Hv & d1 & Hs1 & Hal & Hfb). wp_steps.
      assert (length pre < length (seqZ 0 n))%nat as Hlt by (rewrite Hl, length_app; simpl; lia).
      rewrite length_seqZ in Hlt.
      eapply wp_mono; [apply (wp_alloc_one s1 d1 h efs area); [done|done|done|lia]|].
      intros b s2 (d2 & Hs2 & Hal2 & Hfb2). wp_steps. rewrite !length_app. simpl. split; [lia|].
      exists d2. split_and!; [done|by eapply allocated_snoc|lia]. }
  intros v s' (Hv & d' & Hs' & Hal & Hfb). rewrite length_seqZ in Hv, Hfb. split; [unfold lengthZ; lia|].
  exists d'. split_and!; [done|done|lia].
Qed.

(** ** Growing a file *)

(** Block numbers are stored in 32 bits. *)
Hypothesis Hcap : cap <= 2 ^ 32.

Abbreviation inode_ok_ := (inode_ok (cap := cap)).

(** The locks held are outside the data bitmap and the data area. *)
Definition held_ok (efs : EasyFileSystem) (h : gset Z) : Prop :=
  bm_free (data_bitmap efs) h ∧ (∀ b, data_area_start_block efs <= b → b ∉ h) ∧
  (S (size h) < BLOCK_CACHE_SIZE)%nat.

Lemma used_takeable d efs area h b :
  efs_ok efs area → held_ok efs h → used d efs area b → takeable (cap := cap) h b.
Proof.
  intros [Hbm Hst Har Hcp Hmax] (_ & Hh & _) [Hr _]. destruct Hbm as (?&?&?&?). split; [lia|]. apply Hh. lia.
Qed.

(** A change outside the bitmap keeps the allocation state. *)
Lemma used_ext d d' efs area b :
  efs_ok efs area → (∀ c, in_bitmap (data_bitmap efs) c → d' c = d c) →
  used d' efs area b ↔ used d efs area b.
Proof.
  intros Hefs Hd. unfold used. split; intros [Hr Hb]; (split; [done|]).
  - rewrite <- Hb. symmetry. apply bit_of_ext; [done|]. pose proof (eo_area _ _ Hefs). lia.
  - rewrite <- Hb. apply bit_of_ext; [done|]. pose proof (eo_area _ _ Hefs). lia.
Qed.

Lemma free_bits_ext d d' efs area :
  efs_ok efs area → (∀ c, in_bitmap (data_bitmap efs) c → d' c = d c) →
  free_bits d' (data_bitmap efs) area = free_bits d (data_bitmap efs) area.
Proof.
  intros Hefs Hd. unfold free_bits. f_equal. apply filter_ext_in. intros j Hj%elem_of_seqZ.
  rewrite (bit_of_ext d); [done|done|]. pose proof (eo_area _ _ Hefs). lia.
Qed.

Lemma inode_tree_ext d d' h x L :
  inode_ok_ d h x L → (∀ b, meta_of L b → d' b = d b) → inode_ok_ d' h x L.
Proof.
  intros [Hv Hsz Ht Hnd Htk] Hd. split; try done. destruct Ht as [Hl [H1 H2 H3 H4]]. split; [done|].
  assert (Hi2 : 157 < lengthZ L → ind_words d' (indirect2 x) = ind_words d (indirect2 x)).
  { intros Hlt. unfold ind_words, at_block. rewrite Hd; [done|]. exists 157. split; [by right; left|auto]. }
  assert (Hi1 : 28 < lengthZ L → ind_words d' (indirect1 x) = ind_words d (indirect1 x)).
  { intros Hlt. unfold ind_words, at_block. rewrite Hd; [done|]. exists 28. split; [by left|auto]. }
  assert (Hsub : ∀ a, 0 <= a → sub_pos a < lengthZ L → ind_words d' (word (Z.to_nat a) (ind_words d (indirect2 x))) =
    ind_words d (word (Z.to_nat a) (ind_words d (indirect2 x)))).
  { intros a Ha Hlt. unfold ind_words at 1 3, at_block. rewrite Hd; [done|].
    exists (sub_pos a). split; [right; right; eauto|auto]. }
  split; [|done|done|].
  - intros k Hk Hp. rewrite (H1 k Hk Hp). unfold inode_block.
    destruct (Z.ltb_spec k 28); [done|]. destruct (Z.ltb_spec k 156).
    + rewrite Hi1; [done|]. pos_lia.
    + rewrite Hi2 by pos_lia. rewrite Hsub; [done|zdiv|pos_lia].
  - intros a Ha Hp. rewrite (H4 a Ha Hp). rewrite Hi2; [done|]. unfold sub_pos in Hp. lia.
Qed.

Lemma meta_elem_of (L : list Z) b : meta_of L b → b ∈ L.
Proof. intros (p & _ & Hp). by eapply lookupZ_elem. Qed.

Lemma inode_byte_ext d d' h x L i :
  inode_ok_ d h x L → (∀ b, b ∈ L → d' b = d b) → 0 <= i < 512 * data_blocks x →
  file_byte d' x i = file_byte d x i.
Proof.
  intros Hx Hd Hi.
  assert (Hx' : inode_ok_ d' h x L) by (apply (inode_tree_ext d); [done|]; intros b Hb; by apply Hd, meta_elem_of).
  pose proof (tree_data _ _ _ _ (i / 512) (io_tree _ _ _ _ Hx) ltac:(zdiv)) as E1.
  pose proof (tree_data _ _ _ _ (i / 512) (io_tree _ _ _ _ Hx') ltac:(zdiv)) as E2.
  rewrite E1 in E2. injection E2 as E2. unfold file_byte. rewrite <- E2, Hd; [done|]. by eapply lookupZ_elem.
Qed.

(** The result of growing [x] to [size]: the new inode, its blocks and the disk. *)
Record extended (efs : EasyFileSystem) (area : Z) (h : gset Z) (x x' : DiskInode) (L L' : list Z)
    (d d' : disk) (size : Z) : Prop := {
  ex_inode : inode_ok_ d' h x' L';
  ex_used : ∀ b, b ∈ L' → used d' efs area b;
  ex_sub : ∀ b, b ∈ L → b ∈ L';
  ex_fresh : ∀ b, b ∈ L' → b ∈ L ∨ ¬ used d efs area b;
  ex_size : di_size x' = Z.max (di_size x) size;
  ex_type : type_ x' = type_ x;
  ex_bytes : ∀ i, 0 <= i < 512 * data_blocks x → file_byte d' x' i = file_byte d x i;
  ex_keep : ∀ b, used d efs area b → used d' efs area b;
  ex_frame : ∀ b, ¬ in_bitmap (data_bitmap efs) b → b ∉ L' → d' b = d b;
  ex_free : Z.of_nat (free_bits d (data_bitmap efs) area) =
    Z.of_nat (free_bits d' (data_bitmap efs) area) + (total_blocks (di_size x') - total_blocks (di_size x))
}.

Lemma wp_Inode_increase_size s d h efs area x L new_size :
  store_ok s d h → efs_ok efs area → held_ok efs h → inode_ok_ d h x L →
  (∀ b, b ∈ L → used d efs area b) → 0 <= new_size <= 512 * INDIRECT2_BOUND →
  total_blocks new_size - total_blocks (di_size x) <= Z.of_nat (free_bits d (data_bitmap efs) area) →
  wp (Inode_increase_size efs new_size x)
    (λ x' s', ∃ d' L', store_ok s' d' h ∧ extended efs area h x x' L L' d d' new_size) s.
Proof.
  intros Hs Hefs Hh Hx Hused Hns Hfree. unfold Inode_increase_size.
  pose proof Hh as (Hbf & Hhd & Hsz). pose proof (io_size _ _ _ _ Hx) as Hsize.
  destruct (Z.ltb_spec new_size (di_size x)).
  { wp_steps. exists d, L. split; [done|]. split; try done; [by left|lia|lia]. }
  unfold blocks_num_needed. wp_steps. apply wp_assert; [lia|]. wp_steps.
  assert (Htot : 0 <= total_blocks new_size - total_blocks (di_size x) < 2 ^ 32).
  { rewrite !total_blocks_tot by done.
    pose proof (data_blocks_mono (di_size x) new_size ltac:(lia) ltac:(lia)) as Hm.
    pose proof (data_blocks_range new_size Hns) as Hr. pose proof (data_blocks_range _ Hsize) as Hr0.
    apply tot_diff; unfold_layout; lia. }
  rewrite wrap_small by done. eapply wp_mono; [apply (wp_alloc_many s d h efs area); [done..|lia|lia]|].
  intros v s1 (Hlv & d1 & Hs1 & [Hnd Hnew Hkeep Hfr] & Hfb).
  assert (HLdisk : ∀ b, b ∈ L → d1 b = d b).
  { intros b Hb. apply Hfr. unfold in_bitmap. destruct (Hused b Hb) as [? _]. pose proof (eo_start _ _ Hefs). lia. }
  assert (Hx1 : inode_ok_ d1 h x L)
    by (apply (inode_tree_ext d); [done|]; intros b Hb; by apply HLdisk, meta_elem_of).
  eapply wp_mono; [apply (increase_size_lemma Hcap s1 d1 h x L v new_size); try done|].
  - apply NoDup_app. split_and!; [apply (io_nodup _ _ _ _ Hx)| |done].
    intros b Hb Hbv. by destruct (Hnew b Hbv) as [Hn _]; apply Hn, Hused.
  - apply Forall_forall. intros b Hb. by eapply used_takeable, Hnew.
  - split; [lia|apply Hns].
  - intros x' s2 (d2 & Hs2 & Hx' & Hsz' & Hty & Hby & Hfr2). exists d2, (L ++ v). split; [done|].
    assert (HbmF : ∀ c, in_bitmap (data_bitmap efs) c → d2 c = d1 c).
    { intros c Hc. apply Hfr2. intros (p & _ & Hp). apply lookupZ_elem, elem_of_app in Hp.
      pose proof (eo_start _ _ Hefs). unfold in_bitmap in Hc.
      destruct Hp as [Hp|Hp]; [destruct (Hused c Hp)|destruct (Hnew c Hp) as [_ [? _]]]; lia. }
    assert (HusedF : ∀ b, b ∈ L ++ v → used d2 efs area b).
    { intros b Hb. apply (used_ext d1 d2); [done|done|].
      apply elem_of_app in Hb as [Hb|Hb]; [by apply Hkeep, Hused|by apply Hnew]. }
    split.
    + done.
    + done.
    + intros b Hb. apply elem_of_app. by left.
    + intros b [Hb|Hb]%elem_of_app; [by left|]. right. by apply Hnew.
    + rewrite Hsz'. lia.
    + done.
    + intros i Hi. rewrite Hby by done. by eapply inode_byte_ext.
    + intros b Hb. apply (used_ext d1 d2); [done|done|by apply Hkeep].
    + intros b Hb Hnu. rewrite Hfr2, Hfr by (done || intros Hm; by apply Hnu, meta_elem_of). done.
    + rewrite (free_bits_ext d1 d2) by done. rewrite Hsz'. lia.
Qed.

(** ** Files *)

Definition the_inode (d : disk) (i : Inode) : DiskInode :=
  at_block d (inode_block_id i) (inode_block_offset i).

(** The file [i] has the blocks [L]. *)
Record file_inv (d : disk) (efs : EasyFileSystem) (area : Z) (i : Inode) (L : list Z) : Prop := {
  fi_range : 0 <= inode_block_id i < cap;
  fi_offset : 0 <= inode_block_offset i ∧ inode_block_offset i + 128 <= 512;
  fi_before : inode_block_id i < data_area_start_block efs;
  fi_bitmap : ¬ in_bitmap (data_bitmap efs) (inode_block_id i);
  fi_inode : inode_ok_ d ∅ (the_inode d i) L;
  fi_used : ∀ b, b ∈ L → used d efs area b
}.

Lemma file_held_ok d efs area i L :
  file_inv d efs area i L → held_ok efs ({[inode_block_id i]} ∪ ∅).
Proof.
  intros [Hr Ho Hb Hbm Hi Hu]. rewrite (right_id_L ∅ (∪)). unfold held_ok, bm_free.
  rewrite size_singleton. unfold BLOCK_CACHE_SIZE. split_and!; try lia.
  - intros b Hin ->%elem_of_singleton. done.
  - intros b Hge ->%elem_of_singleton. lia.
Qed.

Lemma inode_ok_held d efs i L x :
  (∀ b, b ∈ L → data_area_start_block efs <= b) → inode_block_id i < data_area_start_block efs →
  inode_ok_ d ∅ x L ↔ inode_ok_ d ({[inode_block_id i]} ∪ ∅) x L.
Proof.
  intros Hge Hi. rewrite (right_id_L ∅ (∪)). split; intros [Hv Hsz Ht Hnd Htk]; split; try done;
    rewrite Forall_forall in Htk |- *; intros b Hb; destruct (Htk b Hb) as [? _]; (split; [done|]).
  - intros ->%elem_of_singleton. specialize (Hge _ Hb). lia.
  - apply not_elem_of_empty.
Qed.

(** The new contents of the file and of the rest of the disk after a write. *)
Record written (efs : EasyFileSystem) (area : Z) (i : Inode) (L L' : list Z) (offset : Z) (buf : list Z)
    (d d' : disk) : Prop := {
  wr_inv : file_inv d' efs area i L';
  wr_size : di_size (the_inode d' i) = Z.max (di_size (the_inode d i)) (offset + lengthZ buf);
  wr_type : type_ (the_inode d' i) = type_ (the_inode d i);
  wr_new : ∀ j, offset <= j < offset + lengthZ buf →
    file_byte d' (the_inode d' i) j = default 0 (buf !! Z.to_nat (j - offset));
  wr_old : ∀ j, 0 <= j < 512 * data_blocks (the_inode d i) → ¬ offset <= j < offset + lengthZ buf →
    file_byte d' (the_inode d' i) j = file_byte d (the_inode d i) j;
  wr_sub : ∀ b, b ∈ L → b ∈ L';
  wr_fresh : ∀ b, b ∈ L' → b ∈ L ∨ ¬ used d efs area b;
  wr_keep : ∀ b, used d efs area b → used d' efs area b;
  wr_frame : ∀ b, b ≠ inode_block_id i → ¬ in_bitmap (data_bitmap efs) b → b ∉ L' → d' b = d b;
  wr_slots : ∀ o, 0 <= o → o + 128 <= inode_block_offset i ∨ inode_block_offset i + 128 <= o →
    at_block (T := DiskInode) d' (inode_block_id i) o = at_block d (inode_block_id i) o;
  wr_free : Z.of_nat (free_bits d (data_bitmap efs) area) = Z.of_nat (free_bits d' (data_bitmap efs) area) +
    (total_blocks (di_size (the_inode d' i)) - total_blocks (di_size (the_inode d i)))
}.

(** Storing the inode after its blocks have been written. *)
Lemma written_intro s d d2 d3 efs area i L L' x' offset buf :
  store_ok s d3 ({[inode_block_id i]} ∪ ∅) → efs_ok efs area → file_inv d efs area i L →
  extended efs area ({[inode_block_id i]} ∪ ∅) (the_inode d i) x' L L' d d2 (offset + lengthZ buf) →
  0 <= offset →
  wrote d2 d3 x' (data_blocks x') offset (offset + lengthZ buf) (λ j, default 0 (buf !! Z.to_nat (j - offset))) →
  written efs area i L L' offset buf d (put_at d3 (inode_block_id i) (inode_block_offset i) x').
Proof.
  intros Hs Hefs Hf [Xi Xu Xsub Xf Xs Xt Xb Xk Xfr Xfree] Hoff [W1 W2].
  pose proof Hf as [Hr [Ho1 Ho2] Hb Hbm Hi Hu]. set (bid := inode_block_id i) in *.
  assert (HL' : ∀ b, b ∈ L' → data_area_start_block efs <= b) by (intros b Hbb; by destruct (Xu b Hbb) as [[? _] _]).
  assert (Hdata : ∀ b, b ∈ inode_data d2 x' (data_blocks x') → b ∈ L').
  { intros b Hbb. eapply tree_data_elem; [apply (io_tree _ _ _ _ Xi)|done]. }
  assert (Hwf : block_wf (d3 bid)) by (by eapply store_wf).
  pose proof (io_valid _ _ _ _ Xi) as Hv. set (d4 := put_at d3 bid (inode_block_offset i) x').
  assert (Hbid : bid ∉ L') by (intros Hin; specialize (HL' _ Hin); lia).
  assert (H43 : ∀ b, b ≠ bid → d4 b = d3 b) by (intros; by apply put_other).
  assert (H32 : ∀ b, b ∉ L' → d3 b = d2 b) by (intros b Hn; apply W2; naive_solver).
  assert (Hinode4 : the_inode d4 i = x') by (by apply at_put_same).
  assert (Xi3 : inode_ok_ d3 ({[bid]} ∪ ∅) x' L').
  { apply (inode_tree_ext d2); [done|]. intros b Hm. apply W2. intros Hin.
    unfold inode_data in Hin. apply list_elem_of_fmap in Hin as (k & -> & Hk%elem_of_seqZ).
    eapply data_not_meta; [apply (io_nodup _ _ _ _ Xi)| |eapply tree_data; [apply (io_tree _ _ _ _ Xi)|]|exact Hm]; lia. }
  assert (H43L : ∀ b, b ∈ L' → d4 b = d3 b) by (intros b Hbb; apply H43; by intros ->).
  assert (Hbm4 : ∀ c, in_bitmap (data_bitmap efs) c → d4 c = d2 c).
  { intros c Hc. pose proof (eo_start _ _ Hefs). unfold in_bitmap in *.
    rewrite H43, H32; [done| |by intros ->]. intros Hin. specialize (HL' _ Hin). lia. }
  assert (Hbyte : ∀ j, 0 <= j < 512 * data_blocks x' → file_byte d4 x' j = file_byte d3 x' j)
    by (intros; by eapply inode_byte_ext).
  assert (Hblk : data_blocks (the_inode d i) <= data_blocks x' ∧ di_size x' <= 512 * data_blocks x').
  { pose proof (io_size _ _ _ _ Hi). pose proof (io_size _ _ _ _ Xi). unfold data_blocks. split.
    - apply data_blocks_mono; [lia|]. lia.
    - apply (data_blocks_bound x'); unfold_layout; lia. }
  split; rewrite ?Hinode4.
  - split; [done|done|done|done| |].
    + rewrite Hinode4. apply (inode_ok_held d4 efs i); [done|done|].
      apply (inode_tree_ext d3); [done|]. intros b Hm. by apply H43L, meta_elem_of.
    + intros b Hbb. apply (used_ext d2 d4); [done|done|]. by apply Xu.
  - done.
  - done.
  - intros j Hj. rewrite Hbyte by lia. rewrite W1 by lia. by rewrite decide_True.
  - intros j Hj Hn. rewrite Hbyte by lia. rewrite W1 by lia. rewrite decide_False by done. by apply Xb.
  - done.
  - done.
  - intros b Hbb. apply (used_ext d2 d4); [done|done|by apply Xk].
  - intros b Hne Hnb Hn. rewrite H43, H32 by done. by apply Xfr.
  - intros o Ho Hdis. unfold d4. rewrite at_put_disjoint by (done || unfold BLOCK_SZ; simpl; lia).
    unfold at_block. rewrite H32, Xfr by done. done.
  - rewrite (free_bits_ext d2 d4) by done. exact Xfree.
Qed.

Lemma size_blocks d efs area i L : file_inv d efs area i L →
  0 <= di_size (the_inode d i) <= 512 * data_blocks (the_inode d i).
Proof.
  intros [_ _ _ _ Hi _]. pose proof (io_size _ _ _ _ Hi). pose proof (data_blocks_bound (the_inode d i)).
  unfold_layout. lia.
Qed.

(** Two writes in sequence are one write of both buffers. *)
Lemma written_trans efs area i L L1 L2 offset b1 b2 d d1 d2 :
  file_inv d efs area i L → 0 <= offset →
  written efs area i L L1 offset b1 d d1 → written efs area i L1 L2 (offset + lengthZ b1) b2 d1 d2 →
  written efs area i L L2 offset (b1 ++ b2) d d2.
Proof.
  intros Hf Hoff [I1 S1 T1 N1 O1 U1 F1 K1 R1 P1 E1] [I2 S2 T2 N2 O2 U2 F2 K2 R2 P2 E2].
  pose proof (size_blocks _ _ _ _ _ I1) as Hs1. pose proof (size_blocks _ _ _ _ _ Hf) as Hs0.
  assert (lengthZ (b1 ++ b2) = lengthZ b1 + lengthZ b2) as Hl by (unfold lengthZ; rewrite length_app; lia).
  pose proof (lengthZ_nonneg b1). pose proof (lengthZ_nonneg b2).
  assert (data_blocks (the_inode d i) <= data_blocks (the_inode d1 i)).
  { pose proof (io_size _ _ _ _ (fi_inode _ _ _ _ _ I1)). unfold data_blocks. apply data_blocks_mono; lia. }
  split; rewrite ?Hl.
  - done.
  - lia.
  - congruence.
  - intros j Hj. destruct (decide (j < offset + lengthZ b1)).
    + rewrite O2, N1 by lia. rewrite lookup_app_l; [done|]. unfold lengthZ in *. lia.
    + rewrite N2 by lia. rewrite lookup_app_r by (unfold lengthZ in *; lia). do 2 f_equal. unfold lengthZ. lia.
  - intros j Hj Hn. rewrite O2, O1 by lia. done.
  - auto.
  - intros b Hb. destruct (F2 b Hb) as [Hb1|Hb1]; [by apply F1|]. right. auto.
  - auto.
  - intros b Hne Hbm Hb. rewrite R2, R1 by auto. done.
  - intros o Ho Hd. rewrite P2, P1 by done. done.
  - lia.
Qed.

Lemma size_empty_lt : (size (∅ : gset Z) < BLOCK_CACHE_SIZE)%nat.
Proof. rewrite size_empty. unfold BLOCK_CACHE_SIZE. lia. Qed.

(** Growing the inode and writing, inside [modify_disk_inode]. *)
Lemma wp_grow_write s d efs area i L offset buf :
  store_ok s d ({[inode_block_id i]} ∪ ∅) → efs_ok efs area → file_inv d efs area i L → buf ≠ [] →
  Forall is_byte buf → 0 <= offset → offset + lengthZ buf <= 512 * INDIRECT2_BOUND →
  total_blocks (offset + lengthZ buf) - total_blocks (di_size (the_inode d i)) <=
    Z.of_nat (free_bits d (data_bitmap efs) area) →
  wp (Inode_increase_size efs (offset + lengthZ buf) (the_inode d i)) (λ x' s',
    wp (DiskInode_write_at x' offset buf) (λ n s'', n = lengthZ buf ∧ valid x' ∧
      ∃ d' L', store_ok s'' d' ({[inode_block_id i]} ∪ ∅) ∧
        written efs area i L L' offset buf d (put_at d' (inode_block_id i) (inode_block_offset i) x')) s') s.
Proof.
  intros Hs Hefs Hf Hne Hbytes Hoff Hmax Hfree.
  pose proof Hf as [Hr [Ho1 Ho2] Hb Hbm Hi Hu]. pose proof (file_held_ok _ _ _ _ _ Hf) as Hh.
  assert (Hpos : 0 < lengthZ buf) by (destruct buf; [done|unfold lengthZ; simpl; lia]).
  assert (Hi1 : inode_ok_ d ({[inode_block_id i]} ∪ ∅) (the_inode d i) L).
  { apply (inode_ok_held d efs i); [|done|done]. intros b Hbb. by destruct (Hu b Hbb) as [[? _] _]. }
  eapply wp_mono; [apply (wp_Inode_increase_size s d ({[inode_block_id i]} ∪ ∅) efs area (the_inode d i) L); try done; lia|].
  intros x' s2 (d2 & L' & Hs2 & Hext). pose proof (ex_inode _ _ _ _ _ _ _ _ _ _ Hext) as Hx'.
  pose proof (ex_size _ _ _ _ _ _ _ _ _ _ Hext) as Hsz'.
  destruct (inode_ok_wf _ _ _ _ _ Hs2 Hx') as [Htk Hsep].
  assert (Hspan : span x' offset (lengthZ buf) = lengthZ buf) by (unfold span; lia).
  eapply wp_mono.
  { apply (wp_DiskInode_write_at s2 d2 ({[inode_block_id i]} ∪ ∅) x' offset buf); try done.
    - destruct Hh as (_ & _ & ?). lia.
    - apply (io_size _ _ _ _ Hx').
    - lia.
    - unfold_layout. lia. }
  intros n s3 (-> & d3 & Hs3 & Hw). rewrite Hspan in Hw |- *. split_and!; [done|apply (io_valid _ _ _ _ Hx')|].
  exists d3, L'. split; [done|]. by eapply (written_intro s3 d d2 d3).
Qed.

Lemma wp_Inode_write_at s d efs area i L offset buf :
  store_ok s d ∅ → efs_ok efs area → file_inv d efs area i L → buf ≠ [] → Forall is_byte buf →
  0 <= offset → offset + lengthZ buf <= 512 * INDIRECT2_BOUND →
  total_blocks (offset + lengthZ buf) - total_blocks (di_size (the_inode d i)) <=
    Z.of_nat (free_bits d (data_bitmap efs) area) →
  wp (Inode_write_at efs i offset buf)
    (λ n s', n = lengthZ buf ∧ ∃ d' L', store_ok s' d' ∅ ∧ written efs area i L L' offset buf d d') s.
Proof.
  intros Hs Hefs Hf Hne Hbytes Hoff Hmax Hfree. unfold Inode_write_at, modify_disk_inode.
  pose proof Hf as [Hr [Ho1 Ho2] _ _ _ _]. pose proof (lengthZ_nonneg buf).
  wp_steps. eapply wp_modify_block_as; [exact Hs|done|apply not_elem_of_empty|apply size_empty_lt|done|done|].
  intros s1 Hs1. fold (the_inode d i). wp_steps.
  rewrite (wrap_small 64), (wrap_small 32) by (unfold_layout; lia).
  eapply wp_mono; [by apply (wp_grow_write s1 d efs area i L)|]. intros x' s2 Hwp. wp_steps.
  eapply wp_mono; [exact Hwp|]. intros n s3 (-> & Hv & d3 & L' & Hs3 & Hw). wp_steps. cbn [fst snd].
  split; [done|]. exists d3. split; [done|]. intros s4 Hs4.
  wp_steps. eapply wp_mono; [by eapply store_sync|]. intros [] s5 Hs5. wp_steps. split; [done|].
  eexists _, L'. split; [exact Hs5|exact Hw].
Qed.

Lemma wp_Inode_read_at s d efs area i L offset buf :
  store_ok s d ∅ → efs_ok efs area → file_inv d efs area i L → 0 <= offset → offset + lengthZ buf < 2 ^ 64 →
  wp (Inode_read_at i offset buf) (λ r s', store_ok s' d ∅ ∧
    let m := span (the_inode d i) offset (lengthZ buf) in
    r = (splice buf 0 (file_byte d (the_inode d i) <$> seqZ offset m), m)) s.
Proof.
  intros Hs Hefs Hf Hoff Hlen. unfold Inode_read_at, read_disk_inode.
  pose proof Hf as [Hr [Ho1 Ho2] Hb Hbm Hi Hu]. pose proof (file_held_ok _ _ _ _ _ Hf) as Hh.
  eapply wp_read_block_as; [exact Hs|done|apply not_elem_of_empty|apply size_empty_lt|done|done|].
  intros s1 Hs1. fold (the_inode d i).
  assert (Hi1 : inode_ok_ d ({[inode_block_id i]} ∪ ∅) (the_inode d i) L).
  { apply (inode_ok_held d efs i); [|done|done]. intros b Hbb. by destruct (Hu b Hbb) as [[? _] _]. }
  destruct (inode_ok_wf _ _ _ _ _ Hs1 Hi1) as [Htk Hsep].
  eapply wp_mono.
  { apply (wp_DiskInode_read_at s1 d ({[inode_block_id i]} ∪ ∅) (the_inode d i) offset buf); try done.
    - destruct Hh as (_ & _ & ?). lia.
    - apply (io_size _ _ _ _ Hi). }
  intros r s2 [Hs2 ->]. exists d. split; [done|]. intros s3 Hs3. done.
Qed.

(** C6: [Inode::write_at] and [Inode::read_at] implement a growable byte array.
    As long as the data area has the blocks the growth needs, writing a
    non-empty buffer returns its length, sets the size to the larger of the old
    size and the end of the write, and a read of any range afterwards returns the
    written bytes, and the old ones elsewhere below the old size.  The blocks the
    file gains were free before, so no block of another file, no other inode and
    no other allocation changes. *)
Theorem file_write_read s d efs area i L offset buf offset' buf' :
  store_ok s d ∅ → efs_ok efs area → file_inv d efs area i L → buf ≠ [] → Forall is_byte buf →
  0 <= offset → offset + lengthZ buf <= 512 * INDIRECT2_BOUND →
  total_blocks (offset + lengthZ buf) - total_blocks (di_size (the_inode d i)) <=
    Z.of_nat (free_bits d (data_bitmap efs) area) →
  0 <= offset' → offset' + lengthZ buf' < 2 ^ 64 →
  wp (n ← Inode_write_at efs i offset buf; r ← Inode_read_at i offset' buf'; mret (n, r))
    (λ r s', fst r = lengthZ buf ∧ ∃ d' L', store_ok s' d' ∅ ∧ written efs area i L L' offset buf d d' ∧
       let size' := Z.max (di_size (the_inode d i)) (offset + lengthZ buf) in
       let m := Z.max 0 (Z.min (offset' + lengthZ buf') size' - offset') in
       snd (snd r) = m ∧
       ∀ k : nat, (Z.of_nat k < m →
          let j := offset' + Z.of_nat k in
          (offset <= j < offset + lengthZ buf → fst (snd r) !! k = buf !! Z.to_nat (j - offset)) ∧
          (j < di_size (the_inode d i) → ¬ offset <= j < offset + lengthZ buf →
             fst (snd r) !! k = Some (file_byte d (the_inode d i) j))) ∧
          (m <= Z.of_nat k → fst (snd r) !! k = buf' !! k)) s.
Proof.
  intros Hs Hefs Hf Hne Hbytes Hoff Hmax Hfree Hoff' Hlen'. wp_steps.
  eapply wp_mono; [by apply (wp_Inode_write_at s d efs area i L offset buf)|].
  intros n s1 (-> & d1 & L1 & Hs1 & Hw). wp_steps.
  eapply wp_mono; [apply (wp_Inode_read_at s1 d1 efs area i L1); try done; apply Hw|].
  intros r s2 [Hs2 ->]. wp_steps. cbn [fst snd]. split; [done|]. exists d1, L1. split; [done|]. split; [done|].
  unfold span. rewrite (wr_size _ _ _ _ _ _ _ _ _ Hw). set (m := Z.max 0 _). split; [done|].
  pose proof (io_size _ _ _ _ (fi_inode _ _ _ _ _ Hf)) as Hsz. unfold_layout.
  pose proof (data_blocks_bound (the_inode d i) ltac:(lia) ltac:(lia)) as Hbd.
  assert (Hm : 0 <= m <= lengthZ buf') by (unfold m, lengthZ; lia).
  intros k. rewrite splice_lookup by (rewrite length_fmap, length_seqZ; unfold lengthZ in *; lia).
  rewrite length_fmap, length_seqZ, Nat.sub_0_r, Nat.add_0_l. split.
  - intros Hk. rewrite decide_True by lia. rewrite list_lookup_fmap.
    assert (seqZ offset' m !! k = Some (offset' + Z.of_nat k)) as -> by (apply lookup_seqZ; lia).
    cbn [fmap option_fmap option_map]. split.
    + intros Hj. rewrite (wr_new _ _ _ _ _ _ _ _ _ Hw) by done.
      assert (is_Some (buf !! Z.to_nat (offset' + Z.of_nat k - offset))) as [y ->]; [|done].
      apply lookup_lt_is_Some. unfold lengthZ in Hj. lia.
    + intros Hj Hn. f_equal. apply (wr_old _ _ _ _ _ _ _ _ _ Hw); [lia|done].
  - intros Hk. by rewrite decide_False by lia.
Qed.

(** ** Clearing a file *)

Lemma empty_inode_ok d x : valid x → di_size x = 0 → inode_ok_ d ∅ x [].
Proof.
  intros Hv Hsz. split; [done|rewrite Hsz; unfold_layout; lia| |constructor|constructor].
  unfold data_blocks. rewrite Hsz. split; [done|]. split; unfold lengthZ; simpl; try lia.
  - intros k Hk Hp. exfalso. pos_lia.
  - intros a Ha Hp. exfalso. pos_lia.
Qed.

(** The blocks [v] have been given back. *)
Record freed (d d' : disk) (efs : EasyFileSystem) (area : Z) (v : list Z) : Prop := {
  fr_used : ∀ c, used d' efs area c ↔ used d efs area c ∧ c ∉ v;
  fr_zero : ∀ b, b ∈ v → d' b = zeros;
  fr_frame : ∀ b, ¬ in_bitmap (data_bitmap efs) b → b ∉ v → d' b = d b
}.

Lemma wp_dealloc_data s d h efs area b :
  store_ok s d h → efs_ok efs area → held_ok efs h → used d efs area b →
  wp (dealloc_data efs b) (λ _ s', ∃ d', store_ok s' d' h ∧ freed d d' efs area [b]) s.
Proof.
  intros Hs Hefs Hh Hb. pose proof (used_takeable _ _ _ _ _ Hefs Hh Hb) as [Hr Hn].
  pose proof Hefs as [Hbm Hst Har Hcp Hmax]. destruct Hh as (Hbf & Hhd & Hsz). destruct Hb as [Hrange Hbit].
  pose proof Hbm as (?&?&?&?). unfold dealloc_data. wp_steps.
  eapply wp_zero_block; [exact Hs|done|done|lia|]. intros s1 Hs1. wp_steps.
  assert (Hext : ∀ c, in_bitmap (data_bitmap efs) c → upd d b zeros c = d c).
  { intros c Hc. apply upd_other. unfold in_bitmap in Hc. lia. }
  rewrite wrap_small by lia. eapply wp_mono.
  { apply (wp_dealloc s1 (upd d b zeros) h); [done|done|done|lia|].
    rewrite (bit_of_ext d) by (done || lia). done. }
  intros [] s2 (d2 & Hs2 & Hch & Hfr). exists d2. split; [done|]. split.
  - intros c. unfold used. rewrite list_elem_of_singleton. split.
    + intros [Hcr Hcb]. rewrite Hch in Hcb by lia. case_decide; [done|].
      rewrite (bit_of_ext d) in Hcb by (done || lia). split; [done|lia].
    + intros [[Hcr Hcb] Hne]. split; [done|]. rewrite Hch by lia. rewrite decide_False by lia.
      by rewrite (bit_of_ext d) by (done || lia).
  - intros c ->%list_elem_of_singleton. rewrite Hfr by (unfold in_bitmap; lia). apply upd_same.
  - intros c Hc Hne. rewrite Hfr by done. apply upd_other. by rewrite list_elem_of_singleton in Hne.
Qed.

Lemma freed_snoc d d1 d2 efs area v b :
  efs_ok efs area → freed d d1 efs area v → freed d1 d2 efs area [b] → b ∉ v →
  (∀ c, c ∈ v → ¬ in_bitmap (data_bitmap efs) c) → freed d d2 efs area (v ++ [b]).
Proof.
  intros Hefs [U1 Z1 F1] [U2 Z2 F2] Hb Hv. split.
  - intros c. rewrite U2, U1, not_elem_of_app. tauto.
  - intros c [Hc|Hc]%elem_of_app; [|by apply Z2]. rewrite F2, Z1; [done|done|by apply Hv|].
    intros ->%list_elem_of_singleton. done.
  - intros c Hc [Hn1 Hn2]%not_elem_of_app. rewrite F2, F1 by done. done.
Qed.

Lemma wp_dealloc_many s d h efs area L :
  store_ok s d h → efs_ok efs area → held_ok efs h → NoDup L → (∀ b, b ∈ L → used d efs area b) →
  wp (fold_m (λ _ b, dealloc_data efs b) tt L) (λ _ s', ∃ d', store_ok s' d' h ∧ freed d d' efs area L) s.
Proof.
  intros Hs Hefs Hh Hnd Hused.
  apply (wp_fold_m (λ pre _ s', ∃ d', store_ok s' d' h ∧ freed d d' efs area pre)).
  - exists d. split; [done|]. split; [|by intros b Hb%not_elem_of_nil|done].
    intros c. split; [intros Hc; split; [done|apply not_elem_of_nil]|tauto].
  - intros pre b post [] s1 Hl (d1 & Hs1 & Hf1). rewrite Hl in Hnd, Hused.
    apply NoDup_app in Hnd as (Hndp & Hdis & Hndb). apply NoDup_cons in Hndb as [Hbp _].
    assert (Hbpre : b ∉ pre) by (intros Hin; apply (Hdis b Hin); by left).
    eapply wp_mono; [apply (wp_dealloc_data s1 d1 h efs area b); try done|].
    { apply (fr_used _ _ _ _ _ Hf1). split; [apply Hused; set_solver|done]. }
    intros [] s2 (d2 & Hs2 & Hf2). exists d2. split; [done|]. eapply freed_snoc; try done.
    intros c Hc. destruct (Hused c ltac:(set_solver)) as [? _]. pose proof (eo_start _ _ Hefs).
    unfold in_bitmap. lia.
Qed.

(** What [clear] does to the disk. *)
Record cleared (efs : EasyFileSystem) (area : Z) (i : Inode) (L : list Z) (d d' : disk) : Prop := {
  cl_inv : file_inv d' efs area i [];
  cl_size : di_size (the_inode d' i) = 0;
  cl_type : type_ (the_inode d' i) = type_ (the_inode d i);
  cl_used : ∀ c, used d' efs area c ↔ used d efs area c ∧ c ∉ L;
  cl_zero : ∀ b, b ∈ L → d' b = zeros;
  cl_frame : ∀ b, b ≠ inode_block_id i → ¬ in_bitmap (data_bitmap efs) b → b ∉ L → d' b = d b;
  cl_slots : ∀ o, 0 <= o → o + 128 <= inode_block_offset i ∨ inode_block_offset i + 128 <= o →
    at_block (T := DiskInode) d' (inode_block_id i) o = at_block d (inode_block_id i) o
}.

Lemma wp_clear s d efs area i L :
  store_ok s d ∅ → efs_ok efs area → file_inv d efs area i L →
  wp (clear efs i) (λ _ s', ∃ d', store_ok s' d' ∅ ∧ cleared efs area i L d d') s.
Proof.
  intros Hs Hefs Hf. unfold clear, modify_disk_inode. pose proof Hf as [Hr [Ho1 Ho2] Hb Hbm Hi Hu].
  pose proof (file_held_ok _ _ _ _ _ Hf) as Hh. pose proof Hh as (_ & _ & Hsz).
  set (h := {[inode_block_id i]} ∪ ∅) in *.
  assert (HLge : ∀ b, b ∈ L → data_area_start_block efs <= b) by (intros b Hbb; by destruct (Hu b Hbb) as [[? _] _]).
  assert (Hi1 : inode_ok_ d h (the_inode d i) L) by (by apply (inode_ok_held d efs i)).
  wp_steps. eapply wp_modify_block_as; [exact Hs|done|apply not_elem_of_empty|apply size_empty_lt|done|done|].
  intros s1 Hs1. fold (the_inode d i). wp_steps.
  eapply wp_mono; [apply (clear_size_returns_lemma Hcap s1 d h _ L); try done; lia|].
  intros [v x'] s2 (-> & Hnd & Hcount & Hsz0 & Hty & Hx' & Hs2). cbn [fst snd] in *. wp_steps.
  apply wp_assert; [by apply Z.eqb_eq|]. wp_steps.
  eapply wp_mono; [by apply (wp_dealloc_many s2 d h efs area L)|]. intros [] s3 (d3 & Hs3 & [U3 Z3 F3]).
  wp_steps. cbn [fst snd]. split; [apply (io_valid _ _ _ _ Hx')|]. exists d3. split; [done|]. intros s4 Hs4.
  wp_steps. eapply wp_mono; [by eapply store_sync|]. intros [] s5 Hs5. eexists. split; [exact Hs5|].
  change (upd d3 (inode_block_id i) (splice (d3 (inode_block_id i)) (Z.to_nat (inode_block_offset i)) (encode x')))
    with (put_at d3 (inode_block_id i) (inode_block_offset i) x').
  set (d4 := put_at d3 _ _ x'). pose proof (io_valid _ _ _ _ Hx') as Hv.
  assert (Hwf : block_wf (d3 (inode_block_id i))) by (by eapply store_wf).
  assert (Hinode4 : the_inode d4 i = x') by (by apply at_put_same).
  assert (H43 : ∀ b, b ≠ inode_block_id i → d4 b = d3 b) by (intros; by apply put_other).
  assert (Hbid : inode_block_id i ∉ L) by (intros Hin; specialize (HLge _ Hin); lia).
  assert (Hu4 : ∀ c, used d4 efs area c ↔ used d3 efs area c).
  { intros c. apply used_ext; [done|]. intros e He. apply H43. by intros ->. }
  split; rewrite ?Hinode4; try done.
  - split; try done; [|by intros b Hbb%not_elem_of_nil]. rewrite Hinode4.
    by apply empty_inode_ok.
  - intros c. rewrite Hu4. apply U3.
  - intros b Hbb. rewrite H43 by (by intros ->). by apply Z3.
  - intros b Hne Hnb Hn. rewrite H43, F3 by done. done.
  - intros o Ho Hdis. unfold d4. rewrite at_put_disjoint by (done || unfold BLOCK_SZ; simpl; lia).
    unfold at_block. rewrite F3 by done. done.
Qed.
(** [Inode::clear] empties the file and gives back exactly its blocks: the
    inode keeps its type and has size 0, the blocks of the file, indirect blocks
    included, become free and are zeroed, every other block of the data area
    keeps its state and contents, and the other inodes of the same block are
    untouched.  None of the assertions on the way (the number of blocks, the
    double-free check) can fail. *)
Theorem file_clear_frees_blocks s d efs area i L :
  store_ok s d ∅ → efs_ok efs area → file_inv d efs area i L →
  wp (clear efs i) (λ _ s', ∃ d', store_ok s' d' ∅ ∧ cleared efs area i L d d') s.
Proof. apply wp_clear. Qed.
End proofs.

(** ** A concrete file

    The demonstration device is all zeros: the first inode slot reads as an empty
    file and every data block is free. *)

Definition demo_efs : EasyFileSystem := mkEfs (mkBitmap 1 1) (mkBitmap 1026 1) 2 1027.
Definition demo_inode0 : Inode := root_inode demo_efs.

Lemma demo_efs_ok : efs_ok (cap := 4096) demo_efs 3069.
Proof. split; unfold bm_wf, nbits; simpl; lia. Qed.

Lemma demo_file_inv : file_inv (cap := 4096) (file_block demo_file) demo_efs 3069 demo_inode0 [].
Proof.
  assert (Hx : the_inode (file_block demo_file) demo_inode0 = mkDiskInode 0 (replicate 28 0) 0 0 TFile [0; 0; 0])
    by (vm_compute; reflexivity).
  split; try (simpl; lia).
  - change (inode_block_id demo_inode0) with 2. lia.
  - change (inode_block_offset demo_inode0) with 0. lia.
  - change (inode_block_id demo_inode0) with 2. simpl. lia.
  - change (inode_block_id demo_inode0) with 2. unfold in_bitmap. simpl. lia.
  - rewrite Hx. apply empty_inode_ok; [|done].
    split_and!; try done; unfold words_valid, di_words, is_byte, TFile; simpl; repeat constructor; lia.
  - by intros b Hb%not_elem_of_nil.
Qed.

Lemma free_bits_pos d bm n i : 0 <= i < n → bit_of d bm i = false → (1 <= free_bits d bm n)%nat.
Proof.
  intros Hi Hb. unfold free_bits. destruct (filter _ (seqZ 0 n)) as [|j l] eqn:Hf; [|simpl; lia].
  assert (i ∈ filter (λ i, bit_of d bm i = false) (seqZ 0 n)) as Hin.
  { apply list_elem_of_filter. split; [done|]. apply elem_of_seqZ. lia. }
  rewrite Hf in Hin. by apply not_elem_of_nil in Hin.
Qed.

Lemma file_write_read_witness :
  wp (n ← Inode_write_at demo_efs demo_inode0 3 [104; 105]; r ← Inode_read_at demo_inode0 3 [0; 0; 0]; mret (n, r))
    (λ r (_ : demo_store), fst r = 2 ∧ snd (snd r) = 2 ∧ fst (snd r) !! 1%nat = Some 105)
    (BlockCacheManager_new demo_file).
Proof.
  eapply wp_mono.
  - apply (file_write_read (HL := demo_laws) ltac:(lia) _ (file_block demo_file) demo_efs 3069 demo_inode0 []).
    + exact demo_store_ok.
    + exact demo_efs_ok.
    + exact demo_file_inv.
    + done.
    + repeat constructor; unfold is_byte; lia.
    + lia.
    + unfold lengthZ. simpl. unfold_layout. lia.
    + pose proof (free_bits_pos (file_block demo_file) (data_bitmap demo_efs) 3069 0 ltac:(lia)
        ltac:(vm_compute; reflexivity)) as Hfb.
      assert (total_blocks (3 + lengthZ [104; 105]) - total_blocks (di_size (the_inode (file_block demo_file) demo_inode0)) = 1)
        as -> by (vm_compute; reflexivity).
      lia.
    + lia.
    + unfold lengthZ. simpl. lia.
  - intros r s' (H1 & d' & L' & _ & _ & H2 & H3).
    assert (Hsz : di_size (the_inode (file_block demo_file) demo_inode0) = 0) by (vm_compute; reflexivity).
    rewrite Hsz in H2, H3. split; [exact H1|]. split; [exact H2|].
    destruct (H3 1%nat) as [H4 _]. destruct H4 as [H5 _]; [vm_compute; reflexivity|].
    rewrite H5 by (vm_compute; split; congruence). reflexivity.
Defined.

Lemma file_clear_frees_blocks_witness :
  wp (clear demo_efs demo_inode0) (λ _ (_ : demo_store), True) (BlockCacheManager_new demo_file).
Proof.
  eapply wp_mono.
  - apply (file_clear_frees_blocks (HL := demo_laws) ltac:(lia) _ (file_block demo_file) demo_efs 3069 demo_inode0 []).
    + exact demo_store_ok.
    + exact demo_efs_ok.
    + exact demo_file_inv.
  - done.
Defined.
