(* ===== verification/Dir.v ===== *)
(** * Directories

    The directory operations of [easy-fs/src/vfs.rs] ([find], [create], [ls])
    against their specification: a directory is a list of names with inode
    numbers, [find] looks a name up, [ls] lists the names and [create] appends a
    new empty file. *)

From S2P Require Import Prelude Codec BlockDev BlockCache Bitmap Layout InodeTree Efs Vfs.

(** ** The abstract directory *)

Abbreviation entry := (list Z * Z)%type.

Fixpoint dir_lookup (es : list entry) (name : list Z) : option Z :=
  match es with
  | [] => None
  | (nm, ino) :: es' => if decide (nm = name) then Some ino else dir_lookup es' name
  end.

Lemma dir_lookup_elem es name n : dir_lookup es name = Some n → ∃ nm, (nm, n) ∈ es.
Proof.
  induction es as [|[nm ino] es IH]; cbn [dir_lookup]; [done|]. case_decide.
  - intros [= ->]. exists nm. by left.
  - intros H'. destruct (IH H') as [nm' Hin]. exists nm'. by right.
Qed.

Lemma dir_lookup_None es name : dir_lookup es name = None ↔ name ∉ es.*1.
Proof.
  induction es as [|[nm ino] es IH]; cbn [dir_lookup fmap list_fmap fst].
  - split; [intros _; apply not_elem_of_nil|done].
  - rewrite not_elem_of_cons. destruct (decide (nm = name)) as [->|Hne].
    + split; [done|]. by intros [? _].
    + rewrite IH. split; [|by intros [_ ?]]. by intros Hni; split; [congruence|].
Qed.

Lemma dir_lookup_nodup es name n : NoDup (es.*1) → (name, n) ∈ es → dir_lookup es name = Some n.
Proof.
  induction es as [|[nm ino] es IH]; cbn [dir_lookup fmap list_fmap fst]; [by intros _ ?%not_elem_of_nil|].
  intros [Hni Hnd]%NoDup_cons Hin. apply elem_of_cons in Hin as [[= <- <-]|Hin]; [by rewrite decide_True|].
  rewrite decide_False; [by apply IH|]. intros ->. apply Hni. apply list_elem_of_fmap. by exists (name, n).
Qed.

Definition name_ok (name : list Z) : Prop :=
  name_bytes name ∧ lengthZ name <= NAME_LENGTH_LIMIT ∧ from_utf8 name = true.

Definition entry_ok (e : entry) : Prop := name_ok (e.1) ∧ 0 <= e.2 < 2 ^ 32.

Lemma dirent_valid e : entry_ok e → valid (dirent (e.1) (e.2)).
Proof.
  intros [(Hb & Hl & _) Hi]. unfold NAME_LENGTH_LIMIT, lengthZ in Hl. apply DirEntry_valid; [lia|done|done].
Qed.

Lemma encode_dirent_length e : entry_ok e → length (encode (dirent (e.1) (e.2))) = 32%nat.
Proof. intros He. by rewrite (encode_length _ (dirent_valid _ He)). Qed.

Section proofs.
Context {St : Type} {cap : Z} `{HS : BlockStore St} `{HL : !BlockStoreLaws St cap}.
Hypothesis Hcap : cap <= 2 ^ 32.

Abbreviation file_inv_ := (file_inv (cap := cap)).
Abbreviation efs_ok_ := (efs_ok (cap := cap)).
Abbreviation inode_ok_ := (inode_ok (cap := cap)).

(** The inode [x] is a directory with the entries [es]. *)
Record dir_ok (d : disk) (x : DiskInode) (es : list entry) : Prop := {
  do_type : is_dir x = true;
  do_size : di_size x = 32 * lengthZ es;
  do_entry : ∀ k e, es !! k = Some e → entry_ok e ∧
    file_byte d x <$> seqZ (32 * Z.of_nat k) 32 = encode (dirent (e.1) (e.2))
}.

(** ** Looking up *)

(** The lock of the directory's block is held while its entries are read. *)
Record reading (s : St) (d : disk) (h : gset Z) (x : DiskInode) (L : list Z) : Prop := {
  rd_store : store_ok s d h;
  rd_inode : inode_ok_ d h x L;
  rd_room : (size h < BLOCK_CACHE_SIZE)%nat
}.

Lemma wp_read_dirent s d h x L es k e e0 Q :
  reading s d h x L → dir_ok d x es → es !! k = Some e → length (encode e0) = 32%nat →
  (∀ s', reading s' d h x L → Q (dirent (e.1) (e.2)) s') →
  wp (read_dirent x e0 (Z.of_nat k)) Q s.
Proof.
  intros [Hs Hi Hh] [Ht Hsz He] Hk He0 HQ. destruct (He k e Hk) as [Hok Hbytes].
  destruct (inode_ok_wf _ _ _ _ _ Hs Hi) as [Htk _]. pose proof (io_size _ _ _ _ Hi) as Hb.
  pose proof (lookup_lt_Some _ _ _ Hk) as Hlt. unfold lengthZ in Hsz. unfold read_dirent, DIRENT_SZ in *.
  assert (lengthZ (encode e0) = 32) as Hl0 by (unfold lengthZ; lia).
  assert (0 <= 32 * Z.of_nat k ∧ 32 * Z.of_nat k + 32 < 2 ^ 64) by (unfold_layout; lia).
  rewrite (wrap_small 64) by lia. wp_steps.
  eapply wp_mono; [apply (wp_DiskInode_read_at s d h); try done; lia|].
  intros r s' [Hs' ->]. cbn [fst snd].
  assert (span x (32 * Z.of_nat k) (lengthZ (encode e0)) = 32) as Hspan by (unfold span; lia).
  rewrite Hspan, Hbytes. wp_steps. apply wp_assert; [done|]. wp_steps.
  rewrite splice_all by (by rewrite encode_dirent_length). rewrite (decode_encode _ (dirent_valid _ Hok)).
  by apply HQ.
Qed.

Lemma wp_find_loop d h x L es name post : ∀ pre s e0,
  reading s d h x L → dir_ok d x es → es = pre ++ post → length (encode e0) = 32%nat →
  wp (find_loop name x e0 (seqZ (lengthZ pre) (lengthZ post)))
    (λ r s', r = dir_lookup post name ∧ reading s' d h x L) s.
Proof.
  induction post as [|[nm ino] post IH]; intros pre s e0 Hr Hd Hes He0.
  { unfold lengthZ. simpl. wp_steps. done. }
  assert (es !! length pre = Some (nm, ino)) as Hk by (rewrite Hes, lookup_app_r, Nat.sub_diag by lia; done).
  destruct (do_entry _ _ _ Hd _ _ Hk) as [Hok _]. pose proof Hok as [(Hn1 & Hn2 & Hn3) _].
  assert (seqZ (lengthZ pre) (lengthZ ((nm, ino) :: post)) =
    lengthZ pre :: seqZ (lengthZ (pre ++ [(nm, ino)])) (lengthZ post)) as ->.
  { unfold lengthZ. rewrite length_app. cbn [length]. rewrite seqZ_cons by lia. repeat f_equal; lia. }
  cbn [find_loop]. wp_steps. eapply wp_read_dirent; [done|done|exact Hk|done|]. intros s1 Hr1. wp_steps.
  eapply wp_lift_result; [by apply dirent_name|]. cbn [dir_lookup fst snd].
  destruct (decide (nm = name)).
  - wp_steps. done.
  - apply IH; [done|done|by rewrite <- app_assoc|]. by apply (encode_dirent_length (nm, ino)).
Qed.

Lemma empty_length : length (encode DirEntry_empty) = 32%nat.
Proof. reflexivity. Qed.

Lemma file_count d x es : dir_ok d x es → di_size x / DIRENT_SZ = lengthZ es.
Proof. intros [_ Hsz _]. rewrite Hsz. unfold DIRENT_SZ. zdiv. Qed.

Lemma wp_find_inode_id s d h x L es name :
  reading s d h x L → dir_ok d x es →
  wp (find_inode_id name x) (λ r s', r = dir_lookup es name ∧ reading s' d h x L) s.
Proof.
  intros Hr Hd. unfold find_inode_id. wp_steps. apply wp_assert; [apply Hd|]. wp_steps.
  rewrite (file_count d x es Hd). by apply (wp_find_loop d h x L es name es []).
Qed.

(** Reading the entries while the block of the directory is locked. *)
Lemma start_reading s d efs area i L :
  store_ok s d ({[inode_block_id i]} ∪ ∅) → efs_ok_ efs area → file_inv_ d efs area i L →
  reading s d ({[inode_block_id i]} ∪ ∅) (the_inode d i) L.
Proof.
  intros Hs Hefs Hf. destruct (file_held_ok _ _ _ _ _ Hf) as (_ & _ & Hsz). destruct Hf as [_ _ Hb _ Hi Hu].
  split; [done| |lia]. apply (inode_ok_held d efs i); [|done|done].
  intros b Hbb. by destruct (Hu b Hbb) as [[? _] _].
Qed.

Lemma wp_find s d efs area i L es name :
  store_ok s d ∅ → efs_ok_ efs area → file_inv_ d efs area i L → dir_ok d (the_inode d i) es →
  wp (find efs i name) (λ r s', r = inode_of efs <$> dir_lookup es name ∧ store_ok s' d ∅) s.
Proof.
  intros Hs Hefs Hf Hd. unfold find, read_disk_inode. pose proof Hf as [Hr [Ho1 Ho2] _ _ _ _].
  eapply wp_read_block_as; [exact Hs|done|apply not_elem_of_empty|apply size_empty_lt|done|done|].
  intros s1 Hs1. fold (the_inode d i). wp_steps.
  eapply wp_mono; [eapply wp_find_inode_id; [by eapply start_reading|done]|].
  intros r s2 [-> Hr2]. wp_steps. exists d. split; [apply Hr2|]. done.
Qed.

Lemma wp_ls s d efs area i L es :
  store_ok s d ∅ → efs_ok_ efs area → file_inv_ d efs area i L → dir_ok d (the_inode d i) es →
  wp (ls i) (λ r s', r = es.*1 ∧ store_ok s' d ∅) s.
Proof.
  intros Hs Hefs Hf Hd. unfold ls, read_disk_inode. pose proof Hf as [Hr [Ho1 Ho2] _ _ _ _].
  eapply wp_read_block_as; [exact Hs|done|apply not_elem_of_empty|apply size_empty_lt|done|done|].
  intros s1 Hs1. fold (the_inode d i). rewrite (file_count d _ es Hd).
  set (h := {[inode_block_id i]} ∪ ∅) in *. eapply wp_mono.
  { apply (wp_fold_m (λ pre v s', v = take (length pre) (es.*1) ∧ reading s' d h (the_inode d i) L)).
    - split; [done|by eapply start_reading].
    - intros pre k post v s2 Hl [-> Hr2].
      assert (k = Z.of_nat (length pre) ∧ (length pre < length es)%nat) as [-> Hlt].
      { assert (seqZ 0 (lengthZ es) !! length pre = Some k) as Hk
          by (rewrite Hl, lookup_app_r, Nat.sub_diag by lia; done).
        apply lookup_seqZ in Hk as [-> Hk]. unfold lengthZ in Hk. lia. }
      apply lookup_lt_is_Some in Hlt as [[nm ino] Hk]. destruct (do_entry _ _ _ Hd _ _ Hk) as [[(?&?&?) _] _].
      wp_steps. eapply wp_read_dirent; [done|done|exact Hk|done|]. intros s3 Hr3. wp_steps.
      eapply wp_lift_result; [by apply dirent_name|]. wp_steps. split; [|done].
      rewrite length_app, Nat.add_1_r. symmetry. apply take_S_r. by rewrite list_lookup_fmap, Hk. }
  intros r s2 [-> Hr2]. exists d. split; [apply Hr2|]. intros s3 Hs3. split; [|done].
  rewrite take_ge; [done|]. rewrite length_fmap, length_seqZ. unfold lengthZ. lia.
Qed.

(** C27: A directory is a list of names with inode numbers.  [find] returns the
    inode of the first entry with the name, and [None] exactly if there is none;
    [ls] returns all names in the order of their creation.  Neither changes the
    disk, and the assertions on the way (that every entry is read completely,
    that names are terminated and valid UTF-8) hold. *)
Theorem dir_find_ls s d efs area i L es name :
  store_ok s d ∅ → efs_ok_ efs area → file_inv_ d efs area i L → dir_ok d (the_inode d i) es →
  wp (r ← find efs i name; l ← ls i; mret (r, l)) (λ rl s',
     fst rl = inode_of efs <$> dir_lookup es name ∧ (fst rl = None ↔ name ∉ es.*1) ∧
     snd rl = es.*1 ∧ store_ok s' d ∅) s.
Proof.
  intros Hs Hefs Hf Hd. wp_steps. eapply wp_mono; [by eapply wp_find|]. intros r s1 [-> Hs1]. wp_steps.
  eapply wp_mono; [by eapply wp_ls|]. intros l s2 [-> Hs2]. wp_steps. split_and!; try done.
  cbn [fst]. rewrite fmap_None. apply dir_lookup_None.
Qed.

(** ** Creating a file *)

(** The inode bitmap, then the inode area (four inodes per block), then the data
    bitmap; inode numbers are 32 bits wide. *)
Record inodes_ok (efs : EasyFileSystem) : Prop := {
  ia_bm : bm_wf cap (inode_bitmap efs);
  ia_start : start_block_id (inode_bitmap efs) + blocks (inode_bitmap efs) <= inode_area_start_block efs;
  ia_end : inode_area_start_block efs + nbits (inode_bitmap efs) / 4 <= start_block_id (data_bitmap efs);
  ia_num : nbits (inode_bitmap efs) <= 2 ^ 32
}.

Lemma inode_pos efs area n :
  efs_ok_ efs area → inodes_ok efs → 0 <= n < nbits (inode_bitmap efs) →
  let b := inode_area_start_block efs + n / 4 in
  let o := n mod 4 * 128 in
  inode_of efs n = mkInode b o ∧ get_disk_inode_pos efs n = (b, o) ∧
  0 <= b < cap ∧ 0 <= o ∧ o + 128 <= 512 ∧ b < data_area_start_block efs ∧
  ¬ in_bitmap (data_bitmap efs) b ∧ ¬ in_bitmap (inode_bitmap efs) b ∧ n < 2 ^ 32.
Proof.
  intros [(?&?&?&?) Hst Har Hc Hmx] [(?&?&?&?) Hia Hie Hnum] Hn b o.
  assert (nbits (inode_bitmap efs) / 4 = blocks (inode_bitmap efs) * 1024) as Hq by (unfold nbits; zdiv).
  assert (n / 4 < blocks (inode_bitmap efs) * 1024) as Hq' by (unfold nbits in Hn; zdiv).
  assert (0 <= n / 4) by zdiv. rewrite Hq in Hie. unfold nbits in *.
  assert (get_disk_inode_pos efs n = (b, o)) as Hp.
  { unfold get_disk_inode_pos. change (BLOCK_SZ / INODE_SIZE) with 4. rewrite wrap_small by lia. done. }
  assert (0 <= n mod 4 < 4) by zdiv. unfold inode_of, in_bitmap, b, o in *. rewrite Hp.
  split_and!; try done; lia.
Qed.

(** Different inodes lie in different blocks or in disjoint slots of a block. *)
Lemma inode_pos_disjoint efs n m : n ≠ m →
  inode_area_start_block efs + n / 4 ≠ inode_area_start_block efs + m / 4 ∨
  n mod 4 * 128 + 128 <= m mod 4 * 128 ∨ m mod 4 * 128 + 128 <= n mod 4 * 128.
Proof. intros. zdiv. Qed.

(** A change elsewhere on the disk. *)
Lemma file_inv_transfer d d' efs area i L :
  file_inv_ d efs area i L → the_inode d' i = the_inode d i → (∀ b, b ∈ L → d' b = d b) →
  (∀ b, b ∈ L → used d' efs area b) →
  file_inv_ d' efs area i L ∧
  ∀ j, 0 <= j < 512 * data_blocks (the_inode d i) → file_byte d' (the_inode d i) j = file_byte d (the_inode d i) j.
Proof.
  intros [Hr Ho Hb Hbm Hi Hu] Hx Hd Hu'. split; [|intros j Hj; by eapply inode_byte_ext].
  split; try done. rewrite Hx. apply (inode_tree_ext d); [done|]. intros b Hm. by apply Hd, meta_elem_of.
Qed.

Lemma dir_ok_transfer d d' efs area i L es :
  file_inv_ d efs area i L → dir_ok d (the_inode d i) es →
  (∀ j, 0 <= j < 512 * data_blocks (the_inode d i) → file_byte d' (the_inode d i) j = file_byte d (the_inode d i) j) →
  dir_ok d' (the_inode d i) es.
Proof.
  intros Hf [Ht Hsz He] Hby. pose proof (size_blocks _ _ _ _ _ Hf) as Hbl. split; [done|done|].
  intros k e Hk. destruct (He k e Hk) as [Hok <-]. split; [done|]. apply list_fmap_ext. intros q j Hj.
  apply lookup_seqZ in Hj as [-> Hq]. apply lookup_lt_Some in Hk. unfold lengthZ in Hsz. apply Hby. lia.
Qed.

Lemma initialize_valid t (x : DiskInode) : valid x → is_byte t → valid (DiskInode_initialize t x).
Proof.
  intros (Hl & Hw & _ & Hp1 & Hp2) Ht. split_and!; cbn [DiskInode_initialize direct type_ di_pad]; try done; try apply Ht.
  - by rewrite length_fmap.
  - unfold words_valid, di_words in *. cbn. rewrite !Forall_cons, !Forall_app, Forall_fmap in *.
    split_and!; try lia; [|repeat constructor; lia]. apply Forall_true. intros y. simpl. lia.
Qed.

(** The inode [n] has been taken and initialised as an empty file. *)
Record inode_added (efs : EasyFileSystem) (n : Z) (d d' : disk) : Prop := {
  ad_bits : ∀ j, 0 <= j < nbits (inode_bitmap efs) →
    bit_of d' (inode_bitmap efs) j = if decide (j = n) then true else bit_of d (inode_bitmap efs) j;
  ad_valid : valid (the_inode d' (inode_of efs n));
  ad_size : di_size (the_inode d' (inode_of efs n)) = 0;
  ad_type : type_ (the_inode d' (inode_of efs n)) = TFile;
  ad_slots : ∀ m, 0 <= m < nbits (inode_bitmap efs) → m ≠ n →
    the_inode d' (inode_of efs m) = the_inode d (inode_of efs m);
  ad_frame : ∀ b, ¬ in_bitmap (inode_bitmap efs) b → start_block_id (data_bitmap efs) <= b → d' b = d b;
  ad_low : ∀ b, b < start_block_id (inode_bitmap efs) → d' b = d b
}.

Lemma wp_add_inode {A} s d efs area (K : Z → M St A) Q :
  store_ok s d ∅ → efs_ok_ efs area → inodes_ok efs →
  (∃ n, 0 <= n < nbits (inode_bitmap efs) ∧ bit_of d (inode_bitmap efs) n = false) →
  (∀ n s' d', 0 <= n < nbits (inode_bitmap efs) → bit_of d (inode_bitmap efs) n = false →
     (∀ j, 0 <= j < n → bit_of d (inode_bitmap efs) j = true) →
     store_ok s' d' ∅ → inode_added efs n d d' → wp (K n) Q s') →
  wp (n ← alloc_inode efs;
      let '(b, o) := get_disk_inode_pos efs n in
      _ ← modify_block_as b o (λ x : DiskInode, mret (tt, DiskInode_initialize TFile x));
      K n) Q s.
Proof.
  intros Hs Hefs Hia (n0 & Hn0 & Hc0) HK. unfold alloc_inode. wp_steps.
  eapply wp_mono; [apply (wp_alloc s d ∅); [done|apply Hia|apply bm_free_empty]|].
  intros [n|] s1; [|intros [_ Hall]; rewrite Hall in Hc0 by done; done].
  intros (d1 & Hs1 & Hn & Hcn & Hbelow & Hbits & Hfr). wp_steps. eapply wp_unwrap; [done|]. wp_steps.
  destruct (inode_pos efs area n Hefs Hia Hn) as (Hin & Hpos & Hb & Ho1 & Ho2 & Hbd & Hnd & Hni & Hn32).
  rewrite wrap_small by lia. rewrite Hpos. set (b := _ + n / 4) in *. set (o := n mod 4 * 128) in *.
  pose proof (store_wf s1 d1 ∅ b Hs1 Hb) as Hwf. wp_steps.
  assert (valid (at_block (T := DiskInode) d1 b o) → valid (DiskInode_initialize TFile (at_block d1 b o))) as Hv.
  { intros Hv. apply initialize_valid; [done|unfold is_byte, TFile; lia]. }
  eapply wp_modify_pure; [exact Hs1|done|apply not_elem_of_empty|apply size_empty_lt|done|done|exact Hv|].
  cbn [fst snd]. intros s2 Hs2. wp_steps. apply (HK n s2 _ Hn Hcn Hbelow Hs2).
  assert (valid (at_block (T := DiskInode) d1 b o)) as Hv0.
  { destruct Hwf as [Hl Hby]. apply decode_valid; [|by apply Forall_take, Forall_drop].
    rewrite length_take, length_drop, Hl. cbn [size_of DiskInode_repr]. lia. }
  specialize (Hv Hv0). set (x := DiskInode_initialize TFile _) in *. set (d2 := put_at d1 b o x).
  assert (the_inode d2 (inode_of efs n) = x) as Hx by (rewrite Hin; by apply at_put_same).
  split; rewrite ?Hx; try done.
  - intros j Hj. rewrite (bit_of_ext d1); [by apply Hbits| |done]. intros c Hc. apply put_other. by intros ->.
  - intros m Hm Hne. destruct (inode_pos efs area m Hefs Hia Hm) as (Him & _ & Hbm & Hom & Hom2 & _ & _ & Hnim & _).
    unfold the_inode. rewrite Him. cbn [inode_block_id inode_block_offset].
    transitivity (at_block (T := DiskInode) d1 (inode_area_start_block efs + m / 4) (m mod 4 * 128));
      [|unfold at_block; by rewrite Hfr].
    destruct (decide (inode_area_start_block efs + m / 4 = b)) as [Heq|Hnb].
    + destruct (inode_pos_disjoint efs n m (not_eq_sym Hne)) as [|Hdis]; [unfold b in *; congruence|].
      rewrite Heq. apply at_put_disjoint; try done; simpl; unfold BLOCK_SZ; lia.
    + unfold at_block, d2. by rewrite put_other.
  - intros c Hc Hge. unfold d2. rewrite put_other; [by apply Hfr|]. intros ->.
    pose proof (ia_end _ Hia). unfold nbits in *. subst b. zdiv.
  - intros c Hlow. pose proof (ia_start _ Hia). pose proof (ia_bm _ Hia) as (?&?&?&?).
    assert (0 <= n / 4) by zdiv. unfold d2. rewrite put_other by (unfold b; lia). apply Hfr. unfold in_bitmap. lia.
Qed.

(** The lookup at the start of [create] stores the inode back unchanged. *)
Lemma wp_create_lookup s d efs area i L es name :
  store_ok s d ∅ → efs_ok_ efs area → file_inv_ d efs area i L → dir_ok d (the_inode d i) es →
  wp (modify_disk_inode i (λ x, _ ← assert_ (is_dir x); r ← find_inode_id name x; mret (r, x)))
    (λ r s', r = dir_lookup es name ∧ store_ok s' d ∅) s.
Proof.
  intros Hs Hefs Hf Hd. unfold modify_disk_inode. pose proof Hf as [Hr [Ho1 Ho2] _ _ Hi _].
  eapply wp_modify_block_as; [exact Hs|done|apply not_elem_of_empty|apply size_empty_lt|done|done|].
  intros s1 Hs1. fold (the_inode d i). wp_steps. apply wp_assert; [apply Hd|]. wp_steps.
  eapply wp_mono; [eapply wp_find_inode_id; [by eapply start_reading|done]|].
  intros r s2 [-> Hr2]. wp_steps. cbn [fst snd]. split; [apply (io_valid _ _ _ _ Hi)|].
  exists d. split; [apply Hr2|]. intros s3 Hs3. split; [done|]. eapply store_ext; [exact Hs3|].
  intros b Hb. symmetry. apply put_at_id; [by eapply store_wf|done|done].
Qed.

(** The entry [(name, n)] is appended to the directory. *)
Lemma written_dir d d' efs area i L L' es name n :
  file_inv_ d efs area i L → dir_ok d (the_inode d i) es → entry_ok (name, n) →
  written (cap := cap) efs area i L L' (32 * lengthZ es) (encode (dirent name n)) d d' →
  dir_ok d' (the_inode d' i) (es ++ [(name, n)]).
Proof.
  intros Hf [Ht Hsz He] Hok Hw. pose proof (size_blocks _ _ _ _ _ Hf) as Hbl.
  pose proof (encode_dirent_length _ Hok) as Hl. cbn [fst snd] in Hl.
  assert (lengthZ (encode (dirent name n)) = 32) as HlZ by (unfold lengthZ; lia).
  pose proof (lengthZ_nonneg es) as Hn0. split.
  - unfold is_dir in *. by rewrite (wr_type _ _ _ _ _ _ _ _ _ Hw).
  - rewrite (wr_size _ _ _ _ _ _ _ _ _ Hw), HlZ. unfold lengthZ in *. rewrite length_app. cbn [length]. lia.
  - intros k e Hk. apply lookup_app_Some in Hk as [Hk|[Hge Hk]].
    + destruct (He k e Hk) as [Hoke <-]. split; [done|]. apply list_fmap_ext. intros q j Hj.
      apply lookup_seqZ in Hj as [-> Hq]. apply lookup_lt_Some in Hk. unfold lengthZ in *.
      apply (wr_old _ _ _ _ _ _ _ _ _ Hw); unfold lengthZ; lia.
    + apply list_lookup_singleton_Some in Hk as [Hk <-]. split; [done|]. cbn [fst snd].
      replace (32 * Z.of_nat k) with (32 * lengthZ es) by (unfold lengthZ; lia).
      apply list_eq_same_length with (n := 32%nat); [done|by rewrite length_fmap, length_seqZ|].
      intros q a b Hq Ha Hb. rewrite list_lookup_fmap, lookup_seqZ_lt in Ha by lia. injection Ha as <-.
      rewrite (wr_new _ _ _ _ _ _ _ _ _ Hw) by lia.
      replace (Z.to_nat (32 * lengthZ es + Z.of_nat q - 32 * lengthZ es)) with q by lia. by rewrite Hb.
Qed.

(** What [create] does to the disk, in the directory with inode [di]. *)
Record created (efs : EasyFileSystem) (area di n : Z) (name : list Z) (es : list entry) (L : list Z)
    (d d' : disk) : Prop := {
  cr_dir : dir_ok d' (the_inode d' (inode_of efs di)) (es ++ [(name, n)]);
  cr_inv : ∃ L', file_inv_ d' efs area (inode_of efs di) L' ∧ ∀ b, b ∈ L' → b ∈ L ∨ ¬ used d efs area b;
  cr_file : file_inv_ d' efs area (inode_of efs n) [];
  cr_empty : di_size (the_inode d' (inode_of efs n)) = 0 ∧ type_ (the_inode d' (inode_of efs n)) = TFile;
  cr_bits : ∀ j, 0 <= j < nbits (inode_bitmap efs) →
    bit_of d' (inode_bitmap efs) j = if decide (j = n) then true else bit_of d (inode_bitmap efs) j;
  cr_others : ∀ m M, 0 <= m < nbits (inode_bitmap efs) → m ≠ di → m ≠ n →
    file_inv_ d efs area (inode_of efs m) M → (∀ b, b ∈ M → b ∉ L) →
    file_inv_ d' efs area (inode_of efs m) M ∧
    the_inode d' (inode_of efs m) = the_inode d (inode_of efs m) ∧
    ∀ j, 0 <= j < 512 * data_blocks (the_inode d (inode_of efs m)) →
      file_byte d' (the_inode d (inode_of efs m)) j = file_byte d (the_inode d (inode_of efs m)) j;
  cr_low : ∀ b, b < start_block_id (inode_bitmap efs) → d' b = d b;
  cr_free : Z.of_nat (free_bits d (data_bitmap efs) area) = Z.of_nat (free_bits d' (data_bitmap efs) area) +
    (total_blocks (32 * (lengthZ es + 1)) - total_blocks (32 * lengthZ es))
}.

(** A write does not touch the blocks in front of the data bitmap, the one with
    the inode excepted. *)
Lemma written_low d d' efs area i L L' offset buf b :
  efs_ok_ efs area → written (cap := cap) efs area i L L' offset buf d d' →
  b < start_block_id (data_bitmap efs) → b ≠ inode_block_id i → d' b = d b.
Proof.
  intros Hefs Hw Hb Hne. pose proof (eo_start _ _ Hefs). pose proof (eo_bm _ _ Hefs) as (?&?&?&?).
  apply (wr_frame _ _ _ _ _ _ _ _ _ Hw); [done|unfold in_bitmap; lia|]. intros Hc.
  destruct (fi_used _ _ _ _ _ (wr_inv _ _ _ _ _ _ _ _ _ Hw) b Hc) as [? _]. lia.
Qed.

(** In particular the inode bitmap and what is in front of it. *)
Lemma written_inode_bits d d' efs area n L L' offset buf :
  efs_ok_ efs area → inodes_ok efs → 0 <= n < nbits (inode_bitmap efs) →
  written (cap := cap) efs area (inode_of efs n) L L' offset buf d d' →
  (∀ j, 0 <= j < nbits (inode_bitmap efs) → bit_of d' (inode_bitmap efs) j = bit_of d (inode_bitmap efs) j) ∧
  ∀ b, b < start_block_id (inode_bitmap efs) → d' b = d b.
Proof.
  intros Hefs Hia Hn Hw. destruct (inode_pos efs area n Hefs Hia Hn) as (Hin & _ & _ & _ & _ & _ & _ & Hni & _).
  assert (inode_block_id (inode_of efs n) = inode_area_start_block efs + n / 4) as Hb by (by rewrite Hin).
  destruct Hia as [(?&?&?&?) Hs1 Hs2 _]. assert (0 <= n / 4 ∧ 0 <= nbits (inode_bitmap efs) / 4) by (unfold nbits; zdiv).
  split; [intros j Hj; apply bit_of_ext; [|done]|]; intros b Hlt;
    apply (written_low d d' efs area (inode_of efs n) L L' offset buf); try done; rewrite ?Hb;
    unfold in_bitmap in *; lia.
Qed.

(** A write to [i] does not touch the file [k]. *)
Lemma written_other d d' efs area i k L L' M offset buf :
  efs_ok_ efs area → file_inv_ d efs area i L → file_inv_ d efs area k M →
  inode_block_id k ≠ inode_block_id i ∨ inode_block_offset k + 128 <= inode_block_offset i ∨
    inode_block_offset i + 128 <= inode_block_offset k →
  (∀ b, b ∈ M → b ∉ L) → written (cap := cap) efs area i L L' offset buf d d' →
  file_inv_ d' efs area k M ∧ the_inode d' k = the_inode d k ∧
  ∀ j, 0 <= j < 512 * data_blocks (the_inode d k) → file_byte d' (the_inode d k) j = file_byte d (the_inode d k) j.
Proof.
  intros Hefs Hi Hk Hdis HM Hw. pose proof (eo_start _ _ Hefs) as Hst.
  assert (∀ b, b ∈ L' → data_area_start_block efs <= b) as HL'.
  { intros b Hb. destruct (fi_used _ _ _ _ _ (wr_inv _ _ _ _ _ _ _ _ _ Hw) b Hb) as [? _]. lia. }
  assert (∀ b, b ∈ M → d' b = d b) as Hb.
  { intros b Hb. pose proof (fi_used _ _ _ _ _ Hk b Hb) as Hu. pose proof (proj1 Hu) as Hr.
    pose proof (fi_before _ _ _ _ _ Hi). apply (wr_frame _ _ _ _ _ _ _ _ _ Hw); [lia|unfold in_bitmap; lia|].
    intros Hin. destruct (wr_fresh _ _ _ _ _ _ _ _ _ Hw b Hin); [by eapply HM|done]. }
  assert (the_inode d' k = the_inode d k) as Hx.
  { unfold the_inode. destruct (decide (inode_block_id k = inode_block_id i)) as [E|E].
    - rewrite E. apply (wr_slots _ _ _ _ _ _ _ _ _ Hw); [apply Hk|]. destruct Hdis as [|]; [done|lia].
    - unfold at_block. rewrite (wr_frame _ _ _ _ _ _ _ _ _ Hw); [done|done|apply Hk|].
      intros Hin%HL'. pose proof (fi_before _ _ _ _ _ Hk). lia. }
  destruct (file_inv_transfer d d' efs area k M Hk Hx Hb) as [H1 H2]; [|done].
  intros b Hbm. apply (wr_keep _ _ _ _ _ _ _ _ _ Hw). by eapply fi_used.
Qed.

(** Taking an inode does not touch the other files. *)
Lemma added_other d d' efs area n m M :
  efs_ok_ efs area → inodes_ok efs → inode_added efs n d d' → 0 <= m < nbits (inode_bitmap efs) → m ≠ n →
  file_inv_ d efs area (inode_of efs m) M →
  file_inv_ d' efs area (inode_of efs m) M ∧ the_inode d' (inode_of efs m) = the_inode d (inode_of efs m) ∧
  (∀ j, 0 <= j < 512 * data_blocks (the_inode d (inode_of efs m)) →
     file_byte d' (the_inode d (inode_of efs m)) j = file_byte d (the_inode d (inode_of efs m)) j) ∧
  (∀ b, used d' efs area b ↔ used d efs area b) ∧
  free_bits d' (data_bitmap efs) area = free_bits d (data_bitmap efs) area.
Proof.
  intros Hefs [(?&?&?&?) Hia Hie Hnum] Hadd Hm Hne Hf. pose proof (eo_start _ _ Hefs) as Hst.
  pose proof (eo_bm _ _ Hefs) as (?&?&?&?).
  assert (0 <= nbits (inode_bitmap efs) / 4) by (unfold nbits; zdiv).
  assert (∀ b, start_block_id (data_bitmap efs) <= b → d' b = d b) as Hb.
  { intros b Hge. apply (ad_frame _ _ _ _ Hadd); [unfold in_bitmap; lia|done]. }
  assert (∀ b, in_bitmap (data_bitmap efs) b → d' b = d b) as Hbm by (intros b Hin; apply Hb, Hin).
  assert (∀ b, used d' efs area b ↔ used d efs area b) as Hu by (intros b; by apply (used_ext (cap := cap))).
  pose proof (ad_slots _ _ _ _ Hadd m Hm Hne) as Hx.
  destruct (file_inv_transfer d d' efs area (inode_of efs m) M Hf Hx) as [HfM HbyM].
  - intros b HbM. apply Hb. destruct (fi_used _ _ _ _ _ Hf b HbM) as [? _]. lia.
  - intros b HbM. apply Hu. by eapply fi_used.
  - split_and!; try done. by apply (free_bits_ext (cap := cap)).
Qed.

Lemma inode_slots efs area n m :
  efs_ok_ efs area → inodes_ok efs → 0 <= n < nbits (inode_bitmap efs) → 0 <= m < nbits (inode_bitmap efs) → n ≠ m →
  inode_block_id (inode_of efs n) ≠ inode_block_id (inode_of efs m) ∨
  inode_block_offset (inode_of efs n) + 128 <= inode_block_offset (inode_of efs m) ∨
  inode_block_offset (inode_of efs m) + 128 <= inode_block_offset (inode_of efs n).
Proof.
  intros Hefs Hia Hn Hm Hne. destruct (inode_pos efs area n Hefs Hia Hn) as [-> _].
  destruct (inode_pos efs area m Hefs Hia Hm) as [-> _]. by apply inode_pos_disjoint.
Qed.

Lemma added_file_inv d d' efs area n :
  efs_ok_ efs area → inodes_ok efs → inode_added efs n d d' → 0 <= n < nbits (inode_bitmap efs) →
  file_inv_ d' efs area (inode_of efs n) [].
Proof.
  intros Hefs Hia Hadd Hn. pose proof (empty_inode_ok (cap := cap) d' _ (ad_valid _ _ _ _ Hadd) (ad_size _ _ _ _ Hadd)) as Hi.
  destruct (inode_pos efs area n Hefs Hia Hn) as (Hin & _ & ? & ? & ? & ? & ? & _). rewrite Hin in *.
  split; cbn [inode_block_id inode_block_offset]; try done. by intros b ?%not_elem_of_nil.
Qed.

Lemma created_intro d d1 d2 efs area di n name es L L' :
  efs_ok_ efs area → inodes_ok efs → 0 <= di < nbits (inode_bitmap efs) → 0 <= n < nbits (inode_bitmap efs) →
  di ≠ n → entry_ok (name, n) → file_inv_ d efs area (inode_of efs di) L →
  dir_ok d (the_inode d (inode_of efs di)) es → inode_added efs n d d1 →
  written (cap := cap) efs area (inode_of efs di) L L' (32 * lengthZ es) (encode (dirent name n)) d1 d2 →
  created efs area di n name es L d d2.
Proof.
  intros Hefs Hia Hdi Hn Hne Hok Hf Hd Hadd Hw.
  destruct (added_other d d1 efs area n di L Hefs Hia Hadd Hdi Hne Hf) as (Hf1 & Hx1 & Hby1 & Hu1 & Hfb1).
  assert (dir_ok d1 (the_inode d1 (inode_of efs di)) es) as Hd1
    by (rewrite Hx1; by eapply dir_ok_transfer).
  pose proof (added_file_inv d d1 efs area n Hefs Hia Hadd Hn) as Hfn.
  destruct (written_other d1 d2 efs area (inode_of efs di) (inode_of efs n) L L' [] _ _ Hefs Hf1 Hfn
    (inode_slots efs area n di Hefs Hia Hn Hdi (not_eq_sym Hne))
    ltac:(by intros b ?%not_elem_of_nil) Hw) as (Hfn2 & Hxn & _).
  pose proof (written_inode_bits d1 d2 efs area di L L' _ _ Hefs Hia Hdi Hw) as Hlow.
  split.
  - by eapply written_dir.
  - exists L'. split; [apply Hw|]. intros b Hb. destruct (wr_fresh _ _ _ _ _ _ _ _ _ Hw b Hb) as [|Hnu]; [by left|].
    right. by rewrite <- Hu1.
  - done.
  - rewrite Hxn. split; apply Hadd.
  - intros j Hj. rewrite <- (ad_bits _ _ _ _ Hadd) by done. by apply Hlow.
  - intros m M Hm Hmd Hmn HfM HML.
    destruct (added_other d d1 efs area n m M Hefs Hia Hadd Hm Hmn HfM) as (HfM1 & HxM1 & HbyM1 & _).
    destruct (written_other d1 d2 efs area (inode_of efs di) (inode_of efs m) L L' M _ _ Hefs Hf1 HfM1
      (inode_slots efs area m di Hefs Hia Hm Hdi Hmd) HML Hw) as (HfM2 & HxM2 & HbyM2).
    rewrite HxM1 in HxM2, HbyM2. split_and!; [done|done|]. intros j Hj. by rewrite HbyM2, HbyM1.
  - intros b Hb. rewrite (proj2 Hlow) by done. by apply (ad_low _ _ _ _ Hadd).
  - pose proof (wr_free _ _ _ _ _ _ _ _ _ Hw) as Hfr. pose proof (wr_size _ _ _ _ _ _ _ _ _ Hw) as Hsz.
    pose proof (encode_dirent_length _ Hok) as Hlen. cbn [fst snd] in Hlen. unfold lengthZ at 2 in Hsz.
    rewrite Hx1, (do_size _ _ _ Hd), Hlen, Z.max_r in Hsz by lia. rewrite Hx1, (do_size _ _ _ Hd), Hfb1, Hsz in Hfr.
    by replace (32 * lengthZ es + Z.of_nat 32) with (32 * (lengthZ es + 1)) in Hfr by lia.
Qed.

(** A directory in which a file can be created: an inode and the blocks the
    directory may need are free. *)
Record create_ready (efs : EasyFileSystem) (area di : Z) (L : list Z) (es : list entry) (d : disk) : Prop := {
  cy_efs : efs_ok_ efs area;
  cy_inodes : inodes_ok efs;
  cy_di : 0 <= di < nbits (inode_bitmap efs);
  cy_bit : bit_of d (inode_bitmap efs) di = true;
  cy_inv : file_inv_ d efs area (inode_of efs di) L;
  cy_dir : dir_ok d (the_inode d (inode_of efs di)) es;
  cy_free : ∃ n, 0 <= n < nbits (inode_bitmap efs) ∧ bit_of d (inode_bitmap efs) n = false;
  cy_max : 32 * (lengthZ es + 1) <= 512 * INDIRECT2_BOUND;
  cy_room : total_blocks (32 * (lengthZ es + 1)) - total_blocks (32 * lengthZ es) <=
    Z.of_nat (free_bits d (data_bitmap efs) area)
}.

(** The free inode with the lowest number has become the file [name]. *)
Definition created_at (efs : EasyFileSystem) (area di n : Z) (name : list Z) (es : list entry) (L : list Z)
    (d d' : disk) : Prop :=
  0 <= n < nbits (inode_bitmap efs) ∧ bit_of d (inode_bitmap efs) n = false ∧
  (∀ j, 0 <= j < n → bit_of d (inode_bitmap efs) j = true) ∧
  created efs area di n name es L d d' ∧
  (∀ nm, dir_lookup (es ++ [(name, n)]) nm = if decide (nm = name) then Some n else dir_lookup es nm).

Lemma wp_Inode_create s d efs area di L es name :
  store_ok s d ∅ → create_ready efs area di L es d → name_ok name →
  wp (Inode_create efs (inode_of efs di) name) (λ r s',
    match dir_lookup es name with
    | Some _ => r = None ∧ store_ok s' d ∅
    | None => ∃ n d', r = Some (inode_of efs n) ∧ store_ok s' d' ∅ ∧ created_at efs area di n name es L d d'
    end) s.
Proof.
  intros Hs [Hefs Hia Hdi Hbdi Hf Hd Hfree Hmax Hroom] Hname. unfold Inode_create. wp_steps.
  eapply wp_mono; [by eapply wp_create_lookup|]. intros r s1 [-> Hs1].
  destruct (dir_lookup es name) as [ino|] eqn:Hlook; [wp_steps; done|].
  eapply (wp_add_inode s1 d efs area); [done|done|done|done|].
  intros n s2 d2 Hn Hcn Hbelow Hs2 Hadd. assert (di ≠ n) as Hne by (intros ->; congruence).
  destruct (added_other d d2 efs area n di L Hefs Hia Hadd Hdi Hne Hf) as (Hf2 & Hx2 & Hby & _ & Hfb).
  assert (entry_ok (name, n)) as Hok by (split; [done|pose proof (ia_num _ Hia); simpl; lia]).
  pose proof (encode_dirent_length _ Hok) as Hlen. cbn [fst snd] in Hlen.
  pose proof (lengthZ_nonneg es) as Hn0. unfold modify_disk_inode. pose proof Hf2 as [Hr [Ho1 Ho2] _ _ _ _].
  wp_steps. eapply wp_modify_block_as; [exact Hs2|done|apply not_elem_of_empty|apply size_empty_lt|done|done|].
  intros s3 Hs3. fold (the_inode d2 (inode_of efs di)).
  assert (di_size (the_inode d2 (inode_of efs di)) = 32 * lengthZ es) as Hsz by (rewrite Hx2; apply Hd).
  assert (di_size (the_inode d2 (inode_of efs di)) / DIRENT_SZ = lengthZ es) as Hfc
    by (rewrite Hx2; by apply (file_count d)).
  assert (lengthZ (encode (dirent name n)) = 32) as HlZ by (unfold lengthZ; lia).
  cbn zeta. rewrite Hfc. unfold DIRENT_SZ. rewrite !(wrap_small 64), (wrap_small 32) by (unfold_layout; lia).
  replace ((lengthZ es + 1) * 32) with (32 * lengthZ es + lengthZ (encode (dirent name n))) by lia.
  rewrite (Z.mul_comm (lengthZ es) 32). wp_steps.
  eapply wp_mono; [apply (wp_grow_write Hcap s3 d2 efs area (inode_of efs di) L); try done|].
  - by intros Hnil; rewrite Hnil in HlZ.
  - apply encode_byte. by apply (dirent_valid (name, n)).
  - lia.
  - rewrite HlZ. lia.
  - rewrite HlZ, Hsz, Hfb. by replace (32 * lengthZ es + 32) with (32 * (lengthZ es + 1)) by lia.
  - intros x' s4 Hwp. wp_steps. eapply wp_lift_result.
    { apply DirEntry_new_name. destruct Hname as (_ & Hl & _). unfold NAME_LENGTH_LIMIT, lengthZ in Hl. lia. }
    wp_steps. eapply wp_mono; [exact Hwp|]. intros m s5 (_ & Hv & d5 & L' & Hs5 & Hw). wp_steps. cbn [fst snd].
    split; [done|]. exists d5. split; [done|]. intros s6 Hs6. wp_steps.
    eapply wp_mono; [by eapply store_sync|]. intros [] s7 Hs7. wp_steps. eexists n, _.
    split; [done|]. split; [exact Hs7|]. split_and!; try done; try lia; [by eapply created_intro|].
    clear - Hlook. intros nm. induction es as [|[nm' ino] es IH]; cbn [dir_lookup app].
    + destruct (decide (name = nm)) as [->|]; [by rewrite decide_True|by rewrite decide_False].
    + cbn [dir_lookup] in Hlook. destruct (decide (nm' = name)); [done|].
      destruct (decide (nm' = nm)) as [->|]; [by rewrite decide_False|by apply IH].
Qed.
(** C11: [Inode::create].  If the name exists the result is [None] and nothing
    changes.  Otherwise, as long as an inode and the blocks the directory may
    need are free, [create] takes the free inode with the lowest number, makes it
    an empty file and appends the entry to the directory: afterwards the name is
    found, all other names as before.  No other inode, file or allocation
    changes. *)
Theorem dir_create s d efs area di L es name :
  store_ok s d ∅ → create_ready efs area di L es d → name_ok name →
  wp (Inode_create efs (inode_of efs di) name) (λ r s',
    match dir_lookup es name with
    | Some _ => r = None ∧ store_ok s' d ∅
    | None => ∃ n d', r = Some (inode_of efs n) ∧ store_ok s' d' ∅ ∧ created_at efs area di n name es L d d'
    end) s.
Proof. apply wp_Inode_create. Qed.
End proofs.

(** ** On a device with an empty root directory

    The demonstration device with bit 0 of the inode bitmap set and inode 0 of
    the type directory. *)

Definition dir_file : File := mkFile (4096 * 512) {[ 512 := 1; 1024 + 124 := 1 ]} 0.
Abbreviation dir_disk := (file_block dir_file).

Lemma dir_file_ok : dev_ok (BlockDeviceLaws := demo_file_laws) dir_file dir_disk.
Proof.
  split_and!; [done| |done]. apply map_Forall_insert_2; [unfold is_byte; lia|].
  apply map_Forall_singleton. unfold is_byte. lia.
Qed.

Lemma dir_store_ok : store_ok (BlockStoreLaws := demo_laws) (BlockCacheManager_new dir_file) dir_disk ∅.
Proof. apply (cache_ok_new (HDL := demo_file_laws)), dir_file_ok. Qed.

Lemma dir_inode : the_inode dir_disk (inode_of demo_efs 0) = empty_dir.
Proof. vm_compute. reflexivity. Qed.

Lemma dir_file_inv : file_inv (cap := 4096) dir_disk demo_efs 3069 (inode_of demo_efs 0) [].
Proof.
  split; change (inode_block_id (inode_of demo_efs 0)) with 2; change (inode_block_offset (inode_of demo_efs 0)) with 0;
    try (simpl; lia).
  - unfold in_bitmap. simpl. lia.
  - rewrite dir_inode. apply empty_inode_ok; [apply empty_dir_valid|done].
  - by intros b Hb%not_elem_of_nil.
Qed.

Lemma dir_dir_ok : dir_ok dir_disk (the_inode dir_disk (inode_of demo_efs 0)) [].
Proof. rewrite dir_inode. split; [done|done|]. intros k e. by rewrite lookup_nil. Qed.

Lemma demo_inodes_ok : inodes_ok (cap := 4096) demo_efs.
Proof.
  split; unfold bm_wf, nbits; simpl; try lia. by vm_compute.
Qed.

Lemma dir_ready : create_ready (cap := 4096) demo_efs 3069 0 [] [] dir_disk.
Proof.
  split; [exact demo_efs_ok|exact demo_inodes_ok|unfold nbits; simpl; lia|vm_compute; reflexivity|
    exact dir_file_inv|exact dir_dir_ok| | |].
  - exists 1. split; [unfold nbits; simpl; lia|vm_compute; reflexivity].
  - unfold lengthZ. simpl. unfold_layout. lia.
  - pose proof (free_bits_pos dir_disk (data_bitmap demo_efs) 3069 0 ltac:(lia) ltac:(vm_compute; reflexivity)) as Hfb.
    assert (total_blocks (32 * (lengthZ (@nil (list Z * Z)) + 1)) - total_blocks (32 * lengthZ (@nil (list Z * Z))) = 1)
      as -> by (vm_compute; reflexivity). lia.
Qed.

Lemma name_ok_a : name_ok [97].
Proof. split_and!; [repeat constructor; lia|unfold lengthZ, NAME_LENGTH_LIMIT; simpl; lia|reflexivity]. Qed.

(** On this device the new file has inode 1. *)
Lemma dir_first_free n d' : created_at (cap := 4096) demo_efs 3069 0 n [97] [] [] dir_disk d' → n = 1.
Proof.
  intros (Hn & Hc & Hbelow & _).
  assert (bit_of dir_disk (inode_bitmap demo_efs) 1 = false) as H1 by (vm_compute; reflexivity).
  assert (bit_of dir_disk (inode_bitmap demo_efs) 0 = true) as H0 by (vm_compute; reflexivity).
  destruct (decide (n = 0)) as [->|]; [congruence|]. destruct (decide (1 < n)); [|lia].
  rewrite Hbelow in H1 by lia. done.
Qed.

Lemma dir_create_witness :
  wp (Inode_create demo_efs (inode_of demo_efs 0) [97])
    (λ r (_ : demo_store), r = Some (inode_of demo_efs 1)) (BlockCacheManager_new dir_file).
Proof.
  eapply wp_mono.
  - apply (dir_create (HL := demo_laws) ltac:(lia) _ dir_disk demo_efs 3069 0 [] [] [97]).
    + exact dir_store_ok.
    + exact dir_ready.
    + exact name_ok_a.
  - cbn [dir_lookup]. intros r s' (n & d' & -> & _ & Hn). by rewrite (dir_first_free n d' Hn).
Defined.

(** The new name is found and listed; another is not found. *)
Lemma dir_find_ls_witness :
  wp (_ ← Inode_create demo_efs (inode_of demo_efs 0) [97];
      r ← find demo_efs (inode_of demo_efs 0) [97]; l ← ls (inode_of demo_efs 0); mret (r, l))
    (λ rl (_ : demo_store), rl = (Some (inode_of demo_efs 1), [[97]])) (BlockCacheManager_new dir_file).
Proof.
  apply wp_bind. eapply wp_mono; [apply (wp_Inode_create (HL := demo_laws) ltac:(lia) _ dir_disk demo_efs 3069 0 [] [] [97] dir_store_ok dir_ready name_ok_a)|].
  cbn [dir_lookup]. intros r s1 (n & d' & _ & Hs1 & Hn). pose proof (dir_first_free n d' Hn) as ->.
  destruct Hn as (_ & _ & _ & [Hd (L' & Hf & _)] & _).
  eapply wp_mono; [apply (dir_find_ls (HL := demo_laws) _ d' demo_efs 3069 (inode_of demo_efs 0) L' [([97], 1)] [97])|].
  + exact Hs1.
  + exact demo_efs_ok.
  + exact Hf.
  + exact Hd.
  + intros [r' l] s' (H1 & _ & H2 & _). cbn [fst snd] in *. by subst.
Defined.
