(* ===== verification/OsInode.v ===== *)
(** * Open files of the kernel

    [os/src/fs/inode.rs]: [OSInode], the open file behind a descriptor (an inode
    of easy-fs with an offset and access rights), and [open_file].  A read or
    write runs over the slices of a user buffer; the state is the block store of
    the file system together with physical memory. *)

From S2P Require Import Prelude Address FrameAllocator UserBuffer Codec BlockDev BlockCache Bitmap Layout InodeTree Efs Vfs Dir.

Record OSInode := mkOSInode {
  os_readable : bool;
  os_writable : bool;
  os_offset : Z;
  os_inode : Inode
}.
Definition OSInode_new (readable writable : bool) (inode : Inode) : OSInode :=
  mkOSInode readable writable 0 inode.
Definition set_offset (o : Z) (f : OSInode) : OSInode :=
  mkOSInode (os_readable f) (os_writable f) o (os_inode f).

(** ** Flags *)

Definition RDONLY : Z := 0.
Definition WRONLY : Z := Z.shiftl 1 0.
Definition RDWR : Z := Z.shiftl 1 1.
Definition CREATE : Z := Z.shiftl 1 9.
Definition TRUNC : Z := Z.shiftl 1 10.
Definition OpenFlags_all : Z := Z.lor WRONLY (Z.lor RDWR (Z.lor CREATE TRUNC)).

(** (readable, writable) *)
Definition read_write (flags : Z) : bool * bool :=
  if flags =? 0 then (true, false)
  else if contains flags WRONLY then (false, true)
  else (true, true).

Section os_inode.
Context {St : Type} `{HS : BlockStore St}.

(** ** [read_all] *)

(** The loop; [None] when [fuel] reads did not reach the end of the file. *)
Fixpoint read_all_loop (fuel : nat) (f : OSInode) (buffer v : list Z) : M St (option (list Z * OSInode)) :=
  match fuel with
  | O => mret None
  | S fuel =>
      r ← Inode_read_at (os_inode f) (os_offset f) buffer;
      let '(buffer, len) := r in
      if len =? 0 then mret (Some (v, f))
      else read_all_loop fuel (set_offset (wrap64 (os_offset f + len)) f) buffer
             (v ++ take (Z.to_nat len) buffer)
  end.
Definition read_all (fuel : nat) (f : OSInode) : M St (option (list Z * OSInode)) :=
  read_all_loop fuel f (replicate 512 0) [].

(** ** [open_file] *)

Definition open_file (efs : EasyFileSystem) (name : list Z) (flags : Z) : M St (option OSInode) :=
  let '(readable, writable) := read_write flags in
  let root := root_inode efs in
  if contains flags CREATE then
    o ← find efs root name;
    match o with
    | Some inode =>
        _ ← clear efs inode;
        mret (Some (OSInode_new readable writable inode))
    | None =>
        o ← Inode_create efs root name;
        mret (OSInode_new readable writable <$> o)
    end
  else
    o ← find efs root name;
    match o with
    | Some inode =>
        _ ← (if contains flags TRUNC then clear efs inode else mret tt);
        mret (Some (OSInode_new readable writable inode))
    | None => mret None
    end.

(** ** [File for OSInode] *)

Definition on_store {A} (m : M St A) : M (St * gmap Z page) A := zoom fst (λ s x, (s, x.2)) m.
Definition on_memory {A} (m : M (gmap Z page) A) : M (St * gmap Z page) A := zoom snd (λ o x, (x.1, o)) m.

(** [for slice in buf.buffers.iter_mut()]: [read_at] stores into the first
    [read_size] bytes of the slice. *)
Fixpoint read_slices (f : OSInode) (ss : list UserBuffer.slice) (total_read_size : Z) :
    M (St * gmap Z page) (Z * OSInode) :=
  match ss with
  | [] => mret (total_read_size, f)
  | sl :: ss' =>
      m ← on_memory get;
      r ← on_store (Inode_read_at (os_inode f) (os_offset f) (loc_byte m <$> slice_locs sl));
      let '(bs, read_size) := r in
      if read_size =? 0 then mret (total_read_size, f)
      else
        _ ← on_memory (put (store_all m (slice_locs sl) (take (Z.to_nat read_size) bs)));
        read_slices (set_offset (wrap64 (os_offset f + read_size)) f) ss' (wrap64 (total_read_size + read_size))
  end.
Definition OSInode_read (f : OSInode) (buf : UserBuffer) : M (St * gmap Z page) (Z * OSInode) :=
  read_slices f (buffers buf) 0.

Fixpoint write_slices (efs : EasyFileSystem) (f : OSInode) (ss : list UserBuffer.slice) (total_write_size : Z) :
    M (St * gmap Z page) (Z * OSInode) :=
  match ss with
  | [] => mret (total_write_size, f)
  | sl :: ss' =>
      m ← on_memory get;
      write_size ← on_store (Inode_write_at efs (os_inode f) (os_offset f) (loc_byte m <$> slice_locs sl));
      _ ← assert_ (write_size =? slice_len sl);
      write_slices efs (set_offset (wrap64 (os_offset f + write_size)) f) ss'
        (wrap64 (total_write_size + write_size))
  end.
Definition OSInode_write (efs : EasyFileSystem) (f : OSInode) (buf : UserBuffer) :
    M (St * gmap Z page) (Z * OSInode) :=
  write_slices efs f (buffers buf) 0.
End os_inode.

(** ** Proofs *)

Section proofs.
Context {St : Type} {cap : Z} `{HS : BlockStore St} `{HL : !BlockStoreLaws St cap}.
Hypothesis Hcap : cap <= 2 ^ 32.

Abbreviation file_inv_ := (file_inv (cap := cap)).
Abbreviation efs_ok_ := (efs_ok (cap := cap)).
Abbreviation written_ := (written (cap := cap)).

(** The bytes of a file from [offset], at most [n] of them. *)
Definition file_bytes (d : disk) (i : Inode) (offset n : Z) : list Z :=
  file_byte d (the_inode d i) <$> seqZ offset (span (the_inode d i) offset n).

Lemma total_blocks_mono a b : 0 <= a <= b → b <= 512 * INDIRECT2_BOUND → total_blocks a <= total_blocks b.
Proof.
  intros Ha Hb. rewrite !total_blocks_tot by lia. apply tot_mono.
  pose proof (data_blocks_mono a b Ha Hb). pose proof (data_blocks_range a). lia.
Qed.

(** One slice. *)
Lemma wp_write_slice s m d efs area i L offset sl Q :
  store_ok s d ∅ → efs_ok_ efs area → file_inv_ d efs area i L → 0 <= sl_lo sl < sl_hi sl →
  0 <= offset → offset + slice_len sl <= 512 * INDIRECT2_BOUND →
  total_blocks (offset + slice_len sl) - total_blocks (di_size (the_inode d i)) <=
    Z.of_nat (free_bits d (data_bitmap efs) area) →
  (∀ s' d' L', store_ok s' d' ∅ → written_ efs area i L L' offset (loc_byte m <$> slice_locs sl) d d' →
     Q (slice_len sl) (s', m)) →
  wp (on_store (Inode_write_at efs i offset (loc_byte m <$> slice_locs sl))) Q (s, m).
Proof.
  intros Hs Hefs Hf Hsl Hoff Hmax Hfree HQ. apply wp_zoom. cbn [fst].
  assert (lengthZ (loc_byte m <$> slice_locs sl) = slice_len sl) as Hlen.
  { unfold lengthZ. rewrite length_fmap, length_slice_locs. unfold slice_len in *. lia. }
  eapply wp_mono; [apply (wp_Inode_write_at Hcap s d efs area i L); rewrite ?Hlen; try done|].
  - intros Hnil. rewrite Hnil in Hlen. unfold lengthZ, slice_len in Hlen. simpl in Hlen. lia.
  - apply Forall_forall. intros b Hb. apply list_elem_of_fmap in Hb as (l & -> & _). apply loc_byte_range.
  - intros n s' (-> & d' & L' & Hs' & Hw). rewrite Hlen. eauto.
Qed.

Lemma lengthZ_locs_cons sl ss : 0 <= sl_lo sl < sl_hi sl →
  lengthZ (locs (sl :: ss)) = slice_len sl + lengthZ (locs ss).
Proof. intros Hsl. rewrite locs_cons. unfold lengthZ. rewrite length_app, length_slice_locs. unfold slice_len. lia. Qed.

Lemma wp_write_slices efs area ss : ∀ s m d L f total,
  let i := os_inode f in
  let n := lengthZ (locs ss) in
  store_ok s d ∅ → efs_ok_ efs area → file_inv_ d efs area i L →
  Forall (λ sl, 0 <= sl_lo sl < sl_hi sl) ss → 0 <= os_offset f → 0 <= total → total + n < 2 ^ 64 →
  os_offset f + n <= 512 * INDIRECT2_BOUND →
  total_blocks (os_offset f + n) - total_blocks (di_size (the_inode d i)) <=
    Z.of_nat (free_bits d (data_bitmap efs) area) →
  wp (write_slices efs f ss total) (λ r sm, r = (total + n, set_offset (os_offset f + n) f) ∧
     sm.2 = m ∧ ∃ d' L', store_ok (sm.1) d' ∅ ∧
       ((ss = [] ∧ d' = d) ∨ written_ efs area i L L' (os_offset f) (loc_byte m <$> locs ss) d d')) (s, m).
Proof.
  induction ss as [|sl ss IH]; intros s m d L f total i n Hs Hefs Hf Hne Hoff Htot Hw Hmax Hfree; subst i; cbn [write_slices].
  { apply wp_ret. split_and!; [|done|by exists d, L; split; [|left]]. unfold n, lengthZ. simpl. rewrite !Z.add_0_r. by destruct f. }
  apply Forall_cons in Hne as [Hsl Hne]. unfold n in *. clear n. rewrite lengthZ_locs_cons in * by done.
  pose proof (lengthZ_nonneg (locs ss)) as Hn0. assert (0 < slice_len sl) as Hpos by (unfold slice_len; lia).
  wp_steps. apply wp_zoom. apply wp_get. cbn [fst snd]. wp_steps.
  eapply wp_write_slice; try done; [lia| |].
  { pose proof (total_blocks_mono (os_offset f + slice_len sl) (os_offset f + (slice_len sl + lengthZ (locs ss))) ltac:(lia) Hmax). lia. }
  intros s1 d1 L1 Hs1 Hw1. wp_steps. apply wp_assert; [by apply Z.eqb_eq|]. wp_steps.
  unfold_layout. rewrite !wrap_small by lia.
  assert (lengthZ (loc_byte m <$> slice_locs sl) = slice_len sl) as Hl.
  { unfold lengthZ. rewrite length_fmap, length_slice_locs. lia. }
  pose proof (wr_free _ _ _ _ _ _ _ _ _ Hw1) as Hfb. 
  eapply wp_mono; [apply (IH s1 m d1 L1); try done; cbn [set_offset os_offset os_inode]; try lia; try apply Hw1|].
  { rewrite <- Z.add_assoc. lia. }
  cbn [set_offset os_offset os_inode]. intros r [s2 m2] (-> & Hm2 & d2 & L2 & Hs2 & Hw2). cbn [fst snd] in *.
  split_and!; [by rewrite !Z.add_assoc|done|].
  destruct Hw2 as [[-> ->]|Hw2].
  - exists d1, L1. split; [done|right]. by rewrite locs_cons, app_nil_r.
  - exists d2, L2. split; [done|right]. rewrite locs_cons, fmap_app.
    eapply written_trans; [done|done|exact Hw1|]. by rewrite Hl.
Qed.

Lemma store_all_short m ls1 ls2 bs : (length bs <= length ls1)%nat →
  store_all m (ls1 ++ ls2) bs = store_all m ls1 bs.
Proof.
  revert m bs. induction ls1 as [|l ls1 IH]; intros m [|b bs] Hl; simpl in *; try done; try lia.
  - by destruct ls2.
  - apply IH. lia.
Qed.

Lemma span_split x offset a b : 0 <= a → 0 <= b → span x offset a = a →
  span x offset (a + b) = a + span x (offset + a) b.
Proof. unfold span. lia. Qed.
Lemma span_short x offset a b : 0 <= a → 0 <= b → 0 <= span x offset a < a →
  span x offset (a + b) = span x offset a ∧
  span x (offset + span x offset a) b = 0.
Proof. unfold span. lia. Qed.

Lemma take_splice_all (buf new : list Z) : (length new <= length buf)%nat →
  take (length new) (splice buf 0 new) = new.
Proof. intros Hl. unfold splice. simpl. by rewrite take_app_length. Qed.

Lemma wp_read_slices d efs area L ss : ∀ s m f total,
  let i := os_inode f in
  let x := the_inode d i in
  let n := span x (os_offset f) (lengthZ (locs ss)) in
  store_ok s d ∅ → efs_ok_ efs area → file_inv_ d efs area i L →
  Forall (λ sl, 0 <= sl_lo sl < sl_hi sl) ss → 0 <= os_offset f → 0 <= total →
  total + lengthZ (locs ss) < 2 ^ 64 → os_offset f + lengthZ (locs ss) < 2 ^ 64 →
  wp (read_slices f ss total) (λ r sm, r = (total + n, set_offset (os_offset f + n) f) ∧
     sm.2 = store_all m (locs ss) (file_bytes d i (os_offset f) (lengthZ (locs ss))) ∧
     store_ok (sm.1) d ∅) (s, m).
Proof.
  induction ss as [|sl ss IH]; intros s m f total i x n Hs Hefs Hf Hne Hoff Htot Hw1 Hw2; cbn [read_slices].
  { apply wp_ret. assert (n = 0) as -> by (unfold n, span, lengthZ; simpl; lia).
    rewrite !Z.add_0_r. split_and!; [by destruct f|done|done]. }
  apply Forall_cons in Hne as [Hsl Hne]. subst n. rewrite lengthZ_locs_cons in * by done.
  pose proof (lengthZ_nonneg (locs ss)) as Hn0. assert (0 < slice_len sl) as Hpos by (unfold slice_len; lia).
  wp_steps. apply wp_zoom, wp_get. cbn [fst snd]. wp_steps. apply wp_zoom. cbn [fst snd].
  assert (lengthZ (loc_byte m <$> slice_locs sl) = slice_len sl) as Hl.
  { unfold lengthZ. rewrite length_fmap, length_slice_locs. lia. }
  eapply wp_mono; [apply (wp_Inode_read_at s d efs area i L); try done; rewrite Hl; lia|].
  intros r s1 [Hs1 ->]. rewrite Hl. fold x. set (k := span x (os_offset f) (slice_len sl)).
  assert (0 <= k <= slice_len sl) as Hk by (unfold k, span; lia).
  unfold file_bytes. fold i x. rewrite locs_cons. destruct (Z.eqb_spec k 0) as [Hk0|Hk0].
  { wp_steps. assert (span x (os_offset f) (slice_len sl + lengthZ (locs ss)) = 0) as ->
      by (unfold k, span in *; lia).
    rewrite !Z.add_0_r. split_and!; [by destruct f| |done]. by destruct (slice_locs sl ++ locs ss). }
  set (bs := file_byte d x <$> seqZ (os_offset f) k).
  assert (length bs = Z.to_nat k) as Hbs by (unfold bs; by rewrite length_fmap, length_seqZ).
  rewrite <- Hbs, take_splice_all by (unfold lengthZ in Hl; lia).
  wp_steps. apply wp_zoom, wp_put. cbn [fst snd]. rewrite !wrap_small by lia.
  eapply wp_mono; [apply (IH s1 (store_all m (slice_locs sl) bs) (set_offset (os_offset f + k) f) (total + k)); try done;
    cbn [set_offset os_offset]; lia|].
  cbn [set_offset os_offset os_inode]. fold i x. intros r [s2 m2] (-> & -> & Hs2). cbn [fst snd] in *.
  unfold file_bytes. fold x. destruct (decide (k = slice_len sl)) as [Hfull|Hpart].
  - rewrite (span_split x) by (done || lia). rewrite <- Hfull. split_and!; [by rewrite !Z.add_assoc| |done].
    rewrite seqZ_app, fmap_app by (unfold span; lia). rewrite store_all_app; [done|].
    rewrite length_slice_locs, length_fmap, length_seqZ. lia.
  - destruct (span_short x (os_offset f) (slice_len sl) (lengthZ (locs ss))) as [E1 E2]; [lia|lia|fold k; lia|].
    fold k in E1, E2.
    rewrite E1, E2, !Z.add_0_r. split_and!; [done| |done].
    rewrite (store_all_short m) by (rewrite length_fmap, length_seqZ, length_slice_locs; lia).
    by destruct (locs ss).
Qed.

Lemma file_byte_range s d efs area i L j :
  store_ok s d ∅ → efs_ok_ efs area → file_inv_ d efs area i L → 0 <= j < di_size (the_inode d i) →
  is_byte (file_byte d (the_inode d i) j).
Proof.
  intros Hs Hefs Hf Hj. pose proof (size_blocks _ _ _ _ _ Hf) as Hsz. destruct Hf as [_ _ _ _ Hi Hu].
  assert (0 <= j / 512 < data_blocks (the_inode d i)) as Hk by zdiv.
  pose proof (tree_data _ _ _ _ (j / 512) (io_tree _ _ _ _ Hi) Hk) as Hb%lookupZ_elem.
  destruct (Hu _ Hb) as [Hr _]. pose proof (eo_cap _ _ Hefs). pose proof (eo_start _ _ Hefs).
  destruct (eo_bm _ _ Hefs) as (?&?&?&?).
  destruct (store_wf s d ∅ (inode_block d (the_inode d i) (j / 512)) Hs ltac:(lia)) as [Hl Hby].
  unfold file_byte. destruct (d _ !! _) as [b|] eqn:E; [|unfold is_byte; simpl; lia].
  by eapply Forall_lookup in E.
Qed.

Lemma file_bytes_ok s d efs area i L offset n :
  store_ok s d ∅ → efs_ok_ efs area → file_inv_ d efs area i L → 0 <= offset →
  bytes_ok (file_bytes d i offset n).
Proof.
  intros Hs Hefs Hf Hoff. apply Forall_forall. intros b Hb.
  apply list_elem_of_fmap in Hb as (j & -> & Hj%elem_of_seqZ). eapply file_byte_range; try done.
  unfold span in Hj. lia.
Qed.

Lemma file_bytes_lookup d i offset n k : Z.of_nat k < span (the_inode d i) offset n →
  file_bytes d i offset n !! k = Some (file_byte d (the_inode d i) (offset + Z.of_nat k)).
Proof. intros Hk. unfold file_bytes. rewrite list_lookup_fmap, lookup_seqZ_lt by lia. done. Qed.

Lemma wp_OSInode_write s m d efs area f L b :
  store_ok s d ∅ → efs_ok_ efs area → file_inv_ d efs area (os_inode f) L → buffer_ok b → buffers b ≠ [] →
  0 <= os_offset f →
  let n := lengthZ (locs (buffers b)) in
  os_offset f + n <= 512 * INDIRECT2_BOUND →
  total_blocks (os_offset f + n) - total_blocks (di_size (the_inode d (os_inode f))) <=
    Z.of_nat (free_bits d (data_bitmap efs) area) →
  wp (OSInode_write efs f b) (λ r sm, r = (n, set_offset (os_offset f + n) f) ∧ sm.2 = m ∧
     ∃ d' L', store_ok (sm.1) d' ∅ ∧
       written_ efs area (os_inode f) L L' (os_offset f) (loc_byte m <$> locs (buffers b)) d d') (s, m).
Proof.
  intros Hs Hefs Hf [Hb1 Hb2] Hne Hoff n Hmax Hfree.
  eapply wp_mono; [apply (wp_write_slices efs area (buffers b) s m d L f 0); try done; lia|].
  intros r sm (-> & Hm & d' & L' & Hs' & [[? _]|Hw]); [done|]. eauto 10.
Qed.

(** Writing a user buffer to an open file and reading the file into another
    buffer, through any two open files of the same inode, transfers the bytes.
    [OSInode::write] takes the bytes of all slices of the buffer in order,
    returns their number, and advances the offset by it.  [OSInode::read] returns
    the number of bytes there are, up to the length of the buffer, advances its
    offset by it, and leaves at each location of the buffer the byte of the
    file: the one written if the position is in the range of the write, the old
    one otherwise.  Other locations of memory and other files are unchanged. *)
Theorem os_write_then_read s m d efs area f g L bw br :
  store_ok s d ∅ → efs_ok_ efs area → file_inv_ d efs area (os_inode f) L → os_inode g = os_inode f →
  buffer_ok bw → buffers bw ≠ [] → buffer_ok br → NoDup (locs (buffers br)) →
  0 <= os_offset f → 0 <= os_offset g →
  let W := locs (buffers bw) in
  let R := locs (buffers br) in
  let x := the_inode d (os_inode f) in
  os_offset f + lengthZ W <= 512 * INDIRECT2_BOUND → os_offset g + lengthZ R < 2 ^ 64 →
  total_blocks (os_offset f + lengthZ W) - total_blocks (di_size x) <=
    Z.of_nat (free_bits d (data_bitmap efs) area) →
  wp (r ← OSInode_write efs f bw; q ← OSInode_read g br; mret (r, q)) (λ rq sm,
    let size' := Z.max (di_size x) (os_offset f + lengthZ W) in
    let n := Z.max 0 (Z.min (os_offset g + lengthZ R) size' - os_offset g) in
    rq = ((lengthZ W, set_offset (os_offset f + lengthZ W) f), (n, set_offset (os_offset g + n) g)) ∧
    (∀ k l, R !! k = Some l → Z.of_nat k < n →
       let j := os_offset g + Z.of_nat k in
       (∀ l', os_offset f <= j → W !! Z.to_nat (j - os_offset f) = Some l' → loc_byte (sm.2) l = loc_byte m l') ∧
       (j < di_size x → ¬ os_offset f <= j < os_offset f + lengthZ W → loc_byte (sm.2) l = file_byte d x j)) ∧
    (∀ l, 0 <= l.2 → l ∉ R → loc_byte (sm.2) l = loc_byte m l) ∧
    ∃ d' L', store_ok (sm.1) d' ∅ ∧
      written_ efs area (os_inode f) L L' (os_offset f) (loc_byte m <$> W) d d') (s, m).
Proof.
  intros Hs Hefs Hf Hg Hbw Hne Hbr Hnd Hof Hog W R x Hmax Hr Hfree. wp_steps.
  eapply wp_mono; [by apply (wp_OSInode_write s m d efs area f L)|].
  intros r [s1 m1] (-> & Hm1 & d1 & L1 & Hs1 & Hw). cbn [fst snd] in *. subst m1. fold W x in Hw. wp_steps.
  assert (file_inv_ d1 efs area (os_inode g) L1) as Hf1 by (rewrite Hg; apply Hw).
  pose proof (buffer_locs_ok _ Hbr) as HlR. destruct Hbr as [Hb1 Hb2].
  eapply wp_mono; [apply (wp_read_slices d1 efs area L1 (buffers br) s1 m g 0); try done; lia|].
  fold R. intros q [s2 m2] (-> & Hm2 & Hs2). cbn [fst snd] in *. subst m2. wp_steps. cbn [fst snd].
  set (n := span _ _ _). rewrite Z.add_0_l.
  assert (lengthZ (loc_byte m <$> W) = lengthZ W) as HlW by (unfold lengthZ; by rewrite length_fmap).
  assert (n = Z.max 0 (Z.min (os_offset g + lengthZ R) (Z.max (di_size x) (os_offset f + lengthZ W)) - os_offset g)) as Hn.
  { pose proof (wr_size _ _ _ _ _ _ _ _ _ Hw) as Hsz. unfold n, span. rewrite Hg. fold W x in Hsz. lia. }
  rewrite <- Hn. pose proof (file_bytes_ok s1 d1 efs area (os_inode g) L1 (os_offset g) (lengthZ R) Hs1 Hefs Hf1 Hog) as Hby.
  split; [done|]. split; [|split; [|by eauto]].
  - intros k l Hl Hk.
    rewrite (store_all_bytes _ _ _ k l _ HlR Hby Hnd Hl (file_bytes_lookup _ _ _ _ _ Hk)). rewrite Hg. split.
    + intros l' Hj Hl'. pose proof (lookup_lt_Some _ _ _ Hl') as Hlt.
      rewrite (wr_new _ _ _ _ _ _ _ _ _ Hw) by (rewrite HlW; unfold lengthZ; lia). by rewrite list_lookup_fmap, Hl'.
    + intros Hj Hnot. apply (wr_old _ _ _ _ _ _ _ _ _ Hw); [|by rewrite HlW].
      pose proof (size_blocks _ _ _ _ _ Hf) as Hsz. fold x in Hsz |- *. lia.
  - intros l Hl Hni. by apply store_all_other.
Qed.

Lemma wp_read_all_loop d efs area L fuel : ∀ s f buffer v,
  let i := os_inode f in
  let rest := Z.max 0 (di_size (the_inode d i) - os_offset f) in
  store_ok s d ∅ → efs_ok_ efs area → file_inv_ d efs area i L → length buffer = 512%nat →
  0 <= os_offset f → os_offset f + rest + 512 < 2 ^ 64 → (Z.to_nat ((rest + 511) / 512) < fuel)%nat →
  wp (read_all_loop fuel f buffer v) (λ r s',
     r = Some (v ++ (file_byte d (the_inode d i) <$> seqZ (os_offset f) rest), set_offset (os_offset f + rest) f) ∧
     store_ok s' d ∅) s.
Proof.
  induction fuel as [|fuel IH]; intros s f buffer v i rest Hs Hefs Hf Hbuf Hoff Hmax Hfuel; [lia|].
  cbn [read_all_loop]. assert (lengthZ buffer = 512) as Hlb by (unfold lengthZ; lia). wp_steps.
  eapply wp_mono; [apply (wp_Inode_read_at s d efs area i L); try done; lia|].
  intros r s1 [Hs1 ->]. set (x := the_inode d i) in *. set (n := span x (os_offset f) (lengthZ buffer)).
  assert (n = Z.min 512 rest) as Hn by (unfold n, span, rest; lia).
  destruct (Z.eqb_spec n 0) as [Hn0|Hn0].
  { wp_steps. assert (rest = 0) as Hr0 by lia. clearbody rest. subst rest. rewrite app_nil_r, Z.add_0_r.
    split; [by destruct f|done]. }
  set (bs := file_byte d x <$> seqZ (os_offset f) n).
  assert (length bs = Z.to_nat n) as Hbs by (unfold bs; by rewrite length_fmap, length_seqZ).
  rewrite <- Hbs, take_splice_all by lia. rewrite wrap_small by lia.
  assert (Hrest : Z.max 0 (di_size x - (os_offset f + n)) = rest - n) by (unfold rest; lia).
  eapply wp_mono; [apply (IH s1 (set_offset (os_offset f + n) f)); try done; cbn [set_offset os_offset os_inode];
    fold i; fold x; rewrite ?Hrest; try lia|].
  { unfold splice. rewrite !length_app, length_take, length_drop, Hbs. lia. }
  { zdiv. }
  cbn [set_offset os_offset os_inode]. fold i x. rewrite Hrest. intros r s2 [-> Hs2]. split; [|done].
  replace (seqZ (os_offset f) rest) with (seqZ (os_offset f) n ++ seqZ (os_offset f + n) (rest - n))
    by (rewrite <- seqZ_app by lia; f_equal; lia).
  rewrite fmap_app, app_assoc. unfold set_offset. simpl. by replace (os_offset f + n + (rest - n)) with (os_offset f + rest) by lia.
Qed.

(** [OSInode::read_all] ends and returns the whole rest of the file: with a
    file of [size] bytes and the offset at [o] it makes at most
    [⌈(size - o) / 512⌉ + 1] reads of 512 bytes, the result is the bytes
    [o, …, size - 1] in order, and the offset ends at the end of the file. *)
Theorem read_all_returns_file s d efs area f L fuel :
  store_ok s d ∅ → efs_ok_ efs area → file_inv_ d efs area (os_inode f) L →
  let x := the_inode d (os_inode f) in
  0 <= os_offset f <= di_size x → (Z.to_nat ((di_size x - os_offset f + 511) / 512) < fuel)%nat →
  wp (read_all fuel f) (λ r s',
     r = Some (file_byte d x <$> seqZ (os_offset f) (di_size x - os_offset f), set_offset (di_size x) f) ∧
     store_ok s' d ∅) s.
Proof.
  intros Hs Hefs Hf x Hoff Hfuel. pose proof (io_size _ _ _ _ (fi_inode _ _ _ _ _ Hf)) as Hsz. fold x in Hsz.
  assert (Z.max 0 (di_size x - os_offset f) = di_size x - os_offset f) as Hr by lia.
  eapply wp_mono; [apply (wp_read_all_loop d efs area L fuel s f (replicate 512 0) []); try done; fold x; rewrite ?Hr; try done|].
  - lia.
  - unfold_layout. lia.
  - fold x. rewrite Hr. intros r s' [-> Hs']. split; [|done]. do 3 f_equal. lia.
Qed.

(** [open_file] on the root directory.  A name that exists is opened with the
    rights of the flags and offset 0; [CREATE] or [TRUNC] empties the file and
    frees its blocks, otherwise nothing changes.  A name that does not exist is
    created with [CREATE], as an empty file in the free inode with the lowest
    number, and gives [None] without.  The flags select read-only, write-only or
    both. *)
Theorem open_file_correct s d efs area L es name flags :
  store_ok s d ∅ → create_ready (cap := cap) efs area 0 L es d → name_ok name →
  (∀ e, e ∈ es → ∃ M, file_inv_ d efs area (inode_of efs (e.2)) M) →
  let handle n := OSInode_new (fst (read_write flags)) (snd (read_write flags)) (inode_of efs n) in
  wp (open_file efs name flags) (λ r s',
    match dir_lookup es name with
    | Some n => r = Some (handle n) ∧
        if contains flags CREATE || contains flags TRUNC
        then ∃ d' M, store_ok s' d' ∅ ∧ cleared (cap := cap) efs area (inode_of efs n) M d d'
        else store_ok s' d ∅
    | None =>
        if contains flags CREATE
        then ∃ n d', r = Some (handle n) ∧ store_ok s' d' ∅ ∧ created_at (cap := cap) efs area 0 n name es L d d'
        else r = None ∧ store_ok s' d ∅
    end) s.
Proof.
  intros Hs Hr Hname Hfiles handle. pose proof Hr as [Hefs _ _ _ Hf Hd _ _ _].
  assert (∀ n, dir_lookup es name = Some n → ∃ M, file_inv_ d efs area (inode_of efs n) M) as Hfile.
  { intros n Hn. destruct (dir_lookup_elem es name n Hn) as [nm Hin]. apply (Hfiles _ Hin). }
  unfold open_file. destruct (read_write flags) as [rd wr]. cbn [fst snd] in handle. change (root_inode efs) with (inode_of efs 0).
  destruct (contains flags CREATE) eqn:Hc; cbn [orb]; wp_steps.
  - eapply wp_mono; [by eapply wp_find|]. intros r s1 [-> Hs1].
    destruct (dir_lookup es name) as [n|] eqn:Hl; cbn [fmap option_fmap option_map].
    + destruct (Hfile n eq_refl) as [M HM]. wp_steps. eapply wp_mono; [by eapply wp_clear|].
      intros [] s2 (d2 & Hs2 & Hcl). wp_steps. split; [done|eauto].
    + wp_steps. eapply wp_mono; [by eapply wp_Inode_create|]. rewrite Hl. intros r s2 (n & d2 & -> & Hs2 & Hcr).
      wp_steps. eauto.
  - eapply wp_mono; [by eapply wp_find|]. intros r s1 [-> Hs1].
    destruct (dir_lookup es name) as [n|] eqn:Hl; cbn [fmap option_fmap option_map]; [|by wp_steps].
    destruct (Hfile n eq_refl) as [M HM]. wp_steps. destruct (contains flags TRUNC).
    + eapply wp_mono; [by eapply wp_clear|]. intros [] s2 (d2 & Hs2 & Hcl). wp_steps. split; [done|eauto].
    + wp_steps. done.
Qed.
End proofs.

(** ** On the demonstration device: an empty file *)

Definition demo_os (o : Z) : OSInode := mkOSInode true true o demo_inode0.
Definition demo_buf (ppn n : Z) : UserBuffer := {| buffers := [{| sl_ppn := ppn; sl_lo := 0; sl_hi := n |}] |}.

Lemma demo_buf_ok ppn n : 0 < n < 2 ^ 32 → buffer_ok (demo_buf ppn n) ∧ NoDup (locs (buffers (demo_buf ppn n))) ∧
  lengthZ (locs (buffers (demo_buf ppn n))) = n.
Proof.
  intros Hn. assert (locs (buffers (demo_buf ppn n)) = (λ k, (ppn, k)) <$> seqZ 0 n) as Hl.
  { unfold locs, slice_locs, slice_len. simpl. by rewrite app_nil_r, Z.sub_0_r. }
  assert (lengthZ (locs (buffers (demo_buf ppn n))) = n) as Hln.
  { rewrite Hl. unfold lengthZ. rewrite length_fmap, length_seqZ. lia. }
  split_and!; [|rewrite Hl; apply NoDup_fmap; [by intros ? ? [=]|apply NoDup_seqZ]|done].
  split; [repeat constructor; simpl; lia|lia].
Qed.

Lemma os_write_then_read_witness :
  wp (r ← OSInode_write demo_efs (demo_os 0) (demo_buf 1 2); q ← OSInode_read (demo_os 0) (demo_buf 2 5); mret (r, q))
    (λ rq (sm : demo_store * gmap Z page), rq = ((2, demo_os 2), (2, demo_os 2)) ∧
       get_byte (sm.2) 2 1 = get_byte ∅ 1 1) (BlockCacheManager_new demo_file, ∅).
Proof.
  destruct (demo_buf_ok 1 2) as (B1 & _ & E1); [lia|]. destruct (demo_buf_ok 2 5) as (B2 & N2 & E2); [lia|].
  assert (Hsz : di_size (the_inode (file_block demo_file) demo_inode0) = 0) by (vm_compute; reflexivity).
  eapply wp_mono.
  - apply (os_write_then_read (HL := demo_laws) ltac:(lia) _ ∅ (file_block demo_file) demo_efs 3069 (demo_os 0) (demo_os 0) []);
      [exact demo_store_ok|exact demo_efs_ok|exact demo_file_inv|reflexivity|exact B1|discriminate|exact B2|exact N2| | | | |];
      rewrite ?E1, ?E2; cbn [demo_os os_offset os_inode]; try lia.
    + unfold_layout. lia.
    + pose proof (free_bits_pos (file_block demo_file) (data_bitmap demo_efs) 3069 0 ltac:(lia)
        ltac:(vm_compute; reflexivity)) as Hfb.
      rewrite Hsz. assert (total_blocks (0 + 2) - total_blocks 0 = 1) as -> by (vm_compute; reflexivity). lia.
  - cbn [demo_os os_offset os_inode]. rewrite Hsz, E1, E2. intros rq sm (-> & Hb & _). split; [done|].
    destruct (Hb 1%nat (2, 1)) as [H1 _]; [reflexivity|vm_compute; reflexivity|]. by apply (H1 (1, 1)).
Defined.

Lemma read_all_returns_file_witness :
  wp (read_all 1 (demo_os 0)) (λ r (_ : demo_store), r = Some ([], demo_os 0)) (BlockCacheManager_new demo_file).
Proof.
  assert (Hsz : di_size (the_inode (file_block demo_file) demo_inode0) = 0) by (vm_compute; reflexivity).
  eapply wp_mono.
  - apply (read_all_returns_file (HL := demo_laws) _ (file_block demo_file) demo_efs 3069 (demo_os 0) []);
      [exact demo_store_ok|exact demo_efs_ok|exact demo_file_inv| |]; cbn [demo_os os_offset os_inode]; rewrite Hsz.
    + lia.
    + vm_compute. lia.
  - cbn [demo_os os_offset os_inode]. rewrite Hsz. intros r s' [-> _]. reflexivity.
Defined.

Lemma open_file_correct_witness :
  wp (open_file demo_efs [97] (Z.lor CREATE WRONLY))
    (λ r (_ : demo_store), r = Some (mkOSInode false true 0 (inode_of demo_efs 1))) (BlockCacheManager_new dir_file).
Proof.
  eapply wp_mono.
  - apply (open_file_correct (HL := demo_laws) ltac:(lia) _ dir_disk demo_efs 3069 [] [] [97] (Z.lor CREATE WRONLY)).
    + exact dir_store_ok.
    + exact dir_ready.
    + exact name_ok_a.
    + by intros e ?%not_elem_of_nil.
  - cbn [dir_lookup]. change (contains (Z.lor CREATE WRONLY) CREATE) with true. cbv iota.
    intros r s' (n & d' & -> & _ & Hn). by rewrite (dir_first_free n d' Hn).
Defined.
