(* ===== verification/Packer.v ===== *)
(** * The file system packer

    [easy-fs-fuse/src/main.rs]: [easy_fs_pack] formats an image file and copies
    the applications of a host directory into it.  The directory listing and the
    contents of the host's files are parameters; the image is a [BlockFile]
    behind the block cache. *)

From S2P Require Import Prelude Codec BlockDev BlockCache Bitmap Layout InodeTree Efs Vfs Dir OsInode.

(** ** The image file *)

(** [set_len]: what is past the new end is cut off, a gap reads as zeros. *)
Definition set_len (n : Z) (f : File) : File :=
  mkFile n (filter (λ kv, kv.1 < n) (file_data f)) (file_pos f).

(** [OpenOptions::new().read(true).write(true).create(true).open(..)] and
    [set_len(16 * 2048 * 512)]; [None] when there is no such file yet. *)
Definition image_file (old : option File) : File :=
  let f := default (mkFile 0 ∅ 0) old in
  set_len (16 * 2048 * 512) (mkFile (file_len f) (file_data f) 0).

(** ** Packing *)

Section packer.
Context {St : Type} `{HS : BlockStore St}.

(** [name.drain(name.find('.').unwrap()..name.len())]. *)
Definition app_name (name_with_ext : list Z) : M St (list Z) :=
  i ← unwrap (find_index (λ c, c =? 46) name_with_ext);
  mret (take i name_with_ext).

(** The body of the loop over [apps]; [host] gives the files of the target
    directory. *)
Definition pack_app (efs : EasyFileSystem) (root : Inode) (host : list Z → option (list Z)) (app : list Z) :
    M St unit :=
  all_data ← unwrap (host app);
  o ← Inode_create efs root app;
  inode ← unwrap o;
  _ ← Inode_write_at efs inode 0 all_data;
  mret tt.

(** [easy_fs_pack] after the image file is open; the result is what it prints. *)
Definition easy_fs_pack (src_dir : list (list Z)) (host : list Z → option (list Z)) : M St (list (list Z)) :=
  efs ← create (16 * 2048) 1;
  let root := root_inode efs in
  apps ← fold_m (λ v name, app ← app_name name; mret (v ++ [app])) [] src_dir;
  _ ← fold_m (λ _ app, pack_app efs root host app) tt apps;
  ls root.
End packer.

(** ** What is on the device

    Every operation that changes the disk ends with [block_cache_sync_all], and
    reading leaves the cache clean: between operations the device itself, not
    only the cache, holds the disk. *)

Section durable.
Context {Dev : Type} `{HD : BlockDevice Dev}.

Definition clean (s : CacheState Dev) : Prop := Forall (λ p, modified (slot_cache p) = false) (queue s).

Definition keeps {A} (m : M (CacheState Dev) A) : Prop := ∀ s, clean s → wlp m (λ _, clean) s.

Lemma keeps_bind {A B} (m : M _ A) (f : A → M _ B) : keeps m → (∀ a, keeps (f a)) → keeps (mbind f m).
Proof. intros Hm Hf s Hs. apply wlp_bind. eapply wlp_mono; [by apply Hm|]. intros a s' Hs'. by apply Hf. Qed.
Lemma keeps_ret {A} (a : A) : keeps (mret a).
Proof. intros s Hs. by apply wlp_ret. Qed.
Lemma keeps_get : keeps get.
Proof. intros s Hs. by apply wlp_get. Qed.
Lemma keeps_panic {A} p : keeps (A := A) (panic_with p).
Proof. intros s Hs. apply wlp_panic. Qed.
Lemma keeps_unwrap {A} (o : option A) : keeps (unwrap o).
Proof. intros s Hs. by apply wlp_unwrap. Qed.
Lemma keeps_lift_result {A} (r : result A) : keeps (lift_result r).
Proof. intros s Hs. by apply wlp_lift_result. Qed.
Lemma keeps_assert b : keeps (assert_ b).
Proof. destruct b; [apply keeps_ret|apply keeps_panic]. Qed.
Lemma keeps_fold {A B} (body : B → A → M _ B) l : (∀ b a, keeps (body b a)) → ∀ acc, keeps (fold_m body acc l).
Proof. intros Hb. induction l as [|a l IH]; intros acc; cbn [fold_m]; [apply keeps_ret|by apply keeps_bind]. Qed.

(** The queue after a lookup: nothing in it is modified. *)
Abbreviation clean_queue := (Forall (λ p, modified (slot_cache p) = false)).

Lemma clean_alter f i q : (∀ p, modified (slot_cache (f p)) = modified (slot_cache p)) →
  clean_queue q → clean_queue (alter f i q).
Proof. intros Hf Hq. apply Forall_alter; [done|]. intros p _ Hp. by rewrite Hf. Qed.

Lemma wlp_on_device {A} (m : M Dev A) (Q : A → CacheState Dev → Prop) s :
  (∀ a v, Q a (mkCacheState (queue s) v)) → wlp (on_device m) Q s.
Proof. intros HQ. apply wlp_zoom. intros a v _. apply HQ. Qed.

Lemma keeps_get_block_cache id : keeps (get_block_cache id).
Proof.
  intros s Hs. unfold get_block_cache. wlp_steps. destruct (find_index _ (queue s)) as [i|].
  { unfold set_queue. wlp_steps. by apply clean_alter. }
  wlp_steps. eapply (wlp_mono _ (λ _, clean)).
  - destruct (_ =? _)%nat; [|by wlp_steps]. destruct (find_index _ _) as [j|]; [|apply wlp_panic].
    destruct (queue s !! j) as [p|] eqn:Hp; [|by wlp_steps]. unfold set_queue, sync. wlp_steps.
    assert (modified (slot_cache p) = false) as -> by (by eapply (Forall_lookup_1 _ _ _ _ Hs Hp)).
    wlp_steps. by apply Forall_delete.
  - intros [] s1 Hs1. unfold BlockCache_new, set_queue. wlp_steps. apply wlp_on_device. intros bs v. wlp_steps.
    apply Forall_app. split; [exact Hs1|]. by apply Forall_singleton.
Qed.

Lemma keeps_acquire id : keeps (acquire id).
Proof.
  apply keeps_bind; [apply keeps_get_block_cache|]. intros [] s Hs. unfold lock. wlp_steps.
  apply wlp_unwrap. intros i _. wlp_steps. apply wlp_unwrap. intros p Hp. destruct (slot_locked p); [apply wlp_panic|].
  unfold set_queue. wlp_steps. apply Forall_insert; [exact Hs|]. by eapply (Forall_lookup_1 _ _ _ _ Hs Hp).
Qed.

Lemma keeps_release id : keeps (release id).
Proof.
  intros s Hs. simpl. unfold update_slot, set_queue. wlp_steps. apply wlp_unwrap. intros i _. wlp_steps.
  by apply clean_alter.
Qed.
End durable.

Create HintDb keeps.
#[export] Hint Resolve keeps_bind keeps_ret keeps_get keeps_panic keeps_unwrap keeps_lift_result keeps_assert
  keeps_fold keeps_acquire keeps_release : keeps.

Section reading.
Context {Dev : Type} `{HD : BlockDevice Dev}.

Lemma keeps_index {A} (l : list A) i : keeps (Dev := Dev) (index l i).
Proof. unfold index. case_match; auto with keeps. Qed.

Lemma keeps_slice l a b : keeps (Dev := Dev) (slice l a b).
Proof. unfold slice. case_match; auto with keeps. Qed.

Lemma keeps_read_block_as {T V} `{Repr T} id offset (f : T → M (CacheState Dev) V) :
  (∀ x, keeps (f x)) → keeps (read_block_as id offset f).
Proof.
  intros Hf. assert (∀ n o, keeps (Dev := Dev) (get_addr n o)) as Ha.
  { intros n o. apply keeps_bind; [auto with keeps|]. intros _. unfold addr_of_offset. case_match; auto with keeps. }
  apply keeps_bind; [auto with keeps|]. intros _. auto 8 with keeps.
Qed.

Lemma keeps_get_block_id x inner_id : keeps (Dev := Dev) (get_block_id x inner_id).
Proof.
  unfold get_block_id. repeat case_match; auto using keeps_index, keeps_read_block_as with keeps.
Qed.

Lemma keeps_read_loop fuel : ∀ x end_ start start_block read_size buf,
  keeps (Dev := Dev) (read_loop fuel x end_ start start_block read_size buf).
Proof.
  induction fuel as [|fuel IH]; intros; cbn [read_loop]; [auto with keeps|].
  apply keeps_bind; [apply keeps_slice|intros _]. apply keeps_bind; [apply keeps_get_block_id|intros id].
  apply keeps_bind; [apply keeps_read_block_as; intros b; apply keeps_slice|intros src].
  destruct (_ =? _); auto with keeps.
Qed.

Lemma keeps_read_dirent x e i : keeps (Dev := Dev) (read_dirent x e i).
Proof.
  unfold read_dirent, DiskInode_read_at. apply keeps_bind; [case_match; auto using keeps_read_loop with keeps|].
  auto with keeps.
Qed.

Lemma keeps_ls i : keeps (Dev := Dev) (ls i).
Proof. apply keeps_read_block_as. intros x. auto 8 using keeps_read_dirent with keeps. Qed.

(** After [block_cache_sync_all] nothing in the cache is modified. *)
Lemma sync_all_clean (s : CacheState Dev) : wlp sync_all (λ _, clean) s.
Proof.
  simpl. unfold block_cache_sync_all. wlp_steps. eapply wlp_mono.
  { apply (wlp_fold_m (λ pre _ t, length (queue t) = length (queue s) ∧
      ∀ j p, j ∈ pre → queue t !! j = Some p → modified (slot_cache p) = false)).
    - split; [done|]. by intros j p ?%not_elem_of_nil.
    - intros pre i post [] t _ [Hl Hd]. wlp_steps. apply wlp_unwrap. intros p Hp.
      destruct (slot_locked p); [apply wlp_panic|]. wlp_steps.
      eapply (wlp_mono _ (λ bc t', queue t' = queue t ∧ modified bc = false)).
      + unfold sync. destruct (modified (slot_cache p)) eqn:Hm; wlp_steps; [|done].
        apply wlp_on_device. intros [] v. by wlp_steps.
      + intros bc t' [Hq Hbc]. unfold set_queue. wlp_steps. cbn [queue]. rewrite Hq, length_insert. split; [done|].
        intros j p' Hj Hp'. apply list_lookup_insert_Some in Hp' as [(-> & <- & _)|(Hne & Hp')]; [done|].
        apply elem_of_app in Hj as [Hj| ->%list_elem_of_singleton]; [by eapply Hd|done]. }
  intros [] t [Hl Hd]. apply Forall_lookup_2. intros j p Hp. eapply Hd; [|exact Hp].
  apply elem_of_seq. apply lookup_lt_Some in Hp. lia.
Qed.

(** What happened before does not matter. *)
Lemma wlp_skip {St A B} (m : M St A) (f : A → M St B) Q s : (∀ a s', wlp (f a) Q s') → wlp (mbind f m) Q s.
Proof. intros Hf. apply wlp_bind. intros a s' _. apply Hf. Qed.

Lemma create_clean total ib (s : CacheState Dev) : wlp (create total ib) (λ _, clean) s.
Proof.
  unfold create. destruct (efs_layout _ _) as [efs sb]. do 4 (apply wlp_skip; intros ? ?).
  destruct (get_disk_inode_pos efs 0) as [b o]. apply wlp_skip. intros _ s1. wlp_steps.
  eapply wlp_mono; [apply sync_all_clean|]. intros [] s2 Hs2. by wlp_steps.
Qed.

Lemma write_at_clean efs i offset buf (s : CacheState Dev) : wlp (Inode_write_at efs i offset buf) (λ _, clean) s.
Proof.
  unfold Inode_write_at. apply wlp_skip. intros n s1. wlp_steps.
  eapply wlp_mono; [apply sync_all_clean|]. intros [] s2 Hs2. by wlp_steps.
Qed.

Lemma pack_clean src_dir host (s : CacheState Dev) : wlp (easy_fs_pack src_dir host) (λ _, clean) s.
Proof.
  unfold easy_fs_pack. wlp_steps. eapply wlp_mono; [apply create_clean|]. intros efs s1 Hs1.
  wlp_steps. eapply (wlp_mono _ (λ _, clean)).
  { apply (keeps_fold); [|done]. unfold app_name. auto with keeps. }
  intros apps s2 Hs2. wlp_steps. eapply (wlp_mono _ (λ _, clean)).
  - apply (wlp_fold_m (λ _ _, clean)); [done|]. intros pre app post [] s3 _ _. unfold pack_app.
    do 3 (apply wlp_skip; intros ? ?). wlp_steps. eapply wlp_mono; [apply write_at_clean|]. intros n s4 Hs4. by wlp_steps.
  - intros [] s3 Hs3. by apply keeps_ls.
Qed.
End reading.

(** A clean cache: the device alone holds the disk. *)
Section restart.
Context {Dev : Type} {cap : Z} `{HD : BlockDevice Dev} `{HDL : !BlockDeviceLaws Dev cap}.

Lemma restart_ok (s : CacheState Dev) d : cache_ok s d ∅ → clean s → cache_ok (BlockCacheManager_new (device s)) d ∅.
Proof.
  intros (D & Hv & Hq & Hwf) Hc. assert (∀ b, 0 <= b < cap → d b = D b) as HD'.
  { intros b Hb. destruct (decide (b ∈ keys (queue s))) as [Hk|Hk]; [|by eapply qi_miss].
    unfold keys in Hk. apply list_elem_of_fmap in Hk as (p & -> & Hp). symmetry.
    apply (si_clean _ _ _ _ (qi_slots _ _ _ _ Hq p Hp)). unfold clean in Hc. rewrite Forall_forall in Hc. by apply Hc. }
  exact (store_ext (BlockStoreLaws := CacheState_laws) _ D d ∅ (cache_ok_new _ _ Hv) HD').
Qed.
End restart.

(** ** The contents of the image *)

(** A packed application: its name and the bytes of its file. *)
Abbreviation item := (list Z * list Z)%type.

(** The directory after packing: the applications have the inodes 1, 2, … *)
Definition entries (apps : list item) : list entry := imap (λ k a, (a.1, Z.of_nat k + 1)) apps.

(** The data blocks the directory and the files take. *)
Definition blocks_used (apps : list item) : Z :=
  total_blocks (32 * lengthZ apps) + foldr (λ a n, total_blocks (lengthZ a.2) + n) 0 apps.

Lemma entries_snoc apps a : entries (apps ++ [a]) = entries apps ++ [(a.1, lengthZ apps + 1)].
Proof. unfold entries, lengthZ. rewrite imap_app. simpl. by rewrite Nat.add_0_r. Qed.

Lemma entries_names apps : (entries apps).*1 = apps.*1.
Proof. induction apps as [|a apps IH] using rev_ind; [done|]. by rewrite entries_snoc, !fmap_app, IH. Qed.

Lemma entries_length apps : lengthZ (entries apps) = lengthZ apps.
Proof. unfold lengthZ, entries. by rewrite length_imap. Qed.

Lemma entries_elem apps k a : apps !! k = Some a → (a.1, Z.of_nat k + 1) ∈ entries apps.
Proof. intros Hk. apply list_elem_of_lookup. exists k. unfold entries. by rewrite list_lookup_imap, Hk. Qed.

Lemma blocks_used_snoc apps a :
  blocks_used (apps ++ [a]) = blocks_used apps + total_blocks (lengthZ a.2) +
    (total_blocks (32 * (lengthZ apps + 1)) - total_blocks (32 * lengthZ apps)).
Proof.
  unfold blocks_used. rewrite lengthZ_snoc. enough (foldr (λ a n, total_blocks (lengthZ a.2) + n) 0 (apps ++ [a]) =
    foldr (λ a n, total_blocks (lengthZ a.2) + n) 0 apps + total_blocks (lengthZ a.2)) by lia.
  induction apps as [|b apps IH]; cbn [foldr app]; lia.
Qed.

(** What the packer needs: a free inode and an entry of the directory for every
    application, distinct names that fit into an entry, files that are not empty
    and not larger than an inode can address, and room for all of them. *)
Definition item_ok (a : item) : Prop :=
  name_ok a.1 ∧ a.2 ≠ [] ∧ Forall is_byte a.2 ∧ lengthZ a.2 <= 512 * INDIRECT2_BOUND.

Record packable (inodes area : Z) (apps : list item) : Prop := {
  pa_names : NoDup (apps.*1);
  pa_items : Forall item_ok apps;
  pa_count : lengthZ apps < inodes;
  pa_dir : 32 * lengthZ apps <= 512 * INDIRECT2_BOUND;
  pa_room : blocks_used apps <= area
}.

Lemma packable_prefix inodes area apps post : packable inodes area (apps ++ post) → packable inodes area apps.
Proof.
  intros [Hn Hi Hc Hd Hr]. rewrite fmap_app in Hn. apply NoDup_app in Hn as [Hn _].
  apply Forall_app in Hi as [Hi Hi']. rewrite lengthZ_app in Hc, Hd. pose proof (lengthZ_nonneg post).
  split; try done; try lia. etrans; [|exact Hr].
  clear Hr Hn Hc. induction post as [|a post IH] using rev_ind; [by rewrite app_nil_r|].
  apply Forall_app in Hi' as [Hi' (_ & _ & _ & Ha)%Forall_singleton].
  rewrite lengthZ_snoc in Hd. etrans; [apply IH; [done|lia|apply lengthZ_nonneg]|].
  rewrite app_assoc, blocks_used_snoc, lengthZ_app. pose proof (lengthZ_nonneg a.2). pose proof (lengthZ_nonneg apps).
  pose proof (lengthZ_nonneg post).
  pose proof (total_blocks_mono (32 * (lengthZ apps + lengthZ post)) (32 * (lengthZ apps + lengthZ post + 1)) ltac:(lia) ltac:(lia)).
  pose proof (total_blocks_mono 0 (lengthZ a.2) ltac:(lia) ltac:(lia)) as Hz. change (total_blocks 0) with 0 in Hz. lia.
Qed.

Section image.
Context {St : Type} {cap : Z} `{HS : BlockStore St} `{HL : !BlockStoreLaws St cap}.
Hypothesis Hcap : cap <= 2 ^ 32.
Context (efs : EasyFileSystem) (area : Z).
Hypothesis Hefs : efs_ok (cap := cap) efs area.
Hypothesis Hia : inodes_ok (cap := cap) efs.

Abbreviation file_inv_ := (file_inv (cap := cap)).
Abbreviation root := (inode_of efs 0).
Abbreviation inodes := (nbits (inode_bitmap efs)).

(** The file [i] with the blocks [M] holds [data]. *)
Record holds (d : disk) (i : Inode) (data : list Z) (M : list Z) : Prop := {
  ho_inv : file_inv_ d efs area i M;
  ho_size : di_size (the_inode d i) = lengthZ data;
  ho_bytes : ∀ j, 0 <= j < lengthZ data → file_byte d (the_inode d i) j = default 0 (data !! Z.to_nat j)
}.

(** The image with the applications [apps]; [L] are the blocks of the root
    directory, [low] are the blocks in front of the inode bitmap. *)
Record packed (low : disk) (apps : list item) (L : list Z) (d : disk) : Prop := {
  pk_low : ∀ b, b < start_block_id (inode_bitmap efs) → d b = low b;
  pk_bits : ∀ j, 0 <= j < inodes → bit_of d (inode_bitmap efs) j = bool_decide (j <= lengthZ apps);
  pk_inv : file_inv_ d efs area root L;
  pk_dir : dir_ok d (the_inode d root) (entries apps);
  pk_files : ∀ k a, apps !! k = Some a → ∃ M, holds d (inode_of efs (Z.of_nat k + 1)) (a.2) M ∧ ∀ b, b ∈ M → b ∉ L;
  pk_free : Z.of_nat (free_bits d (data_bitmap efs) area) = area - blocks_used apps
}.

Lemma holds_transfer d d' i data M :
  holds d i data M → file_inv_ d' efs area i M → the_inode d' i = the_inode d i →
  (∀ j, 0 <= j < 512 * data_blocks (the_inode d i) → file_byte d' (the_inode d i) j = file_byte d (the_inode d i) j) →
  holds d' i data M.
Proof.
  intros [Hi Hs Hb] Hi' Hx Hby. pose proof (size_blocks _ _ _ _ _ Hi) as Hsz. split; rewrite ?Hx; [done|done|].
  intros j Hj. rewrite Hby by lia. by apply Hb.
Qed.

(** Taking the next inode. *)
Lemma packed_next low apps L d n : packed low apps L d → 0 <= n < inodes → bit_of d (inode_bitmap efs) n = false →
  (∀ j, 0 <= j < n → bit_of d (inode_bitmap efs) j = true) → n = lengthZ apps + 1.
Proof.
  intros Hp Hn Hc Hb. rewrite (pk_bits _ _ _ _ Hp) in Hc by done. apply bool_decide_eq_false in Hc.
  destruct (decide (lengthZ apps + 1 < n)); [|lia]. pose proof (lengthZ_nonneg apps).
  specialize (Hb (lengthZ apps + 1) ltac:(lia)). rewrite (pk_bits _ _ _ _ Hp) in Hb by lia.
  apply bool_decide_eq_true in Hb. lia.
Qed.

Lemma packed_ready low apps L d a :
  packed low apps L d → packable inodes area (apps ++ [a]) →
  create_ready (cap := cap) efs area 0 L (entries apps) d ∧ dir_lookup (entries apps) (a.1) = None ∧
  total_blocks (lengthZ a.2) + (total_blocks (32 * (lengthZ apps + 1)) - total_blocks (32 * lengthZ apps)) <=
    Z.of_nat (free_bits d (data_bitmap efs) area).
Proof.
  intros Hp [Hn Hi Hc Hd Hr]. rewrite lengthZ_snoc in Hc, Hd. rewrite blocks_used_snoc in Hr.
  pose proof (lengthZ_nonneg apps). apply Forall_app in Hi as [_ (_ & _ & _ & Ha)%Forall_singleton].
  pose proof (total_blocks_mono 0 (lengthZ a.2) ltac:(pose proof (lengthZ_nonneg a.2); lia) ltac:(lia)) as Hz.
  change (total_blocks 0) with 0 in Hz. split_and!.
  - split; try done; rewrite ?entries_length; try lia.
    + rewrite (pk_bits _ _ _ _ Hp) by lia. by apply bool_decide_eq_true.
    + apply Hp.
    + apply Hp.
    + exists (lengthZ apps + 1). split; [lia|]. rewrite (pk_bits _ _ _ _ Hp) by lia. apply bool_decide_eq_false. lia.
    + rewrite (pk_free _ _ _ _ Hp). lia.
  - apply dir_lookup_None. rewrite entries_names. rewrite fmap_app in Hn. apply NoDup_app in Hn as (_ & Hn & _).
    intros Hin. apply (Hn _ Hin). simpl. by left.
  - rewrite (pk_free _ _ _ _ Hp). lia.
Qed.

Abbreviation written_ := (written (cap := cap)).

(** The image after [create] and [write_at]. *)
Lemma packed_step low apps L d d1 d2 app data M :
  packed low apps L d → packable inodes area (apps ++ [(app, data)]) →
  created (cap := cap) efs area 0 (lengthZ apps + 1) app (entries apps) L d d1 →
  written_ efs area (inode_of efs (lengthZ apps + 1)) [] M 0 data d1 d2 →
  ∃ L', packed low (apps ++ [(app, data)]) L' d2.
Proof.
  intros Hp Hpa Hcr Hw. pose proof (lengthZ_nonneg apps) as H0. pose proof (lengthZ_nonneg data) as Hd0.
  assert (lengthZ apps + 1 < inodes) as Hn by (pose proof (pa_count _ _ _ Hpa) as Hc; by rewrite lengthZ_snoc in Hc).
  set (n := lengthZ apps + 1) in *. destruct (cr_inv _ _ _ _ _ _ _ _ _ Hcr) as (L' & HL' & Hfresh).
  destruct (cr_empty _ _ _ _ _ _ _ _ _ Hcr) as [Hsz0 _].
  pose proof (cr_file _ _ _ _ _ _ _ _ _ Hcr) as Hfn.
  assert (∀ m M', 0 <= m < inodes → m ≠ n → file_inv_ d1 efs area (inode_of efs m) M' →
    file_inv_ d2 efs area (inode_of efs m) M' ∧ the_inode d2 (inode_of efs m) = the_inode d1 (inode_of efs m) ∧
    ∀ j, 0 <= j < 512 * data_blocks (the_inode d1 (inode_of efs m)) →
      file_byte d2 (the_inode d1 (inode_of efs m)) j = file_byte d1 (the_inode d1 (inode_of efs m)) j) as Hother.
  { intros m M' Hm Hmn Hf. eapply (written_other d1 d2 efs area (inode_of efs n) (inode_of efs m) [] M M'); try done.
    - apply (inode_slots (cap := cap) efs area m n Hefs Hia); [lia|lia|done].
    - intros b _. apply not_elem_of_nil. }
  destruct (Hother 0 L' ltac:(lia) ltac:(lia) HL') as (HL2 & Hx2 & Hby2).
  destruct (written_inode_bits d1 d2 efs area n [] M 0 data Hefs Hia ltac:(lia) Hw) as [Hbits Hlow].
  exists L'. split.
  - intros b Hb. rewrite Hlow, (cr_low _ _ _ _ _ _ _ _ _ Hcr) by done. by apply Hp.
  - intros j Hj. rewrite Hbits, (cr_bits _ _ _ _ _ _ _ _ _ Hcr), lengthZ_snoc by done. fold n.
    case_decide; [subst; symmetry; apply bool_decide_eq_true; lia|]. rewrite (pk_bits _ _ _ _ Hp) by done.
    apply bool_decide_ext. lia.
  - done.
  - rewrite Hx2, entries_snoc. by eapply dir_ok_transfer; [exact HL'|apply Hcr|].
  - intros k a Hk. apply lookup_app_Some in Hk as [Hk|[Hge Hk]].
    + destruct (pk_files _ _ _ _ Hp k a Hk) as (M' & HM' & Hdis). pose proof (lookup_lt_Some _ _ _ Hk).
      assert (0 <= Z.of_nat k + 1 < inodes ∧ Z.of_nat k + 1 ≠ 0 ∧ Z.of_nat k + 1 ≠ n) as (Hm & Hm0 & Hmn)
        by (unfold n, lengthZ in *; lia).
      destruct (cr_others _ _ _ _ _ _ _ _ _ Hcr _ M' Hm Hm0 Hmn (ho_inv _ _ _ _ HM') Hdis) as (Hi1 & Hx1 & Hb1).
      destruct (Hother _ M' Hm Hmn Hi1) as (Hi2 & Hxx & Hb2). exists M'. split.
      * eapply (holds_transfer d1); [by eapply (holds_transfer d)|done|done|done].
      * intros b Hb HbL. destruct (Hfresh b HbL) as [|Hnu]; [by eapply Hdis|]. apply Hnu. by eapply fi_used; [apply HM'|].
    + apply list_lookup_singleton_Some in Hk as [Hk <-].
      replace (Z.of_nat k + 1) with n by (unfold n, lengthZ; lia). exists M. split.
      * split; [apply Hw|rewrite (wr_size _ _ _ _ _ _ _ _ _ Hw), Hsz0; simpl; lia|]. intros j Hj.
        rewrite (wr_new _ _ _ _ _ _ _ _ _ Hw) by (simpl in *; lia). by rewrite Z.sub_0_r.
      * intros b Hb HbL. destruct (wr_fresh _ _ _ _ _ _ _ _ _ Hw b Hb) as [?%not_elem_of_nil|Hnu]; [done|].
        apply Hnu. eapply fi_used; [exact HL'|done].
  - pose proof (cr_free _ _ _ _ _ _ _ _ _ Hcr) as Hf1. pose proof (wr_free _ _ _ _ _ _ _ _ _ Hw) as Hf2.
    rewrite (wr_size _ _ _ _ _ _ _ _ _ Hw), Hsz0 in Hf2. rewrite Z.max_r, Z.add_0_l in Hf2 by lia.
    change (total_blocks 0) with 0 in Hf2. rewrite entries_length in Hf1. rewrite blocks_used_snoc.
    pose proof (pk_free _ _ _ _ Hp). cbn [snd]. lia.
Qed.

Lemma wp_pack_app s low apps L d host app data :
  store_ok s d ∅ → packed low apps L d → packable inodes area (apps ++ [(app, data)]) → host app = Some data →
  wp (pack_app efs root host app)
    (λ _ s', ∃ d' L', store_ok s' d' ∅ ∧ packed low (apps ++ [(app, data)]) L' d') s.
Proof.
  intros Hs Hp Hpa Hh. destruct (packed_ready low apps L d (app, data) Hp Hpa) as (Hr & Hnone & Hroom).
  cbn [fst snd] in *. pose proof (pa_items _ _ _ Hpa) as Hi.
  apply Forall_app in Hi as [_ (Hname & Hne & Hby & Hmax)%Forall_singleton]. cbn [fst snd] in *.
  unfold pack_app. wp_steps. eapply wp_unwrap; [exact Hh|]. wp_steps.
  eapply wp_mono; [by apply (wp_Inode_create Hcap s d efs area 0 L (entries apps))|]. rewrite Hnone.
  intros r s1 (n & d1 & -> & Hs1 & Hn & Hfree & Hbelow & Hcr & _).
  pose proof (packed_next _ _ _ _ n Hp Hn Hfree Hbelow) as ->.
  wp_steps. eapply wp_unwrap; [done|]. wp_steps.
  destruct (cr_empty _ _ _ _ _ _ _ _ _ Hcr) as [Hsz0 _]. pose proof (cr_free _ _ _ _ _ _ _ _ _ Hcr) as Hf1.
  rewrite entries_length in Hf1.
  eapply wp_mono; [apply (wp_Inode_write_at Hcap s1 d1 efs area _ []); try done; [apply Hcr|]|].
  - rewrite Hsz0. change (total_blocks 0) with 0. rewrite Z.add_0_l. lia.
  - intros w s2 (_ & d2 & M & Hs2 & Hw). wp_steps. exists d2.
    destruct (packed_step low apps L d d1 d2 app data M Hp Hpa Hcr Hw) as [L' Hp']. by exists L'.
Qed.

(** The loop. *)
Lemma wp_pack_apps s low L d host items :
  store_ok s d ∅ → packed low [] L d → packable inodes area items → Forall (λ a, host a.1 = Some a.2) items →
  wp (fold_m (λ _ app, pack_app efs root host app) tt (items.*1))
    (λ _ s', ∃ d' L', store_ok s' d' ∅ ∧ packed low items L' d') s.
Proof.
  intros Hs Hp Hpa Hh. eapply wp_mono.
  { apply (wp_fold_m (λ pre _ s', ∃ done_ d' L', pre = done_.*1 ∧ done_ `prefix_of` items ∧ store_ok s' d' ∅ ∧ packed low done_ L' d')).
    - exists [], d, L. split_and!; [done|apply prefix_nil|done|done].
    - intros pre app post [] s1 Hl (dn & d1 & L1 & -> & [rest ->] & Hs1 & Hp1).
      rewrite fmap_app in Hl. apply app_inv_head in Hl. destruct rest as [|[nm data] rest]; [done|].
      injection Hl as -> _. apply Forall_app in Hh as [_ Hh]. apply Forall_cons in Hh as [Hh _]. change ((app, data) :: rest) with ([(app, data)] ++ rest) in *. rewrite app_assoc in Hpa.
      eapply wp_mono; [apply (wp_pack_app s1 low dn L1 d1 host app data); [done|done|by eapply packable_prefix|exact Hh]|].
      intros [] s2 (d2 & L2 & Hs2 & Hp2). exists (dn ++ [(app, data)]), d2, L2.
      split_and!; [by rewrite fmap_app|by exists rest; rewrite <- app_assoc|done|done]. }
  intros [] s' (dn & d' & L' & Heq & [rest Hr] & Hs' & Hp'). rewrite Hr, fmap_app in Heq.
  assert (rest = []) as -> by (apply (f_equal length) in Heq; rewrite length_app, length_fmap in Heq; destruct rest; [done|simpl in Heq; lia]).
  rewrite app_nil_r in Hr. subst. eauto.
Qed.
End image.

(** ** The packer on the image file *)

(** The areas of an image of 16 MiB with one block of inode bitmap. *)
Lemma image_layout : fst (efs_layout (16 * 2048) 1) = mkEfs (mkBitmap 1 1) (mkBitmap 1026 8) 2 1034.
Proof. vm_compute. reflexivity. Qed.

Abbreviation image_efs := (mkEfs (mkBitmap 1 1) (mkBitmap 1026 8) 2 1034).
Abbreviation image_inodes := 4096.
Abbreviation image_area := 31734.

Lemma image_efs_ok : efs_ok (cap := 16 * 2048) image_efs image_area.
Proof. split; unfold bm_wf, nbits; simpl; lia. Qed.

Lemma image_inodes_ok : inodes_ok (cap := 16 * 2048) image_efs.
Proof. split; unfold bm_wf, nbits; simpl; try lia. by vm_compute. Qed.

Lemma free_bits_all d bm n : (∀ j, 0 <= j < n → bit_of d bm j = false) → free_bits d bm n = Z.to_nat n.
Proof.
  intros Hb. unfold free_bits. rewrite <- (Z.add_0_l n) in Hb. revert Hb. generalize 0. intros a Hb.
  rewrite <- (length_seqZ a n). f_equal. assert (∀ j, j ∈ seqZ a n → bit_of d bm j = false) as Hin.
  { intros j Hj%elem_of_seqZ. apply Hb. lia. }
  clear Hb. induction (seqZ a n) as [|j l IH]; [done|]. rewrite filter_cons_True by (apply Hin; by left).
  f_equal. apply IH. intros i Hi. apply Hin. by right.
Qed.

(** A formatted device is an image without applications. *)
Lemma formatted_packed d : formatted d (16 * 2048) 1 →
  packed (cap := 16 * 2048) image_efs image_area d [] [] d.
Proof.
  intros [_ Hi Hd Hr _]. rewrite image_layout in *. cbn [inode_bitmap data_bitmap] in *.
  assert (the_inode d (inode_of image_efs 0) = empty_dir) as Hx by exact Hr.
  split; try done.
  - intros j Hj. rewrite Hi by done. apply bool_decide_ext. unfold lengthZ. simpl. lia.
  - split; change (inode_block_id (inode_of image_efs 0)) with 2; change (inode_block_offset (inode_of image_efs 0)) with 0;
      try (simpl; lia).
    + unfold in_bitmap. simpl. lia.
    + rewrite Hx. apply empty_inode_ok; [apply empty_dir_valid|done].
    + by intros b ?%not_elem_of_nil.
  - rewrite Hx. split; [done|done|]. by intros [|k] e.
  - rewrite free_bits_all; [reflexivity|]. intros j Hj. apply Hd. unfold nbits. simpl. lia.
Qed.

Definition image_laws : BlockDeviceLaws File (16 * 2048) := BlockFile_laws (16 * 2048) eq_refl.
Definition image_store_laws : BlockStoreLaws (CacheState File) (16 * 2048) := CacheState_laws (HDL := image_laws).

(** Whatever was in the file. *)
Lemma image_store old : (∀ f, old = Some f → map_Forall (λ _, is_byte) (file_data f)) →
  store_ok (BlockStoreLaws := image_store_laws) (BlockCacheManager_new (image_file old)) (file_block (image_file old)) ∅.
Proof.
  intros Hold. apply (cache_ok_new (HDL := image_laws)). split_and!; [done| |done].
  intros i x [Hx _]%map_lookup_filter_Some. destruct old as [f|]; [by eapply (Hold f)|done].
Qed.

(** The names: cut at the first dot. *)
Definition names_cut (src_dir : list (list Z)) (items : list item) : Prop :=
  Forall2 (λ f a, ∃ ext, f = a.1 ++ 46 :: ext ∧ 46 ∉ a.1) src_dir items.

Lemma wp_app_name {St} (s : St) nm ext Q : 46 ∉ nm → Q nm s → wp (app_name (nm ++ 46 :: ext)) Q s.
Proof.
  intros Hn HQ. unfold app_name. wp_steps. eapply (wp_unwrap _ (length nm)).
  - apply find_index_Some. split.
    + exists 46. by rewrite lookup_app_r, Nat.sub_diag by lia.
    + intros j y Hj Hy. rewrite lookup_app_l in Hy by done. apply Z.eqb_neq. intros ->. apply Hn.
      by eapply list_elem_of_lookup_2.
  - wp_steps. by rewrite take_app_length.
Qed.

Lemma wp_app_names {St} (s : St) src_dir items acc : names_cut src_dir items →
  wp (fold_m (λ v name, app ← app_name name; mret (v ++ [app])) acc src_dir)
    (λ v s', v = acc ++ items.*1 ∧ s' = s) s.
Proof.
  intros Hc. revert acc. induction Hc as [|f a src items (ext & -> & Hn) Hc IH]; intros acc; cbn [fold_m].
  { wp_steps. by rewrite app_nil_r. }
  wp_steps. apply wp_app_name; [done|]. wp_steps. eapply wp_mono; [apply IH|]. intros v s' [-> ->].
  by rewrite <- app_assoc.
Qed.

Section packing.
#[local] Existing Instance image_laws.
#[local] Existing Instance image_store_laws.
Abbreviation packed_ := (packed (cap := 16 * 2048) image_efs image_area).

Lemma wp_easy_fs_pack old src_dir host items :
  (∀ f, old = Some f → map_Forall (λ _, is_byte) (file_data f)) → names_cut src_dir items →
  Forall (λ a, host a.1 = Some a.2) items → packable image_inodes image_area items →
  wp (easy_fs_pack src_dir host) (λ printed s', printed = items.*1 ∧
    ∃ d low L, store_ok s' d ∅ ∧ packed_ low items L d ∧ formatted low (16 * 2048) 1)
    (BlockCacheManager_new (image_file old)).
Proof.
  intros Hold Hc Hh Hpa. pose proof (image_store old Hold) as Hs. unfold easy_fs_pack. wp_steps.
  eapply wp_mono; [apply (wp_create _ (file_block (image_file old)) (16 * 2048) 1); [unfold layout_ok; lia|lia|exact Hs]|].
  intros efs s1 (-> & d1 & Hs1 & Hf). rewrite image_layout. wp_steps.
  eapply wp_mono; [by apply wp_app_names|]. intros v s2 [-> ->]. wp_steps.
  eapply wp_mono; [apply (wp_pack_apps (cap := 16 * 2048) ltac:(lia) image_efs image_area image_efs_ok image_inodes_ok s1 d1 [] d1 host items);
    [done|by apply formatted_packed|done|done]|].
  intros [] s2 (d2 & L & Hs2 & Hp). change (root_inode image_efs) with (inode_of image_efs 0).
  eapply wp_mono; [apply (wp_ls s2 d2 image_efs image_area (inode_of image_efs 0) L (entries items));
    [done|apply image_efs_ok|apply Hp|apply Hp]|].
  intros r s3 [-> Hs3]. split; [apply entries_names|]. by exists d2, d1, L.
Qed.

(** Opening the image, listing it and reading a file the way the kernel does. *)
Lemma wp_read_packed s d low items L a fuel :
  store_ok s d ∅ → packed_ low items L d → formatted low (16 * 2048) 1 → NoDup (items.*1) → a ∈ items →
  (Z.to_nat ((lengthZ a.2 + 511) / 512) < fuel)%nat →
  wp (efs ← open; names ← ls (root_inode efs); o ← open_file efs (a.1) RDONLY; f ← unwrap o; r ← read_all fuel f; mret (names, r))
    (λ x _, x.1 = items.*1 ∧ fst <$> x.2 = Some (a.2)) s.
Proof.
  intros Hs Hp Hf Hnd [k Hk]%list_elem_of_lookup Hfuel. wp_steps.
  eapply (wp_open s d (16 * 2048) 1); [unfold layout_ok; lia|lia|done| |].
  { unfold at_block. rewrite (pk_low _ _ _ _ _ _ Hp) by (simpl; lia). apply Hf. }
  intros s0 Hs0. rewrite image_layout. wp_steps.
  change (root_inode image_efs) with (inode_of image_efs 0).
  eapply wp_mono; [apply (wp_ls s0 d image_efs image_area _ L (entries items)); [done|apply image_efs_ok|apply Hp|apply Hp]|].
  intros names s1 [-> Hs1]. rewrite entries_names. wp_steps. unfold open_file.
  change (read_write RDONLY) with (true, false). change (contains RDONLY CREATE) with false.
  change (contains RDONLY TRUNC) with false. change (root_inode image_efs) with (inode_of image_efs 0). cbv iota. wp_steps.
  eapply wp_mono; [apply (wp_find s1 d image_efs image_area _ L (entries items)); [done|apply image_efs_ok|apply Hp|apply Hp]|].
  intros o s2 [-> Hs2].
  rewrite (dir_lookup_nodup _ _ _ ltac:(by rewrite entries_names) (entries_elem _ _ _ Hk)).
  cbn [fmap option_fmap option_map]. wp_steps. apply (wp_unwrap _ _ _ _ eq_refl). destruct (pk_files _ _ _ _ _ _ Hp k a Hk) as (M & [Hi Hsz Hb] & _).
  pose proof (lengthZ_nonneg a.2). unfold read_all.
  pose proof (io_size _ _ _ _ (fi_inode _ _ _ _ _ Hi)) as Hmax.
  assert (Z.max 0 (di_size (the_inode d (inode_of image_efs (Z.of_nat k + 1))) - 0) = lengthZ a.2) as Hrest by lia.
  wp_steps. eapply wp_mono; [apply (wp_read_all_loop d image_efs image_area M fuel s2
    (OSInode_new true false (inode_of image_efs (Z.of_nat k + 1)))); cbn [OSInode_new os_inode os_offset]; rewrite ?Hrest;
    [done|apply image_efs_ok|done|done|done|unfold_layout; lia|done]|].
  cbn [OSInode_new os_inode os_offset]. rewrite Hrest. intros r s3 [-> _]. wp_steps. split; [done|]. simpl. f_equal. apply list_eq. intros j.
  rewrite list_lookup_fmap. destruct (decide (j < length a.2)%nat) as [Hj|Hj].
  - rewrite lookup_seqZ_lt by (unfold lengthZ; lia). simpl. rewrite Hb by (unfold lengthZ; lia).
    replace (Z.to_nat (0 + Z.of_nat j)) with j by lia. by destruct (lookup_lt_is_Some_2 _ _ Hj) as [x ->].
  - rewrite lookup_seqZ_ge by (unfold lengthZ; lia). symmetry. apply lookup_ge_None. lia.
Qed.
End packing.

(** What the packer leaves, and what a kernel that starts on it reads. *)
Lemma wp_packed_image old src_dir host items :
  (∀ f, old = Some f → map_Forall (λ _, is_byte) (file_data f)) → names_cut src_dir items →
  Forall (λ a, host a.1 = Some a.2) items → packable image_inodes image_area items →
  wp (easy_fs_pack src_dir host) (λ printed s', printed = items.*1 ∧
    ∀ a fuel, a ∈ items → (Z.to_nat ((lengthZ a.2 + 511) / 512) < fuel)%nat →
      wp (efs ← open; names ← ls (root_inode efs); o ← open_file efs (a.1) RDONLY; f ← unwrap o; r ← read_all fuel f; mret (names, r))
        (λ x _, x.1 = items.*1 ∧ fst <$> x.2 = Some (a.2)) (BlockCacheManager_new (device s')))
    (BlockCacheManager_new (image_file old)).
Proof.
  intros Hold Hc Hh Hpa.
  eapply wp_mono; [apply (wp_wlp _ _ _ _ (wp_easy_fs_pack old src_dir host items Hold Hc Hh Hpa) (pack_clean _ _ _))|].
  intros r s' [(-> & d & low & L & Hs & Hp & Hf) Hcl]. split; [done|]. intros a fuel Ha Hfuel.
  pose proof (restart_ok (HDL := image_laws) s' d Hs Hcl) as Hs'.
  by apply (wp_read_packed _ d low items L); [| | |apply Hpa| |].
Qed.

(** C9: The packed image.  [easy_fs_pack], run on an image file that is missing
    or holds anything, formats it and copies every application of the host
    directory into it under its name without the extension, as long as the names
    are distinct and fit, the files are not empty, and the image has the blocks
    and inodes; no assertion or [unwrap] fails, and what it prints is the list of
    the names.  The image file itself, not only the block cache, is complete when
    the packer ends: a kernel that starts on that file with an empty cache opens
    the file system and lists the same names, and [open_file] followed by
    [read_all], as [sys_exec] calls them, gives for every application exactly the
    bytes of the host's file. *)
Theorem packed_image old src_dir host items :
  (∀ f, old = Some f → map_Forall (λ _, is_byte) (file_data f)) → names_cut src_dir items →
  Forall (λ a, host a.1 = Some a.2) items → packable image_inodes image_area items →
  wp (easy_fs_pack src_dir host) (λ printed s', printed = items.*1 ∧
    ∀ a fuel, a ∈ items → (Z.to_nat ((lengthZ a.2 + 511) / 512) < fuel)%nat →
      wp (efs ← open; names ← ls (root_inode efs); o ← open_file efs (a.1) RDONLY; f ← unwrap o; r ← read_all fuel f; mret (names, r))
        (λ x _, x.1 = items.*1 ∧ fst <$> x.2 = Some (a.2)) (BlockCacheManager_new (device s')))
    (BlockCacheManager_new (image_file old)).
Proof. exact (wp_packed_image old src_dir host items). Qed.

Definition demo_items : list item := [([97], [127; 69; 76; 70]); ([98; 99], [1; 2; 3])].
Definition demo_host (name : list Z) : option (list Z) :=
  if decide (name = [97]) then Some [127; 69; 76; 70] else if decide (name = [98; 99]) then Some [1; 2; 3] else None.

Lemma demo_items_ok : Forall item_ok demo_items.
Proof.
  repeat (apply Forall_cons; split); [..|by apply Forall_nil]; (split; [split_and!|split_and!]); cbn [fst snd];
    try done; try (repeat constructor; unfold is_byte; lia); unfold lengthZ, NAME_LENGTH_LIMIT; unfold_layout; simpl; lia.
Qed.

Lemma packed_image_witness :
  wp (easy_fs_pack [[97; 46; 114; 115]; [98; 99; 46; 114; 115]] demo_host) (λ printed s', printed = [[97]; [98; 99]] ∧
    wp (efs ← open; names ← ls (root_inode efs); o ← open_file efs [97] RDONLY; f ← unwrap o; r ← read_all 2 f; mret (names, r))
      (λ x _, x.1 = [[97]; [98; 99]] ∧ fst <$> x.2 = Some [127; 69; 76; 70]) (BlockCacheManager_new (device s')))
    (BlockCacheManager_new (image_file None)).
Proof.
  eapply wp_mono.
  - apply (packed_image None _ demo_host demo_items).
    + done.
    + repeat constructor; exists [114; 115]; (split; [done|]); by apply (bool_decide_unpack _).
    + repeat constructor.
    + split.
      * by apply (bool_decide_unpack _).
      * exact demo_items_ok.
      * done.
      * unfold_layout. done.
      * done.
  - intros r s' [-> H]. split; [done|]. apply (H ([97], [127; 69; 76; 70]) 2%nat); [by left|by apply Nat.ltb_lt].
Defined.
