(* ===== verification/Pipe.v ===== *)
(** * Pipes

    [os/src/fs/pipe.rs]: the ring buffer shared by the two ends of a pipe and
    the blocking loops of [Pipe::read] and [Pipe::write].

    [suspend_current_and_run_next] lets other tasks run in the middle of the
    loops.  A call is therefore a sequence of turns: a turn runs the loop from
    one point where the task is scheduled to its return or to the next
    suspension, and the local variables of the loop are kept in between.  The
    state a turn works on is the ring buffer, the strong count of the write end
    (what [Weak::upgrade] looks at) and the memory the user buffers lie in. *)

From S2P Require Import Prelude Address FrameAllocator UserBuffer.

Definition RING_BUFFER_SIZE : Z := 32.

Inductive RingBufferStatus := Full | Empty | Normal.
#[export] Instance RingBufferStatus_eq_dec : EqDecision RingBufferStatus.
Proof. solve_decision. Defined.

(** [write_end] holds the number of the object the [Weak<Pipe>] refers to. *)
Record PipeRingBuffer := {
  arr : list Z;
  head : Z;
  tail : Z;
  status : RingBufferStatus;
  write_end : option Z
}.

Definition PipeRingBuffer_new : PipeRingBuffer :=
  {| arr := replicate 32 0; head := 0; tail := 0; status := Empty; write_end := None |}.

Definition set_write_end (w : Z) (rb : PipeRingBuffer) : PipeRingBuffer :=
  {| arr := arr rb; head := head rb; tail := tail rb; status := status rb; write_end := Some w |}.

Definition write_byte (byte : Z) : M PipeRingBuffer unit :=
  rb ← get;
  _ ← index (arr rb) (tail rb);
  let tail' := wrap64 (tail rb + 1) mod RING_BUFFER_SIZE in
  put {| arr := insertZ (tail rb) byte (arr rb); head := head rb; tail := tail';
         status := if tail' =? head rb then Full else Normal; write_end := write_end rb |}.

Definition read_byte : M PipeRingBuffer Z :=
  rb ← get;
  c ← index (arr rb) (head rb);
  let head' := wrap64 (head rb + 1) mod RING_BUFFER_SIZE in
  _ ← put {| arr := arr rb; head := head'; tail := tail rb;
             status := if head' =? tail rb then Empty else Normal; write_end := write_end rb |};
  mret c.

Definition available_read (rb : PipeRingBuffer) : Z :=
  if decide (status rb = Empty) then 0
  else if head rb <? tail rb then wrap64 (tail rb - head rb)
  else wrap64 (wrap64 (tail rb + RING_BUFFER_SIZE) - head rb).

Definition available_write (rb : PipeRingBuffer) : Z :=
  if decide (status rb = Full) then 0 else wrap64 (RING_BUFFER_SIZE - available_read rb).

(** ** The two ends *)

Record Pipe := { p_readable : bool; p_writable : bool }.
Definition read_end_with_buffer : Pipe := {| p_readable := true; p_writable := false |}.
Definition write_end_with_buffer : Pipe := {| p_readable := false; p_writable := true |}.

(** The shared buffer, the strong counts of the pipe objects, the memory. *)
Record PipeState := {
  ring : PipeRingBuffer;
  strong : gmap Z Z;
  pmem : gmap Z page
}.
Definition upd_ring (rb : PipeRingBuffer) (s : PipeState) : PipeState :=
  {| ring := rb; strong := strong s; pmem := pmem s |}.
Definition upd_pmem (f : gmap Z page → gmap Z page) (s : PipeState) : PipeState :=
  {| ring := ring s; strong := strong s; pmem := f (pmem s) |}.

(** [Weak::upgrade] succeeds as long as a strong reference is left. *)
Definition upgrade (s : PipeState) (w : Z) : bool := 0 <? default 0 (strong s !! w).

Definition all_write_ends_closed : M PipeState bool :=
  s ← get;
  w ← unwrap (write_end (ring s));
  mret (negb (upgrade s w)).

(** [make_pipe]; [r] and [w] are the numbers of the two new objects. *)
Definition make_pipe (r w : Z) (m : gmap Z page) : Pipe * Pipe * PipeState :=
  (read_end_with_buffer, write_end_with_buffer,
   {| ring := set_write_end w PipeRingBuffer_new; strong := {[ r := 1; w := 1 ]}; pmem := m |}).

(** What a turn ends with: the value returned, or the local variables of the
    suspended call. *)
Inductive turn :=
  | Return (size : Z)
  | Suspend (buf_iter : UserBufferIterator) (size : Z).

(** [for _ in 0..loop_read]: [inl] when the loop runs to its end, [inr] at the
    [return]. *)
Fixpoint read_for (n : nat) (buf_iter : UserBufferIterator) (read_size : Z) :
    M PipeState ((UserBufferIterator * Z) + Z) :=
  match n with
  | O => mret (inl (buf_iter, read_size))
  | S n =>
      r ← lift_result (UserBufferIterator_next buf_iter);
      match r with
      | (Some byte_ref, buf_iter') =>
          c ← zoom ring upd_ring read_byte;
          _ ← modify (upd_pmem (λ m, set_byte m byte_ref.1 byte_ref.2 c));
          read_for n buf_iter' (wrap64 (read_size + 1))
      | (None, _) => mret (inr read_size)
      end
  end.

(** A turn of [Pipe::read]; [None] when [fuel] iterations neither returned nor
    suspended. *)
Fixpoint read_turn (fuel : nat) (buf_iter : UserBufferIterator) (read_size : Z) :
    M PipeState (option turn) :=
  match fuel with
  | O => mret None
  | S fuel =>
      loop_read ← gets (λ s, available_read (ring s));
      if loop_read =? 0 then
        closed ← all_write_ends_closed;
        if closed : bool then mret (Some (Return read_size))
        else mret (Some (Suspend buf_iter read_size))
      else
        r ← read_for (Z.to_nat loop_read) buf_iter read_size;
        match r with
        | inl (buf_iter', read_size') => read_turn fuel buf_iter' read_size'
        | inr n => mret (Some (Return n))
        end
  end.

Definition Pipe_read (self : Pipe) (buf : UserBuffer) : M PipeState (option turn) :=
  _ ← assert_ (p_readable self);
  read_turn 2 (UserBuffer_into_iter buf) 0.

Fixpoint write_for (n : nat) (buf_iter : UserBufferIterator) (write_size : Z) :
    M PipeState ((UserBufferIterator * Z) + Z) :=
  match n with
  | O => mret (inl (buf_iter, write_size))
  | S n =>
      r ← lift_result (UserBufferIterator_next buf_iter);
      match r with
      | (Some byte_ref, buf_iter') =>
          b ← gets (λ s, get_byte (pmem s) byte_ref.1 byte_ref.2);
          _ ← zoom ring upd_ring (write_byte b);
          write_for n buf_iter' (wrap64 (write_size + 1))
      | (None, _) => mret (inr write_size)
      end
  end.

Fixpoint write_turn (fuel : nat) (buf_iter : UserBufferIterator) (write_size : Z) :
    M PipeState (option turn) :=
  match fuel with
  | O => mret None
  | S fuel =>
      loop_write ← gets (λ s, available_write (ring s));
      if loop_write =? 0 then mret (Some (Suspend buf_iter write_size))
      else
        r ← write_for (Z.to_nat loop_write) buf_iter write_size;
        match r with
        | inl (buf_iter', write_size') => write_turn fuel buf_iter' write_size'
        | inr n => mret (Some (Return n))
        end
  end.

Definition Pipe_write (self : Pipe) (buf : UserBuffer) : M PipeState (option turn) :=
  _ ← assert_ (p_writable self);
  write_turn 2 (UserBuffer_into_iter buf) 0.

(** ** The ring buffer implements a bounded queue

    [ring_ok rb q]: the buffer holds the bytes [q], oldest first. *)

Definition status_of (n : Z) : RingBufferStatus :=
  if n =? 0 then Empty else if n =? RING_BUFFER_SIZE then Full else Normal.

Record ring_ok (rb : PipeRingBuffer) (q : list Z) : Prop := {
  ro_len : lengthZ (arr rb) = RING_BUFFER_SIZE;
  ro_head : 0 <= head rb < RING_BUFFER_SIZE;
  ro_cap : lengthZ q <= RING_BUFFER_SIZE;
  ro_tail : tail rb = (head rb + lengthZ q) mod RING_BUFFER_SIZE;
  ro_status : status rb = status_of (lengthZ q);
  ro_bytes : ∀ i b, lookupZ q i = Some b →
    0 <= b < 256 ∧ lookupZ (arr rb) ((head rb + i) mod RING_BUFFER_SIZE) = Some b
}.

(** Unfold the constants so that [zdiv] sees numbers. *)
Ltac ring_unfold := unfold status_of, RING_BUFFER_SIZE, wrap in *.
Ltac zcases := repeat match goal with
  | |- context [Z.eqb ?a ?b] => destruct (Z.eqb_spec a b)
  | |- context [Z.ltb ?a ?b] => destruct (Z.ltb_spec a b)
  end.

Lemma new_ring_ok : ring_ok PipeRingBuffer_new [].
Proof. split; try done. intros i b Hi%lookupZ_lt. unfold lengthZ in Hi. simpl in Hi. lia. Qed.

Lemma ring_available rb q : ring_ok rb q →
  available_read rb = lengthZ q ∧ available_write rb = RING_BUFFER_SIZE - lengthZ q.
Proof.
  intros [_ Hh Hc Ht Hs _]. pose proof (lengthZ_nonneg q) as Hn.
  assert (available_read rb = lengthZ q) as Hr.
  { unfold available_read. rewrite Hs, Ht. clear Hs Ht. ring_unfold.
    generalize dependent (lengthZ q). intros n Hc Hn. zcases; case_decide; try done; zdiv. }
  split; [done|]. unfold available_write. rewrite Hr, Hs. clear Hs Ht Hr. ring_unfold.
  generalize dependent (lengthZ q). intros n Hc Hn. zcases; case_decide; try done; zdiv.
Qed.

Lemma wp_write_byte rb q b (Q : unit → PipeRingBuffer → Prop) :
  ring_ok rb q → lengthZ q < RING_BUFFER_SIZE → 0 <= b < 256 →
  (∀ rb', ring_ok rb' (q ++ [b]) → write_end rb' = write_end rb → Q tt rb') →
  wp (write_byte b) Q rb.
Proof.
  intros [Hl Hh Hc Ht Hs Hb] Hlt Hbb HQ. pose proof (lengthZ_nonneg q) as Hn. unfold write_byte.
  assert (0 <= tail rb < RING_BUFFER_SIZE) as Htr by (rewrite Ht; apply Z.mod_pos_bound; done).
  destruct (lookupZ_is_Some (arr rb) (tail rb)) as [x Hx]; [by rewrite Hl|].
  wp_steps. eapply wp_index; [done|]. wp_steps. apply HQ; [|done].
  assert (lengthZ (q ++ [b]) = lengthZ q + 1) as Hlen by (rewrite lengthZ_app; done).
  split; cbn [arr head tail status write_end]; rewrite ?Hlen.
  - by rewrite lengthZ_insertZ.
  - done.
  - lia.
  - rewrite Ht. ring_unfold. generalize dependent (lengthZ q). intros. zdiv.
  - rewrite Ht. clear Hs Ht Htr Hx. ring_unfold. generalize dependent (lengthZ q).
    intros n _ Hlt Hn _. zcases; try done; zdiv.
  - intros i c Hi. pose proof (lookupZ_lt _ _ _ Hi) as Hir. rewrite Hlen in Hir.
    rewrite lookupZ_insertZ by (by rewrite Hl). rewrite Ht.
    destruct (decide (i = lengthZ q)) as [->|Hne].
    + rewrite lookupZ_app_r, Z.sub_diag in Hi by lia. injection Hi as <-.
      by rewrite decide_True by done.
    + rewrite lookupZ_app_l in Hi by lia. destruct (Hb _ _ Hi) as [? Hb2]. split; [done|].
      rewrite decide_False; [done|]. ring_unfold. generalize dependent (lengthZ q). intros. zdiv.
Qed.

Lemma wp_read_byte rb q b (Q : Z → PipeRingBuffer → Prop) :
  ring_ok rb (b :: q) → 
  (∀ rb', ring_ok rb' q → write_end rb' = write_end rb → 0 <= b < 256 → Q b rb') →
  wp read_byte Q rb.
Proof.
  intros [Hl Hh Hc Ht Hs Hb] HQ. pose proof (lengthZ_nonneg q) as Hn. unfold read_byte.
  assert (lengthZ (b :: q) = lengthZ q + 1) as Hlen by (unfold lengthZ; simpl; lia).
  rewrite Hlen in *. destruct (Hb 0 b eq_refl) as [Hbb Hx].
  rewrite Z.add_0_r, Z.mod_small in Hx by done.
  wp_steps. eapply wp_index; [done|]. wp_steps. apply HQ; [|done|done].
  split; cbn [arr head tail status write_end].
  - done.
  - apply Z.mod_pos_bound. done.
  - lia.
  - rewrite Ht. clear Hs. ring_unfold. generalize dependent (lengthZ q). intros. zdiv.
  - rewrite Ht. clear Hs Ht. ring_unfold. generalize dependent (lengthZ q).
    intros n Hc Hn Hlen. zcases; try done; zdiv.
  - intros i c Hi. pose proof (lookupZ_lt _ _ _ Hi) as Hir. destruct (Hb (i + 1) c) as [? Hb2].
    { rewrite lookupZ_nat in * by lia. by replace (Z.to_nat (i + 1)) with (S (Z.to_nat i)) by lia. }
    split; [done|]. rewrite <- Hb2. f_equal. ring_unfold. zdiv.
Qed.

(** The iterator is about to yield the locations [L] and then end. *)
Definition yields (it : UserBufferIterator) (L : list loc) : Prop :=
  ubi_drain (S (length L)) it = Some (Ok L).

Lemma yields_nil it : yields it [] → ∃ it', UserBufferIterator_next it = Ok (None, it').
Proof.
  unfold yields. simpl. destruct (UserBufferIterator_next it) as [[[l|] it']|]; [done|eauto|done].
Qed.
Lemma yields_cons it l L : yields it (l :: L) →
  ∃ it', UserBufferIterator_next it = Ok (Some l, it') ∧ yields it' L.
Proof.
  unfold yields. cbn [length]. remember (S (length L)) as n eqn:Hn.
  cbn [ubi_drain]. destruct (UserBufferIterator_next it) as [[[l'|] it']|]; [|done|done].
  destruct (ubi_drain n it') as [[rs|]|] eqn:Hd; intros; simplify_eq. eauto.
Qed.

(** ** The loops

    [after s s' q' m']: the buffer holds [q'], the memory is [m'], nothing else
    changed. *)

Record after (s s' : PipeState) (q' : list Z) (m' : gmap Z page) : Prop := {
  af_ring : ring_ok (ring s') q';
  af_end : write_end (ring s') = write_end (ring s);
  af_strong : strong s' = strong s;
  af_mem : pmem s' = m'
}.

Lemma after_trans s1 s2 s3 q2 m2 q3 m3 : after s1 s2 q2 m2 → after s2 s3 q3 m3 → after s1 s3 q3 m3.
Proof. intros [] []. split; congruence. Qed.

Lemma wp_read_for n : ∀ it L size q s (Q : (UserBufferIterator * Z) + Z → PipeState → Prop),
  ring_ok (ring s) q → yields it L → (n <= length q)%nat → 0 <= size → size + lengthZ L < 2 ^ 64 →
  (∀ it' s', (n <= length L)%nat → yields it' (drop n L) →
     after s s' (drop n q) (store_all (pmem s) (take n L) q) → Q (inl (it', size + Z.of_nat n)) s') →
  (∀ s', (length L < n)%nat → after s s' (drop (length L) q) (store_all (pmem s) L q) →
     Q (inr (size + lengthZ L)) s') →
  wp (read_for n it size) Q s.
Proof.
  induction n as [|n IH]; intros it L size q s Q Hr Hit Hn Hs Hb Hl Hret; cbn [read_for].
  { wp_steps. replace size with (size + Z.of_nat 0) by lia.
    apply Hl; [lia|by rewrite drop_0|by rewrite drop_0]. }
  apply wp_bind. destruct L as [|l L].
  { destruct (yields_nil it Hit) as [it' Hit']. eapply wp_lift_result; [done|]. wp_steps.
    replace size with (size + lengthZ (@nil loc)) by (unfold lengthZ; simpl; lia).
    apply Hret; [simpl; lia|]. by rewrite drop_0. }
  destruct (yields_cons it l L Hit) as (it' & Hnext & Hit'). eapply wp_lift_result; [done|].
  destruct q as [|b q]; [simpl in Hn; lia|]. unfold lengthZ in *. cbn [length] in *.
  apply wp_bind, wp_zoom. eapply wp_read_byte; [done|]. intros rb' Hr' Hwe Hbb. wp_steps.
  rewrite wrap_small by lia.
  apply (IH it' L (size + 1) q); [done|done|lia|lia|unfold lengthZ; lia| |].
  - intros it2 s2 Hle Hy Ha. replace (size + 1 + Z.of_nat n) with (size + Z.of_nat (S n)) by lia.
    apply Hl; [lia|done|]. destruct Ha as [? He ? ?]. split; try done. by rewrite He.
  - intros s2 Hle Ha. unfold lengthZ.
    replace (size + 1 + Z.of_nat (length L)) with (size + Z.of_nat (S (length L))) by lia.
    apply Hret; [lia|]. destruct Ha as [? He ? ?]. split; try done. by rewrite He.
Qed.

Lemma wp_write_for n : ∀ it L size q s (Q : (UserBufferIterator * Z) + Z → PipeState → Prop),
  ring_ok (ring s) q → yields it L → lengthZ q + Z.of_nat n <= RING_BUFFER_SIZE →
  0 <= size → size + lengthZ L < 2 ^ 64 →
  (∀ it' s', (n <= length L)%nat → yields it' (drop n L) →
     after s s' (q ++ (loc_byte (pmem s) <$> take n L)) (pmem s) → Q (inl (it', size + Z.of_nat n)) s') →
  (∀ s', (length L < n)%nat → after s s' (q ++ (loc_byte (pmem s) <$> L)) (pmem s) →
     Q (inr (size + lengthZ L)) s') →
  wp (write_for n it size) Q s.
Proof.
  induction n as [|n IH]; intros it L size q s Q Hr Hit Hn Hs Hb Hl Hret; cbn [write_for].
  { wp_steps. replace size with (size + Z.of_nat 0) by lia.
    apply Hl; [lia|by rewrite drop_0|by rewrite app_nil_r]. }
  apply wp_bind. destruct L as [|l L].
  { destruct (yields_nil it Hit) as [it' Hit']. eapply wp_lift_result; [done|]. wp_steps.
    replace size with (size + lengthZ (@nil loc)) by (unfold lengthZ; simpl; lia).
    apply Hret; [simpl; lia|]. by rewrite app_nil_r. }
  destruct (yields_cons it l L Hit) as (it' & Hnext & Hit'). eapply wp_lift_result; [done|].
  unfold lengthZ in *. cbn [length] in *. wp_steps. apply wp_zoom.
  eapply wp_write_byte; [done|unfold lengthZ; lia|apply (loc_byte_range _ l)|].
  intros rb' Hr' Hwe. rewrite wrap_small by lia.
  apply (IH it' L (size + 1) (q ++ [loc_byte (pmem s) l])); [done|done| |lia|unfold lengthZ; lia| |].
  - rewrite length_app. cbn [length]. lia.
  - intros it2 s2 Hle Hy Ha. replace (size + 1 + Z.of_nat n) with (size + Z.of_nat (S n)) by lia.
    apply Hl; [lia|done|]. destruct Ha as [Hr2 He ? ?]. rewrite <- app_assoc in Hr2.
    split; try done. by rewrite He.
  - intros s2 Hle Ha. unfold lengthZ.
    replace (size + 1 + Z.of_nat (length L)) with (size + Z.of_nat (S (length L))) by lia.
    apply Hret; [lia|]. destruct Ha as [Hr2 He ? ?]. rewrite <- app_assoc in Hr2.
    split; try done. by rewrite He.
Qed.

(** Outcome of a turn of [Pipe::read] on a pipe holding [q], with the
    locations [L] left to fill. *)
Definition read_outcome (s : PipeState) (w : Z) (q : list Z) (L : list loc) (size : Z)
    (o : option turn) : Prop :=
  if decide (length L < length q)%nat then o = Some (Return (size + lengthZ L))
  else if upgrade s w then ∃ it', o = Some (Suspend it' (size + lengthZ q)) ∧ yields it' (drop (length q) L)
  else o = Some (Return (size + lengthZ q)).

Lemma wp_read_turn f it L size q w s :
  ring_ok (ring s) q → write_end (ring s) = Some w → yields it L → 
  0 <= size → size + lengthZ L < 2 ^ 64 →
  wp (read_turn (S (S f)) it size)
    (λ o s', read_outcome s w q L size o ∧
       after s s' (drop (length L) q) (store_all (pmem s) (take (length q) L) q)) s.
Proof.
  intros Hr Hw Hit Hs Hb.
  assert (∀ g it L size s, ring_ok (ring s) [] → write_end (ring s) = Some w → yields it L →
    wp (read_turn (S g) it size) (λ o s', s' = s ∧ read_outcome s w [] L size o) s) as Hempty.
  { clear. intros g it L size s Hr Hw Hit. cbn [read_turn]. wp_steps.
    destruct (ring_available _ _ Hr) as [-> _]. change (lengthZ [] =? 0) with true. cbv beta iota.
    unfold all_write_ends_closed. wp_steps. eapply wp_unwrap; [done|]. wp_steps.
    assert (∀ o, (if upgrade s w then o = Some (Suspend it size) else o = Some (Return size)) →
      read_outcome s w [] L size o) as Ho.
    { intros o Ho. unfold read_outcome, lengthZ. cbn [length Z.of_nat]. rewrite Z.add_0_r.
      rewrite decide_False by lia. destruct (upgrade s w); [|done]. exists it. by rewrite drop_0. }
    destruct (upgrade s w); wp_steps; split; try done; by apply Ho. }
  destruct q as [|b q'].
  { eapply wp_mono; [by apply Hempty|]. intros o s' [-> Ho]. split; [done|].
    rewrite drop_nil, take_0. split; done. }
  set (q := b :: q') in *. cbn [read_turn]. wp_steps.
  destruct (ring_available _ _ Hr) as [-> _].
  assert (lengthZ q ≠ 0) as Hq by (unfold q, lengthZ; simpl; lia).
  rewrite (proj2 (Z.eqb_neq _ _)) by done. wp_steps.
  unfold lengthZ at 1. rewrite Nat2Z.id.
  eapply wp_read_for; [done|done|lia|done|done| |].
  - intros it' s1 Hle Hy Ha. destruct Ha as [Ha1 Ha2 Ha3 Ha4] eqn:Hae. clear Hae.
    rewrite drop_all in Ha1. eapply wp_mono; [apply Hempty|]; [done|by rewrite Ha2|done|].
    intros o s' [-> Ho]. split.
    + unfold read_outcome in *. cbn [length] in Ho. rewrite decide_False in Ho by lia.
      rewrite decide_False by lia. unfold upgrade in *. rewrite Ha3 in Ho.
      unfold lengthZ in *. cbn [length Z.of_nat] in Ho. rewrite Z.add_0_r, drop_0 in Ho. done.
    + split; try done. by rewrite drop_ge by lia.
  - intros s1 Hlt Ha. wp_steps. split.
    + unfold read_outcome. by rewrite decide_True by lia.
    + by rewrite take_ge by lia.
Qed.

(** Outcome of a turn of [Pipe::write] with the locations [L] left to send. *)
Definition room (q : list Z) : nat := Z.to_nat (RING_BUFFER_SIZE - lengthZ q).

Definition write_outcome (q : list Z) (L : list loc) (size : Z) (o : option turn) : Prop :=
  if decide (length L < room q)%nat then o = Some (Return (size + lengthZ L))
  else ∃ it', o = Some (Suspend it' (size + Z.of_nat (room q))) ∧ yields it' (drop (room q) L).

Lemma wp_write_turn f it L size q s :
  ring_ok (ring s) q → yields it L → 0 <= size → size + lengthZ L < 2 ^ 64 →
  wp (write_turn (S (S f)) it size)
    (λ o s', write_outcome q L size o ∧
       after s s' (q ++ (loc_byte (pmem s) <$> take (room q) L)) (pmem s)) s.
Proof.
  intros Hr Hit Hs Hb.
  assert (∀ g it L size q s, ring_ok (ring s) q → room q = 0%nat → yields it L →
    wp (write_turn (S g) it size) (λ o s', s' = s ∧ write_outcome q L size o) s) as Hfull.
  { clear. intros g it L size q s Hr Hq Hit. cbn [write_turn]. wp_steps. unfold room in *.
    destruct (ring_available _ _ Hr) as [_ ->]. pose proof (ro_cap _ _ Hr).
    rewrite (proj2 (Z.eqb_eq _ _)) by lia. wp_steps. split; [done|].
    unfold write_outcome, room. rewrite Hq. cbn [Z.of_nat]. rewrite Z.add_0_r, decide_False by lia.
    exists it. by rewrite drop_0. }
  pose proof (ro_cap _ _ Hr) as Hcap. destruct (decide (room q = 0%nat)) as [Hq|Hq].
  { eapply wp_mono; [by apply Hfull|]. intros o s' [-> Ho]. split; [done|].
    rewrite Hq, take_0, app_nil_r. split; done. }
  cbn [write_turn]. wp_steps. destruct (ring_available _ _ Hr) as [_ ->].
  assert (RING_BUFFER_SIZE - lengthZ q = Z.of_nat (room q)) as Hrm by (unfold room; lia).
  rewrite (proj2 (Z.eqb_neq _ _)) by lia. wp_steps. fold (room q).
  eapply wp_write_for; [done|done|lia|done|done| |].
  - intros it' s1 Hle Hy Ha. 
    assert (room (q ++ (loc_byte (pmem s) <$> take (room q) L)) = 0%nat) as Hz.
    { unfold room at 1. rewrite lengthZ_app. unfold lengthZ at 2.
      rewrite length_fmap, length_take_le by lia. lia. }
    eapply wp_mono; [apply Hfull; [apply Ha|done|done]|]. intros o s' [-> Ho]. split; [|done].
    unfold write_outcome in *. rewrite Hz in Ho. rewrite decide_False in Ho by lia.
    rewrite decide_False by lia. cbn [Z.of_nat] in Ho. by rewrite Z.add_0_r, drop_0 in Ho.
  - intros s1 Hlt Ha. wp_steps. split.
    + unfold write_outcome. by rewrite decide_True by lia.
    + by rewrite take_ge by lia.
Qed.

(** ** A write call and a read call on the same pipe, interleaved *)

Inductive call := Active (it : UserBufferIterator) (size : Z) | Done (size : Z).
Record Sys := { sys : PipeState; writer : call; reader : call }.

Definition resume (o : option turn) (c : call) : call :=
  match o with
  | Some (Return n) => Done n
  | Some (Suspend it n) => Active it n
  | None => c
  end.

Definition writer_turn (x : Sys) : result Sys :=
  match writer x with
  | Done _ => Ok x
  | Active it n =>
      match write_turn 2 it n (sys x) with
      | Ok (o, s') => Ok {| sys := s'; writer := resume o (writer x); reader := reader x |}
      | Panic p => Panic p
      end
  end.
Definition reader_turn (x : Sys) : result Sys :=
  match reader x with
  | Done _ => Ok x
  | Active it n =>
      match read_turn 2 it n (sys x) with
      | Ok (o, s') => Ok {| sys := s'; writer := writer x; reader := resume o (reader x) |}
      | Panic p => Panic p
      end
  end.

(** Cloning and dropping an [Arc] of the write end ([dup], [fork], [close]). *)
Definition upd_strong (w d : Z) (x : Sys) : Sys :=
  {| sys := {| ring := ring (sys x); strong := <[w := default 0 (strong (sys x) !! w) + d]> (strong (sys x));
               pmem := pmem (sys x) |};
     writer := writer x; reader := reader x |}.

(** The scheduler runs the calls in any order; a running write call holds a
    strong reference of its own. *)
Inductive sys_step (w : Z) : Sys → Sys → Prop :=
  | step_writer x x' : writer_turn x = Ok x' → sys_step w x x'
  | step_reader x x' : reader_turn x = Ok x' → sys_step w x x'
  | step_clone x : 0 < default 0 (strong (sys x) !! w) → sys_step w x (upd_strong w 1 x)
  | step_drop x : 
      match writer x with Active _ _ => 1 | Done _ => 0 end < default 0 (strong (sys x) !! w) →
      sys_step w x (upd_strong w (-1) x).

Lemma store_all_take m ls bs n : (length ls <= n)%nat → store_all m ls bs = store_all m ls (take n bs).
Proof.
  revert m bs n. induction ls as [|l ls IH]; intros m [|b bs] [|n] Hn; simplify_eq/=; try done; try lia.
  apply IH. lia.
Qed.

Section interleaving.
(** The pipe's write end, the bytes in the buffer at the start, the two user
    buffers, the memory at the start. *)
Context (w : Z) (q0 : list Z) (W R : list loc) (m0 : gmap Z page).
Context (HW : locs_ok W) (HR : locs_ok R) (HWR : W ## R) (HND : NoDup R) (Hq0 : bytes_ok q0).
Context (HWl : lengthZ W < 2 ^ 64) (HRl : lengthZ R < 2 ^ 64).

Definition sent : list Z := loc_byte m0 <$> W.
Definition stream : list Z := q0 ++ sent.

(** [k] bytes have been written, [j] have been read. *)
Record sys_inv (k j : nat) (x : Sys) : Prop := {
  si_k : (k <= length W)%nat;
  si_jR : (j <= length R)%nat;
  si_j : (j <= length q0 + k)%nat;
  si_ring : ring_ok (ring (sys x)) (drop j (q0 ++ take k sent));
  si_end : write_end (ring (sys x)) = Some w;
  si_mem : pmem (sys x) = store_all m0 (take j R) stream;
  si_writer : match writer x with
    | Active it n => n = Z.of_nat k ∧ yields it (drop k W) ∧ 0 < default 0 (strong (sys x) !! w)
    | Done n => n = lengthZ W ∧ k = length W
    end;
  si_reader : match reader x with
    | Active it n => n = Z.of_nat j ∧ yields it (drop j R)
    | Done n => n = Z.of_nat j
    end
}.

Lemma bytes_ok_stream : bytes_ok stream.
Proof.
  unfold stream, sent. apply Forall_app. split; [done|].
  apply Forall_fmap, Forall_true. intros l. apply loc_byte_range.
Qed.

Lemma length_sent : length sent = length W.
Proof. apply length_fmap. Qed.

Lemma stream_split k : stream = (q0 ++ take k sent) ++ drop k sent.
Proof. unfold stream. by rewrite <- app_assoc, take_drop. Qed.

(** The writer's buffer keeps its bytes while the reader's is filled. *)
Lemma writer_bytes j L : L ⊆ W → loc_byte (store_all m0 (take j R) stream) <$> L = loc_byte m0 <$> L.
Proof.
  intros HL. apply list_fmap_ext. intros i l Hl.
  assert (l ∈ W) as Hin by (apply HL; by eapply list_elem_of_lookup_2).
  apply store_all_other; [by apply Forall_take|apply bytes_ok_stream| |].
  - by eapply Forall_forall in HW.
  - intros Hr%elem_of_take. destruct Hr as (i' & Hi' & _). apply (HWR l Hin).
    by eapply list_elem_of_lookup_2.
Qed.

Lemma writer_turn_inv k j x : sys_inv k j x →
  ∃ x' k', writer_turn x = Ok x' ∧ sys_inv k' j x' ∧ reader x' = reader x ∧
    strong (sys x') = strong (sys x) ∧
    match writer x with
    | Done _ => x' = x ∧ k' = k
    | Active _ _ =>
        let r := room (drop j (q0 ++ take k sent)) in
        if decide (length W - k < r)%nat then k' = length W ∧ writer x' = Done (lengthZ W)
        else k' = (k + r)%nat
    end.
Proof.
  intros [Hk HjR Hj Hring Hend Hmem Hw Hrd]. unfold writer_turn.
  destruct (writer x) as [it n|n] eqn:Hwx.
  2: { exists x, k. split; [done|]. split; [split; rewrite ?Hwx; done|]. done. }
  destruct Hw as (-> & Hy & Hst). set (q := drop j (q0 ++ take k sent)) in *.
  assert (length (drop k W) = length W - k)%nat as Hlen by apply length_drop.
  destruct (wp_ok _ _ _ (wp_write_turn 0 it (drop k W) (Z.of_nat k) q (sys x) Hring Hy ltac:(lia)
    ltac:(unfold lengthZ in *; rewrite Hlen; lia))) as (o & s' & -> & Ho & [Ha1 Ha2 Ha3 Ha4]).
  assert (take (room q) (drop k W) ⊆ W) as Hsub.
  { intros l Hl. apply elem_of_take in Hl as (i & Hi & _). rewrite lookup_drop in Hi.
    by eapply list_elem_of_lookup_2. }
  rewrite Hmem, (writer_bytes _ _ Hsub) in Ha1. rewrite fmap_take, fmap_drop in Ha1. fold sent in Ha1.
  unfold write_outcome in Ho. rewrite Hlen in Ho. pose proof length_sent as Hls.
  assert (∀ k', (k' <= length W)%nat → (k <= k')%nat → take (room q) (drop k sent) = take (k' - k) (drop k sent) →
    ring_ok (ring s') (drop j (q0 ++ take k' sent))) as Hring'.
  { intros k' Hk' Hkk Heq. rewrite Heq in Ha1. unfold q in Ha1.
    replace (take k' sent) with (take k sent ++ take (k' - k) (drop k sent))
      by (rewrite take_take_drop; f_equal; lia).
    rewrite app_assoc, (drop_app_le (q0 ++ take k sent)); [done|].
    rewrite length_app, length_take. lia. }
  destruct (decide (length W - k < room q)%nat) as [Hlt|Hge].
  - subst o. cbn [resume]. eexists _, (length W). split; [done|].
    assert (Z.of_nat k + lengthZ (drop k W) = lengthZ W) as Hsum by (unfold lengthZ; rewrite Hlen; lia).
    rewrite Hsum. split; [|done].
    split; cbn [sys writer reader]; [done|done|lia| |congruence|congruence|done|done].
    apply Hring'; [done|lia|]. rewrite !take_ge; rewrite ?length_drop; (done || lia).
  - destruct Ho as (it' & -> & Hy'). cbn [resume]. eexists _, (k + room q)%nat. split; [done|].
    rewrite drop_drop in Hy'.
    split; [|done]. split; cbn [sys writer reader]; [lia|done|lia| |congruence|congruence| |done].
    + apply Hring'; [lia|lia|]. f_equal. lia.
    + split; [lia|]. split; [done|]. by rewrite Ha3.
Qed.

Lemma store_more j n q rest :
  drop j stream = q ++ rest → (j <= length stream)%nat → (j <= length R)%nat →
  (n <= length q)%nat → 
  store_all (store_all m0 (take j R) stream) (take n (drop j R)) q = store_all m0 (take (j + n) R) stream.
Proof.
  intros Hq Hj HjR Hn. rewrite <- take_take_drop.
  rewrite <- (take_drop j stream) at 2. rewrite store_all_app.
  2: { rewrite !length_take. lia. }
  rewrite (store_all_take m0 (take j R) stream j) by (rewrite length_take; lia).
  rewrite Hq. rewrite (store_all_take _ _ (q ++ rest) (length q)).
  - by rewrite take_app_length.
  - rewrite length_take. lia.
Qed.

Definition is_done (c : call) : Prop := match c with Done _ => True | Active _ _ => False end.

Lemma reader_turn_inv k j x : sys_inv k j x →
  ∃ x' j', reader_turn x = Ok x' ∧ sys_inv k j' x' ∧ writer x' = writer x ∧
    strong (sys x') = strong (sys x) ∧
    match reader x with
    | Done _ => x' = x ∧ j' = j
    | Active _ _ =>
        if decide (length R < length q0 + k)%nat then j' = length R ∧ is_done (reader x')
        else j' = (length q0 + k)%nat ∧
          (is_done (reader x') ↔ default 0 (strong (sys x) !! w) <= 0)
    end.
Proof.
  intros [Hk HjR Hj Hring Hend Hmem Hw Hrd]. unfold reader_turn.
  destruct (reader x) as [it n|n] eqn:Hrx.
  2: { exists x, j. split; [done|]. split; [split; rewrite ?Hrx; done|]. done. }
  destruct Hrd as (-> & Hy). set (q := drop j (q0 ++ take k sent)) in *. pose proof length_sent as Hls.
  assert (length (drop j R) = length R - j)%nat as Hlen by apply length_drop.
  assert (length q = length q0 + k - j)%nat as Hlq
    by (unfold q; rewrite length_drop, length_app, length_take; lia).
  destruct (wp_ok _ _ _ (wp_read_turn 0 it (drop j R) (Z.of_nat j) q w (sys x) Hring Hend Hy ltac:(lia)
    ltac:(unfold lengthZ in *; rewrite Hlen; lia))) as (o & s' & -> & Ho & [Ha1 Ha2 Ha3 Ha4]).
  unfold read_outcome, lengthZ in Ho. rewrite Hlen, Hlq in Ho. rewrite Hlen, Hmem in *.
  set (j' := (j + (length q `min` (length R - j)))%nat).
  assert (pmem s' = store_all m0 (take j' R) stream) as Hmem'.
  { rewrite Ha4. unfold j'.
    replace (take (length q) (drop j R)) with (take (length q `min` (length R - j)) (drop j R))
      by (rewrite <- take_take; f_equal; apply take_ge; lia).
    apply (store_more j _ q (drop k sent)); [|unfold stream; rewrite length_app; lia|done|lia].
    rewrite (stream_split k). unfold q. apply drop_app_le. rewrite length_app, length_take. lia. }
  assert (ring_ok (ring s') (drop j' (q0 ++ take k sent))) as Hring'.
  { unfold q in Ha1. rewrite drop_drop in Ha1. unfold j'.
    destruct (Nat.min_spec (length q) (length R - j)) as [[? ->]|[? ->]]; [|done].
    rewrite drop_ge in Ha1 by (rewrite length_app, length_take; lia).
    by rewrite drop_ge by (rewrite length_app, length_take; lia). }
  assert (∀ c, match c with Active it n => n = Z.of_nat j' ∧ yields it (drop j' R)
      | Done n => n = Z.of_nat j' end →
    sys_inv k j' {| sys := s'; writer := writer x; reader := c |}) as Hinv.
  { intros c Hc. split; cbn [sys writer reader]; [done|lia|lia|done|congruence|done| |done].
    by rewrite Ha3. }
  destruct (decide (length R - j < length q0 + k - j)%nat) as [Hlt|Hge].
  - subst o. cbn [resume]. eexists _, j'. split; [done|]. split; [apply Hinv; lia|].
    split_and!; [done|done|]. rewrite decide_True by lia. split; [lia|done].
  - unfold upgrade in Ho. destruct (Z.ltb_spec 0 (default 0 (strong (sys x) !! w))) as [Hup|Hup].
    + destruct Ho as (it' & -> & Hy'). cbn [resume]. eexists _, j'. split; [done|]. split.
      { apply Hinv. split; [lia|]. rewrite drop_drop in Hy'. by replace j' with (j + (length q0 + k - j))%nat by lia. }
      split_and!; [done|done|]. rewrite decide_False by lia. split; [lia|]. cbn [is_done]. split; [done|lia].
    + subst o. cbn [resume]. eexists _, j'. split; [done|]. split; [apply Hinv; lia|].
      split_and!; [done|done|]. rewrite decide_False by lia. split; [lia|done].
Qed.

Lemma upd_strong_inv k j d x : sys_inv k j x →
  match writer x with Active _ _ => 0 < default 0 (strong (sys x) !! w) + d | Done _ => True end →
  sys_inv k j (upd_strong w d x).
Proof.
  intros [] Hd. split; try done. cbn [upd_strong writer sys strong].
  destruct (writer x); [|done]. rewrite lookup_insert_eq. naive_solver.
Qed.

Lemma sys_step_inv k j x x' : sys_inv k j x → sys_step w x x' → ∃ k' j', sys_inv k' j' x'.
Proof.
  intros Hinv Hstep. destruct Hstep as [x x' Hx|x x' Hx|x Hx|x Hx].
  - destruct (writer_turn_inv _ _ _ Hinv) as (y & k' & Hy & ? & _).
    rewrite Hx in Hy. injection Hy as <-. by exists k', j.
  - destruct (reader_turn_inv _ _ _ Hinv) as (y & j' & Hy & ? & _).
    rewrite Hx in Hy. injection Hy as <-. by exists k, j'.
  - exists k, j. apply upd_strong_inv; [done|]. destruct (writer x); [lia|done].
  - exists k, j. apply upd_strong_inv; [done|]. destruct (writer x); [lia|done].
Qed.

Lemma sys_reach_inv k j x x' : sys_inv k j x → rtc (sys_step w) x x' → ∃ k' j', sys_inv k' j' x'.
Proof.
  intros Hinv Hr. revert k j Hinv. induction Hr as [|x y z Hxy _ IH]; intros k j Hinv; [eauto|].
  destruct (sys_step_inv _ _ _ _ Hinv Hxy) as (? & ? & ?). eauto.
Qed.

(** What the invariant says about the memory. *)
Lemma sys_inv_memory k j x : sys_inv k j x →
  (∀ i l b, (i < j)%nat → R !! i = Some l → stream !! i = Some b → loc_byte (pmem (sys x)) l = b) ∧
  (∀ l, 0 <= l.2 → l ∉ R → loc_byte (pmem (sys x)) l = loc_byte m0 l).
Proof.
  intros [_ _ _ _ _ Hmem _ _]. rewrite Hmem. pose proof bytes_ok_stream. split.
  - intros i l b Hi Hl Hb. eapply (store_all_bytes _ _ _ i); [by apply Forall_take|done| | |done].
    + eapply sublist_NoDup; [done|apply sublist_take].
    + by rewrite lookup_take_lt.
  - intros l Hl0 Hl. apply store_all_other; [by apply Forall_take|done|done|].
    intros Hr%elem_of_take. destruct Hr as (i & Hi & _). apply Hl. by eapply list_elem_of_lookup_2.
Qed.

(** ** Round robin *)

Fixpoint rounds (n : nat) (x : Sys) : result Sys :=
  match n with
  | O => Ok x
  | S n => x1 ← writer_turn x; x2 ← reader_turn x1; rounds n x2
  end.

Context (Hroom : (length q0 + length W <= length R)%nat).

Lemma round_inv k j x : sys_inv k j x → ¬ is_done (reader x) → 0 < default 0 (strong (sys x) !! w) →
  ∃ x', (x1 ← writer_turn x; reader_turn x1) = Ok x' ∧ ¬ is_done (reader x') ∧
    strong (sys x') = strong (sys x) ∧
    ∃ k', sys_inv k' (length q0 + k') x' ∧ (k <= k')%nat ∧
      (is_done (writer x) → is_done (writer x')) ∧
      (is_done (writer x') ∨ (k' = k + room (drop j (q0 ++ take k sent)))%nat).
Proof.
  intros Hinv Hrd Hst.
  destruct (writer_turn_inv _ _ _ Hinv) as (x1 & k' & Hx1 & Hinv1 & Hr1 & Hs1 & Hw).
  destruct (reader_turn_inv _ _ _ Hinv1) as (x2 & j' & Hx2 & Hinv2 & Hw2 & Hs2 & Hr).
  rewrite Hr1 in Hr. destruct (reader x) as [it n|n] eqn:Hrx; [|by destruct Hrd].
  pose proof (si_k _ _ _ Hinv2). rewrite decide_False in Hr by lia. destruct Hr as [-> Hdone].
  exists x2. split; [by rewrite Hx1|]. rewrite Hs1 in Hdone. split; [intros ?%Hdone; lia|].
  split; [congruence|]. exists k'. split; [done|]. rewrite Hw2.
  destruct (writer x) as [it' n'|n'] eqn:Hwx.
  - cbv zeta in Hw. case_decide.
    + destruct Hw as [-> ->]. split; [apply Hinv|]. split; [done|]. by left.
    + subst k'. split; [lia|]. split; [done|]. by right.
  - destruct Hw as [-> ->]. split; [lia|]. rewrite Hwx. split; [done|]. by left.
Qed.

(** With the buffer empty every round moves [RING_BUFFER_SIZE] bytes. *)
Lemma rounds_done n : ∀ k x,
  sys_inv k (length q0 + k) x → ¬ is_done (reader x) → 0 < default 0 (strong (sys x) !! w) →
  (is_done (writer x) ∨ length W - k < n * 32)%nat →
  ∃ x', rounds n x = Ok x' ∧ is_done (writer x') ∧ ¬ is_done (reader x') ∧
    sys_inv (length W) (length q0 + length W) x' ∧ strong (sys x') = strong (sys x).
Proof.
  induction n as [|n IH]; intros k x Hinv Hrd Hst Hn.
  { exists x. assert (is_done (writer x)) as Hd by (destruct Hn; [done|lia]). split_and!; try done.
    destruct (writer x) as [|n] eqn:Hwx; [done|]. pose proof (si_writer _ _ _ Hinv) as Hsw.
    rewrite Hwx in Hsw. destruct Hsw as [_ ->]. done. }
  destruct (round_inv _ _ _ Hinv Hrd Hst) as (x2 & Hx2 & Hrd2 & Hs2 & k' & Hinv2 & Hk' & Hw & Hor).
  pose proof length_sent. pose proof (si_k _ _ _ Hinv). pose proof (si_k _ _ _ Hinv2).
  destruct (IH k' x2) as (x' & Hx' & Hw' & Hrd' & Hinv' & Hs'); [done|done|by rewrite Hs2| |].
  - destruct Hor as [?|Hk2]; [by left|]. rewrite drop_ge in Hk2 by (rewrite length_app, length_take; lia).
    change (room []) with 32%nat in Hk2. destruct Hn as [?%Hw|Hn]; [by left|]. right. lia.
  - exists x'. rewrite <- Hs2. split_and!; try done. cbn [rounds].
    destruct (writer_turn x) as [x1|] eqn:Hx1; [|done]. cbn in Hx2 |- *. rewrite Hx2. done.
Qed.

Lemma transfer_done x0 : sys_inv 0 0 x0 → ¬ is_done (reader x0) → strong (sys x0) !! w = Some 1 →
  ∃ x1 x2, rounds (length W / 32 + 2) x0 = Ok x1 ∧ writer x1 = Done (lengthZ W) ∧
    reader_turn (upd_strong w (-1) x1) = Ok x2 ∧ is_done (reader x2) ∧
    sys_inv (length W) (length q0 + length W) x2.
Proof.
  intros Hinv Hnr Hst. assert (0 < default 0 (strong (sys x0) !! w)) as Hop by (rewrite Hst; simpl; lia).
  destruct (round_inv _ _ _ Hinv Hnr Hop) as (y & Hy & Hyr & Hys & k & Hyi & _).
  replace (length W / 32 + 2)%nat with (S (length W / 32 + 1)) by lia.
  destruct (rounds_done (length W / 32 + 1) k y Hyi Hyr) as (x1 & Hx1 & Hw1 & Hr1 & Hi1 & Hs1).
  { by rewrite Hys. }
  { right. pose proof (Nat.div_mod_eq (length W) 32). pose proof (Nat.mod_upper_bound (length W) 32). lia. }
  assert (rounds (S (length W / 32 + 1)) x0 = Ok x1) as Hrounds.
  { cbn [rounds]. destruct (writer_turn x0) as [x'|]; [|done]. cbn in Hy |- *. by rewrite Hy. }
  destruct (writer x1) as [|nw] eqn:Hwx1; [done|].
  destruct (reader_turn_inv _ _ _ (upd_strong_inv _ _ (-1) x1 Hi1 ltac:(by rewrite Hwx1)))
    as (x2 & j & Hx2 & Hi2 & _ & _ & Hd).
  pose proof (si_writer _ _ _ Hi1) as Hsw. rewrite Hwx1 in Hsw. destruct Hsw as [-> _].
  cbn [upd_strong reader] in Hd. destruct (reader x1) as [it n|]; [|by destruct Hr1].
  rewrite decide_False in Hd by lia. destruct Hd as [-> Hd].
  exists x1, x2. split_and!; try done. apply Hd. cbn [upd_strong sys strong].
  rewrite lookup_insert_eq, Hs1, Hys, Hst. simpl. lia.
Qed.
End interleaving.

(** ** Calls on user buffers *)

Lemma buffer_yields b : buffer_ok b → yields (UserBuffer_into_iter b) (locs (buffers b)).
Proof.
  intros [Hs Hl]. unfold yields, UserBuffer_into_iter.
  assert (Forall (λ s, sl_lo s < sl_hi s) (buffers b)) as Hne.
  { eapply Forall_impl; [done|]. simpl. lia. }
  destruct (slices_bounded _ Hne) as [Hb1 Hb2].
  rewrite <- (drop_0 (locs (buffers b))) at 2.
  apply (ubi_drain_loop (buffers b) [] 0); [done| |unfold lengthZ in *; simpl; lia|done| |lia].
  - apply Forall_forall. intros s Hin. specialize (Hb2 _ Hin). lia.
  - destruct (buffers b) as [|s ss]; [done|]. apply Forall_cons in Hne as [? _]. unfold slice_len. lia.
Qed.

(** A write call from [bw] and a read call into [br] about to run on a pipe
    that holds [q0]. *)
Record calls_start (w : Z) (q0 : list Z) (bw br : UserBuffer) (x : Sys) : Prop := {
  cs_ring : ring_ok (ring (sys x)) q0;
  cs_end : write_end (ring (sys x)) = Some w;
  cs_open : 0 < default 0 (strong (sys x) !! w);
  cs_bw : buffer_ok bw;
  cs_br : buffer_ok br;
  cs_disjoint : locs (buffers bw) ## locs (buffers br);
  cs_nodup : NoDup (locs (buffers br));
  cs_writer : writer x = Active (UserBuffer_into_iter bw) 0;
  cs_reader : reader x = Active (UserBuffer_into_iter br) 0
}.

Lemma ring_bytes rb q : ring_ok rb q → bytes_ok q.
Proof.
  intros Hr. apply Forall_forall. intros b [i Hi]%list_elem_of_lookup.
  apply (ro_bytes _ _ Hr (Z.of_nat i)). rewrite lookupZ_nat, Nat2Z.id by lia. done.
Qed.

Lemma calls_start_inv w q0 bw br x : calls_start w q0 bw br x →
  sys_inv w q0 (locs (buffers bw)) (locs (buffers br)) (pmem (sys x)) 0 0 x.
Proof.
  intros [Hr He Ho Hw Hrd _ _ Hwx Hrx]. split; rewrite ?Hwx, ?Hrx, ?drop_0; try done; try lia.
  - by rewrite app_nil_r.
  - split_and!; [done|by apply buffer_yields|done].
  - split; [done|by apply buffer_yields].
Qed.

(** ** Properties *)

(** The ring buffer implements a bounded FIFO queue of 32 bytes: a fresh
    buffer is empty; on a buffer holding [q], [available_read] is its length and
    [available_write] the room left, [write_byte] appends a byte when there is
    room and [read_byte] removes the oldest byte when there is one, and neither
    panics.  (The array, the indices and the [status] flag stay consistent, in
    particular when the indices wrap around and when they meet.) *)
Theorem ring_refines_queue :
  ring_ok PipeRingBuffer_new [] ∧
  ∀ rb q, ring_ok rb q →
    available_read rb = lengthZ q ∧ available_write rb = RING_BUFFER_SIZE - lengthZ q ∧
    (∀ b, lengthZ q < RING_BUFFER_SIZE → 0 <= b < 256 →
       ∃ rb', write_byte b rb = Ok (tt, rb') ∧ ring_ok rb' (q ++ [b])) ∧
    (∀ b q', q = b :: q' → ∃ rb', read_byte rb = Ok (b, rb') ∧ ring_ok rb' q').
Proof.
  split; [apply new_ring_ok|]. intros rb q Hr. destruct (ring_available _ _ Hr) as [H1 H2].
  split_and!; [done|done| |].
  - intros b Hq Hb. destruct (wp_ok (write_byte b) (λ _ rb', ring_ok rb' (q ++ [b])) rb) as ([] & rb' & ? & ?).
    + by apply (wp_write_byte rb q).
    + eauto.
  - intros b q' ->. destruct (wp_ok read_byte (λ c rb', c = b ∧ ring_ok rb' q') rb) as (c & rb' & ? & -> & ?).
    + by apply (wp_read_byte rb q' b).
    + eauto.
Qed.

(** Every turn of a pipe call ends, and how it ends is determined.  With
    [q] in the buffer, [Pipe::read] into a buffer of [n] bytes takes the oldest
    [min n |q|] bytes into the first locations of the buffer; it returns when more
    than [n] bytes were there or when no write end is left, and suspends otherwise,
    also when exactly [n] bytes were there.  [Pipe::write] sends as many bytes as
    there is room for and returns only if room is left over.  The end that does
    not support the operation panics. *)
Theorem pipe_turn_outcomes buf q w s :
  ring_ok (ring s) q → write_end (ring s) = Some w → buffer_ok buf →
  let L := locs (buffers buf) in
  (∃ o s', Pipe_read read_end_with_buffer buf s = Ok (o, s') ∧ read_outcome s w q L 0 o ∧
     after s s' (drop (length L) q) (store_all (pmem s) (take (length q) L) q)) ∧
  (∃ o s', Pipe_write write_end_with_buffer buf s = Ok (o, s') ∧ write_outcome q L 0 o ∧
     after s s' (q ++ (loc_byte (pmem s) <$> take (room q) L)) (pmem s)) ∧
  Pipe_read write_end_with_buffer buf s = Panic PAssert ∧
  Pipe_write read_end_with_buffer buf s = Panic PAssert.
Proof.
  intros Hr Hw Hb L. pose proof (buffer_yields _ Hb) as Hy. pose proof (bo_len _ Hb) as Hl.
  split_and!; [| |done|done].
  - exact (wp_ok _ _ _ (wp_read_turn 0 _ _ 0 q w s Hr Hw Hy ltac:(lia) ltac:(lia))).
  - exact (wp_ok _ _ _ (wp_write_turn 0 _ _ 0 q s Hr Hy ltac:(lia) ltac:(lia))).
Qed.

(** C12: Whatever the order in which the scheduler runs a write call and a read
    call on a pipe (and clones or drops write ends), the pipe is a FIFO channel:
    at every moment some [k] bytes of the writer's buffer have been sent and [j]
    bytes received, the buffer holds exactly the bytes in between, the reader's
    locations hold the first [j] bytes of the stream in order, and no other byte of
    memory has changed.  A write call that returned sent its whole buffer, and a
    call returns the number of bytes it moved. *)
Theorem pipe_interleaving_fifo w q0 bw br x0 x :
  calls_start w q0 bw br x0 → rtc (sys_step w) x0 x →
  let W := locs (buffers bw) in let R := locs (buffers br) in
  let all := stream q0 W (pmem (sys x0)) in
  ∃ k j : nat, (k <= length W)%nat ∧ (j <= length R)%nat ∧ (j <= length q0 + k)%nat ∧
    ring_ok (ring (sys x)) (drop j (take (length q0 + k) all)) ∧
    (∀ i l b, (i < j)%nat → R !! i = Some l → all !! i = Some b → loc_byte (pmem (sys x)) l = b) ∧
    (∀ l, 0 <= l.2 → l ∉ R → loc_byte (pmem (sys x)) l = loc_byte (pmem (sys x0)) l) ∧
    match writer x with Done n => n = lengthZ W ∧ k = length W | Active _ n => n = Z.of_nat k end ∧
    match reader x with Done n => n = Z.of_nat j | Active _ n => n = Z.of_nat j end.
Proof.
  intros Hs Hreach W R all. pose proof (calls_start_inv _ _ _ _ _ Hs) as Hinv.
  destruct Hs as [Hr _ _ Hbw Hbr Hdj Hnd _ _].
  pose proof (buffer_locs_ok _ Hbw) as HW. pose proof (buffer_locs_ok _ Hbr) as HR.
  pose proof (ring_bytes _ _ Hr) as Hq0.
  destruct (sys_reach_inv w q0 W R (pmem (sys x0)) HW HR Hdj Hq0 (bo_len _ Hbw) (bo_len _ Hbr) _ _ _ _ Hinv Hreach)
    as (k & j & Hi).
  destruct (sys_inv_memory w q0 W R (pmem (sys x0)) HR Hnd Hq0 _ _ _ Hi) as [Hm1 Hm2].
  destruct Hi as [Hk HjR Hj Hring _ _ Hw Hrd]. exists k, j. split_and!; try done.
  - unfold all, stream. rewrite take_app_add. done.
  - destruct (writer x); naive_solver.
  - destruct (reader x); naive_solver.
Qed.

(** C29: Progress: scheduled in turns, a write call of [n] bytes and a read call
    whose buffer has room for all that is sent (the bytes already in the pipe and
    the [n] bytes) make the transfer complete: after [n / 32 + 2] rounds the writer
    has returned [n], and when its end is then closed the next turn of the reader
    returns the number of bytes that were sent, all of them in its buffer.  (A
    reader with a smaller buffer may return and leave the writer waiting for room.) *)
Theorem pipe_transfer_completes w q0 bw br x0 :
  calls_start w q0 bw br x0 → strong (sys x0) !! w = Some 1 →
  let W := locs (buffers bw) in let R := locs (buffers br) in
  let all := stream q0 W (pmem (sys x0)) in
  (length all <= length R)%nat →
  ∃ x1 x2, rounds (length W / 32 + 2) x0 = Ok x1 ∧ writer x1 = Done (lengthZ W) ∧
    reader_turn (upd_strong w (-1) x1) = Ok x2 ∧ reader x2 = Done (lengthZ all) ∧
    ∀ i l b, R !! i = Some l → all !! i = Some b → loc_byte (pmem (sys x2)) l = b.
Proof.
  intros Hs Hst W R all Hlen. pose proof (calls_start_inv _ _ _ _ _ Hs) as Hinv.
  destruct Hs as [Hr _ _ Hbw Hbr Hdj Hnd _ Hrx].
  pose proof (buffer_locs_ok _ Hbw) as HW. pose proof (buffer_locs_ok _ Hbr) as HR.
  pose proof (ring_bytes _ _ Hr) as Hq0.
  assert (length all = length q0 + length W)%nat as Hall
    by (unfold all, stream, sent; rewrite length_app, length_fmap; done).
  rewrite Hall in Hlen.
  destruct (transfer_done w q0 W R (pmem (sys x0)) HW HR Hdj Hq0 (bo_len _ Hbw) (bo_len _ Hbr) Hlen x0)
    as (x1 & x2 & Hx1 & Hw1 & Hx2 & Hd & Hi); [done|by rewrite Hrx; tauto|done|].
  exists x1, x2. split_and!; [done|done|done| |].
  - pose proof (si_reader _ _ _ _ _ _ _ _ Hi) as Hsr. destruct (reader x2); [done|].
    unfold lengthZ. by rewrite Hsr, Hall.
  - destruct (sys_inv_memory w q0 W R _ HR Hnd Hq0 _ _ _ Hi) as [Hm _].
    intros i l b Hl Hb. apply (Hm i l b); [|done|done]. apply lookup_lt_Some in Hb. fold all in Hb. lia.
Qed.

(** ** Witnesses: 40 bytes sent from frame 1 into a buffer of 40 bytes in the
    frames 2 and 3. *)

Definition demo_bw : UserBuffer := {| buffers := [{| sl_ppn := 1; sl_lo := 0; sl_hi := 40 |}] |}.
Definition demo_br : UserBuffer :=
  {| buffers := [{| sl_ppn := 2; sl_lo := 4072; sl_hi := 4096 |}; {| sl_ppn := 3; sl_lo := 0; sl_hi := 16 |}] |}.
Definition demo_pipe : PipeState :=
  (make_pipe 10 11 {[ 1 := {[ 0 := 0x0807060504030201; 1 := 0x100f0e0d0c0b0a09 ]} ]}).2.
Definition demo_sys : Sys :=
  {| sys := demo_pipe; writer := Active (UserBuffer_into_iter demo_bw) 0;
     reader := Active (UserBuffer_into_iter demo_br) 0 |}.

Lemma demo_ring : ring_ok (ring demo_pipe) [].
Proof. destruct new_ring_ok. split; done. Qed.

Lemma demo_buffers : buffer_ok demo_bw ∧ buffer_ok demo_br.
Proof. split; split; [repeat constructor; done|by vm_compute|repeat constructor; done|by vm_compute]. Qed.

Lemma demo_start : calls_start 11 [] demo_bw demo_br demo_sys.
Proof.
  destruct demo_buffers. split; try done.
  - apply demo_ring.
  - intros l Hw Hr. 
    assert (Forall (λ l : loc, l.1 = 1) (locs (buffers demo_bw))) as HW by (vm_compute; by repeat constructor).
    assert (Forall (λ l : loc, l.1 ≠ 1) (locs (buffers demo_br))) as HR by (vm_compute; by repeat constructor).
    rewrite Forall_forall in HW, HR. by apply (HR l), HW.
  - apply (bool_decide_unpack _). by vm_compute.
Qed.

Lemma pipe_turn_outcomes_witness : ∃ it s', 
  Pipe_read read_end_with_buffer demo_br demo_pipe = Ok (Some (Suspend it 0), s').
Proof.
  destruct (pipe_turn_outcomes demo_br [] 11 demo_pipe demo_ring eq_refl (proj2 demo_buffers))
    as ((o & s' & Ho & (it & -> & _) & _) & _). by exists it, s'.
Defined.

(** One turn of each call, the reader after the writer. *)
Definition demo_sent : Sys := match writer_turn demo_sys with Ok x => x | Panic _ => demo_sys end.
Definition demo_received : Sys := match reader_turn demo_sent with Ok x => x | Panic _ => demo_sent end.

Lemma pipe_interleaving_fifo_witness :
  rtc (sys_step 11) demo_sys demo_received ∧ loc_byte (pmem (sys demo_received)) (2, 4073) = 2 ∧
  ring_ok (ring (sys demo_received)) [].
Proof.
  assert (rtc (sys_step 11) demo_sys demo_received) as Hr
    by (apply (rtc_l _ _ demo_sent); [|apply rtc_once]; constructor; by vm_compute).
  destruct (pipe_interleaving_fifo 11 [] demo_bw demo_br demo_sys _ demo_start Hr)
    as (k & j & _ & _ & _ & Hring & Hm & _ & Hk & Hj).
  assert (∃ it it', writer demo_received = Active it 32 ∧ reader demo_received = Active it' 32) as (it & it' & Ew & Er)
    by (eexists _, _; split; by vm_compute).
  rewrite Ew in Hk. rewrite Er in Hj. assert (k = 32 ∧ j = 32)%nat as [-> ->] by lia.
  split; [exact Hr|]. split; [|by vm_compute in Hring].
  apply (Hm 1%nat); [lia|by vm_compute|by vm_compute].
Defined.

Lemma pipe_transfer_completes_witness : ∃ x1 x2,
  rounds (length (locs (buffers demo_bw)) / 32 + 2) demo_sys = Ok x1 ∧ reader_turn (upd_strong 11 (-1) x1) = Ok x2 ∧ reader x2 = Done 40.
Proof.
  destruct (pipe_transfer_completes 11 [] demo_bw demo_br demo_sys demo_start eq_refl)
    as (x1 & x2 & H1 & _ & H2 & H3 & _); [vm_compute; lia|].
  exists x1, x2. split; [exact H1|]. split; [exact H2|]. rewrite H3. reflexivity.
Defined.
