(* ===== verification/Sched.v ===== *)
(** * Tasks and the scheduler

    [os/src/task/task.rs], [context.rs], [manager.rs], [processor.rs],
    [switch.S] and the switching functions of [mod.rs]: the task control
    blocks, the FIFO ready queue, the processor and the switches between a task
    and the idle control flow.

    An [Arc<TaskControlBlock>] is the number of the block in the table [tcbs].
    The callee-saved registers [__switch] saves and restores are the [cpu] part
    of the state.  A function that calls [schedule] ends, for the task, at the
    switch; the task continues when [run_tasks] switches back to it. *)

From S2P Require Import Prelude Address.

Inductive TaskStatus := Ready | Running | Blocking.
#[export] Instance TaskStatus_eq_dec : EqDecision TaskStatus.
Proof. solve_decision. Defined.

Record TaskContext := { ra : Z; sp : Z; sregs : list Z }.
Definition zero_init : TaskContext := {| ra := 0; sp := 0; sregs := replicate 12 0 |}.
(** [trap_return] is the address of the function. *)
Definition goto_trap_return (trap_return kstack_ptr : Z) : TaskContext :=
  {| ra := trap_return; sp := kstack_ptr; sregs := replicate 12 0 |}.

(** [TaskUserRes]: the thread's id and the base of its process's user stacks. *)
Record TaskUserRes := { tid : Z; ustack_base : Z }.

(** [process] is the number of the process, [kstack] the id of the kernel stack. *)
Record TaskControlBlock := {
  process : Z;
  kstack : Z;
  res : option TaskUserRes;
  trap_cx_ppn : Z;
  task_cx : TaskContext;
  task_status : TaskStatus;
  exit_code : option Z
}.

Definition set_status (st : TaskStatus) (t : TaskControlBlock) : TaskControlBlock :=
  {| process := process t; kstack := kstack t; res := res t; trap_cx_ppn := trap_cx_ppn t;
     task_cx := task_cx t; task_status := st; exit_code := exit_code t |}.
Definition set_cx (cx : TaskContext) (t : TaskControlBlock) : TaskControlBlock :=
  {| process := process t; kstack := kstack t; res := res t; trap_cx_ppn := trap_cx_ppn t;
     task_cx := cx; task_status := task_status t; exit_code := exit_code t |}.

Record Sched := {
  ready_queue : list Z;
  cur : option Z;
  idle_task_cx : TaskContext;
  cpu : TaskContext;
  tcbs : gmap Z TaskControlBlock
}.

Definition upd_queue (f : list Z → list Z) (s : Sched) : Sched :=
  {| ready_queue := f (ready_queue s); cur := cur s; idle_task_cx := idle_task_cx s;
     cpu := cpu s; tcbs := tcbs s |}.
Definition upd_cur (c : option Z) (s : Sched) : Sched :=
  {| ready_queue := ready_queue s; cur := c; idle_task_cx := idle_task_cx s;
     cpu := cpu s; tcbs := tcbs s |}.
Definition upd_tcb (t : Z) (f : TaskControlBlock → TaskControlBlock) (s : Sched) : Sched :=
  {| ready_queue := ready_queue s; cur := cur s; idle_task_cx := idle_task_cx s;
     cpu := cpu s; tcbs := alter f t (tcbs s) |}.
Definition upd_idle (cx : TaskContext) (s : Sched) : Sched :=
  {| ready_queue := ready_queue s; cur := cur s; idle_task_cx := cx; cpu := cpu s; tcbs := tcbs s |}.
Definition upd_cpu (cx : TaskContext) (s : Sched) : Sched :=
  {| ready_queue := ready_queue s; cur := cur s; idle_task_cx := idle_task_cx s; cpu := cx; tcbs := tcbs s |}.

(** ** The ready queue *)

Definition add_task (t : Z) : M Sched unit := modify (upd_queue (λ q, q ++ [t])).
Definition fetch_task : M Sched (option Z) :=
  s ← get;
  match ready_queue s with
  | [] => mret None
  | t :: q => _ ← modify (upd_queue (λ _, q)); mret (Some t)
  end.

(** ** The processor *)

Definition take_current_task : M Sched (option Z) :=
  s ← get; _ ← modify (upd_cur None); mret (cur s).
Definition current_task : M Sched (option Z) := gets cur.

(** [__switch(current, next)]: save the registers, load the next context.  The
    pointers are the context of a task, the idle context, or (when a task exits)
    a variable nobody reads. *)
Inductive cx_ptr := TaskCx (t : Z) | IdleCx | UnusedCx.
Definition save_cx (p : cx_ptr) (s : Sched) : Sched :=
  match p with
  | TaskCx t => upd_tcb t (set_cx (cpu s)) s
  | IdleCx => upd_idle (cpu s) s
  | UnusedCx => s
  end.
Definition load_cx (p : cx_ptr) (s : Sched) : Sched :=
  match p with
  | TaskCx t => match tcbs s !! t with Some b => upd_cpu (task_cx b) s | None => s end
  | IdleCx => upd_cpu (idle_task_cx s) s
  | UnusedCx => s
  end.
Definition switch (current_task_cx_ptr next_task_cx_ptr : cx_ptr) : M Sched unit :=
  modify (λ s, load_cx next_task_cx_ptr (save_cx current_task_cx_ptr s)).

Definition schedule (switched_task_cx_ptr : cx_ptr) : M Sched unit :=
  switch switched_task_cx_ptr IdleCx.

(** One iteration of the loop of [run_tasks]; [false] when no task is ready. *)
Definition run_next : M Sched bool :=
  o ← fetch_task;
  match o with
  | Some t =>
      _ ← modify (upd_tcb t (set_status Running));
      _ ← modify (upd_cur (Some t));
      _ ← switch IdleCx (TaskCx t);
      mret true
  | None => mret false
  end.

Definition suspend_current_and_run_next : M Sched unit :=
  o ← take_current_task;
  t ← unwrap o;
  _ ← modify (upd_tcb t (set_status Ready));
  _ ← add_task t;
  schedule (TaskCx t).

Definition block_current_and_run_next : M Sched unit :=
  o ← take_current_task;
  t ← unwrap o;
  _ ← modify (upd_tcb t (set_status Blocking));
  schedule (TaskCx t).

(** The scheduling part of [exit_current_and_run_next]: the task is taken off
    the processor and its context is not saved. *)
Definition leave_current : M Sched unit :=
  o ← take_current_task;
  _ ← unwrap o;
  schedule UnusedCx.

(** ** Invariant

    [waiting] are the tasks parked in some wait queue.  No task is in two places
    (on the processor, in the ready queue, parked) or twice in one; that no task
    leaves its place without going to another is stated over histories below, by
    [sched_steps_places]. *)

Definition places (s : Sched) (waiting : list Z) : list Z :=
  option_list (cur s) ++ ready_queue s ++ waiting.

Record sched_ok (s : Sched) (waiting : list Z) : Prop := {
  so_nodup : NoDup (places s waiting);
  so_live : ∀ t, t ∈ places s waiting → is_Some (tcbs s !! t);
  so_running : ∀ t, cur s = Some t → task_status <$> tcbs s !! t = Some Running
}.

Lemma places_upd_tcb t f s w : places (upd_tcb t f s) w = places s w.
Proof. done. Qed.
Lemma is_Some_upd_tcb t f s u : is_Some (tcbs (upd_tcb t f s) !! u) ↔ is_Some (tcbs s !! u).
Proof. simpl. rewrite lookup_alter_is_Some. done. Qed.

(** The effect of the switching functions on the whole state. *)

Lemma suspend_eq s t : cur s = Some t →
  suspend_current_and_run_next s =
    Ok (tt, {| ready_queue := ready_queue s ++ [t]; cur := None; idle_task_cx := idle_task_cx s;
               cpu := idle_task_cx s;
               tcbs := alter (set_cx (cpu s)) t (alter (set_status Ready) t (tcbs s)) |}).
Proof.
  intros Ht. unfold suspend_current_and_run_next, take_current_task, unwrap, add_task, schedule, switch.
  unfold mbind, M_bind, get, modify, mret, M_ret. rewrite Ht. done.
Qed.

Lemma block_eq s t : cur s = Some t →
  block_current_and_run_next s =
    Ok (tt, {| ready_queue := ready_queue s; cur := None; idle_task_cx := idle_task_cx s;
               cpu := idle_task_cx s;
               tcbs := alter (set_cx (cpu s)) t (alter (set_status Blocking) t (tcbs s)) |}).
Proof.
  intros Ht. unfold block_current_and_run_next, take_current_task, unwrap, schedule, switch.
  unfold mbind, M_bind, get, modify, mret, M_ret. rewrite Ht. done.
Qed.

Lemma leave_eq s t : cur s = Some t →
  leave_current s =
    Ok (tt, {| ready_queue := ready_queue s; cur := None; idle_task_cx := idle_task_cx s;
               cpu := idle_task_cx s; tcbs := tcbs s |}).
Proof.
  intros Ht. unfold leave_current, take_current_task, unwrap, schedule, switch.
  unfold mbind, M_bind, get, modify, mret, M_ret. rewrite Ht. done.
Qed.

Lemma run_next_eq s t q b : ready_queue s = t :: q → tcbs s !! t = Some b →
  run_next s =
    Ok (true, {| ready_queue := q; cur := Some t; idle_task_cx := cpu s; cpu := task_cx b;
                 tcbs := alter (set_status Running) t (tcbs s) |}).
Proof.
  intros Hq Hb. unfold run_next, fetch_task, switch.
  unfold mbind, M_bind, get, modify, mret, M_ret. rewrite Hq. simpl.
  by rewrite lookup_alter_eq, Hb.
Qed.
Lemma run_next_idle s : ready_queue s = [] → run_next s = Ok (false, s).
Proof. intros Hq. unfold run_next, fetch_task, mbind, M_bind, get. by rewrite Hq. Qed.

(** ** Histories

    The running task suspends, blocks or exits; a parked task is woken (by
    [add_task], from [unlock], [up], [signal] or [check_timer]); a new task is put
    into the queue (by [add_task], from [fork] and [sys_thread_create]); the idle
    control flow dispatches.  The parked tasks are the second component. *)

Inductive event := EDispatch | ESuspend | EBlock | EExit (t : Z) | EWake (t : Z) | ENew (t : Z).

Definition insert_tcb (t : Z) (b : TaskControlBlock) (s : Sched) : Sched :=
  {| ready_queue := ready_queue s; cur := cur s; idle_task_cx := idle_task_cx s;
     cpu := cpu s; tcbs := <[t := b]> (tcbs s) |}.

Inductive sched_step : event → Sched * list Z → Sched * list Z → Prop :=
  | ss_dispatch s w b s' : cur s = None → run_next s = Ok (b, s') →
      sched_step EDispatch (s, w) (s', w)
  | ss_suspend s w s' : suspend_current_and_run_next s = Ok (tt, s') →
      sched_step ESuspend (s, w) (s', w)
  | ss_block s w t s' : cur s = Some t → block_current_and_run_next s = Ok (tt, s') →
      sched_step EBlock (s, w) (s', w ++ [t])
  | ss_exit s w t s' : cur s = Some t → leave_current s = Ok (tt, s') →
      sched_step (EExit t) (s, w) (s', w)
  | ss_wake s w1 t w2 s' : add_task t s = Ok (tt, s') →
      sched_step (EWake t) (s, w1 ++ t :: w2) (s', w1 ++ w2)
  | ss_new s w t b s' : tcbs s !! t = None → add_task t (insert_tcb t b s) = Ok (tt, s') →
      sched_step (ENew t) (s, w) (s', w).

Inductive sched_steps : list event → Sched * list Z → Sched * list Z → Prop :=
  | sss_nil x : sched_steps [] x x
  | sss_cons e es x y z : sched_step e x y → sched_steps es y z → sched_steps (e :: es) x z.

Lemma suspend_current s s' : suspend_current_and_run_next s = Ok (tt, s') → ∃ t, cur s = Some t.
Proof.
  unfold suspend_current_and_run_next, take_current_task, unwrap, mbind, M_bind, get, modify, mret, M_ret.
  destruct (cur s) as [t|]; [by eauto|done].
Qed.
Lemma add_task_eq t s : add_task t s = Ok (tt, upd_queue (λ q, q ++ [t]) s).
Proof. done. Qed.

Lemma NoDup_submseteq_inv {A} (l k : list A) : l ⊆+ k → NoDup k → NoDup l.
Proof. intros [l' ->]%submseteq_Permutation Hnd. by apply NoDup_app in Hnd as [? _]. Qed.

(** Moving a task between places. *)
Lemma sched_ok_perm s w s' w' :
  sched_ok s w → places s' w' ⊆+ places s w →
  (∀ t, is_Some (tcbs s !! t) → is_Some (tcbs s' !! t)) →
  (∀ t, cur s' = Some t → task_status <$> tcbs s' !! t = Some Running) →
  sched_ok s' w'.
Proof.
  intros [Hnd Hl Hr] Hp Hd Hr'. split; [by eapply NoDup_submseteq_inv| |done].
  intros t Ht. apply Hd, Hl. by eapply elem_of_submseteq.
Qed.

Lemma sched_step_ok e s w s' w' :
  sched_step e (s, w) (s', w') → sched_ok s w → sched_ok s' w'.
Proof.
  intros Hstep Hok. inversion Hstep as [? ? b ? Hc He|? ? ? He|? ? t ? Hc He|? ? t ? Hc He|? w1 t w2 ? He|? ? t b ? Hn He]; subst.
  - destruct (ready_queue s) as [|t q] eqn:Hq.
    + rewrite run_next_idle in He by done. by simplify_eq.
    + destruct (so_live _ _ Hok t) as [bt Hbt].
      { unfold places. rewrite Hc, Hq. simpl. set_solver. }
      rewrite (run_next_eq _ _ _ _ Hq Hbt) in He. simplify_eq.
      eapply sched_ok_perm; [done| | |].
      * unfold places. by rewrite Hc, Hq.
      * intros u Hu. simpl. by rewrite lookup_alter_is_Some.
      * simpl. intros u [= <-]. by rewrite lookup_alter_eq, Hbt.
  - destruct (suspend_current _ _ He) as [t Ht]. rewrite (suspend_eq _ _ Ht) in He. simplify_eq.
    eapply sched_ok_perm; [done| |simpl; intros u Hu; by rewrite !lookup_alter_is_Some|done].
    unfold places. rewrite Ht. simpl. rewrite <- !app_assoc. simpl. by rewrite Permutation_middle.
  - rewrite (block_eq _ _ Hc) in He. simplify_eq.
    eapply sched_ok_perm; [done| |simpl; intros u Hu; by rewrite !lookup_alter_is_Some|done].
    unfold places. rewrite Hc. simpl. rewrite app_assoc. by rewrite <- Permutation_cons_append.
  - rewrite (leave_eq _ _ Hc) in He. simplify_eq.
    eapply sched_ok_perm; [done| |done|done].
    unfold places. rewrite Hc. simpl. by apply submseteq_cons.
  - rewrite add_task_eq in He. simplify_eq.
    eapply sched_ok_perm; [done| |done|apply Hok].
    unfold places. simpl. rewrite <- app_assoc. simpl.
    apply submseteq_app; [done|]. apply submseteq_app; [done|].
    by rewrite Permutation_middle.
  - rewrite add_task_eq in He. simplify_eq. destruct Hok as [Hnd Hl Hr].
    assert (places (upd_queue (λ q, q ++ [t]) (insert_tcb t b s)) w' ≡ₚ t :: places s w') as Hp.
    { unfold places. simpl. rewrite <- app_assoc. simpl. by rewrite <- !Permutation_middle. }
    assert (t ∉ places s w') as Ht by (intros [x Hx]%Hl; congruence).
    split; [by rewrite Hp; apply NoDup_cons| |].
    + intros u Hu. rewrite Hp in Hu. simpl. destruct (decide (u = t)) as [->|Hne]; [by rewrite lookup_insert_eq|].
      rewrite lookup_insert_ne by done. apply elem_of_cons in Hu as [->|Hu]; [done|by apply Hl].
    + simpl. intros u Hu. rewrite lookup_insert_ne; [by apply Hr|]. intros ->. apply Ht. unfold places. rewrite Hu. by left.
Qed.

(** The tasks that were made and that exited in a history. *)
Definition made (e : event) : list Z := match e with ENew t => [t] | _ => [] end.
Definition gone (e : event) : list Z := match e with EExit t => [t] | _ => [] end.

(** No task is lost: an event moves a task from one place to another. *)
Lemma sched_step_places e s w s' w' : sched_step e (s, w) (s', w') → sched_ok s w →
  places s' w' ++ gone e ≡ₚ made e ++ places s w.
Proof.
  intros Hstep Hok. inversion Hstep as [? ? b ? Hc He|? ? ? He|? ? t ? Hc He|? ? t ? Hc He|? w1 t w2 ? He|? ? t b ? Hn He]; subst;
    cbn [made gone]; rewrite ?app_nil_r.
  - destruct (ready_queue s) as [|t q] eqn:Hq.
    + rewrite run_next_idle in He by done. by simplify_eq.
    + destruct (so_live _ _ Hok t) as [bt Hbt].
      { unfold places. rewrite Hc, Hq. simpl. by left. }
      rewrite (run_next_eq _ _ _ _ Hq Hbt) in He. simplify_eq. unfold places. by rewrite Hc, Hq.
  - destruct (suspend_current _ _ He) as [t Ht]. rewrite (suspend_eq _ _ Ht) in He. simplify_eq.
    unfold places. rewrite Ht. simpl. rewrite <- !app_assoc. simpl. by rewrite <- Permutation_middle.
  - rewrite (block_eq _ _ Hc) in He. simplify_eq. unfold places. rewrite Hc. simpl. rewrite app_assoc. by rewrite <- Permutation_cons_append.
  - rewrite (leave_eq _ _ Hc) in He. simplify_eq. unfold places. rewrite Hc. simpl. by rewrite <- Permutation_cons_append.
  - rewrite add_task_eq in He. simplify_eq. unfold places. simpl. rewrite <- app_assoc. simpl. by rewrite Permutation_middle.
  - rewrite add_task_eq in He. simplify_eq. unfold places. simpl. rewrite <- app_assoc. simpl. by rewrite <- !Permutation_middle.
Qed.

#[export] Instance event_eq_dec : EqDecision event.
Proof. solve_decision. Defined.

Definition dispatches (es : list event) : nat :=
  length (filter (λ e, e = EDispatch) es).

(** What one event does to the place of a ready task. *)
Lemma sched_step_queue e s w s' w' i t :
  sched_step e (s, w) (s', w') → sched_ok s w → ready_queue s !! i = Some t →
  if decide (e = EDispatch) then
    match i with
    | O => cur s' = Some t ∧ task_cx <$> tcbs s !! t = Some (cpu s')
    | S i => ready_queue s' !! i = Some t
    end
  else ready_queue s' !! i = Some t.
Proof.
  intros Hstep Hok Hi.
  inversion Hstep as [? ? b ? Hc He|? ? ? He|? ? u ? Hc He|? ? u ? Hc He|? w1 u w2 ? He|? ? u bu ? Hn He]; subst;
    [rewrite decide_True by done|rewrite decide_False by done..].
  - destruct (ready_queue s) as [|u q] eqn:Hq; [done|].
    destruct (so_live _ _ Hok u) as [bu Hbu].
    { unfold places. rewrite Hc, Hq. simpl. set_solver. }
    rewrite (run_next_eq _ _ _ _ Hq Hbu) in He. simplify_eq.
    destruct i as [|i]; simplify_eq/=; [|done]. by rewrite Hbu.
  - destruct (suspend_current _ _ He) as [u Hu]. rewrite (suspend_eq _ _ Hu) in He. simplify_eq.
    simpl. by apply lookup_app_l_Some.
  - rewrite (block_eq _ _ Hc) in He. by simplify_eq.
  - rewrite (leave_eq _ _ Hc) in He. by simplify_eq.
  - rewrite add_task_eq in He. simplify_eq. simpl. by apply lookup_app_l_Some.
  - rewrite add_task_eq in He. simplify_eq. simpl. by apply lookup_app_l_Some.
Qed.

Lemma sched_steps_ok es x y :
  sched_steps es x y → sched_ok x.1 x.2 → sched_ok y.1 y.2.
Proof.
  induction 1 as [|e es [s w] [s1 w1] [s2 w2] H1 _ IH]; [done|]. intros Hok. apply IH.
  by eapply sched_step_ok.
Qed.

Lemma sched_steps_places es x y : sched_steps es x y → sched_ok x.1 x.2 →
  places y.1 y.2 ++ (es ≫= gone) ≡ₚ (es ≫= made) ++ places x.1 x.2.
Proof.
  induction 1 as [|e es [s w] [s1 w1] [s2 w2] H1 _ IH]; intros Hok; [by rewrite app_nil_r|].
  specialize (IH (sched_step_ok _ _ _ _ _ H1 Hok)). pose proof (sched_step_places _ _ _ _ _ H1 Hok) as Hp. simpl in *.
  rewrite (Permutation_app_comm (gone e)), app_assoc, IH, <- app_assoc, Hp, !app_assoc. by rewrite (Permutation_app_comm (made e)).
Qed.

Lemma dispatches_cons e es :
  dispatches (e :: es) = ((if decide (e = EDispatch) then 1 else 0) + dispatches es)%nat.
Proof. unfold dispatches. rewrite filter_cons. by case_decide. Qed.

Lemma sched_steps_queue es x y i t :
  sched_steps es x y → sched_ok x.1 x.2 → ready_queue x.1 !! i = Some t →
  (dispatches es <= i)%nat → ready_queue y.1 !! (i - dispatches es)%nat = Some t.
Proof.
  intros Hs. revert i. induction Hs as [|e es [s w] [s1 w1] [s2 w2] H1 _ IH]; intros i Hok Hi Hle.
  { unfold dispatches. simpl. by rewrite Nat.sub_0_r. }
  pose proof (sched_step_ok _ _ _ _ _ H1 Hok) as Hok1.
  pose proof (sched_step_queue _ _ _ _ _ i t H1 Hok Hi) as Hq. rewrite dispatches_cons in *.
  destruct (decide (e = EDispatch)).
  - destruct i as [|i]; [lia|]. simpl. apply IH; [done|done|lia].
  - apply IH; [done|done|lia].
Qed.

(** The saved context of a task that is not running stays as it is. *)
Lemma sched_step_cx e s w s' w' t :
  sched_step e (s, w) (s', w') → sched_ok s w → cur s ≠ Some t → is_Some (tcbs s !! t) →
  task_cx <$> tcbs s' !! t = task_cx <$> tcbs s !! t.
Proof.
  intros Hstep Hok Hne [bt Hbt].
  inversion Hstep as [? ? b ? Hc He|? ? ? He|? ? u ? Hc He|? ? u ? Hc He|? w1 u w2 ? He|? ? u bu ? Hn He]; subst.
  - destruct (ready_queue s) as [|u q] eqn:Hq.
    { rewrite run_next_idle in He by done. by simplify_eq. }
    destruct (so_live _ _ Hok u) as [bu Hbu].
    { unfold places. rewrite Hc, Hq. simpl. set_solver. }
    rewrite (run_next_eq _ _ _ _ Hq Hbu) in He. simplify_eq. simpl.
    destruct (decide (u = t)) as [->|?]; [by rewrite lookup_alter_eq, Hbu|by rewrite lookup_alter_ne].
  - destruct (suspend_current _ _ He) as [u Hu]. rewrite (suspend_eq _ _ Hu) in He. simplify_eq. simpl.
    by rewrite !lookup_alter_ne by congruence.
  - rewrite (block_eq _ _ Hc) in He. simplify_eq. simpl. by rewrite !lookup_alter_ne by congruence.
  - rewrite (leave_eq _ _ Hc) in He. by simplify_eq.
  - rewrite add_task_eq in He. by simplify_eq.
  - rewrite add_task_eq in He. simplify_eq. simpl. by rewrite lookup_insert_ne by congruence.
Qed.

(** Steps during which [t] does not run. *)
Definition away_step (t : Z) (x y : Sched * list Z) : Prop :=
  cur x.1 ≠ Some t ∧ ∃ e, sched_step e x y.

Lemma away_cx t x y : rtc (away_step t) x y → sched_ok x.1 x.2 → is_Some (tcbs x.1 !! t) →
  sched_ok y.1 y.2 ∧ task_cx <$> tcbs y.1 !! t = task_cx <$> tcbs x.1 !! t.
Proof.
  induction 1 as [|[s w] [s1 w1] [s2 w2] [Hne [e He]] _ IH]; intros Hok Hs; [done|].
  pose proof (sched_step_cx _ _ _ _ _ t He Hok Hne Hs) as Hcx. simpl in *.
  destruct (IH (sched_step_ok _ _ _ _ _ He Hok)) as [Hok2 Heq]; [by rewrite <- (fmap_is_Some task_cx), Hcx, fmap_is_Some|].
  split; [done|]. by rewrite Heq.
Qed.

(** ** Properties *)

(** C26: The scheduler never loses, duplicates or confuses a task: whatever the
    tasks do (suspend, block, exit, make and wake others) and however often the
    idle flow dispatches, the tasks on the processor, in the ready queue and parked
    in wait queues are exactly those that were there at the start or were made
    since and have not exited, each of them in one place and once; all of them are
    live and the one on the processor is marked [Running]; and no scheduling
    function panics while a task is running. *)
Theorem scheduler_invariant es s w s' w' :
  sched_ok s w → sched_steps es (s, w) (s', w') →
  sched_ok s' w' ∧ places s' w' ++ (es ≫= gone) ≡ₚ (es ≫= made) ++ places s w ∧
  (∀ t, cur s' = Some t → is_Some (tcbs s' !! t) ∧ t ∉ ready_queue s' ∧ t ∉ w' ∧
     (∃ s2, suspend_current_and_run_next s' = Ok (tt, s2)) ∧
     (∃ s2, block_current_and_run_next s' = Ok (tt, s2)) ∧ ∃ s2, leave_current s' = Ok (tt, s2)).
Proof.
  intros Hok Hs. pose proof (sched_steps_ok _ _ _ Hs Hok) as Hok'. simpl in Hok'. split; [done|].
  split; [exact (sched_steps_places _ _ _ Hs Hok)|]. intros t Ht. destruct Hok' as [Hnd Hl _]. unfold places in *. rewrite Ht in *. simpl in *.
  apply NoDup_cons in Hnd as [Hni _]. rewrite elem_of_app in Hni. split_and!.
  - apply Hl. left.
  - tauto.
  - tauto.
  - rewrite (suspend_eq _ _ Ht). eauto.
  - rewrite (block_eq _ _ Ht). eauto.
  - rewrite (leave_eq _ _ Ht). eauto.
Qed.

(** FIFO scheduling, and no starvation: a task at position [i] of the ready
    queue is the one put on the processor by the [i+1]-st dispatch, whatever the
    tasks that run before it do and whoever is added to the queue meanwhile. *)
Theorem ready_task_runs es s w s1 w1 s' w' i t :
  sched_ok s w → ready_queue s !! i = Some t →
  sched_steps es (s, w) (s1, w1) → dispatches es = i → sched_step EDispatch (s1, w1) (s', w') →
  cur s' = Some t.
Proof.
  intros Hok Hi Hs Hn Hd. pose proof (sched_steps_ok _ _ _ Hs Hok) as Hok1.
  pose proof (sched_steps_queue _ _ _ i t Hs Hok Hi ltac:(lia)) as Hq.
  rewrite Hn, Nat.sub_diag in Hq. simpl in *.
  pose proof (sched_step_queue _ _ _ _ _ 0 t Hd Hok1 Hq) as Hr.
  rewrite decide_True in Hr by done. apply Hr.
Qed.

(** A task that gave up the processor (by suspending or blocking) continues
    exactly where it stopped: when it is dispatched again, the registers [__switch]
    restores are the ones it had, whatever ran in between. *)
Theorem switch_resumes e t s w x y s' w' :
  sched_ok s w → cur s = Some t → e = ESuspend ∨ e = EBlock →
  sched_step e (s, w) x → rtc (away_step t) x y → sched_step EDispatch y (s', w') → cur s' = Some t →
  cur y.1 = None → cpu s' = cpu s.
Proof.
  intros Hok Ht He Hx Hxy Hd Ht' Hy. destruct x as [s1 w1], y as [s2 w2]. simpl in Hy.
  pose proof (sched_step_ok _ _ _ _ _ Hx Hok) as Hok1.
  destruct (so_live _ _ Hok t) as [b Hb]; [unfold places; rewrite Ht; left|].
  assert (task_cx <$> tcbs s1 !! t = Some (cpu s)) as Hsaved.
  { destruct He as [->| ->]; inversion Hx; subst;
      match goal with E : _ s = Ok _ |- _ =>
        rewrite (suspend_eq _ _ Ht) in E || rewrite (block_eq _ _ Ht) in E end;
      simplify_eq; simpl; by rewrite !lookup_alter_eq, Hb. }
  destruct (away_cx _ _ _ Hxy Hok1) as [Hok2 Hcx]; [by rewrite <- (fmap_is_Some task_cx); simpl; rewrite Hsaved|]. simpl in Hok2, Hcx.
  inversion Hd as [? ? b2 ? Hc E| | | | |]; subst.
  destruct (ready_queue s2) as [|u q] eqn:Hq.
  { rewrite run_next_idle in E by done. simplify_eq. }
  destruct (so_live _ _ Hok2 u) as [bu Hbu].
  { unfold places. rewrite Hc, Hq. simpl. set_solver. }
  rewrite (run_next_eq _ _ _ _ Hq Hbu) in E. simplify_eq. simpl in *. simplify_eq.
  rewrite Hbu, Hsaved in Hcx. simpl in Hcx. congruence.
Qed.

(** ** Witnesses: two ready tasks. *)

Definition demo_tcb : TaskControlBlock :=
  {| process := 0; kstack := 0; res := Some {| tid := 0; ustack_base := 0x10000 |}; trap_cx_ppn := 0x80600;
     task_cx := goto_trap_return 0x80200000 0xfffff000; task_status := Ready; exit_code := None |}.
Definition demo_sched : Sched :=
  {| ready_queue := [1; 2]; cur := None; idle_task_cx := zero_init; cpu := zero_init;
     tcbs := {[ 1 := demo_tcb; 2 := demo_tcb ]} |}.

Lemma demo_sched_ok : sched_ok demo_sched [].
Proof.
  split; [apply (bool_decide_unpack _); by vm_compute| |done].
  intros t. unfold places. simpl. rewrite !elem_of_cons. intros [->|[->|[]%elem_of_nil]]; by eexists.
Qed.

Definition demo_run (s : Sched) : Sched :=
  match run_next s with Ok (_, s') => s' | Panic _ => s end.
Definition demo_susp (s : Sched) : Sched :=
  match suspend_current_and_run_next s with Ok (_, s') => s' | Panic _ => s end.
Definition demo_s1 : Sched := Eval vm_compute in demo_run demo_sched.
Definition demo_s2 : Sched := Eval vm_compute in demo_susp demo_s1.
Definition demo_s3 : Sched := Eval vm_compute in demo_run demo_s2.
Definition demo_s4 : Sched := Eval vm_compute in demo_susp demo_s3.
Definition demo_s5 : Sched := Eval vm_compute in demo_run demo_s4.

Lemma demo_s1_ok : sched_ok demo_s1 [].
Proof. apply (sched_step_ok EDispatch demo_sched []); [by eapply ss_dispatch|apply demo_sched_ok]. Qed.

Lemma scheduler_invariant_witness : sched_ok demo_s2 [] ∧ places demo_s2 [] ≡ₚ [1; 2].
Proof.
  destruct (scheduler_invariant [EDispatch; ESuspend] demo_sched [] demo_s2 []) as (Hok & Hp & _); [apply demo_sched_ok| |].
  - eapply sss_cons; [by eapply (ss_dispatch _ _ _ demo_s1)|]. eapply sss_cons; [by eapply ss_suspend|constructor].
  - split; [exact Hok|]. exact Hp.
Defined.

Lemma ready_task_runs_witness : cur demo_s3 = Some 2.
Proof.
  apply (ready_task_runs [EDispatch; ESuspend] demo_sched [] demo_s2 [] demo_s3 [] 1 2);
    [apply demo_sched_ok|done| |done|by eapply ss_dispatch].
  eapply sss_cons; [by eapply (ss_dispatch _ _ _ demo_s1)|]. eapply sss_cons; [by eapply ss_suspend|constructor].
Defined.

Lemma switch_resumes_witness : cpu demo_s5 = cpu demo_s1.
Proof.
  apply (switch_resumes ESuspend 1 demo_s1 [] (demo_s2, []) (demo_s4, []) demo_s5 []);
    [apply demo_s1_ok|done|by left|by apply ss_suspend| |by eapply ss_dispatch|done|done].
  eapply rtc_l; [split; [done|exists EDispatch; by eapply (ss_dispatch _ _ _ demo_s3)]|].
  apply rtc_once. split; [done|exists ESuspend; by apply ss_suspend].
Defined.
