(* ===== verification/Sync.v ===== *)
(** * Mutexes, semaphores and condition variables

    [os/src/sync/mutex.rs], [semaphore.rs], [condvar.rs].  The operations run
    on the state of the scheduler and of the object; a wait queue is the list of
    the numbers of the parked tasks.

    A blocking call is split where the task gives up the processor: the turn
    says whether the call returned, will be run again from the head of its loop
    when the task is dispatched ([Again]), or returns when the task is dispatched
    ([Parked]). *)

From S2P Require Import Prelude Sched.

Inductive lturn := Returned | Again | Parked.

Definition on_sched {St A} (m : M Sched A) : M (Sched * St) A := zoom fst (λ s x, (s, x.2)) m.
Definition on_obj {St A} (m : M St A) : M (Sched * St) A := zoom snd (λ o x, (x.1, o)) m.

(** ** The trait [Mutex] *)

Class Mutex (St : Type) := {
  lock : M (Sched * St) lturn;
  unlock : M (Sched * St) unit
}.

(** What the trait promises: an abstract mutex has an owner and parked
    waiters.  A free mutex is taken; a task that finds it taken gives up the
    processor and either tries again or is parked; releasing it passes it on to
    the first waiter, who becomes ready, or frees it. *)
Class MutexLaws (St : Type) `{!Mutex St} := {
  m_rep : St → option Z → list Z → Prop;
  m_free : ∀ x ws, m_rep x None ws → ws = [];
  m_lock_free : ∀ s x t ws, cur s = Some t → m_rep x None ws →
    ∃ x', lock (s, x) = Ok (Returned, (s, x')) ∧ m_rep x' (Some t) [];
  m_lock_taken : ∀ s x t u ws, cur s = Some t → m_rep x (Some u) ws →
    ∃ s' x', (lock (s, x) = Ok (Again, (s', x')) ∧ suspend_current_and_run_next s = Ok (tt, s') ∧
               m_rep x' (Some u) ws) ∨
             (lock (s, x) = Ok (Parked, (s', x')) ∧ block_current_and_run_next s = Ok (tt, s') ∧
               m_rep x' (Some u) (ws ++ [t]));
  m_unlock : ∀ s x u ws, m_rep x (Some u) ws →
    ∃ s' x', unlock (s, x) = Ok (tt, (s', x')) ∧
      match ws with
      | [] => s' = s ∧ m_rep x' None []
      | v :: ws' => add_task v s = Ok (tt, s') ∧ m_rep x' (Some v) ws'
      end
}.

(** ** [MutexSpin] *)

Record MutexSpin := { spin_locked : bool }.
Definition MutexSpin_new : MutexSpin := {| spin_locked := false |}.

Definition MutexSpin_lock : M (Sched * MutexSpin) lturn :=
  m ← on_obj get;
  if spin_locked m then
    _ ← on_sched suspend_current_and_run_next;
    mret Again
  else
    _ ← on_obj (put {| spin_locked := true |});
    mret Returned.
Definition MutexSpin_unlock : M (Sched * MutexSpin) unit :=
  on_obj (put {| spin_locked := false |}).

#[export] Instance MutexSpin_Mutex : Mutex MutexSpin :=
  {| lock := MutexSpin_lock; unlock := MutexSpin_unlock |}.

(** ** [MutexBlocking] *)

Record MutexBlocking := { locked : bool; wait_queue : list Z }.
Definition MutexBlocking_new : MutexBlocking := {| locked := false; wait_queue := [] |}.

Definition MutexBlocking_lock : M (Sched * MutexBlocking) lturn :=
  m ← on_obj get;
  if locked m then
    o ← on_sched current_task;
    t ← unwrap o;
    _ ← on_obj (put {| locked := locked m; wait_queue := wait_queue m ++ [t] |});
    _ ← on_sched block_current_and_run_next;
    mret Parked
  else
    _ ← on_obj (put {| locked := true; wait_queue := wait_queue m |});
    mret Returned.
Definition MutexBlocking_unlock : M (Sched * MutexBlocking) unit :=
  m ← on_obj get;
  _ ← assert_ (locked m);
  match wait_queue m with
  | waking_task :: q =>
      _ ← on_obj (put {| locked := locked m; wait_queue := q |});
      on_sched (add_task waking_task)
  | [] => on_obj (put {| locked := false; wait_queue := wait_queue m |})
  end.

#[export] Instance MutexBlocking_Mutex : Mutex MutexBlocking :=
  {| lock := MutexBlocking_lock; unlock := MutexBlocking_unlock |}.

(** ** [Semaphore] *)

Record Semaphore := { count : Z; sem_queue : list Z }.
Definition Semaphore_new (res_count : Z) : Semaphore :=
  {| count := to_signed 64 res_count; sem_queue := [] |}.

Definition up : M (Sched * Semaphore) unit :=
  m ← on_obj get;
  let c := to_signed 64 (count m + 1) in
  if c <=? 0 then
    match sem_queue m with
    | task :: q =>
        _ ← on_obj (put {| count := c; sem_queue := q |});
        on_sched (add_task task)
    | [] => on_obj (put {| count := c; sem_queue := sem_queue m |})
    end
  else on_obj (put {| count := c; sem_queue := sem_queue m |}).

Definition down : M (Sched * Semaphore) lturn :=
  m ← on_obj get;
  let c := to_signed 64 (count m - 1) in
  if c <? 0 then
    o ← on_sched current_task;
    t ← unwrap o;
    _ ← on_obj (put {| count := c; sem_queue := sem_queue m ++ [t] |});
    _ ← on_sched block_current_and_run_next;
    mret Parked
  else
    _ ← on_obj (put {| count := c; sem_queue := sem_queue m |});
    mret Returned.

(** ** [Condvar] *)

Record Condvar := { cv_queue : list Z }.
Definition Condvar_new : Condvar := {| cv_queue := [] |}.

Definition signal : M (Sched * Condvar) unit :=
  c ← on_obj get;
  match cv_queue c with
  | task :: q => _ ← on_obj (put {| cv_queue := q |}); on_sched (add_task task)
  | [] => mret tt
  end.

(** [wait] up to the point where the task is parked; when it is dispatched
    again the call continues with [mutex.lock()]. *)
Definition wait_park {St} `{!Mutex St} : M (Sched * (Condvar * St)) unit :=
  _ ← (λ x, match unlock (x.1, x.2.2) with
            | Ok (a, (s, m)) => Ok (a, (s, (x.2.1, m)))
            | Panic p => Panic p
            end);
  o ← on_sched current_task;
  t ← unwrap o;
  _ ← on_obj (modify (λ cm, ({| cv_queue := cv_queue cm.1 ++ [t] |}, cm.2)));
  on_sched block_current_and_run_next.
Definition wait_resume {St} `{!Mutex St} : M (Sched * (Condvar * St)) lturn :=
  λ x, match lock (x.1, x.2.2) with
       | Ok (a, (s, m)) => Ok (a, (s, (x.2.1, m)))
       | Panic p => Panic p
       end.

Ltac sync_unfold :=
  unfold mbind, M_bind, on_obj, on_sched, zoom, get, put, modify, gets, mret, M_ret, unwrap, assert_,
    current_task; cbn [fst snd].

(** ** The implementations keep the promise *)

#[export] Program Instance MutexSpin_laws : MutexLaws MutexSpin := {|
  m_rep := λ m o ws, spin_locked m = bool_decide (is_Some o) ∧ ws = []
|}.
Next Obligation. by intros x ws [_ ->]. Qed.
Next Obligation.
  intros s x t ws Ht [Hl ->]. eexists. simpl. unfold MutexSpin_lock. sync_unfold. rewrite Hl. done.
Qed.
Next Obligation.
  intros s x t u ws Ht [Hl ->]. eexists _, _. left. simpl. unfold MutexSpin_lock. sync_unfold.
  rewrite Hl. simpl. rewrite (suspend_eq _ _ Ht). done.
Qed.
Next Obligation.
  intros s x u ws [Hl ->]. eexists _, _. split; [done|]. done.
Qed.

#[export] Program Instance MutexBlocking_laws : MutexLaws MutexBlocking := {|
  m_rep := λ m o ws, locked m = bool_decide (is_Some o) ∧ wait_queue m = ws ∧ (o = None → ws = [])
|}.
Next Obligation. intros x ws (_ & _ & H). auto. Qed.
Next Obligation.
  intros s x t ws Ht (Hl & Hq & H). eexists. simpl. unfold MutexBlocking_lock. sync_unfold.
  rewrite Hl. split; [done|]. simpl. rewrite Hq. auto.
Qed.
Next Obligation.
  intros s x t u ws Ht (Hl & <- & H). eexists _, {| locked := true; wait_queue := wait_queue x ++ [t] |}.
  right. split; [|split; [exact (block_eq _ _ Ht)|done]].
  simpl. unfold MutexBlocking_lock. sync_unfold. rewrite Hl. simpl. rewrite Ht. simpl.
  by rewrite (block_eq _ _ Ht).
Qed.
Next Obligation.
  intros s x u ws (Hl & Hq & H). simpl. unfold MutexBlocking_unlock. sync_unfold. rewrite Hl. simpl.
  rewrite Hq. destruct ws as [|v ws]; eexists _, _; (split; [done|]); done.
Qed.

(** ** Tasks that use a mutex

    [Out]: not using it; [Trying]: suspended in the loop of [lock]; [Waiting]:
    parked in [lock]; [In]: [lock] returned and [unlock] was not called yet. *)

Inductive phase := Out | Trying | Waiting | In.
#[export] Instance phase_eq_dec : EqDecision phase.
Proof. solve_decision. Defined.

Section mutex_users.
Context {St : Type} `{HML : MutexLaws St}.

Record MSys := { ms_s : Sched; ms_x : St; ms_ph : gmap Z phase }.
Definition phase_of (ph : gmap Z phase) (t : Z) : phase := default Out (ph !! t).

(** A parked task that is dispatched returns from [lock]. *)
Definition resumed (o : option Z) (ph : gmap Z phase) : gmap Z phase :=
  match o with
  | Some t => if decide (phase_of ph t = Waiting) then <[t := In]> ph else ph
  | None => ph
  end.

Inductive mstep : MSys → MSys → Prop :=
  | ms_dispatch s x ph b s' : cur s = None → run_next s = Ok (b, s') →
      mstep {| ms_s := s; ms_x := x; ms_ph := ph |} {| ms_s := s'; ms_x := x; ms_ph := resumed (cur s') ph |}
  | ms_suspend s x ph s' : suspend_current_and_run_next s = Ok (tt, s') →
      mstep {| ms_s := s; ms_x := x; ms_ph := ph |} {| ms_s := s'; ms_x := x; ms_ph := ph |}
  | ms_lock s x ph t r s' x' : cur s = Some t → phase_of ph t ∈ [Out; Trying] →
      lock (s, x) = Ok (r, (s', x')) →
      mstep {| ms_s := s; ms_x := x; ms_ph := ph |}
            {| ms_s := s'; ms_x := x';
               ms_ph := <[t := match r with Returned => In | Again => Trying | Parked => Waiting end]> ph |}
  | ms_unlock s x ph t s' x' : cur s = Some t → phase_of ph t = In →
      unlock (s, x) = Ok (tt, (s', x')) →
      mstep {| ms_s := s; ms_x := x; ms_ph := ph |} {| ms_s := s'; ms_x := x'; ms_ph := <[t := Out]> ph |}.

(** The owner is the task inside, or a task the mutex was handed to and that
    is ready to return from [lock]; the parked tasks are waiting. *)
Record msys_inv (y : MSys) (o : option Z) (ws : list Z) : Prop := {
  mi_rep : m_rep (ms_x y) o ws;
  mi_sched : sched_ok (ms_s y) ws;
  mi_in : ∀ t, phase_of (ms_ph y) t = In → o = Some t;
  mi_waiting : ∀ t, phase_of (ms_ph y) t = Waiting ↔ t ∈ ws ∨ (o = Some t ∧ phase_of (ms_ph y) t ≠ In);
  mi_owner : ∀ t, o = Some t →
    phase_of (ms_ph y) t = In ∨ (phase_of (ms_ph y) t = Waiting ∧ t ∈ ready_queue (ms_s y));
  mi_cur : ∀ t, cur (ms_s y) = Some t → phase_of (ms_ph y) t ≠ Waiting
}.

Lemma phase_of_insert ph t p u : phase_of (<[t := p]> ph) u = if decide (t = u) then p else phase_of ph u.
Proof.
  unfold phase_of. case_decide; [subst; by rewrite lookup_insert_eq|by rewrite lookup_insert_ne].
Qed.

Lemma cur_not_placed s ws t : sched_ok s ws → cur s = Some t → t ∉ ready_queue s ∧ t ∉ ws.
Proof.
  intros [Hnd _ _] Ht. unfold places in Hnd. rewrite Ht in Hnd. simpl in Hnd.
  apply NoDup_cons in Hnd as [Hni _]. rewrite elem_of_app in Hni. tauto.
Qed.
Lemma ready_not_parked s ws t : sched_ok s ws → t ∈ ready_queue s → t ∉ ws.
Proof.
  intros [Hnd _ _] Ht Hw. unfold places in Hnd. apply NoDup_app in Hnd as (_ & _ & Hnd).
  apply NoDup_app in Hnd as (_ & Hd & _). by apply (Hd t).
Qed.

Lemma mstep_dispatch_inv s x ph b s' o ws :
  msys_inv {| ms_s := s; ms_x := x; ms_ph := ph |} o ws → cur s = None → run_next s = Ok (b, s') →
  msys_inv {| ms_s := s'; ms_x := x; ms_ph := resumed (cur s') ph |} o ws.
Proof.
  intros [Hrep Hs Hin Hw Ho Hc] Hn Hr. cbn [ms_s ms_x ms_ph] in *.
  assert (sched_ok s' ws) as Hs' by (eapply (sched_step_ok EDispatch); [by eapply ss_dispatch|done]).
  destruct (ready_queue s) as [|t q] eqn:Hq.
  { rewrite run_next_idle in Hr by done. simplify_eq. rewrite Hn. simpl. split; try done. simpl. by rewrite Hq. }
  destruct (so_live _ _ Hs t) as [bt Hbt]; [unfold places; rewrite Hn, Hq; simpl; set_solver|].
  rewrite (run_next_eq _ _ _ _ Hq Hbt) in Hr. simplify_eq. cbn [cur resumed].
  assert (t ∉ q) as Htq.
  { pose proof (so_nodup _ _ Hs) as Hnd. unfold places in Hnd. rewrite Hn, Hq in Hnd. simpl in Hnd.
    apply NoDup_cons in Hnd as [Hni _]. rewrite elem_of_app in Hni. tauto. }
  assert (t ∉ ws) as Htw by (apply (ready_not_parked s); [done|]; rewrite Hq; left).
  destruct (decide (phase_of ph t = Waiting)) as [Hp|Hp].
  - assert (o = Some t) as Hot by (apply Hw in Hp; destruct Hp as [?|[? _]]; done).
    split; cbn [ms_s ms_x ms_ph cur ready_queue]; [done|done| | | |].
    + intros u. rewrite phase_of_insert. case_decide; [by subst|]. apply Hin.
    + intros u. rewrite phase_of_insert. destruct (decide (t = u)) as [<-|?]; [|apply Hw].
      split; [done|]. intros [?|[_ ?]]; done.
    + intros u Hu. rewrite phase_of_insert. rewrite decide_True by congruence. by left.
    + intros u [= <-]. rewrite phase_of_insert, decide_True; done.
  - split; cbn [ms_s ms_x ms_ph cur ready_queue]; [done|done|done|done| |].
    + intros u Hu. destruct (Ho u Hu) as [?|[Hu1 Hu2]]; [by left|]. right. split; [done|].
      apply elem_of_cons in Hu2 as [->|?]; done.
    + by intros u [= <-].
Qed.

Lemma mstep_lock_inv s x ph t r s' x' o ws :
  msys_inv {| ms_s := s; ms_x := x; ms_ph := ph |} o ws →
  cur s = Some t → phase_of ph t ∈ [Out; Trying] → lock (s, x) = Ok (r, (s', x')) →
  ∃ o' ws', msys_inv {| ms_s := s'; ms_x := x';
    ms_ph := <[t := match r with Returned => In | Again => Trying | Parked => Waiting end]> ph |} o' ws'.
Proof.
  intros [Hrep Hs Hin Hw Ho Hc] Ht Hp Hl. cbn [ms_s ms_x ms_ph] in *.
  assert (phase_of ph t ≠ In ∧ phase_of ph t ≠ Waiting) as [Hp1 Hp2]
    by (rewrite !elem_of_cons in Hp; destruct Hp as [->|[->|[]%elem_of_nil]]; done).
  destruct (cur_not_placed _ _ _ Hs Ht) as [Htq Htw].
  destruct o as [u|].
  2: { pose proof (m_free _ _ Hrep) as ->. destruct (m_lock_free s x t [] Ht Hrep) as (x2 & Hl2 & Hrep2).
    rewrite Hl2 in Hl. simplify_eq. exists (Some t), []. split; cbn [ms_s ms_x ms_ph]; try done.
    - intros v. rewrite phase_of_insert. case_decide; [by subst|]. intros Hv%Hin. done.
    - intros v. rewrite phase_of_insert. case_decide; [subst; naive_solver|].
      rewrite Hw. naive_solver.
    - intros v [= <-]. left. by rewrite phase_of_insert, decide_True.
    - intros v Hv. rewrite phase_of_insert. case_decide; [done|]. congruence. }
  assert (t ≠ u) as Htu by (intros ->; destruct (Ho u eq_refl) as [?|[? _]]; done).
  destruct (m_lock_taken s x t u ws Ht Hrep) as (s2 & x2 & [(Hl2 & Hs2 & Hrep2)|(Hl2 & Hs2 & Hrep2)]);
    rewrite Hl2 in Hl; simplify_eq.
  - exists (Some u), ws. split; cbn [ms_s ms_x ms_ph]; [done| | | | |].
    + eapply (sched_step_ok ESuspend); [by apply ss_suspend|done].
    + intros v. rewrite phase_of_insert. case_decide; [done|]. apply Hin.
    + intros v. rewrite phase_of_insert. case_decide; [subst; naive_solver|]. apply Hw.
    + intros v [= <-]. rewrite phase_of_insert, decide_False by done. destruct (Ho u eq_refl) as [?|[??]]; [by left|].
      right. split; [done|]. rewrite (suspend_eq _ _ Ht) in Hs2. simplify_eq. simpl. set_solver.
    + rewrite (suspend_eq _ _ Ht) in Hs2. by simplify_eq.
  - exists (Some u), (ws ++ [t]). split; cbn [ms_s ms_x ms_ph]; [done| | | | |].
    + eapply (sched_step_ok EBlock); [by eapply ss_block|done].
    + intros v. rewrite phase_of_insert. case_decide; [done|]. apply Hin.
    + intros v. rewrite phase_of_insert, elem_of_app, list_elem_of_singleton.
      case_decide; [subst; naive_solver|]. rewrite Hw. naive_solver.
    + intros v [= <-]. rewrite phase_of_insert, decide_False by done. destruct (Ho u eq_refl) as [?|[??]]; [by left|].
      right. split; [done|]. rewrite (block_eq _ _ Ht) in Hs2. by simplify_eq.
    + rewrite (block_eq _ _ Ht) in Hs2. by simplify_eq.
Qed.

Lemma mstep_unlock_inv s x ph t s' x' o ws :
  msys_inv {| ms_s := s; ms_x := x; ms_ph := ph |} o ws →
  cur s = Some t → phase_of ph t = In → unlock (s, x) = Ok (tt, (s', x')) →
  ∃ o' ws', msys_inv {| ms_s := s'; ms_x := x'; ms_ph := <[t := Out]> ph |} o' ws'.
Proof.
  intros [Hrep Hs Hin Hw Ho Hc] Ht Hp Hu. cbn [ms_s ms_x ms_ph] in *.
  pose proof (Hin t Hp) as ->. destruct (cur_not_placed _ _ _ Hs Ht) as [Htq Htw].
  destruct (m_unlock s x t ws Hrep) as (s2 & x2 & Hu2 & Hm). rewrite Hu2 in Hu. simplify_eq.
  destruct ws as [|v ws].
  - destruct Hm as [-> Hm]. exists None, []. split; cbn [ms_s ms_x ms_ph]; try done.
    + intros v. rewrite phase_of_insert. case_decide; [done|]. intros Hv%Hin. congruence.
    + intros v. rewrite phase_of_insert. case_decide; [naive_solver|]. rewrite Hw. naive_solver.
    + intros v Hv. rewrite phase_of_insert. case_decide; [done|]. congruence.
  - destruct Hm as [Ha Hm]. assert (t ≠ v) as Htv by (intros ->; apply Htw; left).
    assert (phase_of ph v = Waiting) as Hpv by (apply Hw; left; left).
    assert (v ∉ ws) as Hvw.
    { pose proof (so_nodup _ _ Hs) as Hnd. unfold places in Hnd.
      apply NoDup_app in Hnd as (_ & _ & (_ & _ & Hnd)%NoDup_app). by apply NoDup_cons in Hnd as [? _]. }
    exists (Some v), ws. split; cbn [ms_s ms_x ms_ph]; [done| | | | |].
    + eapply (sched_step_ok (EWake v) s ([] ++ v :: ws)); [by apply ss_wake|done].
    + intros u. rewrite phase_of_insert. case_decide; [done|]. intros Hu%Hin. congruence.
    + intros u. rewrite phase_of_insert. case_decide; [subst; set_solver|]. rewrite Hw, elem_of_cons.
      split; [intros [[->|?]|[??]]; [right; rewrite Hpv; done|by left|congruence]|].
      intros [?|[[= ->] _]]; [left; by right|left; by left].
    + intros u [= <-]. right. rewrite phase_of_insert, decide_False by done. split; [done|].
      rewrite add_task_eq in Ha. simplify_eq. simpl. set_solver.
    + intros u Hu. rewrite add_task_eq in Ha. simplify_eq. rewrite phase_of_insert. case_decide; [done|]. by apply Hc.
Qed.

Lemma mstep_inv y y' o ws : msys_inv y o ws → mstep y y' → ∃ o' ws', msys_inv y' o' ws'.
Proof.
  intros Hinv Hstep. destruct Hstep as [s x ph b s' Hn Hr|s x ph s' Hr|s x ph t r s' x' Ht Hp Hl|s x ph t s' x' Ht Hp Hl].
  - exists o, ws. by eapply mstep_dispatch_inv.
  - exists o, ws. destruct (suspend_current _ _ Hr) as [t Ht]. destruct Hinv as [Hrep Hs Hin Hw Ho Hc].
    cbn [ms_s ms_x ms_ph] in *. split; cbn [ms_s ms_x ms_ph]; try done.
    + eapply (sched_step_ok ESuspend); [by apply ss_suspend|done].
    + intros u Hu. destruct (Ho u Hu) as [?|[??]]; [by left|]. right. split; [done|].
      rewrite (suspend_eq _ _ Ht) in Hr. simplify_eq. simpl. set_solver.
    + rewrite (suspend_eq _ _ Ht) in Hr. by simplify_eq.
  - by eapply mstep_lock_inv.
  - by eapply mstep_unlock_inv.
Qed.

(** What the users of a mutex that starts as [x0] can rely on. *)
Definition mutex_excludes (x0 : St) : Prop :=
  ∀ s0 y, sched_ok s0 [] → rtc mstep {| ms_s := s0; ms_x := x0; ms_ph := ∅ |} y →
    (∀ t u, phase_of (ms_ph y) t = In → phase_of (ms_ph y) u = In → t = u) ∧
    (∀ t, cur (ms_s y) = Some t → phase_of (ms_ph y) t ∈ [Out; Trying] →
       ∃ r z, lock (ms_s y, ms_x y) = Ok (r, z) ∧
         (r = Returned ↔ ∀ u, phase_of (ms_ph y) u ∉ [In; Waiting])) ∧
    (∀ t, cur (ms_s y) = Some t → phase_of (ms_ph y) t = In →
       ∃ z, unlock (ms_s y, ms_x y) = Ok (tt, z)).

Lemma mutex_excludes_lemma x0 : m_rep x0 None [] → mutex_excludes x0.
Proof.
  intros Hx0 s0 y Hs0 Hreach.
  assert (∃ o ws, msys_inv y o ws) as (o & ws & [Hrep Hs Hin Hw Ho Hc]).
  { assert (msys_inv {| ms_s := s0; ms_x := x0; ms_ph := ∅ |} None []) as Hinit.
    { split; try done. intros t. simpl. split; [done|]. intros [?%elem_of_nil|[? _]]; done. }
    revert Hinit. generalize (@None Z) as o, (@nil Z) as ws.
    induction Hreach as [|a b c Hab _ IH]; intros o ws Hinv; [eauto|].
    destruct (mstep_inv _ _ _ _ Hinv Hab) as (? & ? & ?). eauto. }
  split_and!.
  - intros t u Ht%Hin Hu%Hin. congruence.
  - intros t Ht Hp. destruct o as [u|].
    + assert (phase_of (ms_ph y) u ∈ [In; Waiting]) as Hu
        by (destruct (Ho u eq_refl) as [->|[-> _]]; set_solver).
      destruct (m_lock_taken _ _ t u ws Ht Hrep) as (s2 & x2 & [(Hl2 & _)|(Hl2 & _)]);
        eexists _, _; (split; [exact Hl2|]); (split; [done|]); intros Hall; by destruct (Hall u).
    + destruct (m_lock_free _ _ t ws Ht Hrep) as (x2 & Hl2 & _). eexists _, _. split; [exact Hl2|].
      split; [|done]. intros _ u. pose proof (m_free _ _ Hrep) as ->. rewrite !elem_of_cons.
      intros [Hu|[Hu|[]%elem_of_nil]]; [by apply Hin in Hu|]. apply Hw in Hu as [?%elem_of_nil|[? _]]; done.
  - intros t Ht Hp. pose proof (Hin t Hp) as ->.
    destruct (m_unlock (ms_s y) _ _ _ Hrep) as (s2 & x2 & Hu & _). eauto.
Qed.
End mutex_users.

(** ** Tasks that use a semaphore; [downs] and [ups] count the calls *)

Record SSys := { ss_s : Sched; ss_x : Semaphore; downs : Z; ups : Z }.

Inductive sem_step : SSys → SSys → Prop :=
  | se_dispatch s x d u b s' : cur s = None → run_next s = Ok (b, s') →
      sem_step {| ss_s := s; ss_x := x; downs := d; ups := u |} {| ss_s := s'; ss_x := x; downs := d; ups := u |}
  | se_suspend s x d u s' : suspend_current_and_run_next s = Ok (tt, s') →
      sem_step {| ss_s := s; ss_x := x; downs := d; ups := u |} {| ss_s := s'; ss_x := x; downs := d; ups := u |}
  | se_down s x d u t r s' x' : cur s = Some t → down (s, x) = Ok (r, (s', x')) →
      sem_step {| ss_s := s; ss_x := x; downs := d; ups := u |} {| ss_s := s'; ss_x := x'; downs := d + 1; ups := u |}
  | se_up s x d u t s' x' : cur s = Some t → up (s, x) = Ok (tt, (s', x')) →
      sem_step {| ss_s := s; ss_x := x; downs := d; ups := u |} {| ss_s := s'; ss_x := x'; downs := d; ups := u + 1 |}.

Definition counts_ok (init d u : Z) : Prop := init + u < 2 ^ 63 ∧ d < 2 ^ 63.

Record sem_inv (init : Z) (y : SSys) : Prop := {
  sv_pos : 0 <= downs y ∧ 0 <= ups y;
  sv_sched : sched_ok (ss_s y) (sem_queue (ss_x y));
  sv_count : counts_ok init (downs y) (ups y) → count (ss_x y) = init + ups y - downs y;
  sv_queue : counts_ok init (downs y) (ups y) →
    lengthZ (sem_queue (ss_x y)) = Z.max 0 (downs y - init - ups y)
}.

Lemma down_eq s x t : cur s = Some t →
  let c := to_signed 64 (count x - 1) in
  down (s, x) =
    if c <? 0 then
      Ok (Parked, ({| ready_queue := ready_queue s; cur := None; idle_task_cx := idle_task_cx s;
                      cpu := idle_task_cx s;
                      tcbs := alter (set_cx (cpu s)) t (alter (set_status Blocking) t (tcbs s)) |},
                   {| count := c; sem_queue := sem_queue x ++ [t] |}))
    else Ok (Returned, (s, {| count := c; sem_queue := sem_queue x |})).
Proof.
  intros Ht c. unfold down. sync_unfold. fold c. destruct (c <? 0); [|done]. simpl. rewrite Ht. simpl.
  by rewrite (block_eq _ _ Ht).
Qed.

Lemma up_eq s x :
  let c := to_signed 64 (count x + 1) in
  up (s, x) = match sem_queue x with
    | t :: q => if c <=? 0 then Ok (tt, (upd_queue (λ r, r ++ [t]) s, {| count := c; sem_queue := q |}))
                else Ok (tt, (s, {| count := c; sem_queue := sem_queue x |}))
    | [] => Ok (tt, (s, {| count := c; sem_queue := [] |}))
    end.
Proof.
  intros c. unfold up. sync_unfold. fold c. destruct (sem_queue x) as [|t q] eqn:Hq; destruct (c <=? 0); done.
Qed.

Lemma sem_down_inv init s x d u t r s' x' :
  0 <= init → sem_inv init {| ss_s := s; ss_x := x; downs := d; ups := u |} →
  cur s = Some t → down (s, x) = Ok (r, (s', x')) →
  sem_inv init {| ss_s := s'; ss_x := x'; downs := d + 1; ups := u |}.
Proof.
  intros Hi [Hpos Hs Hc Hq] Ht Hd. cbn [ss_s ss_x downs ups] in *.
  assert (∃ q, (q = [] ∧ s' = s ∨ q = [t] ∧ block_current_and_run_next s = Ok (tt, s')) ∧
    sem_queue x' = sem_queue x ++ q ∧ count x' = to_signed 64 (count x - 1) ∧ (q = [] ↔ 0 <= count x')) as (q & Hs' & Hq' & Hc' & Hqc).
  { rewrite (down_eq _ _ _ Ht) in Hd. destruct (Z.ltb_spec (to_signed 64 (count x - 1)) 0); simplify_eq; simpl.
    - exists [t]. rewrite (block_eq _ _ Ht). split; [by right|]. split_and!; [done|done|]. split; [done|lia].
    - exists []. rewrite app_nil_r. split; [by left|]. done. }
  assert (counts_ok init (d + 1) u → counts_ok init d u ∧ count x' = init + u - (d + 1)) as Hcnt.
  { intros Hok. assert (counts_ok init d u) as Hok' by (unfold counts_ok in *; lia). split; [done|].
    rewrite Hc', (Hc Hok'), (to_signed_id 64); unfold counts_ok in *; lia. }
  split; cbn [ss_s ss_x downs ups].
  - lia.
  - rewrite Hq'. destruct Hs' as [[-> ->]|[-> Hb]]; [by rewrite app_nil_r|].
    eapply (sched_step_ok EBlock); [by apply ss_block|done].
  - intros Hok. apply Hcnt, Hok.
  - intros Hok. destruct (Hcnt Hok) as [Hok' Hcc]. rewrite Hq', lengthZ_app, (Hq Hok').
    specialize (Hc Hok'). destruct Hs' as [[-> _]|[-> _]]; unfold lengthZ; simpl.
    + assert (0 <= count x') by (by apply Hqc). lia.
    + assert (¬ 0 <= count x') by (intros ?%Hqc; done). lia.
Qed.

Lemma sem_up_inv init s x d u t s' x' :
  0 <= init → sem_inv init {| ss_s := s; ss_x := x; downs := d; ups := u |} →
  cur s = Some t → up (s, x) = Ok (tt, (s', x')) →
  sem_inv init {| ss_s := s'; ss_x := x'; downs := d; ups := u + 1 |}.
Proof.
  intros Hi [Hpos Hs Hc Hq] Ht Hu. cbn [ss_s ss_x downs ups] in *.
  assert (counts_ok init d (u + 1) → counts_ok init d u ∧ to_signed 64 (count x + 1) = init + (u + 1) - d) as Hcnt.
  { intros Hok. assert (counts_ok init d u) as Hok' by (unfold counts_ok in *; lia). split; [done|].
    rewrite (Hc Hok'), (to_signed_id 64); unfold counts_ok in *; lia. }
  rewrite up_eq in Hu. destruct (sem_queue x) as [|v q] eqn:Hqx.
  - simplify_eq. split; cbn [ss_s ss_x downs ups count sem_queue]; [lia|done| |].
    + intros Hok. apply Hcnt, Hok.
    + intros Hok. destruct (Hcnt Hok) as [Hok' _]. specialize (Hq Hok'). unfold lengthZ in *. simpl in *. lia.
  - assert (lengthZ (v :: q) = lengthZ q + 1) as Hlen by (unfold lengthZ; simpl; lia).
    pose proof (Zle_0_nat (length q)). fold (lengthZ q) in *.
    destruct (Z.leb_spec (to_signed 64 (count x + 1)) 0); simplify_eq;
      (split; cbn [ss_s ss_x downs ups count sem_queue]; [lia| | |]).
    + eapply (sched_step_ok (EWake v) s ([] ++ v :: q)); [by apply ss_wake|done].
    + intros Hok. apply Hcnt, Hok.
    + intros Hok. destruct (Hcnt Hok) as [Hok' Hcc]. specialize (Hq Hok'). lia.
    + done.
    + intros Hok. apply Hcnt, Hok.
    + intros Hok. destruct (Hcnt Hok) as [Hok' Hcc]. specialize (Hq Hok'). lia.
Qed.

Lemma sem_reach_inv init s0 y : 0 <= init < 2 ^ 63 → sched_ok s0 [] →
  rtc sem_step {| ss_s := s0; ss_x := Semaphore_new init; downs := 0; ups := 0 |} y → sem_inv init y.
Proof.
  intros Hi Hs0 Hr.
  assert (sem_inv init {| ss_s := s0; ss_x := Semaphore_new init; downs := 0; ups := 0 |}) as Hinit.
  { split; cbn [ss_s ss_x downs ups Semaphore_new count sem_queue]; [done|done| |].
    - intros _. rewrite (to_signed_id 64); lia.
    - intros _. unfold lengthZ. simpl. lia. }
  revert Hinit. induction Hr as [|a b c Hab _ IH]; intros Hinv; [done|]. apply IH. clear IH.
  destruct Hab as [s x d u b s' Hn Hr|s x d u s' Hr|s x d u t r s' x' Ht Hd|s x d u t s' x' Ht Hd].
  - destruct Hinv. split; try done. eapply (sched_step_ok EDispatch); [by eapply ss_dispatch|done].
  - destruct Hinv. split; try done. eapply (sched_step_ok ESuspend); [by apply ss_suspend|done].
  - eapply sem_down_inv; [lia|done..].
  - eapply sem_up_inv; [lia|done..].
Qed.

(** ** Properties *)

(** C23: Mutual exclusion, for both kinds of mutex and any number of tasks that
    take and release it in any interleaving: at most one task is between the
    return of its [lock] and its [unlock]; [lock] and [unlock] never panic for
    such tasks; and [lock] returns at once exactly when nobody holds the mutex or
    waits for it. *)
Theorem mutex_mutual_exclusion :
  mutex_excludes MutexSpin_new ∧ mutex_excludes MutexBlocking_new.
Proof. split; by apply mutex_excludes_lemma. Qed.

(** A semaphore created with [init] resources lets exactly as many [down]
    calls through as there are resources: after any interleaving of calls the
    number of parked tasks is the excess of the [down]s over [init] plus the
    [up]s, and zero if there is none.  A further [down] returns at once exactly
    when a resource is left, and an [up] wakes the task that waited longest. *)
Theorem semaphore_counts_resources init s0 y :
  0 <= init → sched_ok s0 [] →
  rtc sem_step {| ss_s := s0; ss_x := Semaphore_new init; downs := 0; ups := 0 |} y →
  init + ups y + 1 < 2 ^ 63 → downs y + 1 < 2 ^ 63 →
  lengthZ (sem_queue (ss_x y)) = Z.max 0 (downs y - (init + ups y)) ∧
  sched_ok (ss_s y) (sem_queue (ss_x y)) ∧
  ∀ t, cur (ss_s y) = Some t →
    (∃ r z, down (ss_s y, ss_x y) = Ok (r, z) ∧ (r = Returned ↔ downs y < init + ups y)) ∧
    (∃ s' x', up (ss_s y, ss_x y) = Ok (tt, (s', x')) ∧
       sem_queue x' = tail (sem_queue (ss_x y)) ∧
       ready_queue s' = ready_queue (ss_s y) ++ option_list (head (sem_queue (ss_x y)))).
Proof.
  intros Hi Hs0 Hr Hb1 Hb2.
  assert (init < 2 ^ 63 → sem_inv init y) as Hinv0 by (intros; by eapply sem_reach_inv).
  assert (0 <= ups y) as Hups.
  { clear -Hr. assert (0 <= ups {| ss_s := s0; ss_x := Semaphore_new init; downs := 0; ups := 0 |}) as H0 by done.
    revert H0. induction Hr as [|a b c Hab _ IH]; [done|]. intros. apply IH. destruct Hab; simpl in *; lia. }
  destruct Hinv0 as [Hpos Hs Hc Hq]; [lia|].
  assert (counts_ok init (downs y) (ups y)) as Hok by (unfold counts_ok; lia).
  specialize (Hc Hok). specialize (Hq Hok).
  split; [lia|]. split; [done|]. intros t Ht. split.
  - rewrite (down_eq _ _ _ Ht), Hc. cbv zeta. rewrite (to_signed_id 64) by lia.
    destruct (Z.ltb_spec (init + ups y - downs y - 1) 0); eexists _, _; (split; [done|]); split; (done || lia).
  - rewrite up_eq, Hc. cbv zeta. rewrite (to_signed_id 64) by lia.
    destruct (sem_queue (ss_x y)) as [|v q] eqn:Hqx.
    + eexists _, _. split; [done|]. split; [done|]. by rewrite app_nil_r.
    + unfold lengthZ in Hq. simpl in Hq. rewrite (proj2 (Z.leb_le _ _)) by lia.
      eexists _, _. done.
Qed.

(** Calling [signal] repeatedly. *)
Fixpoint signals (n : nat) : M (Sched * Condvar) unit :=
  match n with O => mret tt | S n => _ ← signal; signals n end.

Lemma signals_eq n s c : signals n (s, c) =
  Ok (tt, (upd_queue (λ q, q ++ take n (cv_queue c)) s, {| cv_queue := drop n (cv_queue c) |})).
Proof.
  revert s c. induction n as [|n IH]; intros s c; simpl.
  { sync_unfold. destruct s, c. unfold upd_queue. simpl. by rewrite app_nil_r, drop_0. }
  unfold mbind, M_bind. unfold signal at 1. sync_unfold.
  destruct c as [[|t q]]; cbn [cv_queue].
  - rewrite IH. simpl. by rewrite take_nil, drop_nil.
  - unfold add_task, modify. cbn [fst snd]. rewrite IH. unfold upd_queue. simpl. rewrite <- app_assoc. done.
Qed.

Section condvar.
Context {St : Type} `{HML : MutexLaws St}.

Lemma wait_park_eq s c x t ws : cur s = Some t → m_rep x (Some t) ws →
  ∃ s' x', wait_park (s, (c, x)) = Ok (tt, (s', ({| cv_queue := cv_queue c ++ [t] |}, x'))) ∧
    cur s' = None ∧ ready_queue s' = ready_queue s ++ option_list (head ws) ∧
    m_rep x' (head ws) (tail ws) ∧
    sched_steps (match ws with [] => [] | v :: _ => [EWake v] end ++ [EBlock])
      (s, ws) (s', tail ws ++ [t]).
Proof.
  intros Ht Hrep. destruct (m_unlock s x t ws Hrep) as (s1 & x1 & Hu & Hm).
  assert (cur s1 = Some t ∧ ready_queue s1 = ready_queue s ++ option_list (head ws) ∧
    m_rep x1 (head ws) (tail ws)) as (Ht1 & Hq1 & Hrep1).
  { destruct ws as [|v ws]; [destruct Hm as [-> Hm]; by rewrite app_nil_r|].
    destruct Hm as [Ha Hm]. rewrite add_task_eq in Ha. by simplify_eq. }
  eexists _, x1. split.
  { unfold wait_park. sync_unfold. rewrite Hu. simpl. rewrite Ht1. simpl. by rewrite (block_eq _ _ Ht1). }
  split_and!; [done|done|done|].
  assert (sched_step EBlock (s1, tail ws) ({| ready_queue := ready_queue s1; cur := None;
    idle_task_cx := idle_task_cx s1; cpu := idle_task_cx s1;
    tcbs := alter (set_cx (cpu s1)) t (alter (set_status Blocking) t (tcbs s1)) |}, tail ws ++ [t])) as Hb
    by (apply ss_block; [done|by apply block_eq]).
  destruct ws as [|v ws].
  - destruct Hm as [-> _]. eapply sss_cons; [exact Hb|constructor].
  - destruct Hm as [Ha _]. simpl. eapply sss_cons; [apply (ss_wake s [] v ws s1 Ha)|].
    eapply sss_cons; [exact Hb|constructor].
Qed.
End condvar.

(** C30: No wake-up is lost: [Condvar::wait], called by the task that holds the
    mutex, releases the mutex (or hands it to its first waiter) and parks the
    caller at the end of the condition's queue in one turn, in which no other task
    runs; from then on, after as many [signal]s as there were earlier waiters and
    one more, the caller is in the ready queue.  Its call then goes on with
    [mutex.lock()], and if that returns the task owns the mutex. *)
Theorem condvar_no_lost_wakeup {St} `{HML : MutexLaws St} s c (x : St) t ws :
  cur s = Some t → m_rep x (Some t) ws →
  ∃ s' c' x', wait_park (s, (c, x)) = Ok (tt, (s', (c', x'))) ∧
    cur s' = None ∧ ready_queue s' = ready_queue s ++ option_list (head ws) ∧
    cv_queue c' = cv_queue c ++ [t] ∧ m_rep x' (head ws) (tail ws) ∧
    (∀ s1, ∃ s2, signals (S (length (cv_queue c))) (s1, c') = Ok (tt, (s2, {| cv_queue := [] |})) ∧
       ready_queue s2 = ready_queue s1 ++ cv_queue c ++ [t]) ∧
    (∀ s1 c1 x1 o ws1 z, cur s1 = Some t → m_rep x1 o ws1 →
       wait_resume (s1, (c1, x1)) = Ok (Returned, z) → m_rep z.2.2 (Some t) [] ∧ z.1 = s1).
Proof.
  intros Ht Hrep. destruct (wait_park_eq s c x t ws Ht Hrep) as (s' & x' & Hw & Hc & Hq & Hm & _).
  eexists s', _, x'. split_and!; try done.
  - intros s1. eexists. rewrite signals_eq. cbn [cv_queue].
    assert (length (cv_queue c ++ [t]) = S (length (cv_queue c))) as Hlen by (rewrite length_app; simpl; lia).
    rewrite drop_ge, take_ge by lia. done.
  - intros s1 c1 x1 o ws1 z Ht1 Hrep1. unfold wait_resume. cbn [fst snd]. destruct o as [u|].
    + destruct (m_lock_taken _ _ t u ws1 Ht1 Hrep1) as (s2 & x2 & [(Hl2 & _)|(Hl2 & _)]); by rewrite Hl2.
    + destruct (m_lock_free _ _ t ws1 Ht1 Hrep1) as (x2 & Hl2 & Hr2). rewrite Hl2. by intros [= <-].
Qed.

(** ** Witnesses *)

Lemma mutex_mutual_exclusion_witness : phase_of {[1 := In]} 1 = In ∧
  ∀ t u, phase_of {[1 := In]} t = In → phase_of {[1 := In]} u = In → t = u.
Proof.
  pose proof (proj2 mutex_mutual_exclusion demo_sched
    {| ms_s := demo_s1; ms_x := {| locked := true; wait_queue := [] |}; ms_ph := {[1 := In]} |} demo_sched_ok) as [H _].
  - eapply rtc_l; [by eapply (ms_dispatch demo_sched _ _ true demo_s1)|].
    apply rtc_once. by apply (ms_lock demo_s1 MutexBlocking_new ∅ 1 Returned); [|left|].
  - split; [done|exact H].
Defined.

Definition demo_sem : SSys :=
  {| ss_s := demo_s1; ss_x := {| count := 0; sem_queue := [] |}; downs := 1; ups := 0 |}.

Lemma semaphore_counts_resources_witness : ∃ z, down (ss_s demo_sem, ss_x demo_sem) = Ok (Parked, z).
Proof.
  destruct (semaphore_counts_resources 1 demo_sched demo_sem) as (_ & _ & Hd).
  - done.
  - apply demo_sched_ok.
  - eapply rtc_l; [by eapply (se_dispatch demo_sched _ _ _ true demo_s1)|].
    apply rtc_once. apply (se_down demo_s1 (Semaphore_new 1) 0 0 1 Returned demo_s1 {| count := 0; sem_queue := [] |}); done.
  - done.
  - done.
  - destruct (Hd 1 eq_refl) as [(r & z & Hr & Hiff) _]. exists z. rewrite Hr.
    destruct r; [by destruct (proj1 Hiff eq_refl)|by vm_compute in Hr|done].
Defined.

Lemma condvar_no_lost_wakeup_witness : ∃ s' x',
  wait_park (demo_s1, (Condvar_new, {| locked := true; wait_queue := [] |})) =
    Ok (tt, (s', ({| cv_queue := [1] |}, x'))) ∧ locked x' = false.
Proof.
  destruct (condvar_no_lost_wakeup demo_s1 Condvar_new {| locked := true; wait_queue := [] |} 1 [])
    as (s' & [q] & x' & Hw & _ & _ & Hq & (Hl & _) & _); [done|done|].
  exists s', x'. simpl in Hq. subst q. by split.
Defined.
