(* ===== verification/Timer.v ===== *)
(** * Timers

    [os/src/timer.rs] and [sys_sleep] of [os/src/syscall/sync.rs]: sleeping
    tasks are kept in a [BinaryHeap] ordered by their expiry time and are moved
    to the ready queue by the timer interrupt.

    The heap is used through the documented behaviour of
    [alloc::collections::BinaryHeap] ([push] inserts an element, [peek] returns
    a greatest one, [pop] removes the one [peek] returns); elements that compare
    equal come out in an unspecified order, so the theorems hold for every such
    order.  The value of the [time] register is an argument. *)

From stdpp Require Import sorting.
From S2P Require Import Prelude Address Sched.

Definition TICKS_PER_SEC : Z := 100.
Definition MSEC_PER_SEC : Z := 1000.

Definition get_time_ms (time : Z) : Z := time / (CLOCK_FREQ / MSEC_PER_SEC).

(** The deadline passed to [set_timer]. *)
Definition set_next_trigger (time : Z) : Z := wrap64 (time + CLOCK_FREQ / TICKS_PER_SEC).

Record TimerCondVar := { expire_ms : Z; task : Z }.
#[export] Instance TimerCondVar_eq_dec : EqDecision TimerCondVar.
Proof. solve_decision. Defined.

(** [-(e as isize)], in two's complement. *)
Definition neg_isize (e : Z) : Z := to_signed 64 (- to_signed 64 e).
Definition cmp (self other : TimerCondVar) : comparison :=
  Z.compare (neg_isize (expire_ms self)) (neg_isize (expire_ms other)).
Definition timer_eq (self other : TimerCondVar) : bool := expire_ms self =? expire_ms other.

Class BinaryHeap (H : Type) := {
  heap_new : H;
  heap_push : TimerCondVar → H → H;
  heap_peek : H → option TimerCondVar;
  heap_pop : H → H
}.
Class BinaryHeapLaws (H : Type) `{!BinaryHeap H} := {
  elems : H → list TimerCondVar;
  heap_new_elems : elems heap_new = [];
  heap_push_elems : ∀ t h, elems (heap_push t h) ≡ₚ t :: elems h;
  heap_peek_none : ∀ h, heap_peek h = None → elems h = [];
  heap_peek_pop : ∀ h t, heap_peek h = Some t →
    elems h ≡ₚ t :: elems (heap_pop h) ∧ ∀ u, u ∈ elems h → cmp t u ≠ Lt
}.

Section timers.
Context {H : Type} `{!BinaryHeap H}.

Definition add_timer (expire t : Z) : M (Sched * H) unit :=
  modify (λ x, (x.1, heap_push {| expire_ms := expire; task := t |} x.2)).

(** The loop of [check_timer]; [None] out of fuel. *)
Fixpoint check_timer_loop (fuel : nat) (current_ms : Z) : M (Sched * H) (option unit) :=
  match fuel with
  | O => mret None
  | S fuel =>
      x ← get;
      match heap_peek x.2 with
      | Some timer =>
          if expire_ms timer <=? current_ms then
            _ ← zoom fst (λ s x, (s, x.2)) (add_task (task timer));
            _ ← modify (λ x, (x.1, heap_pop x.2));
            check_timer_loop fuel current_ms
          else mret (Some tt)
      | None => mret (Some tt)
      end
  end.
Definition check_timer (fuel : nat) (time : Z) : M (Sched * H) (option unit) :=
  check_timer_loop fuel (get_time_ms time).

(** [sys_sleep] up to the switch. *)
Definition sys_sleep (time ms : Z) : M (Sched * H) unit :=
  let expire := wrap64 (get_time_ms time + ms) in
  o ← gets (λ x, cur x.1);
  t ← unwrap o;
  _ ← add_timer expire t;
  zoom fst (λ s x, (s, x.2)) block_current_and_run_next.

(** ** Waking *)

Lemma filter_none {A} (P : A → Prop) `{!∀ x, Decision (P x)} (l : list A) :
  (∀ x, x ∈ l → ¬ P x) → filter P l = [].
Proof.
  induction l as [|x l IH]; intros Hl; [done|]. rewrite filter_cons_False by (apply Hl; left).
  apply IH. intros y Hy. apply Hl. by right.
Qed.
Lemma filter_every {A} (P : A → Prop) `{!∀ x, Decision (P x)} (l : list A) :
  (∀ x, x ∈ l → P x) → filter P l = l.
Proof.
  induction l as [|x l IH]; intros Hl; [done|]. rewrite filter_cons_True by (apply Hl; left).
  f_equal. apply IH. intros y Hy. apply Hl. by right.
Qed.

Definition expired (now : Z) (t : TimerCondVar) : Prop := expire_ms t <= now.
#[global] Instance expired_dec now t : Decision (expired now t) := Z.le_dec _ _.
Definition earlier (a b : TimerCondVar) : Prop := expire_ms a <= expire_ms b.
Definition times_ok (es : list TimerCondVar) : Prop := Forall (λ t, 0 <= expire_ms t < 2 ^ 63) es.

Lemma neg_isize_small e : 0 <= e < 2 ^ 63 → neg_isize e = - e.
Proof.
  intros He. unfold neg_isize. rewrite (to_signed_small 64 e) by (change (64 - 1) with 63; lia).
  unfold to_signed, wrap. change (64 - 1) with 63. destruct (decide (e = 0)) as [->|]; [done|].
  rewrite <- (Z.mod_add (- e) 1), Z.mod_small by lia. rewrite (proj2 (Z.ltb_ge _ _)) by lia. lia.
Qed.

Lemma cmp_spec a b : 0 <= expire_ms a < 2 ^ 63 → 0 <= expire_ms b < 2 ^ 63 →
  cmp a b ≠ Lt ↔ earlier a b.
Proof.
  intros Ha Hb. unfold cmp, earlier. rewrite !neg_isize_small by done.
  destruct (Z.compare_spec (- expire_ms a) (- expire_ms b)); split; (done || lia).
Qed.

Context `{HL : !BinaryHeapLaws H}.

Lemma check_timer_loop_ok fuel : ∀ now s h,
  times_ok (elems h) → (length (elems h) < fuel)%nat →
  ∃ h' ws, check_timer_loop fuel now (s, h) =
      Ok (Some tt, (upd_queue (λ q, q ++ (task <$> ws)) s, h')) ∧
    Sorted earlier ws ∧ ws ≡ₚ filter (expired now) (elems h) ∧
    elems h' ≡ₚ filter (λ t, ¬ expired now t) (elems h).
Proof.
  induction fuel as [|fuel IH]; intros now s h Ht Hf; [lia|].
  cbn [check_timer_loop]. unfold mbind, M_bind, get, zoom, modify, mret, M_ret. cbn [fst snd].
  assert ((∀ t, t ∈ elems h → ¬ expired now t) →
    ∃ h' ws, Ok (Some tt, (s, h)) = Ok (Some tt, (upd_queue (λ q, q ++ (task <$> ws)) s, h')) ∧
    Sorted earlier ws ∧ ws ≡ₚ filter (expired now) (elems h) ∧
    elems h' ≡ₚ filter (λ t, ¬ expired now t) (elems h)) as Hstop.
  { intros Hne. exists h, []. split_and!.
    - unfold upd_queue. simpl. rewrite app_nil_r. by destruct s.
    - constructor.
    - by rewrite filter_none.
    - by rewrite filter_every. }
  destruct (heap_peek h) as [t|] eqn:Hp.
  2: { apply Hstop. rewrite (heap_peek_none h Hp). intros t []%elem_of_nil. }
  destruct (heap_peek_pop h t Hp) as [Hperm Hmax].
  assert (times_ok (t :: elems (heap_pop h))) as Ht' by (unfold times_ok; by rewrite <- Hperm).
  assert (∀ u, u ∈ elems h → earlier t u) as Hmin.
  { intros u Hu. apply cmp_spec; [by apply Forall_cons in Ht' as [? _]| |by apply Hmax].
    by eapply Forall_forall in Ht. }
  destruct (Z.leb_spec (expire_ms t) now) as [Hle|Hgt].
  2: { apply Hstop. intros u Hu%Hmin. unfold expired, earlier in *. lia. }
  apply Forall_cons in Ht' as [_ Ht']. pose proof (Permutation_length Hperm) as Hlen. simpl in Hlen.
  cbn [add_task modify fst snd].
  destruct (IH now (upd_queue (λ q, q ++ [task t]) s) (heap_pop h) Ht' ltac:(lia)) as (h' & ws & He & Hs & Hw & Hh').
  exists h', (t :: ws). split_and!.
  - rewrite He. unfold upd_queue. simpl. by rewrite <- app_assoc.
  - constructor; [done|]. destruct ws as [|u ws]; constructor. apply Hmin.
    assert (u ∈ filter (expired now) (elems (heap_pop h))) as Hu by (rewrite <- Hw; left).
    apply list_elem_of_filter in Hu as [_ Hu]. rewrite Hperm. by right.
  - rewrite Hperm, filter_cons, decide_True by done. by rewrite Hw.
  - rewrite Hperm, filter_cons, decide_False by (intros Hn; by apply Hn). done.
Qed.
End timers.

(** ** A heap, to run the model *)

Fixpoint greatest (h : list TimerCondVar) : option TimerCondVar :=
  match h with
  | [] => None
  | t :: h' =>
      match greatest h' with
      | Some b => match cmp t b with Lt => Some b | _ => Some t end
      | None => Some t
      end
  end.
Fixpoint remove_one (t : TimerCondVar) (h : list TimerCondVar) : list TimerCondVar :=
  match h with
  | [] => []
  | u :: h' => if decide (u = t) then h' else u :: remove_one t h'
  end.

#[export] Instance list_heap : BinaryHeap (list TimerCondVar) := {|
  heap_new := [];
  heap_push := cons;
  heap_peek := greatest;
  heap_pop := λ h, match greatest h with Some t => remove_one t h | None => h end
|}.

Lemma greatest_max h t : greatest h = Some t → t ∈ h ∧ ∀ u, u ∈ h → cmp t u ≠ Lt.
Proof.
  revert t. induction h as [|x h IH]; intros t; simpl; [done|].
  destruct (greatest h) as [b|] eqn:Hb.
  - destruct (IH b eq_refl) as [Hin Hmax]. unfold cmp in *.
    destruct (Z.compare_spec (neg_isize (expire_ms x)) (neg_isize (expire_ms b))) as [Hc|Hc|Hc];
      intros [= <-]; (split; [by (left || right)|]); intros u [->|Hu]%elem_of_cons;
      try specialize (Hmax _ Hu); rewrite ?Z.compare_lt_iff, ?Z.compare_ge_iff in *; lia.
  - intros [= <-]. split; [left|]. intros u [->|Hu]%elem_of_cons.
    + unfold cmp. by rewrite Z.compare_refl.
    + destruct h as [|y h]; [by apply elem_of_nil in Hu|]. simpl in Hb. repeat case_match; done.
Qed.
Lemma remove_one_perm t h : t ∈ h → h ≡ₚ t :: remove_one t h.
Proof.
  induction h as [|u h IH]; intros Ht; simpl; [by apply elem_of_nil in Ht|].
  destruct (decide (u = t)) as [->|Hne]; [done|]. apply elem_of_cons in Ht as [->|Ht]; [done|].
  rewrite (IH Ht) at 1. apply Permutation_swap.
Qed.

#[export] Program Instance list_heap_laws : BinaryHeapLaws (list TimerCondVar) := {| elems := λ h, h |}.
Next Obligation. done. Qed.
Next Obligation. done. Qed.
Next Obligation. intros [|t h]; simpl; [done|]. repeat case_match; done. Qed.
Next Obligation.
  intros h t Hp. simpl in *. rewrite Hp. destruct (greatest_max h t Hp) as [Hin Hmax].
  split; [by apply remove_one_perm|done].
Qed.

(** ** Properties *)

(** The timer interrupt wakes exactly the tasks whose time has come: with
    expiry times below 2^63, [check_timer] terminates (one iteration per pending
    timer is enough), appends the tasks of all expired timers to the ready queue
    in the order of their expiry times, removes those timers and keeps the
    others. *)
Theorem check_timer_wakes_expired {H} `{HL : BinaryHeapLaws H} fuel time s (h : H) :
  times_ok (elems h) → (length (elems h) < fuel)%nat →
  let now := get_time_ms time in
  ∃ h' ws, check_timer fuel time (s, h) =
      Ok (Some tt, (upd_queue (λ q, q ++ (task <$> ws)) s, h')) ∧
    Sorted earlier ws ∧ ws ≡ₚ filter (expired now) (elems h) ∧
    elems h' ≡ₚ filter (λ t, ¬ expired now t) (elems h).
Proof. intros. by apply check_timer_loop_ok. Qed.

(** A sleeping task sleeps as long as it asked for and no longer than the
    next timer interrupt after that: [sys_sleep(ms)] takes the caller off the
    processor without making it ready; a timer interrupt before the deadline
    leaves it parked, and the first one at or after the deadline makes it ready. *)
Theorem sleep_until_deadline {H} `{HL : BinaryHeapLaws H} s (h : H) t time ms fuel time' s1 :
  cur s = Some t → 0 <= time → 0 <= ms → get_time_ms time + ms < 2 ^ 63 →
  times_ok (elems h) → (length (elems h) + 1 < fuel)%nat →
  let deadline := get_time_ms time + ms in
  ∃ s' h', sys_sleep time ms (s, h) = Ok (tt, (s', h')) ∧
    cur s' = None ∧ ready_queue s' = ready_queue s ∧
    ∃ h2 ws, check_timer fuel time' (s1, h') = Ok (Some tt, (upd_queue (λ q, q ++ (task <$> ws)) s1, h2)) ∧
      if decide (deadline <= get_time_ms time') then t ∈ task <$> ws
      else {| expire_ms := deadline; task := t |} ∈ elems h2 ∧
           (t ∉ task <$> elems h → t ∉ task <$> ws).
Proof.
  intros Ht Htime Hms Hd Hok Hf deadline. set (v := {| expire_ms := deadline; task := t |}).
  pose proof (heap_push_elems v h) as Hpush. pose proof (Permutation_length Hpush) as Hlen. simpl in Hlen.
  assert (0 <= get_time_ms time) as Hnow by (apply Z.div_pos; [done|by vm_compute]).
  assert (times_ok (elems (heap_push v h))) as Hok'.
  { unfold times_ok. rewrite Hpush. constructor; [simpl; lia|done]. }
  eexists _, (heap_push v h). split.
  { unfold sys_sleep, add_timer, unwrap, mbind, M_bind, gets, modify, mret, M_ret, zoom. cbn [fst snd].
    rewrite Ht. simpl. rewrite (block_eq _ _ Ht). rewrite wrap_small by lia. done. }
  split; [done|]. split; [done|].
  destruct (check_timer_loop_ok fuel (get_time_ms time') s1 _ Hok' ltac:(lia)) as (h2 & ws & He & _ & Hw & Hh).
  exists h2, ws. split; [exact He|]. rewrite Hpush in Hw, Hh. case_decide as Hdl.
  - assert (v ∈ ws) as Hv by (rewrite Hw; apply list_elem_of_filter; split; [exact Hdl|left]).
    by apply (list_elem_of_fmap_2 task) in Hv.
  - split.
    + rewrite Hh. apply list_elem_of_filter. split; [exact Hdl|left].
    + intros Hni (u & Hu & Hin)%list_elem_of_fmap. rewrite Hw in Hin.
      apply list_elem_of_filter in Hin as [Hexp [->|Hin]%elem_of_cons]; [done|].
      apply Hni. rewrite Hu. by apply list_elem_of_fmap_2.
Qed.

(** ** Witnesses *)

Definition demo_heap : list TimerCondVar :=
  [{| expire_ms := 30; task := 7 |}; {| expire_ms := 10; task := 8 |}; {| expire_ms := 99; task := 9 |}].
Lemma demo_times : times_ok (elems demo_heap).
Proof. repeat constructor; simpl; lia. Qed.

Lemma check_timer_wakes_expired_witness : ∃ h' ws,
  check_timer 4 500000 (demo_sched, demo_heap) =
    Ok (Some tt, (upd_queue (λ q, q ++ (task <$> ws)) demo_sched, h')) ∧ length ws = 2%nat.
Proof.
  destruct (check_timer_wakes_expired 4 500000 demo_sched demo_heap demo_times) as (h' & ws & He & _ & Hw & _).
  { simpl. lia. }
  exists h', ws. split; [exact He|]. apply Permutation_length in Hw. rewrite Hw. by vm_compute.
Defined.

Lemma sleep_until_deadline_witness : ∃ s' h', sys_sleep 125000 5 (demo_s1, demo_heap) = Ok (tt, (s', h')).
Proof.
  destruct (sleep_until_deadline demo_s1 demo_heap 1 125000 5 5 187500 demo_sched) as (s' & h' & He & _);
    [done|lia|lia|by vm_compute|apply demo_times|simpl; lia|]. by exists s', h'.
Defined.
