(* ===== verification/Threads.v ===== *)
(** * Programs with threads

    The programs of [user/src/bin] that create threads and use mutexes,
    semaphores and condition variables.  A program is a map from locations to
    instructions; an instruction is a system call or a step of the thread on the
    static variables of the process.  The threads run on the scheduler of [Sched]
    and the calls are the operations of [Sync] on the objects of the process; a
    thread can be preempted before every instruction.

    A thread that is parked by a call goes on behind the call when it is
    dispatched again.  Sleeping threads are woken in any order. *)

From S2P Require Import Prelude Sched Sync.

Inductive instr (Mem Loc : Type) :=
  | Lock (m : nat) (k : Loc)
  | Unlock (m : nat) (k : Loc)
  | Down (x : nat) (k : Loc)
  | Up (x : nat) (k : Loc)
  | Wait (c m : nat) (k : Loc)
  | Signal (c : nat) (k : Loc)
  | Sleep (k : Loc)
  | Yield (k : Loc)
  | Act (f : Z → Mem → Mem * Loc)
  | Exit.
Arguments Lock {Mem Loc} m k.
Arguments Unlock {Mem Loc} m k.
Arguments Down {Mem Loc} x k.
Arguments Up {Mem Loc} x k.
Arguments Wait {Mem Loc} c m k.
Arguments Signal {Mem Loc} c k.
Arguments Sleep {Mem Loc} k.
Arguments Yield {Mem Loc} k.
Arguments Act {Mem Loc} f.
Arguments Exit {Mem Loc}.

(** The scheduler, the objects of the process, the sleeping threads, the clock,
    the static variables and the locations of the threads. *)
Record PSys (Mem Loc : Type) := mkPSys {
  p_s : Sched;
  mxs : list MutexBlocking;
  sems : list Semaphore;
  cvs : list Condvar;
  asleep : list Z;
  now : Z;
  mem : Mem;
  pcs : gmap Z Loc
}.
Arguments mkPSys {Mem Loc}.
Arguments p_s {Mem Loc}.
Arguments mxs {Mem Loc}.
Arguments sems {Mem Loc}.
Arguments cvs {Mem Loc}.
Arguments asleep {Mem Loc}.
Arguments now {Mem Loc}.
Arguments mem {Mem Loc}.
Arguments pcs {Mem Loc}.

Section machine.
Context {Mem Loc : Type} (prog : Loc → instr Mem Loc).
Abbreviation Sys := (PSys Mem Loc).

Definition set_s (s : Sched) (y : Sys) : Sys :=
  mkPSys s (mxs y) (sems y) (cvs y) (asleep y) (now y) (mem y) (pcs y).
Definition set_asleep (l : list Z) (y : Sys) : Sys :=
  mkPSys (p_s y) (mxs y) (sems y) (cvs y) l (now y) (mem y) (pcs y).
Definition set_now (n : Z) (y : Sys) : Sys :=
  mkPSys (p_s y) (mxs y) (sems y) (cvs y) (asleep y) n (mem y) (pcs y).
Definition set_mem (v : Mem) (y : Sys) : Sys :=
  mkPSys (p_s y) (mxs y) (sems y) (cvs y) (asleep y) (now y) v (pcs y).
Definition goto (t : Z) (k : Loc) (y : Sys) : Sys :=
  mkPSys (p_s y) (mxs y) (sems y) (cvs y) (asleep y) (now y) (mem y) (<[t := k]> (pcs y)).

(** A call on an object of the process: the number indexes its table. *)
Definition on_mutex {A} (m : nat) (op : M (Sched * MutexBlocking) A) : M Sys A := λ y,
  match mxs y !! m with
  | Some x => match op (p_s y, x) with
    | Ok (a, (s, x')) => Ok (a, mkPSys s (<[m := x']> (mxs y)) (sems y) (cvs y) (asleep y) (now y) (mem y) (pcs y))
    | Panic p => Panic p
    end
  | None => Panic PIndex
  end.
Definition on_sem {A} (i : nat) (op : M (Sched * Semaphore) A) : M Sys A := λ y,
  match sems y !! i with
  | Some x => match op (p_s y, x) with
    | Ok (a, (s, x')) => Ok (a, mkPSys s (mxs y) (<[i := x']> (sems y)) (cvs y) (asleep y) (now y) (mem y) (pcs y))
    | Panic p => Panic p
    end
  | None => Panic PIndex
  end.
Definition on_condvar {A} (c : nat) (op : M (Sched * Condvar) A) : M Sys A := λ y,
  match cvs y !! c with
  | Some x => match op (p_s y, x) with
    | Ok (a, (s, x')) => Ok (a, mkPSys s (mxs y) (sems y) (<[c := x']> (cvs y)) (asleep y) (now y) (mem y) (pcs y))
    | Panic p => Panic p
    end
  | None => Panic PIndex
  end.
Definition on_condvar_mutex {A} (c m : nat) (op : M (Sched * (Condvar * MutexBlocking)) A) : M Sys A := λ y,
  match cvs y !! c, mxs y !! m with
  | Some x, Some z => match op (p_s y, (x, z)) with
    | Ok (a, (s, (x', z'))) => Ok (a, mkPSys s (<[m := z']> (mxs y)) (sems y) (<[c := x']> (cvs y)) (asleep y)
        (now y) (mem y) (pcs y))
    | Panic p => Panic p
    end
  | _, _ => Panic PIndex
  end.
Definition on_proc {A} (op : M Sched A) : M Sys A := zoom p_s set_s op.

(** What the running thread [t] does next.  [condvar_wait] goes on with the lock
    of the mutex, the instruction at [k]. *)
Definition turn (t : Z) : M Sys unit :=
  y ← get;
  l ← unwrap (pcs y !! t);
  match prog l with
  | Lock m k => _ ← on_mutex m MutexBlocking_lock; modify (goto t k)
  | Unlock m k => _ ← on_mutex m MutexBlocking_unlock; modify (goto t k)
  | Down x k => _ ← on_sem x down; modify (goto t k)
  | Up x k => _ ← on_sem x up; modify (goto t k)
  | Wait c m k => _ ← on_condvar_mutex c m wait_park; modify (goto t k)
  | Signal c k => _ ← on_condvar c signal; modify (goto t k)
  | Sleep k =>
      _ ← on_proc block_current_and_run_next;
      modify (λ y, goto t k (set_asleep (asleep y ++ [t]) y))
  | Yield k => _ ← on_proc suspend_current_and_run_next; modify (goto t k)
  | Act f => modify (λ y, goto t (snd (f (now y) (mem y))) (set_mem (fst (f (now y) (mem y))) y))
  | Exit => on_proc leave_current
  end.

(** The label says whether a thread executed an instruction. *)
Inductive pstep : bool → Sys → Sys → Prop :=
  | ps_dispatch y b s' : cur (p_s y) = None → run_next (p_s y) = Ok (b, s') → pstep false y (set_s s' y)
  | ps_preempt y s' : suspend_current_and_run_next (p_s y) = Ok (tt, s') → pstep false y (set_s s' y)
  | ps_wake y a1 t a2 s' : asleep y = a1 ++ t :: a2 → add_task t (p_s y) = Ok (tt, s') →
      pstep false y (set_asleep (a1 ++ a2) (set_s s' y))
  | ps_tick y n : now y <= n → pstep false y (set_now n y)
  | ps_turn y t y' : cur (p_s y) = Some t → turn t y = Ok (tt, y') → pstep true y y'.

(** Runs, with the number of instructions executed. *)
Inductive runs : nat → Sys → Sys → Prop :=
  | runs_nil y : runs 0 y y
  | runs_snoc n y b z z' : runs n y z → pstep b z z' → runs (n + (if b then 1 else 0)) y z'.

(** ** The effect of an instruction *)

(** The scheduler after [t] has been parked or has yielded, after [v] has been
    woken, and after the current thread has left. *)
Definition blocked (t : Z) (s : Sched) : Sched :=
  {| ready_queue := ready_queue s; cur := None; idle_task_cx := idle_task_cx s; cpu := idle_task_cx s;
     tcbs := alter (set_cx (cpu s)) t (alter (set_status Blocking) t (tcbs s)) |}.
Definition yielded (t : Z) (s : Sched) : Sched :=
  {| ready_queue := ready_queue s ++ [t]; cur := None; idle_task_cx := idle_task_cx s; cpu := idle_task_cx s;
     tcbs := alter (set_cx (cpu s)) t (alter (set_status Ready) t (tcbs s)) |}.
Definition woken (v : Z) (s : Sched) : Sched := upd_queue (λ q, q ++ [v]) s.
Definition left_ (s : Sched) : Sched :=
  {| ready_queue := ready_queue s; cur := None; idle_task_cx := idle_task_cx s; cpu := idle_task_cx s; tcbs := tcbs s |}.

Definition set_mutex (m : nat) (x : MutexBlocking) (y : Sys) : Sys :=
  mkPSys (p_s y) (<[m := x]> (mxs y)) (sems y) (cvs y) (asleep y) (now y) (mem y) (pcs y).
Definition set_sem (i : nat) (x : Semaphore) (y : Sys) : Sys :=
  mkPSys (p_s y) (mxs y) (<[i := x]> (sems y)) (cvs y) (asleep y) (now y) (mem y) (pcs y).
Definition set_condvar (c : nat) (x : Condvar) (y : Sys) : Sys :=
  mkPSys (p_s y) (mxs y) (sems y) (<[c := x]> (cvs y)) (asleep y) (now y) (mem y) (pcs y).

(** Releasing the mutex [x]: free, or passed on to the first waiter. *)
Inductive released (m : nat) (x : MutexBlocking) (y : Sys) : Sys → Prop :=
  | re_free : wait_queue x = [] → released m x y (set_mutex m {| locked := false; wait_queue := [] |} y)
  | re_next v q : wait_queue x = v :: q →
      released m x y (set_s (woken v (p_s y)) (set_mutex m {| locked := true; wait_queue := q |} y)).

Inductive effect (t : Z) (y : Sys) : instr Mem Loc → Sys → Prop :=
  | ef_lock m k x : mxs y !! m = Some x → locked x = false →
      effect t y (Lock m k) (goto t k (set_mutex m {| locked := true; wait_queue := wait_queue x |} y))
  | ef_lock_wait m k x : mxs y !! m = Some x → locked x = true →
      effect t y (Lock m k) (goto t k (set_s (blocked t (p_s y))
        (set_mutex m {| locked := true; wait_queue := wait_queue x ++ [t] |} y)))
  | ef_unlock m k x y' : mxs y !! m = Some x → locked x = true → released m x y y' →
      effect t y (Unlock m k) (goto t k y')
  | ef_down i k x : sems y !! i = Some x → 0 <= to_signed 64 (count x - 1) →
      effect t y (Down i k) (goto t k (set_sem i {| count := to_signed 64 (count x - 1); sem_queue := sem_queue x |} y))
  | ef_down_wait i k x : sems y !! i = Some x → to_signed 64 (count x - 1) < 0 →
      effect t y (Down i k) (goto t k (set_s (blocked t (p_s y))
        (set_sem i {| count := to_signed 64 (count x - 1); sem_queue := sem_queue x ++ [t] |} y)))
  | ef_up i k x : sems y !! i = Some x → 0 < to_signed 64 (count x + 1) ∨ sem_queue x = [] →
      effect t y (Up i k) (goto t k (set_sem i {| count := to_signed 64 (count x + 1); sem_queue := sem_queue x |} y))
  | ef_up_wake i k x v q : sems y !! i = Some x → to_signed 64 (count x + 1) <= 0 → sem_queue x = v :: q →
      effect t y (Up i k) (goto t k (set_s (woken v (p_s y))
        (set_sem i {| count := to_signed 64 (count x + 1); sem_queue := q |} y)))
  | ef_wait c m k z x y' : cvs y !! c = Some z → mxs y !! m = Some x → locked x = true → released m x y y' →
      effect t y (Wait c m k) (goto t k (set_s (blocked t (p_s y')) (set_condvar c {| cv_queue := cv_queue z ++ [t] |} y')))
  | ef_signal c k z : cvs y !! c = Some z → cv_queue z = [] → effect t y (Signal c k) (goto t k y)
  | ef_signal_wake c k z v q : cvs y !! c = Some z → cv_queue z = v :: q →
      effect t y (Signal c k) (goto t k (set_s (woken v (p_s y)) (set_condvar c {| cv_queue := q |} y)))
  | ef_sleep k : effect t y (Sleep k) (goto t k (set_asleep (asleep y ++ [t]) (set_s (blocked t (p_s y)) y)))
  | ef_yield k : effect t y (Yield k) (goto t k (set_s (yielded t (p_s y)) y))
  | ef_act f : effect t y (Act f) (goto t (snd (f (now y) (mem y))) (set_mem (fst (f (now y) (mem y))) y))
  | ef_exit : effect t y Exit (set_s (left_ (p_s y)) y).

Ltac turn_unfold := unfold turn, on_mutex, on_sem, on_condvar, on_condvar_mutex, on_proc; sync_unfold.

(** The operations of [Sync] in this form. *)
Lemma lock_eq s x t : cur s = Some t → MutexBlocking_lock (s, x) =
  if locked x then Ok (Parked, (blocked t s, {| locked := true; wait_queue := wait_queue x ++ [t] |}))
  else Ok (Returned, (s, {| locked := true; wait_queue := wait_queue x |})).
Proof.
  intros Ht. unfold MutexBlocking_lock. sync_unfold. destruct (locked x) eqn:Hl; [|done]. simpl. rewrite Ht. simpl.
  by rewrite (block_eq _ _ Ht).
Qed.

Lemma unlock_eq s x : MutexBlocking_unlock (s, x) =
  if locked x then
    match wait_queue x with
    | [] => Ok (tt, (s, {| locked := false; wait_queue := [] |}))
    | v :: q => Ok (tt, (woken v s, {| locked := true; wait_queue := q |}))
    end
  else Panic PAssert.
Proof.
  unfold MutexBlocking_unlock. sync_unfold. destruct (locked x) eqn:Hl; [|done]. simpl.
  by destruct (wait_queue x).
Qed.

Lemma wait_eq s c x t : cur s = Some t → wait_park (s, (c, x)) =
  match MutexBlocking_unlock (s, x) with
  | Ok (_, (s', x')) => Ok (tt, (blocked t s', ({| cv_queue := cv_queue c ++ [t] |}, x')))
  | Panic p => Panic p
  end.
Proof.
  intros Ht. unfold wait_park. sync_unfold. change unlock with MutexBlocking_unlock. rewrite unlock_eq.
  destruct (locked x); [|done]. destruct (wait_queue x); simpl; rewrite Ht; simpl.
  - by rewrite (block_eq _ _ Ht).
  - by rewrite (block_eq (woken _ _) t).
Qed.

(** Both directions of the equivalence, for a known outcome of the call. *)
Ltac effect_iff tac := split; [intros Heq; try discriminate Heq; injection Heq as <-; tac|
  intros He; inversion He; simplify_eq; try done; try (exfalso; first [congruence|lia]);
  try (match goal with Hr : released _ ?x _ _, Hw : wait_queue ?x = _ |- _ =>
    by destruct Hr as [E|v' q' E]; rewrite Hw in E; simplify_eq end);
  try (match goal with H1 : ?f ?x = _ :: _, H2 : ?f ?x = _ :: _ |- _ => by rewrite H1 in H2; simplify_eq end)].

Lemma turn_effect t l y y' : cur (p_s y) = Some t → pcs y !! t = Some l →
  turn t y = Ok (tt, y') ↔ effect t y (prog l) y'.
Proof.
  intros Ht Hl. turn_unfold. rewrite Hl. unfold mret, M_ret. cbv beta iota.
  destruct (prog l) as [m k|m k|i k|i k|c m k|c k|k|k|f|].
  - destruct (mxs y !! m) as [x|] eqn:Hx; [|effect_iff idtac]. rewrite (lock_eq _ _ _ Ht).
    destruct (locked x) eqn:Hlk; [effect_iff ltac:(by eapply ef_lock_wait)|effect_iff ltac:(by eapply ef_lock)].
  - destruct (mxs y !! m) as [x|] eqn:Hx; [|effect_iff idtac]. rewrite unlock_eq.
    destruct (locked x) eqn:Hlk; [|effect_iff idtac]. destruct (wait_queue x) as [|v q] eqn:Hq.
    + effect_iff ltac:(by eapply ef_unlock; [..|by apply re_free]).
    + effect_iff ltac:(by eapply ef_unlock; [..|by apply (re_next _ _ _ v q)]).
  - destruct (sems y !! i) as [x|] eqn:Hx; [|effect_iff idtac]. rewrite (down_eq _ _ _ Ht). cbv zeta.
    destruct (Z.ltb_spec (to_signed 64 (count x - 1)) 0);
      [effect_iff ltac:(by eapply ef_down_wait)|effect_iff ltac:(by eapply ef_down)]; lia.
  - destruct (sems y !! i) as [x|] eqn:Hx; [|effect_iff idtac]. rewrite up_eq. cbv zeta.
    destruct (sem_queue x) as [|v q] eqn:Hq; [|destruct (Z.leb_spec (to_signed 64 (count x + 1)) 0)].
    + rewrite <- Hq at 1. effect_iff ltac:(by eapply ef_up; [|right]).
    + effect_iff ltac:(by eapply ef_up_wake). match goal with Ho : _ ∨ _ |- _ => by destruct Ho; [lia|congruence] end.
    + rewrite <- Hq. effect_iff ltac:(eapply ef_up; [done|by left]).
  - destruct (cvs y !! c) as [z|] eqn:Hz; [|effect_iff idtac]. destruct (mxs y !! m) as [x|] eqn:Hx; [|effect_iff idtac].
    rewrite (wait_eq _ _ _ _ Ht), unlock_eq. destruct (locked x) eqn:Hlk; [|effect_iff idtac].
    destruct (wait_queue x) as [|v q] eqn:Hq.
    + effect_iff ltac:(exact (ef_wait t y c m k z x _ Hz Hx Hlk (re_free m x y Hq))).
    + effect_iff ltac:(exact (ef_wait t y c m k z x _ Hz Hx Hlk (re_next m x y v q Hq))).
  - destruct (cvs y !! c) as [z|] eqn:Hz; [|effect_iff idtac]. unfold signal. sync_unfold.
    destruct (cv_queue z) as [|v q] eqn:Hq; [|effect_iff ltac:(by eapply ef_signal_wake)].
    unfold mret, M_ret. cbv beta iota. rewrite (list_insert_id _ _ _ Hz). destruct y. effect_iff ltac:(by eapply ef_signal).
  - rewrite (block_eq _ _ Ht). effect_iff ltac:(by apply ef_sleep).
  - rewrite (suspend_eq _ _ Ht). effect_iff ltac:(by apply ef_yield).
  - effect_iff ltac:(by apply ef_act).
  - rewrite (leave_eq _ _ Ht). effect_iff ltac:(by apply ef_exit).
Qed.

(** ** Every thread has a place *)

Definition parked (y : Sys) : list Z :=
  concat (wait_queue <$> mxs y) ++ concat (sem_queue <$> sems y) ++ concat (cv_queue <$> cvs y) ++ asleep y.

(** A thread that has not reached the end is on the processor, ready or parked. *)
Record placed (y : Sys) : Prop := {
  pl_sched : sched_ok (p_s y) (parked y);
  pl_live : ∀ t l, pcs y !! t = Some l → prog l ≠ Exit → t ∈ places (p_s y) (parked y)
}.

Lemma concat_insert {A} (f : A → list Z) l i x : l !! i = Some x →
  ∃ u v, concat (f <$> l) = u ++ f x ++ v ∧ ∀ x', concat (f <$> <[i := x']> l) = u ++ f x' ++ v.
Proof.
  intros Hi. pose proof (lookup_lt_Some _ _ _ Hi) as Hlt. pose proof (take_drop_middle l i x Hi) as Hl.
  exists (concat (f <$> take i l)), (concat (f <$> drop (S i) l)). split.
  - transitivity (concat (f <$> (take i l ++ x :: drop (S i) l))); [by rewrite Hl|]. by rewrite fmap_app, concat_app.
  - intros x'. rewrite (insert_take_drop l i x' Hlt). by rewrite fmap_app, concat_app.
Qed.

Lemma parked_mutex y m x : mxs y !! m = Some x →
  ∃ u v, parked y = u ++ wait_queue x ++ v ∧ ∀ x', parked (set_mutex m x' y) = u ++ wait_queue x' ++ v.
Proof.
  intros Hx. destruct (concat_insert wait_queue _ _ _ Hx) as (u & v & H1 & H2). unfold parked. simpl. rewrite H1.
  exists u, (v ++ concat (sem_queue <$> sems y) ++ concat (cv_queue <$> cvs y) ++ asleep y).
  split; [by rewrite <- !app_assoc|]. intros x'. by rewrite H2, <- !app_assoc.
Qed.

Lemma parked_sem y i x : sems y !! i = Some x →
  ∃ u v, parked y = u ++ sem_queue x ++ v ∧ ∀ x', parked (set_sem i x' y) = u ++ sem_queue x' ++ v.
Proof.
  intros Hx. destruct (concat_insert sem_queue _ _ _ Hx) as (u & v & H1 & H2). unfold parked. simpl. rewrite H1.
  exists (concat (wait_queue <$> mxs y) ++ u), (v ++ concat (cv_queue <$> cvs y) ++ asleep y).
  split; [by rewrite <- !app_assoc|]. intros x'. by rewrite H2, <- !app_assoc.
Qed.

Lemma parked_condvar y c x : cvs y !! c = Some x →
  ∃ u v, parked y = u ++ cv_queue x ++ v ∧ ∀ x', parked (set_condvar c x' y) = u ++ cv_queue x' ++ v.
Proof.
  intros Hx. destruct (concat_insert cv_queue _ _ _ Hx) as (u & v & H1 & H2). unfold parked. simpl. rewrite H1.
  exists (concat (wait_queue <$> mxs y) ++ concat (sem_queue <$> sems y) ++ u), (v ++ asleep y).
  split; [by rewrite <- !app_assoc|]. intros x'. by rewrite H2, <- !app_assoc.
Qed.

Lemma parked_asleep y : ∃ u, parked y = u ++ asleep y ++ [] ∧ ∀ l, parked (set_asleep l y) = u ++ l ++ [].
Proof.
  exists (concat (wait_queue <$> mxs y) ++ concat (sem_queue <$> sems y) ++ concat (cv_queue <$> cvs y)).
  unfold parked. simpl. split; [|intros l]; by rewrite app_nil_r, <- !app_assoc.
Qed.

(** Tasks move between the places, none appears or vanishes. *)
Definition relocated (s : Sched) (w : list Z) (s' : Sched) (w' : list Z) : Prop :=
  places s' w' ≡ₚ places s w ∧ (sched_ok s w → sched_ok s' w').

Lemma relocated_park s t u q v : cur s = Some t → relocated s (u ++ q ++ v) (blocked t s) (u ++ (q ++ [t]) ++ v).
Proof.
  intros Ht. assert (places (blocked t s) (u ++ (q ++ [t]) ++ v) ≡ₚ places s (u ++ q ++ v)) as Hp.
  { unfold places. rewrite Ht. simpl. solve_Permutation. }
  split; [done|]. intros Hok. eapply sched_ok_perm; [done|by rewrite Hp| |done].
  intros r Hr. simpl. by rewrite !lookup_alter_is_Some.
Qed.

Lemma relocated_wake s r u q v : relocated s (u ++ (r :: q) ++ v) (woken r s) (u ++ q ++ v).
Proof.
  assert (places (woken r s) (u ++ q ++ v) ≡ₚ places s (u ++ (r :: q) ++ v)) as Hp by (unfold places; simpl; solve_Permutation).
  split; [done|]. intros Hok. eapply sched_ok_perm; [done|by rewrite Hp|done|apply Hok].
Qed.

Lemma relocated_yield s t w : cur s = Some t → relocated s w (yielded t s) w.
Proof.
  intros Ht. split; [unfold places; rewrite Ht; simpl; solve_Permutation|].
  intros Hok. eapply (sched_step_ok ESuspend); [apply ss_suspend; by apply (suspend_eq s t)|done].
Qed.

Lemma relocated_refl s w : relocated s w s w.
Proof. done. Qed.
Lemma relocated_trans s w s1 w1 s2 w2 : relocated s w s1 w1 → relocated s1 w1 s2 w2 → relocated s w s2 w2.
Proof. intros [H1 K1] [H2 K2]. split; [by rewrite H2|auto]. Qed.

Lemma released_relocated m x y y' : mxs y !! m = Some x → released m x y y' →
  relocated (p_s y) (parked y) (p_s y') (parked y').
Proof.
  intros Hx Hr. destruct (parked_mutex y m x Hx) as (u & v & H1 & H2).
  destruct Hr as [Hq|w q Hq].
  - change (relocated (p_s y) (parked y) (p_s y) (parked (set_mutex m {| locked := false; wait_queue := [] |} y))).
    rewrite H1, H2, Hq. apply relocated_refl.
  - change (relocated (p_s y) (parked y) (woken w (p_s y)) (parked (set_mutex m {| locked := true; wait_queue := q |} y))).
    rewrite H1, H2, Hq. apply relocated_wake.
Qed.

Lemma released_same m x y y' : released m x y y' →
  cur (p_s y') = cur (p_s y) ∧ sems y' = sems y ∧ cvs y' = cvs y ∧ asleep y' = asleep y ∧ mem y' = mem y ∧
  now y' = now y ∧ pcs y' = pcs y ∧
  mxs y' = <[m := {| locked := bool_decide (wait_queue x ≠ []); wait_queue := tail (wait_queue x) |}]> (mxs y).
Proof. by intros [Hq|v q Hq]; rewrite Hq. Qed.

Lemma effect_relocated t y i y' : cur (p_s y) = Some t → effect t y i y' → i ≠ Exit →
  relocated (p_s y) (parked y) (p_s y') (parked y').
Proof.
  intros Ht He Hne. destruct He as [m k x Hx _|m k x Hx _|m k x y' Hx _ Hr|i k x Hx _|i k x Hx _|i k x Hx _|
    i k x v q Hx _ Hq|c m k z x y' Hz Hx _ Hr|c k z Hz _|c k z v q Hz Hq|k|k|f|]; try done.
  - destruct (parked_mutex y m x Hx) as (u & v & H1 & H2). rewrite H1. eapply relocated_trans; [apply relocated_refl|].
    change (parked (goto t k ?a)) with (parked a). rewrite H2. apply relocated_refl.
  - destruct (parked_mutex y m x Hx) as (u & v & H1 & H2).
    change (parked (goto t k (set_s ?s ?a))) with (parked a). rewrite H1, H2. by apply relocated_park.
  - exact (released_relocated m x y y' Hx Hr).
  - destruct (parked_sem y i x Hx) as (u & v & H1 & H2). change (parked (goto t k ?a)) with (parked a). rewrite H1, H2.
    apply relocated_refl.
  - destruct (parked_sem y i x Hx) as (u & v & H1 & H2).
    change (parked (goto t k (set_s ?s ?a))) with (parked a). rewrite H1, H2. by apply relocated_park.
  - destruct (parked_sem y i x Hx) as (u & v & H1 & H2). change (parked (goto t k ?a)) with (parked a). rewrite H1, H2.
    apply relocated_refl.
  - destruct (parked_sem y i x Hx) as (u & w & H1 & H2).
    change (parked (goto t k (set_s ?s ?a))) with (parked a). rewrite H1, H2, Hq. apply relocated_wake.
  - eapply relocated_trans; [by eapply released_relocated|]. destruct (released_same _ _ _ _ Hr) as (Hc & _ & Hcv & _).
    rewrite <- Hcv in Hz. destruct (parked_condvar y' c z Hz) as (u & v & H1 & H2).
    change (parked (goto t k (set_s ?s ?a))) with (parked a). rewrite H1, H2. apply relocated_park. congruence.
  - destruct (parked_condvar y c z Hz) as (u & w & H1 & H2).
    change (parked (goto t k (set_s ?s ?a))) with (parked a). rewrite H1, H2, Hq. apply relocated_wake.
  - destruct (parked_asleep y) as (u & H1 & H2).
    change (parked (goto t k (set_asleep ?l (set_s ?s ?a)))) with (parked (set_asleep l a)). rewrite H1, H2.
    by apply relocated_park.
  - by apply relocated_yield.
Qed.

(** What an instruction does to the locations, the variables and the clock. *)
Lemma effect_shape t y i y' : effect t y i y' → now y' = now y ∧
  match i with
  | Exit => pcs y' = pcs y ∧ mem y' = mem y
  | Act f => pcs y' = <[t := snd (f (now y) (mem y))]> (pcs y) ∧ mem y' = fst (f (now y) (mem y))
  | Lock _ k | Unlock _ k | Down _ k | Up _ k | Wait _ _ k | Signal _ k | Sleep k | Yield k =>
      pcs y' = <[t := k]> (pcs y) ∧ mem y' = mem y
  end.
Proof.
  intros He. destruct He as [| |???? Hx Hl Hr| | | | |?????? Hz Hx Hl Hr| | | | | |]; try done; simpl;
    by destruct (released_same _ _ _ _ Hr) as (_ & _ & _ & _ & -> & -> & -> & _).
Qed.

Lemma effect_pcs t y i y' u : effect t y i y' → u ≠ t → pcs y' !! u = pcs y !! u.
Proof.
  intros He Hu. destruct (effect_shape _ _ _ _ He) as [_ Hs]. destruct i; destruct Hs as [-> _]; by rewrite ?lookup_insert_ne.
Qed.

Lemma placed_relocated y y' : placed y → relocated (p_s y) (parked y) (p_s y') (parked y') →
  (∀ t, t ∉ places (p_s y) (parked y) → pcs y' !! t = pcs y !! t) → placed y'.
Proof.
  intros [Hs Hl] [Hp Hok] Hpc. split; [by apply Hok|]. intros t l Ht Hne. rewrite Hp.
  destruct (decide (t ∈ places (p_s y) (parked y))) as [|Hn]; [done|]. rewrite Hpc in Ht by done. by eapply Hl.
Qed.

(** Scheduling, waking and the clock move no thread to another location. *)
Lemma idle_step y y' : placed y → pstep false y y' →
  relocated (p_s y) (parked y) (p_s y') (parked y') ∧ pcs y' = pcs y ∧ mxs y' = mxs y ∧ sems y' = sems y ∧
  cvs y' = cvs y ∧ mem y' = mem y ∧ now y <= now y'.
Proof.
  intros Hpl Hstep. pose proof (pl_sched _ Hpl) as Hs. remember false as e eqn:He.
  destruct Hstep as [y b s' Hc Hr|y s' Hr|y a1 t a2 s' Ha Hw|y n Hn|y t y' Ht _]; [| | | |done]; (split; [|split_and!; simpl; first [done|lia]]).
  - split; [|intros _; by eapply (sched_step_ok EDispatch); [eapply ss_dispatch|]].
    destruct (ready_queue (p_s y)) as [|t q] eqn:Hq.
    + rewrite run_next_idle in Hr by done. by simplify_eq.
    + destruct (so_live _ _ Hs t) as [bt Hbt]; [unfold places; rewrite Hc, Hq; simpl; set_solver|].
      rewrite (run_next_eq _ _ _ _ Hq Hbt) in Hr. simplify_eq. unfold places. simpl. by rewrite Hc, Hq.
  - split; [|intros _; by eapply (sched_step_ok ESuspend); [apply ss_suspend|]].
    destruct (suspend_current _ _ Hr) as [t Ht]. rewrite (suspend_eq _ _ Ht) in Hr. simplify_eq.
    unfold places. simpl. rewrite Ht. change (parked (set_s _ y)) with (parked y). simpl. solve_Permutation.
  - rewrite add_task_eq in Hw. simplify_eq. destruct (parked_asleep y) as (u & H1 & H2). rewrite H1, Ha.
    change (parked (set_asleep ?l (set_s ?s ?a))) with (parked (set_asleep l a)). rewrite H2.
    pose proof (relocated_wake (p_s y) t (u ++ a1) a2 []) as Hrel. by rewrite <- !app_assoc in Hrel |- *.
  - apply relocated_refl.
Qed.

Lemma placed_step b y y' : placed y → pstep b y y' → placed y'.
Proof.
  intros Hpl Hstep. destruct b.
  - inversion Hstep as [| | | |? t ? Ht He]; subst.
    assert (t ∈ places (p_s y) (parked y)) as Hin by (unfold places; rewrite Ht; by left).
    destruct (pcs y !! t) as [l|] eqn:Hl; [|by unfold turn, mbind, M_bind, get in He; rewrite Hl in He].
    apply (turn_effect t l y y' Ht Hl) in He. destruct (prog l) as [| | | | | | | | |] eqn:Hp;
      try (apply (placed_relocated y); [done|by eapply effect_relocated|];
           intros v Hv; eapply effect_pcs; [done|]; by intros ->).
    inversion He; subst. split.
    + eapply (sched_step_ok (EExit t)); [apply ss_exit; [done|by apply (leave_eq (p_s y) t)]|exact (pl_sched _ Hpl)].
    + intros v lv Hv Hne. pose proof (pl_live _ Hpl v lv Hv Hne) as Hvin. unfold places in *. simpl. rewrite Ht in Hvin.
      apply elem_of_cons in Hvin as [->|?]; [|done]. simpl in Hv. congruence.
  - destruct (idle_step y y' Hpl Hstep) as (Hrel & Hpc & _). apply (placed_relocated y); [done|done|]. by rewrite Hpc.
Qed.

Lemma placed_runs n y y' : placed y → runs n y y' → placed y'.
Proof. intros Hy Hr. induction Hr as [|n y b z z' _ IH Hs]; [done|]. eapply placed_step; [by apply IH|done]. Qed.
End machine.

(** ** Programs that use mutexes in order

    [claims l] are the mutexes a thread at [l] holds or is parked for, the last
    one first.  A disciplined program takes a mutex only if it is larger than the
    ones it has claimed, gives the last one back first, and ends without any. *)

Section mutexes.
Context {Mem Loc : Type} (prog : Loc → instr Mem Loc) (claims : Loc → list nat) (nm : nat).
Abbreviation Sys := (PSys Mem Loc).

Record disciplined : Prop := {
  di_lock : ∀ l m k, prog l = Lock m k → (m < nm)%nat ∧ claims k = m :: claims l ∧ Forall (λ m', m' < m)%nat (claims l);
  di_unlock : ∀ l m k, prog l = Unlock m k → claims l = m :: claims k ∧ m ∉ claims k;
  di_sleep : ∀ l k, prog l = Sleep k → claims k = claims l;
  di_yield : ∀ l k, prog l = Yield k → claims k = claims l;
  di_act : ∀ l f n v, prog l = Act f → claims (snd (f n v)) = claims l;
  di_exit : ∀ l, prog l = Exit → claims l = [];
  di_range : ∀ l, Forall (λ m, m < nm)%nat (claims l);
  di_only : ∀ l, match prog l with Down _ _ | Up _ _ | Wait _ _ _ | Signal _ _ => False | _ => True end
}.
Hypothesis Hdisc : disciplined.

(** The thread [t] has claimed [m]. *)
Definition claimed (y : Sys) (t : Z) (m : nat) : Prop := ∃ l, pcs y !! t = Some l ∧ m ∈ claims l.

(** The mutex [x] with number [m] is locked exactly if it has an owner; the
    owner and the parked threads are the ones that have claimed it, and the parked
    threads are at the location behind the call. *)
Record mutex_inv (y : Sys) (m : nat) (x : MutexBlocking) (o : option Z) : Prop := {
  mv_locked : locked x = bool_decide (is_Some o);
  mv_free : o = None → wait_queue x = [];
  mv_claimed : ∀ t, claimed y t m ↔ o = Some t ∨ t ∈ wait_queue x;
  mv_owner : ∀ t, o = Some t → t ∉ wait_queue x;
  mv_last : ∀ t, t ∈ wait_queue x → ∃ l l0, pcs y !! t = Some l ∧ prog l0 = Lock m l
}.

Record psys_inv (y : Sys) : Prop := {
  pi_placed : placed prog y;
  pi_count : length (mxs y) = nm;
  pi_mutex : ∀ m x, mxs y !! m = Some x → ∃ o, mutex_inv y m x o;
  pi_queues : sems y = [] ∧ cvs y = []
}.

(** The running thread is parked nowhere. *)
Lemma cur_not_parked y t : placed prog y → cur (p_s y) = Some t → t ∉ parked y ∧ t ∉ ready_queue (p_s y).
Proof. intros Hp Ht. destruct (cur_not_placed _ _ _ (pl_sched _ _ Hp) Ht). done. Qed.

Lemma parked_in_mutex (y : Sys) m x t : mxs y !! m = Some x → t ∈ wait_queue x → t ∈ parked y.
Proof. intros Hx Ht. destruct (parked_mutex y m x Hx) as (u & v & -> & _). set_solver. Qed.

Lemma claimed_goto y y' t k u m : pcs y' = <[t := k]> (pcs y) →
  claimed y' u m ↔ if decide (u = t) then m ∈ claims k else claimed y u m.
Proof.
  intros Hp. unfold claimed. rewrite Hp. case_decide.
  - subst. rewrite lookup_insert_eq. naive_solver.
  - by rewrite lookup_insert_ne.
Qed.

(** A step of [t] that leaves the mutex [x] as it is. *)
Lemma mutex_inv_frame y y' t l k m x o :
  mutex_inv y m x o → pcs y !! t = Some l → pcs y' = <[t := k]> (pcs y) → t ∉ wait_queue x →
  (m ∈ claims k ↔ m ∈ claims l) → mutex_inv y' m x o.
Proof.
  intros [Hl Hf Hc Ho Hh] Ht Hp Hni Hk. split; try done.
  - intros u. rewrite (claimed_goto y y' t k u m Hp). case_decide; [subst|apply Hc]. rewrite Hk, <- Hc.
    unfold claimed. rewrite Ht. naive_solver.
  - intros u Hu. rewrite Hp, lookup_insert_ne by (by intros ->). by apply Hh.
Qed.

(** Taking the mutex, free or not. *)
Lemma mutex_inv_lock y y' t l k m x o :
  mutex_inv y m x o → prog l = Lock m k → pcs y !! t = Some l → pcs y' = <[t := k]> (pcs y) → t ∉ wait_queue x →
  if locked x then mutex_inv y' m {| locked := true; wait_queue := wait_queue x ++ [t] |} o
  else mutex_inv y' m {| locked := true; wait_queue := wait_queue x |} (Some t).
Proof.
  intros [Hl Hf Hc Ho Hh] Hpr Ht Hp Hni. destruct (di_lock Hdisc _ _ _ Hpr) as (_ & Hk & Hlt).
  assert (¬ claimed y t m) as Hnc.
  { intros (l' & Hl' & Hin). simplify_eq. rewrite Forall_forall in Hlt. specialize (Hlt m Hin). lia. }
  assert (∀ u, claimed y' u m ↔ u = t ∨ claimed y u m) as Hc'.
  { intros u. rewrite (claimed_goto y y' t k u m Hp), Hk. case_decide; [subst; set_solver|naive_solver]. }
  destruct (locked x) eqn:Hlk; rewrite Hl in *.
  - split; cbn [locked wait_queue]; try done.
    + intros ->. done.
    + intros u. rewrite Hc', Hc. set_solver.
    + intros u Hu Hin. apply elem_of_app in Hin as [Hin|Hin%list_elem_of_singleton]; [by eapply Ho|].
      subst. apply Hnc, Hc. by left.
    + intros u Hin. rewrite Hp. destruct (decide (u = t)) as [->|Hne].
      * rewrite lookup_insert_eq. by exists k, l.
      * rewrite lookup_insert_ne by done. apply Hh. set_solver.
  - destruct o as [v|]; [done|]. rewrite (Hf eq_refl) in *.
    split; cbn [locked wait_queue]; try done.
    + intros u. rewrite Hc', Hc. set_solver.
    + intros u _. apply not_elem_of_nil.
    + by intros u ?%not_elem_of_nil.
Qed.

(** Giving it back: the first waiter owns it. *)
Lemma mutex_inv_unlock y y' t l k m x o :
  mutex_inv y m x o → prog l = Unlock m k → pcs y !! t = Some l → pcs y' = <[t := k]> (pcs y) →
  t ∉ wait_queue x → NoDup (wait_queue x) →
  locked x = true ∧ mutex_inv y' m {| locked := bool_decide (wait_queue x ≠ []); wait_queue := tail (wait_queue x) |} (head (wait_queue x)).
Proof.
  intros [Hl Hf Hc Ho Hh] Hpr Ht Hp Hni Hnd. destruct (di_unlock Hdisc _ _ _ Hpr) as (Hk & Hnk).
  assert (o = Some t) as ->.
  { assert (claimed y t m) as Hcl by (exists l; split; [done|rewrite Hk; by left]). apply Hc in Hcl as [|]; done. }
  split; [done|]. assert (∀ u, claimed y' u m ↔ u ∈ wait_queue x) as Hc'.
  { intros u. rewrite (claimed_goto y y' t k u m Hp). case_decide; [by subst|]. rewrite Hc. naive_solver. }
  destruct (wait_queue x) as [|v q] eqn:Hq; cbn [head tail]; split; cbn [locked wait_queue]; try done.
  - intros u. rewrite Hc'. set_solver.
  - by intros u ?%not_elem_of_nil.
  - intros u. rewrite Hc'. set_solver.
  - intros u [= <-]. by apply NoDup_cons in Hnd as [? _].
  - intros u Hu. rewrite Hp. rewrite lookup_insert_ne; [apply Hh; by right|]. intros ->. apply Hni. by right.
Qed.

Lemma queue_nodup y m x : placed prog y → mxs y !! m = Some x → NoDup (wait_queue x).
Proof.
  intros [[Hnd _ _] _] Hx. destruct (parked_mutex y m x Hx) as (u & v & Hp & _). unfold places in Hnd. rewrite Hp in Hnd.
  apply NoDup_app in Hnd as (_ & _ & Hnd). apply NoDup_app in Hnd as (_ & _ & Hnd).
  apply NoDup_app in Hnd as (_ & _ & Hnd). by apply NoDup_app in Hnd as (? & _).
Qed.

(** What a step of a thread does to one mutex. *)
Lemma mutex_inv_effect y y' t l m x o :
  placed prog y → cur (p_s y) = Some t → pcs y !! t = Some l → effect t y (prog l) y' →
  mxs y !! m = Some x → mutex_inv y m x o → ∃ x' o', mxs y' !! m = Some x' ∧ mutex_inv y' m x' o'.
Proof.
  intros Hpl Ht Hl He Hx Hm. destruct (cur_not_parked y t Hpl Ht) as [Hnp _].
  assert (∀ m1 x1, mxs y !! m1 = Some x1 → t ∉ wait_queue x1) as Hni by (intros m1 x1 Hx1 Hin; by eapply Hnp, parked_in_mutex).
  pose proof (di_only Hdisc l) as Honly. remember (prog l) as i eqn:Hpr.
  destruct He as [m1 k x1 Hx1 Hl1|m1 k x1 Hx1 Hl1|m1 k x1 y1 Hx1 Hl1 Hr| | | | | | | |k|k|f|]; try done; symmetry in Hpr; simpl.
  - destruct (decide (m1 = m)) as [->|Hne].
    + assert (x1 = x) as -> by congruence. rewrite list_lookup_insert_eq by (by eapply lookup_lt_Some). eexists _, _. split; [done|].
      pose proof (mutex_inv_lock y (goto t k (set_mutex m {| locked := true; wait_queue := wait_queue x |} y)) t l k m x o
        Hm Hpr Hl eq_refl (Hni _ _ Hx)) as H1. rewrite Hl1 in H1. exact H1.
    + rewrite list_lookup_insert_ne by done. exists x, o. split; [done|]. eapply mutex_inv_frame; try done; [by eapply Hni|].
      destruct (di_lock Hdisc _ _ _ Hpr) as (_ & -> & _). set_solver.
  - destruct (decide (m1 = m)) as [->|Hne].
    + assert (x1 = x) as -> by congruence. rewrite list_lookup_insert_eq by (by eapply lookup_lt_Some). eexists _, o. split; [done|].
      pose proof (mutex_inv_lock y (goto t k (set_s (blocked t (p_s y)) (set_mutex m {| locked := true; wait_queue := wait_queue x ++ [t] |} y)))
        t l k m x o Hm Hpr Hl eq_refl (Hni _ _ Hx)) as H1. rewrite Hl1 in H1. exact H1.
    + rewrite list_lookup_insert_ne by done. exists x, o. split; [done|]. eapply mutex_inv_frame; try done; [by eapply Hni|].
      destruct (di_lock Hdisc _ _ _ Hpr) as (_ & -> & _). set_solver.
  - destruct (released_same _ _ _ _ Hr) as (_ & _ & _ & _ & _ & _ & Hpc & Hmx). rewrite Hmx.
    assert (pcs (goto t k y1) = <[t := k]> (pcs y)) as Hpc1 by (simpl; by rewrite Hpc).
    destruct (decide (m1 = m)) as [->|Hne].
    + assert (x1 = x) as -> by congruence. rewrite list_lookup_insert_eq by (by eapply lookup_lt_Some). eexists _, _. split; [done|].
      by eapply (mutex_inv_unlock y _ t l k m x o); [..|by eapply Hni|by eapply queue_nodup].
    + rewrite list_lookup_insert_ne by done. exists x, o. split; [done|]. eapply mutex_inv_frame; try done; [by eapply Hni|].
      destruct (di_unlock Hdisc _ _ _ Hpr) as (-> & _). set_solver.
  - exists x, o. split; [done|]. eapply mutex_inv_frame; try done; [by eapply Hni|]. by rewrite (di_sleep Hdisc _ _ Hpr).
  - exists x, o. split; [done|]. eapply mutex_inv_frame; try done; [by eapply Hni|]. by rewrite (di_yield Hdisc _ _ Hpr).
  - exists x, o. split; [done|]. eapply mutex_inv_frame; try done; [by eapply Hni|]. by rewrite (di_act Hdisc _ _ _ _ Hpr).
  - exists x, o. split; [done|]. by destruct Hm.
Qed.

Lemma effect_lengths t (y : Sys) i y' : effect t y i y' →
  length (mxs y') = length (mxs y) ∧ length (sems y') = length (sems y) ∧ length (cvs y') = length (cvs y).
Proof.
  intros He. destruct He as [| |???? Hx Hl Hr| | | | |?????? Hz Hx Hl Hr| | | | | |]; simpl; rewrite ?length_insert; try done;
    destruct (released_same _ _ _ _ Hr) as (_ & -> & -> & _ & _ & _ & _ & ->); by rewrite length_insert.
Qed.

Lemma mutex_inv_pcs y y' m x o : pcs y' = pcs y → mutex_inv y m x o → mutex_inv y' m x o.
Proof. intros Hp [Hl Hf Hc Ho Hh]. split; unfold claimed in *; rewrite ?Hp; done. Qed.

Lemma psys_inv_same y y' : psys_inv y → placed prog y' → mxs y' = mxs y → sems y' = sems y → cvs y' = cvs y →
  pcs y' = pcs y → psys_inv y'.
Proof.
  intros [_ Hn Hm Hq] Hpl E1 E2 E3 E4. split; rewrite ?E1, ?E2, ?E3; try done. intros m x Hx.
  destruct (Hm m x Hx) as [o Ho]. exists o. by apply (mutex_inv_pcs y).
Qed.

Lemma psys_inv_step b y y' : psys_inv y → pstep prog b y y' → psys_inv y'.
Proof.
  intros Hy Hstep. pose proof (placed_step prog b y y' (pi_placed _ Hy) Hstep) as Hpl'.
  destruct b; [|by destruct (idle_step prog y y' (pi_placed _ Hy) Hstep) as (_ & E1 & E2 & E3 & E4 & _); apply (psys_inv_same y)].
  inversion Hstep as [| | | |? t ? Ht He]; subst. destruct Hy as [Hpl Hn Hm [Hse Hcv]].
  destruct (pcs y !! t) as [l|] eqn:Hl; [|by unfold turn, mbind, M_bind, get in He; rewrite Hl in He].
  apply (turn_effect prog t l y y' Ht Hl) in He. destruct (effect_lengths _ _ _ _ He) as (H1 & H2 & H3).
  split; [done|congruence| |rewrite Hse in H2; rewrite Hcv in H3; destruct (sems y'), (cvs y'); done].
  intros m x' Hx'. assert (is_Some (mxs y !! m)) as [x Hx].
  { apply lookup_lt_is_Some. rewrite <- H1. by eapply lookup_lt_Some. }
  destruct (Hm m x Hx) as [o Ho]. destruct (mutex_inv_effect y y' t l m x o Hpl Ht Hl He Hx Ho) as (x2 & o2 & Hx2 & Ho2).
  simplify_eq. eauto.
Qed.

(** The start: the mutexes are free, the threads have claimed none. *)
Record started (y : Sys) : Prop := {
  sd_sched : sched_ok (p_s y) [];
  sd_mutexes : mxs y = replicate nm MutexBlocking_new;
  sd_none : sems y = [] ∧ cvs y = [] ∧ asleep y = [];
  sd_pcs : ∀ t l, pcs y !! t = Some l → claims l = [] ∧ t ∈ places (p_s y) []
}.

Lemma started_inv y : started y → psys_inv y.
Proof.
  intros [Hs Hm (Hse & Hcv & Ha) Hpc].
  assert (parked y = []) as Hp.
  { unfold parked. rewrite Hm, Hse, Hcv, Ha. simpl. rewrite !app_nil_r. clear. induction nm as [|n IH]; [done|]. exact IH. }
  split; [split; rewrite ?Hp|by rewrite Hm, length_replicate| |done].
  - done.
  - intros t l Ht _. by eapply Hpc.
  - intros m x Hx. rewrite Hm in Hx. apply lookup_replicate in Hx as [-> _]. exists None. split; try done.
    + intros t. split; [|by intros [|?%not_elem_of_nil]]. intros (l & Hl & Hin). destruct (Hpc t l Hl) as [Hcl _].
      rewrite Hcl in Hin. by apply not_elem_of_nil in Hin.
    + by intros t ?%not_elem_of_nil.
Qed.

Lemma runs_inv n y y' : psys_inv y → runs prog n y y' → psys_inv y'.
Proof. intros Hy Hr. induction Hr as [|n y b z z' _ IH Hs]; [done|]. eapply psys_inv_step; [by apply IH|done]. Qed.

(** [t] holds [m]: it has claimed it and is not parked for it. *)
Definition holding (y : Sys) (t : Z) (m : nat) : Prop := claimed y t m ∧ ∀ x, mxs y !! m = Some x → t ∉ wait_queue x.

Lemma holding_unique y t u m : psys_inv y → holding y t m → holding y u m → t = u.
Proof.
  intros [_ Hn Hm _] [(l & Hl & Hin) Ht] [Hu1 Hu2].
  assert (is_Some (mxs y !! m)) as [x Hx].
  { apply lookup_lt_is_Some. rewrite Hn. pose proof (di_range Hdisc l) as Hr. rewrite Forall_forall in Hr. by apply Hr. }
  destruct (Hm m x Hx) as [o [_ _ Hc _ _]]. specialize (Ht x Hx). specialize (Hu2 x Hx).
  apply Hc in Hu1 as [Hu1|]; [|done]. destruct (proj1 (Hc t)) as [Ht1|]; [by exists l| |done]. congruence.
Qed.

(** So does a thread that is not right behind a lock. *)
Lemma passed_holds y t l m : psys_inv y → pcs y !! t = Some l → m ∈ claims l → (∀ l0, prog l0 ≠ Lock m l) → holding y t m.
Proof.
  intros [_ _ Hm _] Hl Hin Hno. split; [by exists l|]. intros x Hx Hin'. destruct (Hm m x Hx) as [o [_ _ _ _ Hlast]].
  destruct (Hlast t Hin') as (l' & l0 & Hl' & Hl0). simplify_eq. by apply (Hno l0).
Qed.

(** A thread on the processor holds what it has claimed. *)
Lemma running_holds y t l m : psys_inv y → cur (p_s y) = Some t → pcs y !! t = Some l → m ∈ claims l → holding y t m.
Proof.
  intros [Hpl _ _ _] Ht Hl Hin. split; [by exists l|]. intros x Hx Hin'.
  destruct (cur_not_parked y t Hpl Ht) as [Hnp _]. by eapply Hnp, parked_in_mutex.
Qed.

Lemma turn_ok y t l : psys_inv y → cur (p_s y) = Some t → pcs y !! t = Some l → ∃ y', turn prog t y = Ok (tt, y').
Proof.
  intros Hy Ht Hl. pose proof (di_only Hdisc l) as Honly.
  enough (∃ y', effect t y (prog l) y') as [y' He] by (exists y'; by apply (turn_effect prog t l)).
  assert (∀ m, (m < nm)%nat → is_Some (mxs y !! m)) as Hsome by (intros m Hm; apply lookup_lt_is_Some; by rewrite (pi_count _ Hy)).
  destruct (prog l) as [m k|m k| | | | |k|k|f|] eqn:Hp; try done; [| |eexists; by constructor..].
  - destruct (di_lock Hdisc _ _ _ Hp) as (Hlt & _). destruct (Hsome m Hlt) as [x Hx].
    destruct (locked x) eqn:Hlk; eexists; [by eapply ef_lock_wait|by eapply ef_lock].
  - destruct (di_unlock Hdisc _ _ _ Hp) as (Hcl & _).
    assert (m < nm)%nat as Hlt by (pose proof (di_range Hdisc l) as Hr; rewrite Hcl in Hr; by apply Forall_cons in Hr as [? _]).
    destruct (Hsome m Hlt) as [x Hx]. destruct (pi_mutex _ Hy m x Hx) as [o Ho].
    destruct (mutex_inv_unlock y (goto t k y) t l k m x o Ho Hp Hl eq_refl) as [Hlk _].
    + by apply (running_holds y t l m Hy Ht Hl ltac:(rewrite Hcl; by left)).
    + eapply queue_nodup; [apply Hy|done].
    + destruct (wait_queue x) as [|v q] eqn:Hq; eexists.
      * eapply ef_unlock; [done|done|by apply re_free].
      * eapply ef_unlock; [done|done|by eapply re_next].
Qed.

(** A mutex with waiters: its owner is parked for a larger one, unless it can run. *)
Lemma larger_queue y m x : psys_inv y → cur (p_s y) = None → ready_queue (p_s y) = [] → asleep y = [] →
  mxs y !! m = Some x → wait_queue x ≠ [] → ∃ m' x', (m < m')%nat ∧ mxs y !! m' = Some x' ∧ wait_queue x' ≠ [].
Proof.
  intros [[_ Hlive] _ Hm [Hse Hcv]] Hc Hr Ha Hx Hne. destruct (Hm m x Hx) as [o [_ Hf Hcl Hown _]].
  destruct o as [u|]; [|by rewrite Hf in Hne]. destruct (proj2 (Hcl u)) as (l & Hl & Hin); [by left|].
  assert (u ∈ parked y) as Hu.
  { pose proof (Hlive u l Hl) as Hu. unfold places in Hu. rewrite Hc, Hr in Hu. apply Hu. intros He.
    rewrite (di_exit Hdisc _ He) in Hin. by apply not_elem_of_nil in Hin. }
  unfold parked in Hu. rewrite Hse, Hcv, Ha in Hu. simpl in Hu. rewrite app_nil_r in Hu.
  apply list_elem_of_In, in_concat in Hu as (q & Hq%list_elem_of_In & Huq%list_elem_of_In).
  apply list_elem_of_fmap in Hq as (x' & -> & [m' Hx']%list_elem_of_lookup).
  destruct (Hm m' x' Hx') as [o' [_ _ _ _ Hlast]]. destruct (Hlast u Huq) as (l' & l0 & Hl' & Hl0). simplify_eq.
  destruct (di_lock Hdisc _ _ _ Hl0) as (_ & Hcs & Hs).
  exists m', x'. split_and!; [|done|by intros E; rewrite E in Huq; apply not_elem_of_nil in Huq].
  rewrite Hcs in Hin. apply elem_of_cons in Hin as [->|Hin].
  - exfalso. by apply (Hown u eq_refl); simplify_eq.
  - rewrite Forall_forall in Hs. by apply Hs.
Qed.

Lemma no_deadlock y t l : psys_inv y → pcs y !! t = Some l → prog l ≠ Exit →
  cur (p_s y) ≠ None ∨ ready_queue (p_s y) ≠ [] ∨ asleep y ≠ [].
Proof.
  intros Hy Hl Hne. destruct (cur (p_s y)) as [|] eqn:Hc; [by left|]. destruct (ready_queue (p_s y)) eqn:Hr; [|by right; left].
  destruct (asleep y) eqn:Ha; [|by right; right]. exfalso.
  assert (∀ n m x, (nm - m < n)%nat → mxs y !! m = Some x → wait_queue x ≠ [] → False) as Hno.
  { induction n as [|n IH]; intros m x Hlt Hx Hw; [lia|]. pose proof (lookup_lt_Some _ _ _ Hx) as Hmx. rewrite (pi_count _ Hy) in Hmx.
    destruct (larger_queue y m x Hy Hc Hr Ha Hx Hw) as (m' & x' & Hmm & Hx' & Hw'). eapply (IH m' x'); [lia|done|done]. }
  pose proof (pl_live _ _ (pi_placed _ Hy) t l Hl Hne) as Ht. unfold places, parked in Ht. destruct (pi_queues _ Hy) as [Hse Hcv].
  rewrite Hc, Hr, Ha, Hse, Hcv in Ht. simpl in Ht. rewrite app_nil_r in Ht.
  apply list_elem_of_In, in_concat in Ht as (q & Hq%list_elem_of_In & Htq%list_elem_of_In).
  apply list_elem_of_fmap in Hq as (x & -> & [m Hx]%list_elem_of_lookup).
  eapply (Hno (S nm) m x); [lia|done|]. intros E. rewrite E in Htq. by apply not_elem_of_nil in Htq.
Qed.
End mutexes.

(** ** Sums over the threads *)

Section sums.
Context {Loc : Type}.

Definition msum (f : Z → Loc → nat) (m : gmap Z Loc) : nat := map_fold (λ t l n, (f t l + n)%nat) 0%nat m.

Lemma msum_insert f m t l : m !! t = None → msum f (<[t := l]> m) = (f t l + msum f m)%nat.
Proof. intros Ht. refine (map_fold_insert_L (λ t l n, (f t l + n)%nat) 0%nat t l m _ Ht). intros. lia. Qed.
Lemma msum_delete f m t l : m !! t = Some l → msum f m = (f t l + msum f (delete t m))%nat.
Proof. intros Ht. refine (map_fold_delete_L (λ t l n, (f t l + n)%nat) 0%nat t l m _ Ht). intros. lia. Qed.
Lemma msum_le f g m : (∀ t l, m !! t = Some l → (f t l <= g t l)%nat) → (msum f m <= msum g m)%nat.
Proof.
  induction m as [|t l m Ht IH] using map_ind; intros Hfg; [done|]. rewrite !msum_insert by done.
  pose proof (Hfg t l ltac:(by rewrite lookup_insert_eq)).
  enough (msum f m <= msum g m)%nat by lia. apply IH. intros u lu Hu. apply Hfg. rewrite lookup_insert_ne; [done|]. intros ->. congruence.
Qed.

Lemma msum_bound f m c : (∀ t l, m !! t = Some l → (f t l <= c)%nat) → (msum f m <= c * size m)%nat.
Proof.
  induction m as [|t l m Ht IH] using map_ind; intros Hf; [unfold msum; rewrite map_fold_empty; lia|].
  rewrite msum_insert, map_size_insert_None by done. pose proof (Hf t l ltac:(by rewrite lookup_insert_eq)).
  enough (msum f m <= c * size m)%nat by lia. apply IH. intros u lu Hu. apply Hf. rewrite lookup_insert_ne; [done|].
  intros ->. congruence.
Qed.

Lemma msum_update f m t l k : m !! t = Some l →
  (msum f (<[t := k]> m) + f t l = msum f m + f t k)%nat.
Proof.
  intros Ht. rewrite <- insert_delete_eq, msum_insert by (by rewrite lookup_delete_eq).
  rewrite (msum_delete f m t l Ht). lia.
Qed.

Lemma msum_zero f m : (∀ t l, m !! t = Some l → f t l = 0%nat) → msum f m = 0%nat.
Proof. intros Hf. enough (msum f m <= 0 * size m)%nat by lia. apply msum_bound. intros t l Hl. by rewrite (Hf t l Hl). Qed.

Lemma msum_const f m c : (∀ t l, m !! t = Some l → f t l = c) → msum f m = (c * size m)%nat.
Proof.
  induction m as [|t l m Ht IH] using map_ind; intros Hf; [unfold msum; rewrite map_fold_empty, map_size_empty; lia|].
  assert (f t l = c) as Hc by (apply Hf; by rewrite lookup_insert_eq).
  assert (msum f m = c * size m)%nat as Hm.
  { apply IH. intros u lu Hu. apply Hf. rewrite lookup_insert_ne; [done|]. intros ->. congruence. }
  rewrite msum_insert, map_size_insert_None by done. lia.
Qed.

Lemma msum_add f g m : msum (λ t l, f t l + g t l)%nat m = (msum f m + msum g m)%nat.
Proof. induction m as [|t l m Ht IH] using map_ind; [done|]. rewrite !msum_insert by done. lia. Qed.

Lemma msum_members (q : list Z) m : NoDup q → (∀ t, t ∈ q → is_Some (m !! t)) →
  msum (λ t _, if decide (t ∈ q) then 1 else 0)%nat m = length q.
Proof.
  revert m. induction q as [|t q IH]; intros m Hnd Hin.
  - apply msum_zero. intros t l _. by rewrite decide_False by apply not_elem_of_nil.
  - apply NoDup_cons in Hnd as [Hni Hnd]. destruct (Hin t ltac:(by left)) as [l Hl].
    rewrite (msum_delete _ m t l Hl), decide_True by (by left). simpl. f_equal. rewrite <- (IH (delete t m)); [|done|].
    + apply Nat.le_antisymm; apply msum_le; intros u lu [Hne _]%lookup_delete_Some; repeat case_decide; try lia; set_solver.
    + intros u Hu. rewrite lookup_delete_ne by (by intros ->). apply Hin. by right.
Qed.

Lemma msum_move f g m t l k : m !! t = Some l → (∀ u lu, m !! u = Some lu → u ≠ t → (g u lu <= f u lu)%nat) →
  (g t k < f t l)%nat → (msum g (<[t := k]> m) < msum f m)%nat.
Proof.
  intros Ht Hle Hlt. rewrite <- insert_delete_eq, msum_insert by (by rewrite lookup_delete_eq).
  rewrite (msum_delete f m t l Ht). enough (msum g (delete t m) <= msum f (delete t m))%nat by lia.
  apply msum_le. intros u lu [Hne Hu]%lookup_delete_Some. by apply Hle.
Qed.

Lemma msum_ext (f g : Z → Loc → nat) m : (∀ t l, m !! t = Some l → f t l = g t l) → msum f m = msum g m.
Proof. intros H. apply Nat.le_antisymm; apply msum_le; intros t l Hl; by rewrite (H t l Hl). Qed.

Lemma msum_lt (f g : Z → Loc → nat) m t l : m !! t = Some l → (∀ u lu, m !! u = Some lu → (f u lu <= g u lu)%nat) →
  (f t l < g t l)%nat → (msum f m < msum g m)%nat.
Proof.
  intros Hl Hle Hlt. rewrite (msum_delete f m t l Hl), (msum_delete g m t l Hl).
  enough (msum f (delete t m) <= msum g (delete t m))%nat by lia. apply msum_le. intros u lu [_ Hu]%lookup_delete_Some. by apply Hle.
Qed.

Lemma msum_zip (f : Loc → nat) (ts : list Z) : ∀ ls, NoDup ts → length ts = length ls →
  msum (λ _, f) (list_to_map (zip ts ls)) = sum_list (f <$> ls).
Proof.
  induction ts as [|t ts IH]; intros [|l ls] Hnd Hlen; try done. apply NoDup_cons in Hnd as [Hni Hnd]. cbn [zip zip_with list_to_map foldr].
  cbn. rewrite msum_insert; [by rewrite IH by (done || by injection Hlen)|].
  apply not_elem_of_list_to_map_1. intros ([t' l'] & -> & Hin%elem_of_zip_l)%list_elem_of_fmap. done.
Qed.

Lemma msum_scale (f : Z → Loc → nat) m c : msum (λ t l, c * f t l)%nat m = (c * msum f m)%nat.
Proof.
  induction m as [|t l m Ht IH] using map_ind; [unfold msum; rewrite !map_fold_empty; lia|]. rewrite !msum_insert by done. lia.
Qed.
End sums.

(** ** Programs that end

    With a weight that every instruction lowers, the number of instructions a
    run can execute is bounded. *)

Section ending.
Context {Mem Loc : Type} (prog : Loc → instr Mem Loc) (weight : Loc → nat).
Abbreviation Sys := (PSys Mem Loc).

Definition lowers (l : Loc) : Prop :=
  match prog l with
  | Lock _ k | Unlock _ k | Down _ k | Up _ k | Wait _ _ k | Signal _ k | Sleep k | Yield k => (weight k < weight l)%nat
  | Act f => ∀ n v, (weight (snd (f n v)) < weight l)%nat
  | Exit => True
  end.
Hypothesis Hlow : ∀ l, lowers l.

(** What is left to do, over the threads that have a place. *)
Definition left_to_do (y : Sys) : nat :=
  msum (λ t l, if decide (t ∈ places (p_s y) (parked y)) then S (weight l) else 0%nat) (pcs y).

Lemma effect_next t y l y' : effect t y (prog l) y' → prog l ≠ Exit →
  ∃ k, pcs y' = <[t := k]> (pcs y) ∧ (weight k < weight l)%nat.
Proof.
  intros He Hne. pose proof (Hlow l) as Hl. destruct (effect_shape _ _ _ _ He) as [_ Hs]. unfold lowers in Hl.
  destruct (prog l); try done; destruct Hs as [-> _]; eauto.
Qed.

Lemma turn_lowers y t y' : placed prog y → cur (p_s y) = Some t → turn prog t y = Ok (tt, y') →
  (left_to_do y' < left_to_do y)%nat.
Proof.
  intros Hpl Ht He. assert (t ∈ places (p_s y) (parked y)) as Hin by (unfold places; rewrite Ht; by left).
  destruct (pcs y !! t) as [l|] eqn:Hl; [|by unfold turn, mbind, M_bind, get in He; rewrite Hl in He].
  apply (turn_effect prog t l y y' Ht Hl) in He. unfold left_to_do.
  assert (prog l = Exit ∨ prog l ≠ Exit) as [Hx|Hx] by (destruct (prog l); auto).
  - rewrite Hx in He. inversion He; subst.
    assert (pcs (set_s (left_ (p_s y)) y) = <[t := l]> (pcs y)) as -> by (simpl; by rewrite insert_id).
    assert (∀ u, u ∈ places (left_ (p_s y)) (parked (set_s (left_ (p_s y)) y)) → u ∈ places (p_s y) (parked y) ∧ u ≠ t) as Hsub.
    { pose proof (so_nodup _ _ (pl_sched _ _ Hpl)) as Hnd. unfold places in *. rewrite Ht in *. simpl in *.
      apply NoDup_cons in Hnd as [Hni _]. change (parked (set_s _ y)) with (parked y). intros u Hu. split; [by right|]. by intros ->. }
    apply (msum_move _ _ (pcs y) t l l); [done| |].
    + intros u lu Hu Hne. repeat case_decide; try lia. exfalso. by destruct (Hsub u).
    + rewrite (decide_True _ _ Hin), decide_False; [lia|]. intros Hu. by destruct (Hsub t Hu).
  - destruct (effect_next t y l y' He Hx) as (k & -> & Hk). destruct (effect_relocated t y _ y' Ht He Hx) as [Hp _].
    apply (msum_move _ _ (pcs y) t l k); [done| |].
    + intros u lu Hu Hne. repeat case_decide; try lia. exfalso. by rewrite Hp in *.
    + rewrite (decide_True _ _ Hin), decide_True by (by rewrite Hp). lia.
Qed.

Lemma runs_lower n y y' : placed prog y → runs prog n y y' → placed prog y' ∧ (n + left_to_do y' <= left_to_do y)%nat.
Proof.
  intros Hy Hr. induction Hr as [|n y b z z' _ IH Hs]; [done|]. destruct (IH Hy) as [Hz Hle].
  split; [by eapply placed_step|]. destruct b.
  - inversion Hs as [| | | |? t ? Ht He]; subst. pose proof (turn_lowers z t z' Hz Ht He). lia.
  - destruct (idle_step prog z z' Hz Hs) as ([Hp _] & Hpc & _). enough (left_to_do z' <= left_to_do z)%nat by lia.
    unfold left_to_do. rewrite Hpc. apply msum_le. intros t l _. repeat case_decide; try lia. exfalso. by rewrite Hp in *.
Qed.
End ending.

(** ** A schedule

    First come, first served; sleepers are woken when nobody is ready.  The result
    is a run, with the number of instructions. *)

Section schedule.
Context {Mem Loc : Type} (prog : Loc → instr Mem Loc).

Fixpoint play (fuel n : nat) (y : PSys Mem Loc) : nat * PSys Mem Loc :=
  match fuel with
  | O => (n, y)
  | S fuel =>
      match cur (p_s y), ready_queue (p_s y), asleep y with
      | Some t, _, _ =>
          match turn prog t (set_now (now y + 1) y) with
          | Ok (_, y') => play fuel (n + 1) y'
          | Panic _ => (n, y)
          end
      | None, [], [] => (n, y)
      | None, [], t :: a => play fuel n (set_asleep a (set_s (woken t (p_s y)) y))
      | None, _ :: _, _ =>
          match run_next (p_s y) with
          | Ok (_, s') => play fuel n (set_s s' y)
          | Panic _ => (n, y)
          end
      end
  end.

Lemma play_runs y0 fuel : ∀ n y, runs prog n y0 y → runs prog (fst (play fuel n y)) y0 (snd (play fuel n y)).
Proof.
  induction fuel as [|fuel IH]; intros n y Hr; [done|]. cbn [play].
  destruct (cur (p_s y)) as [t|] eqn:Hc.
  - destruct (turn prog t _) as [[[] y']|] eqn:Ht; [|done]. apply IH.
    assert (runs prog n y0 (set_now (now y + 1) y)) as Hr1.
    { rewrite <- (Nat.add_0_r n). eapply (runs_snoc prog n y0 false); [exact Hr|]. apply ps_tick. lia. }
    eapply (runs_snoc prog n y0 true); [exact Hr1|]. by eapply ps_turn.
  - destruct (ready_queue (p_s y)) as [|r q] eqn:Hq; [destruct (asleep y) as [|t a] eqn:Ha; [done|]|].
    + apply IH. rewrite <- (Nat.add_0_r n). eapply (runs_snoc prog n y0 false); [exact Hr|].
      by apply (ps_wake prog y [] t a).
    + destruct (run_next (p_s y)) as [[b s']|] eqn:Hn; [|done]. apply IH. rewrite <- (Nat.add_0_r n).
      eapply (runs_snoc prog n y0 false); [exact Hr|]. by eapply ps_dispatch.
Qed.

(** Time slices: [k] moves of [play], then the timer preempts the thread. *)
Fixpoint slices (ks : list nat) (n : nat) (y : PSys Mem Loc) : nat * PSys Mem Loc :=
  match ks with
  | [] => (n, y)
  | k :: ks =>
      let (n', y') := play k n y in
      match suspend_current_and_run_next (p_s y') with
      | Ok (_, s') => slices ks n' (set_s s' y')
      | Panic _ => (n', y')
      end
  end.

Lemma slices_runs y0 ks : ∀ n y, runs prog n y0 y → runs prog (fst (slices ks n y)) y0 (snd (slices ks n y)).
Proof.
  induction ks as [|k ks IH]; intros n y Hr; [done|]. cbn [slices]. pose proof (play_runs y0 k n y Hr) as Hp.
  destruct (play k n y) as [n' y']. cbn [fst snd] in Hp.
  destruct (suspend_current_and_run_next (p_s y')) as [[[] s']|] eqn:Hs; [|done]. apply IH. rewrite <- (Nat.add_0_r n').
  eapply (runs_snoc prog n' y0 false); [exact Hp|]. by apply ps_preempt.
Qed.
End schedule.
