(* ===== verification/Philosophers.v ===== *)
(** * The dining philosophers

    [user/src/bin/phil_din_mutex.rs]: five threads, the philosophers, and five
    mutexes, the forks.  Each philosopher takes the fork with the smaller number
    first and writes down when it thinks and eats.  [main] prints the times as a
    chart.  The run starts when [main] has created the forks and the threads. *)

From S2P Require Import Prelude Sched Sync Threads.

Definition N : nat := 5.
Definition ROUND : nat := 4.

(** The static arrays. *)
Record PMem := { THINK : list (list Z); EAT : list (list Z) }.
Definition store (a : list (list Z)) (i j : nat) (v : Z) : list (list Z) := alter (λ r, <[j := v]> r) i a.
Definition at_ (a : list (list Z)) (i j : nat) : option Z := a !! i ≫= (.!! j).

(** The locations of the thread function: the philosopher, the round and the
    statement of the loop body that comes next. *)
Inductive stage := StartThink | Think | EndThink | TakeMin | TakeMax | StartEat | Eat | EndEat | DropMax | DropMin.
Record PLoc := mkLoc { ph_id : fin N; ph_round : nat; ph_stage : stage }.

Definition left_fork (id : fin N) : nat := id.
Definition right_fork (id : fin N) : nat := if (fin_to_nat id =? N - 1)%nat then 0%nat else S id.
Definition fork_min (id : fin N) : nat := if (left_fork id <? right_fork id)%nat then left_fork id else right_fork id.
Definition fork_max (id : fin N) : nat := (left_fork id + right_fork id - fork_min id)%nat.

(** [philosopher_dining_problem]. *)
Definition philosopher (l : PLoc) : instr PMem PLoc :=
  let id := ph_id l in
  let round := ph_round l in
  let go s := mkLoc id round s in
  if (round <? ROUND)%nat then
    match ph_stage l with
    | StartThink => Act (λ now v, ({| THINK := store (THINK v) id (2 * round) now; EAT := EAT v |}, go Think))
    | Think => Sleep (go EndThink)
    | EndThink => Act (λ now v, ({| THINK := store (THINK v) id (2 * round + 1) now; EAT := EAT v |}, go TakeMin))
    | TakeMin => Lock (fork_min id) (go TakeMax)
    | TakeMax => Lock (fork_max id) (go StartEat)
    | StartEat => Act (λ now v, ({| THINK := THINK v; EAT := store (EAT v) id (2 * round) now |}, go Eat))
    | Eat => Sleep (go EndEat)
    | EndEat => Act (λ now v, ({| THINK := THINK v; EAT := store (EAT v) id (2 * round + 1) now |}, go DropMax))
    | DropMax => Unlock (fork_max id) (go DropMin)
    | DropMin => Unlock (fork_min id) (mkLoc id (S round) StartThink)
    end
  else Exit.

(** A character of the chart: ['-'], ['x'] or [' ']. *)
Definition within (a : list (list Z)) (id : nat) (t : Z) (round : nat) : bool :=
  match at_ a id (2 * round), at_ a id (2 * round + 1) with
  | Some start, Some end_ => (start <=? t) && (t <=? end_)
  | _, _ => false
  end.
Definition chart (v : PMem) (id : nat) (current_time : Z) : Z :=
  if existsb (within (THINK v) id current_time) (seq 0 ROUND) then 45
  else if existsb (within (EAT v) id current_time) (seq 0 ROUND) then 120
  else 32.

(** ** Discipline *)

Definition forks (l : PLoc) : list nat :=
  if (ph_round l <? ROUND)%nat then
    match ph_stage l with
    | TakeMax | DropMin => [fork_min (ph_id l)]
    | StartEat | Eat | EndEat | DropMax => [fork_max (ph_id l); fork_min (ph_id l)]
    | _ => []
    end
  else [].

Lemma fork_order id : (fork_min id < fork_max id < N)%nat.
Proof.
  pose proof (fin_to_nat_lt id) as Hi. unfold fork_max, fork_min, left_fork, right_fork, N in *.
  revert Hi. generalize (fin_to_nat id). clear. intros i Hi. change (5 - 1)%nat with 4%nat.
  destruct (Nat.eqb_spec i 4) as [->|]; [simpl; lia|]. destruct (Nat.ltb_spec i (S i)); lia.
Qed.

Definition stage_index (s : stage) : nat :=
  match s with
  | StartThink => 0 | Think => 1 | EndThink => 2 | TakeMin => 3 | TakeMax => 4
  | StartEat => 5 | Eat => 6 | EndEat => 7 | DropMax => 8 | DropMin => 9
  end.
Definition weight (l : PLoc) : nat := (10 * (ROUND - ph_round l) - stage_index (ph_stage l))%nat.

Lemma philosopher_lowers l : lowers philosopher weight l.
Proof.
  destruct l as [id r s]. unfold lowers, philosopher, weight. cbn [ph_id ph_round ph_stage].
  destruct (Nat.ltb_spec r ROUND); [|done]. unfold ROUND in *. destruct s; simpl; try intros; lia.
Qed.

(** Case analysis on the statement. *)
Ltac by_stage l := destruct l as [id r s]; unfold philosopher, forks; cbn [ph_id ph_round ph_stage];
  pose proof (fork_order id); destruct (Nat.ltb_spec r ROUND) as [Hr|Hr]; [|done];
  destruct s; try done; intros [= <- <-] || intros [= <-]; cbn [ph_id ph_round ph_stage snd];
  rewrite ?(proj2 (Nat.ltb_lt _ _) Hr).

Lemma philosopher_disciplined : disciplined philosopher forks N.
Proof.
  split.
  - intros l m k. by_stage l; split_and!; try done; try lia; repeat constructor; lia.
  - intros l m k. by_stage l.
    + split; [done|]. rewrite list_elem_of_singleton. lia.
    + destruct (Nat.ltb_spec (S r) ROUND); (split; [done|apply not_elem_of_nil]).
  - intros l k. by by_stage l.
  - intros l k. by by_stage l.
  - intros l f n v. by by_stage l.
  - intros [id r s]. unfold philosopher, forks. cbn [ph_id ph_round ph_stage]. destruct (_ <? _)%nat; [by destruct s|done].
  - intros [id r s]. unfold forks. cbn [ph_id ph_round ph_stage]. pose proof (fork_order id).
    destruct (_ <? _)%nat; [destruct s|]; rewrite ?Forall_cons, ?Forall_nil; split_and?; done || lia.
  - intros [id r s]. unfold philosopher. cbn [ph_id ph_round ph_stage]. destruct (_ <? _)%nat; [by destruct s|done].
Qed.

(** ** The times of the meals *)

(** The philosopher has begun, and has ended, the meal of a round. *)
Definition begun (l : PLoc) (r : nat) : Prop :=
  (r < ROUND ∧ (r < ph_round l ∨ r = ph_round l ∧ 6 <= stage_index (ph_stage l)))%nat.
Definition ended (l : PLoc) (r : nat) : Prop :=
  (r < ROUND ∧ (r < ph_round l ∨ r = ph_round l ∧ 8 <= stage_index (ph_stage l)))%nat.

(** Two seats with a fork in common. *)
Definition share (i j : fin N) : Prop := ∃ m, m ∈ [fork_max i; fork_min i] ∧ m ∈ [fork_max j; fork_min j].

(** Start and end of a meal, as written down. *)
Definition eat_start (y : PSys PMem PLoc) (i : fin N) (r : nat) : Z := default 0 (at_ (EAT (mem y)) i (2 * r)).
Definition eat_end (y : PSys PMem PLoc) (i : fin N) (r : nat) : Z := default 0 (at_ (EAT (mem y)) i (2 * r + 1)).

Definition shaped (a : list (list Z)) : Prop := length a = N ∧ Forall (λ row, length row = (2 * ROUND)%nat) a.

Lemma shaped_store a i j v : shaped a → shaped (store a i j v).
Proof.
  intros [Hl Hr]. unfold store. split; [by rewrite length_alter|]. apply Forall_alter; [done|].
  intros row _ Hrow. by rewrite length_insert.
Qed.

Lemma at_store a (i i' : fin N) j j' v : shaped a → (j < 2 * ROUND)%nat →
  at_ (store a i j v) i' j' = if decide (i' = i ∧ j' = j) then Some v else at_ a i' j'.
Proof.
  intros [Hl Hr] Hj. unfold at_, store. pose proof (fin_to_nat_lt i) as Hi. rewrite <- Hl in Hi.
  destruct (lookup_lt_is_Some_2 _ _ Hi) as [row Hrow]. pose proof (Forall_lookup_1 _ _ _ _ Hr Hrow) as Hlen. cbn beta in Hlen.
  destruct (decide (i' = i)) as [->|Hne].
  - rewrite list_lookup_alter_eq, Hrow. simpl. destruct (decide (j' = j)) as [->|Hne].
    + rewrite decide_True by done. apply list_lookup_insert_eq. lia.
    + rewrite decide_False by naive_solver. by rewrite list_lookup_insert_ne.
  - rewrite decide_False by naive_solver. rewrite list_lookup_alter_ne; [done|]. intros E%fin_to_nat_inj. by subst.
Qed.

Record times_inv (y : PSys PMem PLoc) : Prop := {
  ti_shape : shaped (EAT (mem y));
  ti_unique : ∀ t u l l', pcs y !! t = Some l → pcs y !! u = Some l' → ph_id l = ph_id l' → t = u;
  ti_begun : ∀ t l r, pcs y !! t = Some l → begun l r → eat_start y (ph_id l) r <= now y;
  ti_ended : ∀ t l r, pcs y !! t = Some l → ended l r →
    eat_start y (ph_id l) r <= eat_end y (ph_id l) r <= now y;
  ti_apart : ∀ t u l l' r r', pcs y !! t = Some l → pcs y !! u = Some l' → t ≠ u → share (ph_id l) (ph_id l') →
    begun l r → begun l' r' →
    (ended l r ∧ eat_end y (ph_id l) r <= eat_start y (ph_id l') r') ∨
    (ended l' r' ∧ eat_end y (ph_id l') r' <= eat_start y (ph_id l) r)
}.

(** A step that begins or ends no meal. *)
Definition quiet (l k : PLoc) : Prop :=
  ph_id k = ph_id l ∧ ∀ r, (begun k r ↔ begun l r) ∧ (ended k r ↔ ended l r).

Lemma philosopher_effect t y l y' : pcs y !! t = Some l → effect t y (philosopher l) y' → now y' = now y ∧
  ∃ k, pcs y' = <[t := k]> (pcs y) ∧
    ((quiet l k ∧ EAT (mem y') = EAT (mem y)) ∨
     (ph_stage l = StartEat ∧ (ph_round l < ROUND)%nat ∧ k = mkLoc (ph_id l) (ph_round l) Eat ∧
        EAT (mem y') = store (EAT (mem y)) (ph_id l) (2 * ph_round l) (now y)) ∨
     (ph_stage l = EndEat ∧ (ph_round l < ROUND)%nat ∧ k = mkLoc (ph_id l) (ph_round l) DropMax ∧
        EAT (mem y') = store (EAT (mem y)) (ph_id l) (2 * ph_round l + 1) (now y))).
Proof.
  intros Hl He. destruct (effect_shape _ _ _ _ He) as [Hn Hs]. split; [done|]. clear He.
  destruct l as [id r s]. unfold philosopher in Hs. cbn [ph_id ph_round ph_stage] in *.
  destruct (Nat.ltb_spec r ROUND) as [Hr|Hr].
  - destruct s; destruct Hs as [Hp Hm]; (eexists; split; [exact Hp|]); rewrite Hm; cbn [fst snd EAT];
      try (by right; left); try (by right; right); left; (split; [|done]); (split; [done|]); intros r';
      unfold begun, ended; cbn [ph_id ph_round ph_stage stage_index]; lia.
  - destruct Hs as [Hp Hm]. exists (mkLoc id r s). split; [by rewrite Hp, insert_id|]. left. by rewrite Hm.
Qed.

Abbreviation PInv := (psys_inv philosopher forks N).

Lemma times_transfer y y' : times_inv y → now y <= now y' → EAT (mem y') = EAT (mem y) →
  (∀ u l', pcs y' !! u = Some l' → ∃ l, pcs y !! u = Some l ∧ quiet l l') → times_inv y'.
Proof.
  intros [Hsh Hun Hb He Hap] Hn Hm Hq.
  assert (∀ i r, eat_start y' i r = eat_start y i r ∧ eat_end y' i r = eat_end y i r) as Hsame
    by (intros; unfold eat_start, eat_end; by rewrite Hm).
  split; [by rewrite Hm|..].
  - intros t u l l' Ht Hu Hid. destruct (Hq t l Ht) as (l1 & H1 & [E1 _]). destruct (Hq u l' Hu) as (l2 & H2 & [E2 _]).
    eapply Hun; [exact H1|exact H2|congruence].
  - intros t l r Ht Hbg. destruct (Hq t l Ht) as (l1 & H1 & [E1 Q1]). rewrite (proj1 (Hsame _ _)), E1.
    specialize (Hb t l1 r H1). destruct (Q1 r) as [Q _]. apply Q in Hbg. specialize (Hb Hbg). lia.
  - intros t l r Ht Hen. destruct (Hq t l Ht) as (l1 & H1 & [E1 Q1]). destruct (Hsame (ph_id l) r) as [-> ->]. rewrite E1.
    destruct (Q1 r) as [_ Q]. apply Q in Hen. specialize (He t l1 r H1 Hen). lia.
  - intros t u l l' r r' Ht Hu Hne Hsh' Hb1 Hb2. destruct (Hq t l Ht) as (l1 & H1 & [E1 Q1]).
    destruct (Hq u l' Hu) as (l2 & H2 & [E2 Q2]). destruct (Hsame (ph_id l) r) as [-> ->]. destruct (Hsame (ph_id l') r') as [-> ->].
    rewrite E1, E2 in *. destruct (Q1 r) as [Qb1 Qe1], (Q2 r') as [Qb2 Qe2]. rewrite Qe1, Qe2. apply Qb1 in Hb1. apply Qb2 in Hb2.
    by apply (Hap t u).
Qed.

(** A philosopher in the middle of a meal holds its forks. *)
Lemma meal_holds y u l m : PInv y → pcs y !! u = Some l → (ph_round l < ROUND)%nat →
  ph_stage l = Eat ∨ ph_stage l = EndEat ∨ ph_stage l = DropMax →
  m ∈ [fork_max (ph_id l); fork_min (ph_id l)] → holding forks y u m.
Proof.
  intros Hy Hu Hr Hs Hm. apply (passed_holds philosopher forks N y u l m Hy Hu).
  - unfold forks. rewrite (proj2 (Nat.ltb_lt _ _) Hr). by destruct Hs as [->|[->| ->]].
  - intros [id r s]. unfold philosopher. cbn [ph_id ph_round ph_stage]. destruct (_ <? _)%nat; [|done].
    destruct s; try done; intros [= _ E]; rewrite <- E in Hs; simpl in Hs; naive_solver.
Qed.

(** Nobody with a fork in common is in the middle of a meal when another begins. *)
Lemma meal_over y t u l l' r : PInv y → cur (p_s y) = Some t → pcs y !! t = Some l → pcs y !! u = Some l' → t ≠ u →
  share (ph_id l) (ph_id l') → ph_stage l = StartEat → (ph_round l < ROUND)%nat → begun l' r → ended l' r.
Proof.
  intros Hy Ht Hl Hl' Hne (m & Hm & Hm') Hst Hr [Hr' Hb]. split; [done|]. destruct Hb as [Hb|[-> Hb]]; [by left|].
  right. split; [done|]. destruct (decide (8 <= stage_index (ph_stage l'))%nat) as [|Hn]; [done|]. exfalso. apply Hne.
  apply (holding_unique philosopher forks N philosopher_disciplined y t u m Hy).
  - apply (running_holds philosopher forks N philosopher_disciplined y t l m Hy Ht Hl). unfold forks. by rewrite (proj2 (Nat.ltb_lt _ _) Hr), Hst.
  - apply (meal_holds y u l' m Hy Hl' Hr'); [|done]. destruct (ph_stage l'); simpl in *; auto; lia.
Qed.

Lemma share_comm i j : share i j → share j i.
Proof. intros (m & ? & ?). by exists m. Qed.

Lemma times_begin y y' t l : PInv y → times_inv y → cur (p_s y) = Some t → pcs y !! t = Some l →
  ph_stage l = StartEat → (ph_round l < ROUND)%nat → now y' = now y →
  pcs y' = <[t := mkLoc (ph_id l) (ph_round l) Eat]> (pcs y) →
  EAT (mem y') = store (EAT (mem y)) (ph_id l) (2 * ph_round l) (now y) → times_inv y'.
Proof.
  intros Hy [Hsh Hun Hb He Hap] Ht Hl Hst Hr Hn Hp Hm. set (k := mkLoc (ph_id l) (ph_round l) Eat) in *.
  assert (∀ i r, eat_end y' i r = eat_end y i r) as Hend.
  { intros i r. unfold eat_end. rewrite Hm, at_store, decide_False by (done || lia). done. }
  assert (∀ i r, eat_start y' i r = if decide (i = ph_id l ∧ r = ph_round l) then now y else eat_start y i r) as Hstart.
  { intros i r. unfold eat_start. rewrite Hm, at_store by (done || lia). repeat case_decide; try done; naive_solver lia. }
  assert (∀ u l', pcs y' !! u = Some l' → u = t ∧ l' = k ∨ u ≠ t ∧ pcs y !! u = Some l') as Hpc.
  { intros u l' Hu. rewrite Hp in Hu. apply lookup_insert_Some in Hu as [[<- <-]|[? ?]]; auto. }
  assert (∀ u l', pcs y !! u = Some l' → u ≠ t → ph_id l' ≠ ph_id l) as Hid by (intros u l' Hu Hne E; by apply Hne, (Hun u t l' l)).
  assert (∀ r, begun k r ↔ r = ph_round l ∨ begun l r) as Hbk by (intros r; unfold begun, k; rewrite Hst; simpl; lia).
  assert (∀ r, ended k r ↔ ended l r ∧ r ≠ ph_round l) as Hek by (intros r; unfold ended, k; rewrite Hst; simpl; lia).
  assert (∀ u l' r r', pcs y !! u = Some l' → u ≠ t → share (ph_id l) (ph_id l') → begun k r → begun l' r' →
    (ended k r ∧ eat_end y' (ph_id l) r <= eat_start y' (ph_id l') r') ∨
    (ended l' r' ∧ eat_end y' (ph_id l') r' <= eat_start y' (ph_id l) r)) as Hnew.
  { intros u l' r r' Hu Hne Hs H1 H2. rewrite !Hend, !Hstart, (decide_False (P := ph_id l' = ph_id l ∧ _)) by (intros [E _]; by eapply Hid).
    destruct (decide (ph_id l = ph_id l ∧ r = ph_round l)) as [[_ ->]|Hrr].
    - right. pose proof (meal_over y t u l l' r' Hy Ht Hl Hu (not_eq_sym Hne) Hs Hst Hr H2) as Hov. split; [done|]. by apply (He u l').
    - apply Hbk in H1 as [->|H1]; [naive_solver|]. rewrite Hek. destruct (Hap t u l l' r r' Hl Hu (not_eq_sym Hne) Hs H1 H2); [left|right; done].
      naive_solver. }
  split.
  - rewrite Hm. by apply shaped_store.
  - intros u v lu lv Hu Hv E. destruct (Hpc u lu Hu) as [[-> ->]|[? Hu']], (Hpc v lv Hv) as [[-> ->]|[? Hv']]; [done|..].
    + exfalso. by eapply (Hid v).
    + exfalso. by eapply (Hid u).
    + by eapply Hun.
  - intros u lu r Hu Hbg. rewrite Hstart, Hn. case_decide as Hd; [lia|]. destruct (Hpc u lu Hu) as [[-> ->]|[? Hu']]; [|by eapply Hb].
    apply (Hb t l r Hl). apply Hbk in Hbg as [->|]; [naive_solver|done].
  - intros u lu r Hu Hen. rewrite Hstart, Hend, Hn. destruct (Hpc u lu Hu) as [[-> ->]|[Hne Hu']].
    + apply Hek in Hen as [Hen Hrr]. rewrite decide_False by naive_solver. by apply (He t l).
    + rewrite decide_False by (intros [E _]; by eapply Hid). by apply (He u lu).
  - intros u v lu lv r r' Hu Hv Hne Hs H1 H2. destruct (Hpc u lu Hu) as [[-> ->]|[? Hu']], (Hpc v lv Hv) as [[-> ->]|[? Hv']]; [done|..].
    + by apply (Hnew v lv).
    + apply or_comm. apply (Hnew u lu); try done. by apply share_comm.
    + rewrite !Hend, !Hstart, (decide_False (P := ph_id lv = ph_id l ∧ _)), (decide_False (P := ph_id lu = ph_id l ∧ _))
        by (intros [E _]; first [by apply (Hid v lv)|by apply (Hid u lu)]). by apply (Hap u v).
Qed.

Lemma times_finish y y' t l : times_inv y → pcs y !! t = Some l →
  ph_stage l = EndEat → (ph_round l < ROUND)%nat → now y' = now y →
  pcs y' = <[t := mkLoc (ph_id l) (ph_round l) DropMax]> (pcs y) →
  EAT (mem y') = store (EAT (mem y)) (ph_id l) (2 * ph_round l + 1) (now y) → times_inv y'.
Proof.
  intros [Hsh Hun Hb He Hap] Hl Hst Hr Hn Hp Hm. set (k := mkLoc (ph_id l) (ph_round l) DropMax) in *.
  assert (∀ i r, eat_start y' i r = eat_start y i r) as Hstart.
  { intros i r. unfold eat_start. rewrite Hm, at_store, decide_False by (done || lia). done. }
  assert (∀ i r, eat_end y' i r = if decide (i = ph_id l ∧ r = ph_round l) then now y else eat_end y i r) as Hend.
  { intros i r. unfold eat_end. rewrite Hm, at_store by (done || lia). repeat case_decide; try done; naive_solver lia. }
  assert (∀ r, begun k r ↔ begun l r) as Hbk by (intros r; unfold begun, k; rewrite Hst; simpl; lia).
  assert (∀ r, ended k r ↔ r = ph_round l ∨ ended l r) as Hek by (intros r; unfold ended, k; rewrite Hst; simpl; lia).
  assert (¬ ended l (ph_round l)) as Hnot by (unfold ended; rewrite Hst; simpl; lia).
  assert (∀ u l', pcs y' !! u = Some l' → ∃ l0, pcs y !! u = Some l0 ∧ ph_id l' = ph_id l0 ∧
    (∀ r, begun l' r ↔ begun l0 r) ∧ (∀ r, ended l0 r → ended l' r ∧ eat_end y' (ph_id l0) r = eat_end y (ph_id l0) r) ∧
    (∀ r, ended l' r → ended l0 r ∨ begun l0 r ∧ eat_end y' (ph_id l0) r = now y)) as Hpc.
  { intros u l' Hu. rewrite Hp in Hu. apply lookup_insert_Some in Hu as [[<- <-]|[Hne Hu]].
    - exists l. split_and!; [done|done|done| |].
      + intros r Hen. rewrite Hek, Hend, decide_False; [auto|]. intros [_ ->]. done.
      + intros r [->|]%Hek; [|by left]. right. rewrite Hend, decide_True by done. split; [|done].
        unfold begun. rewrite Hst. simpl. lia.
    - exists l'. split_and!; [done|done|done| |by left]. intros r Hen. split; [done|]. rewrite Hend, decide_False; [done|].
      intros [E _]. by apply Hne, (Hun t u l l'). }
  split.
  - rewrite Hm. by apply shaped_store.
  - intros u v lu lv Hu Hv E. destruct (Hpc u lu Hu) as (l1 & H1 & E1 & _), (Hpc v lv Hv) as (l2 & H2 & E2 & _).
    eapply Hun; [exact H1|exact H2|congruence].
  - intros u lu r Hu Hbg. destruct (Hpc u lu Hu) as (l1 & H1 & E1 & B1 & _). rewrite Hstart, Hn, E1. by apply (Hb u l1), B1.
  - intros u lu r Hu Hen. destruct (Hpc u lu Hu) as (l1 & H1 & E1 & _ & K1 & F1). rewrite Hstart, Hn, E1.
    destruct (F1 r Hen) as [Hen'|[Hbg ->]]; [|split; [by apply (Hb u l1)|lia]].
    destruct (K1 r Hen') as [_ ->]. by apply (He u l1).
  - intros u v lu lv r r' Hu Hv Hne Hs B B'. destruct (Hpc u lu Hu) as (l1 & H1 & E1 & B1 & K1 & _).
    destruct (Hpc v lv Hv) as (l2 & H2 & E2 & B2 & K2 & _). rewrite !Hstart, E1, E2 in *.
    destruct (Hap u v l1 l2 r r' H1 H2 Hne Hs (proj1 (B1 r) B) (proj1 (B2 r') B')) as [[Hen Hle]|[Hen Hle]]; [left|right].
    + destruct (K1 r Hen) as [? ->]. done.
    + destruct (K2 r' Hen) as [? ->]. done.
Qed.

Lemma times_step b y y' : PInv y → times_inv y → pstep philosopher b y y' → times_inv y'.
Proof.
  intros Hy Hti Hstep. destruct b.
  - inversion Hstep as [| | | |? t ? Ht He]; subst.
    destruct (pcs y !! t) as [l|] eqn:Hl; [|by unfold turn, mbind, M_bind, get in He; rewrite Hl in He].
    apply (turn_effect philosopher t l y y' Ht Hl) in He.
    destruct (philosopher_effect t y l y' Hl He) as (Hn & k & Hp & [[Hq Hm]|[(Hst & Hr & -> & Hm)|(Hst & Hr & -> & Hm)]]).
    + apply (times_transfer y); [done|lia|done|]. intros u l' Hu. rewrite Hp in Hu.
      apply lookup_insert_Some in Hu as [[<- <-]|[_ Hu]]; [by exists l|]. by exists l'.
    + by apply (times_begin y y' t l).
    + by apply (times_finish y y' t l).
  - destruct (idle_step philosopher y y' (pi_placed _ _ _ _ Hy) Hstep) as (_ & Hp & _ & _ & _ & Hm & Hn).
    apply (times_transfer y); [done|done|by rewrite Hm|]. intros u l' Hu. rewrite Hp in Hu. by exists l'.
Qed.

(** ** Properties *)

(** [main] has created all the forks and the threads, one per seat, and no thread
    has begun.  ([main] creates the fork [i + 1] after the thread [i]; a thread
    that runs before that is the panic of [fork_not_created] below.) *)
Record table_set (y : PSys PMem PLoc) : Prop := {
  ts_started : started forks N y;
  ts_pcs : ∀ t l, pcs y !! t = Some l → ph_round l = 0%nat ∧ ph_stage l = StartThink;
  ts_seats : ∀ t u l l', pcs y !! t = Some l → pcs y !! u = Some l' → ph_id l = ph_id l' → t = u;
  ts_times : shaped (EAT (mem y))
}.

Lemma table_inv n y0 y : table_set y0 → runs philosopher n y0 y → PInv y ∧ times_inv y.
Proof.
  intros [Hs Hp Hu Ht] Hr.
  assert (PInv y0 ∧ times_inv y0) as H0.
  { split; [by apply started_inv|]. split; [done|done|..].
    - intros t l r Hl [_ Hb]. destruct (Hp t l Hl) as [E1 E2]. rewrite E1, E2 in Hb. simpl in Hb. lia.
    - intros t l r Hl [_ Hb]. destruct (Hp t l Hl) as [E1 E2]. rewrite E1, E2 in Hb. simpl in Hb. lia.
    - intros t u l l' r r' Hl _ _ _ [_ Hb] _. destruct (Hp t l Hl) as [E1 E2]. rewrite E1, E2 in Hb. simpl in Hb. lia. }
  clear Hs Hp Hu Ht. induction Hr as [|n y b z z' _ IH Hstep]; [done|]. destruct (IH H0) as [Hz Hti]. split.
  - by eapply psys_inv_step; [apply philosopher_disciplined| |].
  - by eapply times_step.
Qed.

(** A philosopher with both forks, from the first entry of the meal to the
    release of the forks. *)
Definition at_table (l : PLoc) : Prop :=
  (ph_round l < ROUND)%nat ∧ (ph_stage l = Eat ∨ ph_stage l = EndEat ∨ ph_stage l = DropMax).

(** ** Counting the meals *)

(** The sleep of a philosopher with both forks is the meal. *)
Definition eating (l : PLoc) : bool :=
  match ph_stage l, philosopher l with Eat, Sleep _ => true | _, _ => false end.

(** The meals of the seat [i] in a step from [y]: one, if the step is an
    instruction and the running thread sits there and eats. *)
Definition meal (i : fin N) (instruction : bool) (y : PSys PMem PLoc) : nat :=
  match cur (p_s y) ≫= (λ t, pcs y !! t) with
  | Some l => if instruction && eating l && bool_decide (ph_id l = i) then 1 else 0
  | None => 0
  end.

(** Runs, with the number of meals of the seat [i]. *)
Inductive dines (i : fin N) : nat → PSys PMem PLoc → PSys PMem PLoc → Prop :=
  | dines_nil y : dines i 0 y y
  | dines_snoc k y b z z' : dines i k y z → pstep philosopher b z z' → dines i (k + meal i b z) y z'.

Lemma runs_dines i n y0 y : runs philosopher n y0 y → ∃ k, dines i k y0 y.
Proof. induction 1 as [|n y b z z' _ [k Hk] Hs]; eexists; [constructor|by econstructor]. Qed.

Lemma dines_runs i k y0 y : dines i k y0 y → ∃ n, runs philosopher n y0 y.
Proof. induction 1 as [|k y b z z' _ [n Hn] Hs]; eexists; [constructor|by econstructor]. Qed.

(** The meals a philosopher has had when it is at [l]. *)
Definition served (l : PLoc) : nat :=
  if (ph_round l <? ROUND)%nat then (ph_round l + if (7 <=? stage_index (ph_stage l))%nat then 1 else 0)%nat else ROUND.

Lemma philosopher_serves t y l y' : pcs y !! t = Some l → effect t y (philosopher l) y' →
  ∃ k, pcs y' = <[t := k]> (pcs y) ∧ ph_id k = ph_id l ∧ served k = (served l + if eating l then 1 else 0)%nat.
Proof.
  intros Hl He. destruct (effect_shape _ _ _ _ He) as [_ Hs]. clear He. destruct l as [id r s].
  unfold eating, philosopher, served in *. cbn [ph_id ph_round ph_stage] in *. destruct (Nat.ltb_spec r ROUND) as [Hr|Hr].
  - destruct s; destruct Hs as [Hp _]; (eexists; split; [exact Hp|]); cbn [ph_id ph_round ph_stage snd stage_index]; (split; [done|]);
      rewrite ?(proj2 (Nat.ltb_lt _ _) Hr); simpl; try lia.
    destruct (Nat.ltb_spec (S r) ROUND); lia.
  - destruct Hs as [Hp _]. exists (mkLoc id r s). split; [by rewrite Hp, insert_id|]. split; [done|].
    cbn [ph_id ph_round ph_stage]. rewrite (proj2 (Nat.ltb_ge _ _) Hr). destruct s; lia.
Qed.

Lemma dines_served i k y0 y : table_set y0 → dines i k y0 y →
  ∀ t l0, pcs y0 !! t = Some l0 → ∃ l, pcs y !! t = Some l ∧ ph_id l = ph_id l0 ∧ (ph_id l0 = i → k = served l).
Proof.
  intros H0 Hd t l0 Hl0. induction Hd as [y|k y b z z' Hd IH Hstep].
  - exists l0. destruct (ts_pcs _ H0 t l0 Hl0) as [E1 E2]. unfold served. rewrite E1, E2. done.
  - destruct (IH H0 Hl0) as (l & Hl & Hid & Hk). destruct (dines_runs _ _ _ _ Hd) as [n Hr].
    destruct (table_inv n y z H0 Hr) as [Hz Hti]. unfold meal. destruct b.
    + inversion Hstep as [| | | |? u ? Hu He]; subst. rewrite Hu. simpl.
      destruct (pcs z !! u) as [lu|] eqn:Hlu; [|by unfold turn, mbind, M_bind, get in He; rewrite Hlu in He].
      apply (turn_effect philosopher u lu z z' Hu Hlu) in He.
      destruct (philosopher_serves u z lu z' Hlu He) as (l' & Hp & Hid' & Hs). rewrite Hp.
      destruct (decide (t = u)) as [<-|Hne].
      * assert (lu = l) as -> by congruence. exists l'. rewrite lookup_insert_eq. split_and!; [done|congruence|].
        intros E. rewrite Hs, (Hk E), bool_decide_true by congruence. by destruct (eating l).
      * exists l. rewrite lookup_insert_ne by done. split_and!; [done|done|]. intros E. rewrite (Hk E), bool_decide_false; [rewrite andb_false_r; lia|].
        intros E'. apply Hne. apply (ti_unique _ Hti t u l lu Hl Hlu). congruence.
    + destruct (idle_step philosopher z z' (pi_placed _ _ _ _ Hz) Hstep) as (_ & Hp & _). exists l. rewrite Hp.
      split_and!; [done|done|]. intros E. rewrite (Hk E). destruct (cur (p_s z) ≫= _); simpl; lia.
Qed.

(** Never more than four meals, and four when the philosopher is done. *)
Lemma served_four l : (served l <= 4)%nat ∧ (philosopher l = Exit → served l = 4%nat).
Proof.
  unfold served, philosopher. destruct (Nat.ltb_spec (ph_round l) ROUND) as [Hr|Hr]; unfold ROUND in *; [|lia].
  split; [destruct (_ <=? _)%nat; lia|]. by destruct (ph_stage l).
Qed.

(** C16: The dining philosophers, from the moment [main] has created the forks and
    the threads.  In every interleaving of the threads, with preemption anywhere
    and sleeping threads waking in any order: two philosophers that are eating
    have no fork in common; no call of a thread panics; as long as one philosopher
    has not finished, a thread runs, is ready or is asleep, so the threads are
    never all parked for forks; a run executes at most 41 instructions per
    philosopher; and each philosopher keeps its seat, never eats more than four
    times, and has eaten exactly four times when it has finished.  So, when
    sleepers are woken and ready threads run, all philosophers finish, after four
    meals each. *)
Theorem philosophers_dine n y0 y :
  table_set y0 → runs philosopher n y0 y →
  (∀ t u l l', pcs y !! t = Some l → pcs y !! u = Some l' → t ≠ u → at_table l → at_table l' → ¬ share (ph_id l) (ph_id l')) ∧
  (∀ t l, cur (p_s y) = Some t → pcs y !! t = Some l → ∃ y', turn philosopher t y = Ok (tt, y')) ∧
  (∀ t l, pcs y !! t = Some l → philosopher l ≠ Exit →
     cur (p_s y) ≠ None ∨ ready_queue (p_s y) ≠ [] ∨ asleep y ≠ []) ∧
  (n <= 41 * size (pcs y0))%nat ∧
  (∀ t l0, pcs y0 !! t = Some l0 → ∃ l, pcs y !! t = Some l ∧ ph_id l = ph_id l0 ∧
     (∃ k, dines (ph_id l) k y0 y) ∧
     (∀ k, dines (ph_id l) k y0 y → (k <= 4)%nat ∧ (philosopher l = Exit → k = 4%nat))).
Proof.
  intros H0 Hr. destruct (table_inv n y0 y H0 Hr) as [Hy _]. pose proof philosopher_disciplined as Hd. split_and!.
  - intros t u l l' Ht Hu Hne [Hr1 Hs1] [Hr2 Hs2] (m & Hm1 & Hm2). apply Hne.
    apply (holding_unique philosopher forks N Hd y t u m Hy); by eapply meal_holds.
  - intros t l. by apply (turn_ok philosopher forks N Hd).
  - intros t l. by apply (no_deadlock philosopher forks N Hd).
  - assert (placed philosopher y0) as Hp by (eapply pi_placed, started_inv, H0).
    destruct (runs_lower philosopher weight philosopher_lowers n y0 y Hp Hr) as [_ Hle].
    enough (left_to_do weight y0 <= 41 * size (pcs y0))%nat by lia. apply msum_bound. intros t l Hl.
    destruct (ts_pcs _ H0 t l Hl) as [E1 E2]. case_decide; [|lia]. unfold weight. rewrite E1, E2. simpl. lia.
  - intros t l0 Hl0. destruct (runs_dines (ph_id l0) n y0 y Hr) as [k Hk].
    destruct (dines_served _ k y0 y H0 Hk t l0 Hl0) as (l & Hl & Hid & _). exists l. rewrite Hid. split_and!; [done|done|by exists k|].
    intros k' Hk'. destruct (dines_served _ k' y0 y H0 Hk' t l0 Hl0) as (l1 & Hl1 & _ & ->); [|done].
    assert (l1 = l) as -> by congruence. apply served_four.
Qed.

Lemma within_spec y i c r : within (EAT (mem y)) (fin_to_nat i) c r = true → eat_start y i r <= c <= eat_end y i r.
Proof.
  unfold within, eat_start, eat_end. destruct (at_ _ _ (2 * r)) as [a|], (at_ _ _ (2 * r + 1)) as [b|]; try done.
  intros [H1 H2]%andb_true_iff. simpl. lia.
Qed.

Lemma chart_eating y i c : chart (mem y) (fin_to_nat i) c = 120 → ∃ r, (r < ROUND)%nat ∧ eat_start y i r <= c <= eat_end y i r.
Proof.
  unfold chart. destruct (existsb _ _); [done|]. destruct (existsb (within (EAT (mem y)) i c) (seq 0 ROUND)) eqn:He; [|done].
  intros _. apply existsb_exists in He as (r & [_ Hr]%in_seq & Hw). exists r. split; [lia|]. by apply within_spec.
Qed.

(** C17: What the philosophers write down.  In every run, the meals of two
    philosophers with a fork in common do not overlap: one ends before the other
    begins.  The chart [main] prints at the end shows both eating in the same
    column only if the time of the column is the very end of one meal and the
    beginning of the other. *)
Theorem meals_do_not_overlap n y0 y t u l l' :
  table_set y0 → runs philosopher n y0 y → pcs y !! t = Some l → pcs y !! u = Some l' → t ≠ u →
  share (ph_id l) (ph_id l') →
  (∀ r r', ended l r → ended l' r' →
     eat_start y (ph_id l) r <= eat_end y (ph_id l) r ∧
     (eat_end y (ph_id l) r <= eat_start y (ph_id l') r' ∨ eat_end y (ph_id l') r' <= eat_start y (ph_id l) r)) ∧
  (philosopher l = Exit → philosopher l' = Exit → ∀ c,
     chart (mem y) (ph_id l) c = 120 → chart (mem y) (ph_id l') c = 120 →
     ∃ r r', c = eat_end y (ph_id l) r ∧ c = eat_start y (ph_id l') r' ∨
             c = eat_start y (ph_id l) r ∧ c = eat_end y (ph_id l') r').
Proof.
  intros H0 Hr Ht Hu Hne Hs. destruct (table_inv n y0 y H0 Hr) as [_ [_ _ _ He Hap]].
  assert (∀ l r, ended l r → begun l r) as Hbe by (unfold begun, ended; intros; lia).
  assert (∀ l r, philosopher l = Exit → (r < ROUND)%nat → ended l r) as Hfin.
  { intros l0 r Hx Hlt. unfold philosopher in Hx. destruct (Nat.ltb_spec (ph_round l0) ROUND); [by destruct (ph_stage l0)|].
    unfold ended. lia. }
  assert (∀ r r', ended l r → ended l' r' → eat_end y (ph_id l) r <= eat_start y (ph_id l') r' ∨
    eat_end y (ph_id l') r' <= eat_start y (ph_id l) r) as Hor.
  { intros r r' E1 E2. destruct (Hap t u l l' r r' Ht Hu Hne Hs (Hbe _ _ E1) (Hbe _ _ E2)) as [[_ ?]|[_ ?]]; auto. }
  split.
  - intros r r' E1 E2. split; [by apply (He t l)|by apply Hor].
  - intros Hx Hx' c (r & Hr1 & Hc1)%chart_eating (r' & Hr2 & Hc2)%chart_eating. exists r, r'.
    destruct (Hor r r' (Hfin _ _ Hx Hr1) (Hfin _ _ Hx' Hr2)); lia.
Qed.

(** [main] creates fork [i + 1] after philosopher [i] has started: a philosopher
    who comes to a fork that does not exist yet takes the kernel down. *)
Lemma fork_not_created y t l m k : pcs y !! t = Some l → philosopher l = Lock m k → mxs y !! m = None →
  turn philosopher t y = Panic PIndex.
Proof. intros Hl Hp Hm. unfold turn, on_mutex, mbind, M_bind, get. rewrite Hl. simpl. unfold mret, M_ret. by rewrite Hp, Hm. Qed.

(** ** Two neighbours *)

Definition demo_table : PSys PMem PLoc :=
  mkPSys demo_sched (replicate N MutexBlocking_new) [] [] [] 0
    {| THINK := replicate N (replicate (2 * ROUND) 0); EAT := replicate N (replicate (2 * ROUND) 0) |}
    {[ 1 := mkLoc 0%fin 0 StartThink; 2 := mkLoc 1%fin 0 StartThink ]}.

Lemma demo_table_set : table_set demo_table.
Proof.
  assert (∀ t l, pcs demo_table !! t = Some l → t = 1 ∧ l = mkLoc 0%fin 0 StartThink ∨ t = 2 ∧ l = mkLoc 1%fin 0 StartThink) as Hl.
  { intros t l Ht. cbn [demo_table pcs] in Ht. apply lookup_insert_Some in Ht as [[<- <-]|[_ [<- <-]%lookup_singleton_Some]]; auto. }
  split; [split; [apply demo_sched_ok|done|done|]|..].
  - intros t l [[-> ->]|[-> ->]]%Hl; (split; [done|]); unfold places; simpl; set_solver.
  - by intros t l [[-> ->]|[-> ->]]%Hl.
  - by intros t u l l' [[-> ->]|[-> ->]]%Hl [[-> ->]|[-> ->]]%Hl.
  - split; [done|]. repeat constructor.
Qed.

(** Both have four meals. *)
Definition demo_dinner := play philosopher 400 0 demo_table.

Lemma philosophers_dine_witness : fst demo_dinner = 82%nat ∧ (82 <= 41 * size (pcs demo_table))%nat ∧
  dines 0%fin 4 demo_table (snd demo_dinner).
Proof.
  split; [by vm_compute|].
  assert (runs philosopher 82 demo_table (snd demo_dinner)) as Hr.
  { replace 82%nat with (fst demo_dinner) by (by vm_compute). apply play_runs. constructor. }
  destruct (philosophers_dine 82 demo_table (snd demo_dinner) demo_table_set Hr) as (_ & _ & _ & Hn & Hm).
  split; [exact Hn|]. destruct (Hm 1 (mkLoc 0%fin 0 StartThink) ltac:(by vm_compute)) as (l & Hl & Hid & [k Hk] & Hall).
  assert (pcs (snd demo_dinner) !! 1 = Some (mkLoc 0%fin 4 StartThink)) as Hl' by (by vm_compute).
  assert (l = mkLoc 0%fin 4 StartThink) as -> by congruence.
  pose proof (proj2 (Hall k Hk) eq_refl) as E. by subst k.
Defined.

Lemma meals_do_not_overlap_witness :
  eat_end (snd demo_dinner) 0%fin 3 <= eat_start (snd demo_dinner) 1%fin 3 ∨
  eat_end (snd demo_dinner) 1%fin 3 <= eat_start (snd demo_dinner) 0%fin 3.
Proof.
  assert (runs philosopher 82 demo_table (snd demo_dinner)) as Hr.
  { replace 82%nat with (fst demo_dinner) by (by vm_compute). apply play_runs. constructor. }
  apply (proj2 (proj1 (meals_do_not_overlap 82 demo_table (snd demo_dinner) 1 2 (mkLoc 0%fin 4 StartThink) (mkLoc 1%fin 4 StartThink)
    demo_table_set Hr ltac:(by vm_compute) ltac:(by vm_compute) ltac:(done)
    ltac:(exists 1%nat; split; apply (bool_decide_unpack _); by vm_compute)) 3%nat 3%nat ltac:(unfold ended, ROUND; simpl; lia) ltac:(unfold ended, ROUND; simpl; lia))).
Defined.
