(* ===== verification/Adders.v ===== *)
(** * The adders

    [user/src/bin/race_adder*.rs]: sixteen threads that each add 1 to a static
    variable a thousand times, by reading it, computing for a while and writing it
    back.  [Blocking] protects the addition by a mutex
    ([race_adder_mutex_blocking.rs]), [Atomic] by a compare-exchange on a flag
    ([race_adder_atomic.rs]), [Loop] by testing and then setting the flag
    ([race_adder_loop.rs]), [Racy] by nothing ([race_adder.rs]).  The run starts
    when [main] has created the threads.  There is one processor, so memory is
    sequentially consistent whatever ordering the accesses ask for. *)

From S2P Require Import Prelude Sched Sync Threads.

Inductive variant := Blocking | Atomic | Loop | Racy.

Definition PER_THREAD : nat := 1000.
Definition THREAD_COUNT : nat := 16.

(** The static variables. *)
Record AMem := { A : Z; OCCUPIED : bool }.

(** The locations: the iteration, the next statement and the local variables. *)
Inductive astage := Enter | Retry | Claim | Read | Compute | Write | Leave.
#[export] Instance astage_eq_dec : EqDecision astage.
Proof. solve_decision. Defined.
Record ALoc := mkALoc { a_it : nat; a_st : astage; a_t : Z; a_cur : Z }.

(** [for _ in 0..500 { t = t * t % 10007; }] *)
Definition work (t : Z) : Z := Nat.iter 500 (λ t, wrap64 (t * t) mod 10007) t.

(** The thread function [f]. *)
Definition adder (v : variant) (l : ALoc) : instr AMem ALoc :=
  let go s := mkALoc (a_it l) s (a_t l) (a_cur l) in
  let next := mkALoc (S (a_it l)) Enter (a_t l) (a_cur l) in
  if (a_it l <? PER_THREAD)%nat then
    match a_st l with
    | Enter =>
        match v with
        | Blocking => Lock 0 (go Read)
        | Atomic => Act (λ _ m, if OCCUPIED m then (m, go Retry) else ({| A := A m; OCCUPIED := true |}, go Read))
        | Loop => Act (λ _ m, if OCCUPIED m then (m, go Retry) else (m, go Claim))
        | Racy => Act (λ _ m, (m, go Read))
        end
    | Retry => Yield (go Enter)
    | Claim => Act (λ _ m, ({| A := A m; OCCUPIED := true |}, go Read))
    | Read => Act (λ _ m, (m, mkALoc (a_it l) Compute (a_t l) (A m)))
    | Compute => Act (λ _ m, (m, mkALoc (a_it l) Write (work (a_t l)) (a_cur l)))
    | Write => Act (λ _ m, ({| A := wrap64 (a_cur l + 1); OCCUPIED := OCCUPIED m |}, go Leave))
    | Leave =>
        match v with
        | Blocking => Unlock 0 next
        | Racy => Act (λ _ m, (m, next))
        | _ => Act (λ _ m, ({| A := A m; OCCUPIED := false |}, next))
        end
    end
  else Exit.

Abbreviation Sys := (PSys AMem ALoc).

(** ** Counting *)

(** The additions a thread has completed, and a thread between its read and
    its write. *)
Definition added (l : ALoc) : nat :=
  (a_it l + if (a_it l <? PER_THREAD)%nat then match a_st l with Leave => 1 | _ => 0 end else 0)%nat.
Definition pending (l : ALoc) : Prop := (a_it l < PER_THREAD)%nat ∧ (a_st l = Compute ∨ a_st l = Write).
#[export] Instance pending_dec l : Decision (pending l).
Proof. unfold pending. apply _. Defined.

Record count_inv (y : Sys) : Prop := {
  ci_le : ∀ t l, pcs y !! t = Some l → (a_it l <= PER_THREAD)%nat;
  ci_cur : ∀ t l, pcs y !! t = Some l → pending l → a_cur l = A (mem y);
  ci_sum : A (mem y) = Z.of_nat (msum (λ _, added) (pcs y))
}.

(** What a step does to the count: nothing, the read or the write. *)
Lemma adder_effect v t y l y' : pcs y !! t = Some l → effect t y (adder v l) y' → ∃ k,
  pcs y' = <[t := k]> (pcs y) ∧ ((a_it l <= PER_THREAD)%nat → (a_it k <= PER_THREAD)%nat) ∧
  ((A (mem y') = A (mem y) ∧ added k = added l ∧ (pending k → pending l ∧ a_cur k = a_cur l)) ∨
   (A (mem y') = A (mem y) ∧ added k = added l ∧ a_cur k = A (mem y)) ∨
   (pending l ∧ A (mem y') = wrap64 (a_cur l + 1) ∧ added k = S (added l) ∧ ¬ pending k)).
Proof.
  intros Hl He. destruct (effect_shape _ _ _ _ He) as [_ Hs]. clear He.
  destruct l as [it st tv cv]. unfold adder in Hs. cbn [a_it a_st a_t a_cur] in *.
  destruct (Nat.ltb_spec it PER_THREAD) as [Hlt|Hge].
  - assert (∀ st' tv' cv', added (mkALoc it st' tv' cv') = (it + match st' with Leave => 1 | _ => 0 end)%nat) as Ha.
    { intros. unfold added. cbn [a_it a_st]. by rewrite (proj2 (Nat.ltb_lt _ _) Hlt). }
    assert (∀ tv' cv', added (mkALoc (S it) Enter tv' cv') = (it + 1)%nat) as Ha'.
    { intros. unfold added. cbn [a_it a_st]. destruct (S it <? PER_THREAD)%nat; lia. }
    destruct st, v; destruct Hs as [Hp Hm]; try (destruct (OCCUPIED (mem y))); (eexists; split; [exact Hp|]); rewrite ?Hm;
      cbn [fst snd a_it a_cur A]; rewrite ?Ha, ?Ha'; (split; [lia|]); unfold pending; cbn [a_it a_st a_cur];
      first [left; split; [done|]; split; [lia|]; by intros [_ [?|?]]; try done; (split; [split; [done|auto]|done])
            |right; left; split; [done|]; split; [lia|done]
            |right; right; split; [split; [done|auto]|]; split; [done|]; split; [lia|]; by intros [_ [?|?]]].
  - destruct Hs as [Hp Hm]. exists (mkALoc it st tv cv). split; [by rewrite Hp, insert_id|]. split; [done|]. left. by rewrite Hm.
Qed.

Lemma count_step v y t l y' : count_inv y → size (pcs y) = THREAD_COUNT → pcs y !! t = Some l → effect t y (adder v l) y' →
  (pending l → ∀ u l', pcs y !! u = Some l' → pending l' → u = t) → count_inv y'.
Proof.
  intros [Hle Hcur Hsum] Hsize Hl He Hex.
  assert (A (mem y) <= 16000) as Hmax.
  { rewrite Hsum. enough (msum (λ _, added) (pcs y) <= PER_THREAD * size (pcs y))%nat by (rewrite Hsize in *; unfold PER_THREAD, THREAD_COUNT in *; lia).
    apply msum_bound. intros u lu Hu. specialize (Hle u lu Hu). unfold added. destruct (Nat.ltb_spec (a_it lu) PER_THREAD); [|lia].
    destruct (a_st lu); lia. }
  destruct (adder_effect v t y l y' Hl He) as (k & Hp & Hk & Hcase). pose proof (msum_update (λ _, added) (pcs y) t l k Hl) as Hu.
  assert (∀ u lu, pcs y' !! u = Some lu → u = t ∧ lu = k ∨ u ≠ t ∧ pcs y !! u = Some lu) as Hpc.
  { intros u lu Hlu. rewrite Hp in Hlu. apply lookup_insert_Some in Hlu as [[<- <-]|[? ?]]; auto. }
  split.
  - intros u lu [[-> ->]|[_ Hlu]]%Hpc; [apply Hk|]; by eapply Hle.
  - intros u lu Hlu Hpe. destruct (Hpc u lu Hlu) as [[-> ->]|[Hne Hlu']].
    + destruct Hcase as [(-> & _ & Hq)|[(-> & _ & ->)|(_ & _ & _ & Hn)]]; [|done|done].
      destruct (Hq Hpe) as [Hpl ->]. by apply (Hcur t l).
    + destruct Hcase as [(-> & _)|[(-> & _)|(Hpl & _)]]; [by apply (Hcur u)|by apply (Hcur u)|].
      exfalso. by apply Hne, (Hex Hpl u lu).
  - rewrite Hp. destruct Hcase as [(-> & Ha & _)|[(-> & Ha & _)|(Hpl & -> & Ha & _)]]; [lia|lia|].
    rewrite (Hcur t l Hl Hpl), Hsum. rewrite wrap_small by lia. lia.
Qed.

(** ** Exclusion *)

(** The mutexes of the program, and who claims the only one. *)
Definition mutexes (v : variant) : nat := match v with Blocking => 1 | _ => 0 end.
Definition claims (v : variant) (l : ALoc) : list nat :=
  match v with
  | Blocking => if (a_it l <? PER_THREAD)%nat then match a_st l with Enter | Retry => [] | _ => [0%nat] end else []
  | _ => []
  end.

Lemma blocking_disciplined : disciplined (adder Blocking) (claims Blocking) (mutexes Blocking).
Proof.
  split; intros [it st tv cv]; unfold adder, claims, mutexes; cbn [a_it a_st a_t a_cur];
    destruct (Nat.ltb_spec it PER_THREAD) as [Hlt|Hge]; try (by destruct st); try done.
  - intros m k. destruct st; try done. intros [= <- <-]. cbn [a_it a_st]. rewrite (proj2 (Nat.ltb_lt _ _) Hlt). by split_and!; [lia| |].
  - intros m k. destruct st; try done. intros [= <- <-]. cbn [a_it a_st].
    destruct (S it <? PER_THREAD)%nat; (split; [done|apply not_elem_of_nil]).
  - intros k. destruct st; try done. intros [= <-]. cbn [a_it a_st]. by rewrite (proj2 (Nat.ltb_lt _ _) Hlt).
  - intros f n m. destruct st; try done; intros [= <-]; cbn [a_it a_st snd]; by rewrite (proj2 (Nat.ltb_lt _ _) Hlt).
  - destruct st; rewrite ?Forall_cons, ?Forall_nil; (done || (split; [lia|done])).
Qed.

Lemma flag_disciplined v : v ≠ Blocking → disciplined (adder v) (claims v) (mutexes v).
Proof.
  intros Hv. assert (∀ l, claims v l = []) as Hc by (intros; by destruct v).
  split; intros l; rewrite ?Hc; try done; unfold adder; destruct (_ <? _)%nat; try done; destruct (a_st l), v; done.
Qed.

Lemma adder_disciplined v : disciplined (adder v) (claims v) (mutexes v).
Proof. destruct v; [apply blocking_disciplined|by apply flag_disciplined..]. Qed.

Abbreviation AInv v := (psys_inv (adder v) (claims v) (mutexes v)).

(** A thread behind a successful compare-exchange. *)
Definition inside (l : ALoc) : Prop :=
  (a_it l < PER_THREAD)%nat ∧ (a_st l = Read ∨ a_st l = Compute ∨ a_st l = Write ∨ a_st l = Leave).

Record flag_inv (y : Sys) : Prop := {
  fl_set : ∀ t l, pcs y !! t = Some l → inside l → OCCUPIED (mem y) = true;
  fl_one : ∀ t u l l', pcs y !! t = Some l → pcs y !! u = Some l' → inside l → inside l' → t = u;
  fl_none : ∀ t l, pcs y !! t = Some l → a_st l ≠ Claim
}.

Lemma flag_step y t l y' : flag_inv y → pcs y !! t = Some l → effect t y (adder Atomic l) y' → flag_inv y'.
Proof.
  intros [Hset Hone Hnone] Hl He. destruct (effect_shape _ _ _ _ He) as [_ Hs]. clear He. pose proof (Hnone t l Hl) as Hnc.
  enough (∃ k, pcs y' = <[t := k]> (pcs y) ∧ a_st k ≠ Claim ∧
    ((OCCUPIED (mem y') = OCCUPIED (mem y) ∧ (inside k → inside l)) ∨
     (OCCUPIED (mem y) = false ∧ OCCUPIED (mem y') = true) ∨ (inside l ∧ ¬ inside k))) as (k & Hp & Hk & Hcase).
  { assert (∀ u lu, pcs y' !! u = Some lu → u = t ∧ lu = k ∨ u ≠ t ∧ pcs y !! u = Some lu) as Hpc.
    { intros u lu Hlu. rewrite Hp in Hlu. apply lookup_insert_Some in Hlu as [[<- <-]|[? ?]]; auto. }
    destruct Hcase as [[Ho Hi]|[[Ho Ho']|[Hil Hik]]]; split; try (by intros u lu [[-> ->]|[_ ?]]%Hpc; [|eapply Hnone]).
    - intros u lu [[-> ->]|[_ Hlu]]%Hpc Hin; rewrite Ho; [by apply (Hset t l), Hi|by eapply Hset].
    - intros u w lu lw [[-> ->]|[_ Hlu]]%Hpc [[-> ->]|[_ Hlw]]%Hpc H1 H2; [done|..].
      + by apply (Hone t w l lw); auto.
      + by apply (Hone u t lu l); auto.
      + by eapply Hone.
    - done.
    - intros u w lu lw [[-> ->]|[_ Hlu]]%Hpc [[-> ->]|[_ Hlw]]%Hpc H1 H2; [done|..];
        exfalso; [rewrite (Hset w lw) in Ho by done|rewrite (Hset u lu) in Ho by done|rewrite (Hset u lu) in Ho by done]; done.
    - intros u lu [[-> ->]|[Hne Hlu]]%Hpc Hin; [done|]. exfalso. apply Hne. by eapply Hone.
    - intros u w lu lw [[-> ->]|[Hne Hlu]]%Hpc [[-> ->]|[Hne' Hlw]]%Hpc H1 H2; try done. by eapply Hone. }
  destruct l as [it st tv cv]. unfold adder in Hs. cbn [a_it a_st a_t a_cur] in *.
  destruct (Nat.ltb_spec it PER_THREAD) as [Hlt|Hge].
  - destruct st; [|by destruct Hs as [Hp Hm]; eexists; split_and!; [exact Hp|done|left; rewrite Hm; unfold inside; simpl; split; [done|]; intros [_ [?|[?|[?|?]]]]; done]|done|..];
      destruct Hs as [Hp Hm]; try (destruct (OCCUPIED (mem y)) eqn:Ho); (eexists; split; [exact Hp|]); rewrite Hm; unfold inside; simpl;
      (split; [done|]); first [left; split; [done|]; intros [_ [?|[?|[?|?]]]]; done || (by split; auto)
        |right; left; done|right; right; split; [by split; auto|]; intros [_ [?|[?|[?|?]]]]; done].
  - destruct Hs as [Hp Hm]. exists (mkALoc it st tv cv). rewrite Hp, insert_id by done. split; [done|]. split; [done|]. left. by rewrite Hm.
Qed.

(** ** Properties *)

(** [main] has created the mutex and the sixteen threads. *)
Record adders_ready (v : variant) (y : Sys) : Prop := {
  ar_sched : sched_ok (p_s y) [];
  ar_mutexes : mxs y = replicate (mutexes v) MutexBlocking_new;
  ar_none : sems y = [] ∧ cvs y = [] ∧ asleep y = [];
  ar_pcs : ∀ t l, pcs y !! t = Some l → l = mkALoc 0 Enter 2 0 ∧ t ∈ places (p_s y) [];
  ar_count : size (pcs y) = THREAD_COUNT;
  ar_mem : mem y = {| A := 0; OCCUPIED := false |}
}.

Lemma adders_started v y : adders_ready v y → started (claims v) (mutexes v) y.
Proof.
  intros [Hs Hm Hn Hp _ _]. split; try done. intros t l Hl. destruct (Hp t l Hl) as [-> Ht]. split; [by destruct v|done].
Qed.

(** When all threads have ended, each has added [PER_THREAD] times. *)
Lemma all_ended v (y : Sys) : (∀ t l, pcs y !! t = Some l → (a_it l <= PER_THREAD)%nat) →
  (∀ t l, pcs y !! t = Some l → adder v l = Exit) → msum (λ _, added) (pcs y) = (PER_THREAD * size (pcs y))%nat.
Proof.
  intros Hle Hx. apply msum_const. intros t l Hl. specialize (Hx t l Hl). specialize (Hle t l Hl).
  unfold adder in Hx. unfold added. destruct (Nat.ltb_spec (a_it l) PER_THREAD); [|lia]. by destruct (a_st l), v.
Qed.

Lemma size_step v b y y' : placed (adder v) y → pstep (adder v) b y y' → size (pcs y') = size (pcs y).
Proof.
  intros Hpl Hs. destruct b; [|by destruct (idle_step _ y y' Hpl Hs) as (_ & -> & _)].
  inversion Hs as [| | | |? t ? Ht He]; subst.
  destruct (pcs y !! t) as [l|] eqn:Hl; [|by unfold turn, mbind, M_bind, get in He; rewrite Hl in He].
  apply (turn_effect (adder v) t l y y' Ht Hl) in He.
  destruct (adder_effect v t y l y' Hl He) as (k & -> & _). by rewrite map_size_insert_Some.
Qed.

Record adding (v : variant) (y : Sys) : Prop := {
  ad_sys : AInv v y;
  ad_count : count_inv y;
  ad_flag : v = Atomic → flag_inv y;
  ad_size : size (pcs y) = THREAD_COUNT
}.

Lemma adders_ready_adding v y : adders_ready v y → adding v y.
Proof.
  intros Hr. pose proof Hr as [_ _ _ Hp Hc Hm]. split; [by apply started_inv, adders_started| | |done].
  - split.
    + intros t l Hl. destruct (Hp t l Hl) as [-> _]. simpl. lia.
    + intros t l Hl [_ [Hst|Hst]]; destruct (Hp t l Hl) as [-> _]; done.
    + rewrite Hm, msum_zero; [done|]. intros t l Hl. by destruct (Hp t l Hl) as [-> _].
  - intros _. split.
    + intros t l Hl [_ Hst]. destruct (Hp t l Hl) as [-> _]. simpl in Hst. naive_solver.
    + intros t u l l' Hl _ [_ Hst]. destruct (Hp t l Hl) as [-> _]. simpl in Hst. naive_solver.
    + intros t l Hl. by destruct (Hp t l Hl) as [-> _].
Qed.

(** Nobody else is between its read and its write. *)
Lemma pending_alone v y t u l l' : v = Blocking ∨ v = Atomic → adding v y → cur (p_s y) = Some t →
  pcs y !! t = Some l → pcs y !! u = Some l' → pending l → pending l' → u = t.
Proof.
  intros Hv [Hy _ Hf _] Ht Hl Hu [Hi Hp] [Hi' Hp'].
  destruct Hv as [->| ->]; [|by apply (fl_one _ (Hf eq_refl) u t l' l); try done; split; try done; naive_solver].
  assert (∀ l0, pending l0 → 0%nat ∈ claims Blocking l0 ∧ ∀ l1, adder Blocking l1 ≠ Lock 0 l0) as Hpass.
  { intros l0 [Hi0 Hp0]. unfold claims. rewrite (proj2 (Nat.ltb_lt _ _) Hi0). split; [destruct Hp0 as [->| ->]; by left|].
    intros l1. unfold adder. destruct (_ <? _)%nat; [|done]. destruct (a_st l1); try done. intros [= <-]. simpl in Hp0. naive_solver. }
  destruct (Hpass l (conj Hi Hp)) as [H1 H2]. destruct (Hpass l' (conj Hi' Hp')) as [H1' H2'].
  eapply (holding_unique _ _ _ blocking_disciplined y u t 0 Hy); by eapply passed_holds.
Qed.

Lemma adding_step v b y y' : v = Blocking ∨ v = Atomic → adding v y → pstep (adder v) b y y' → adding v y'.
Proof.
  intros Hv Had Hstep. pose proof (psys_inv_step _ _ _ (adder_disciplined v) b y y' (ad_sys _ _ Had) Hstep) as Hy'. destruct b.
  - inversion Hstep as [| | | |? t ? Ht He]; subst.
    destruct (pcs y !! t) as [l|] eqn:Hl; [|by unfold turn, mbind, M_bind, get in He; rewrite Hl in He].
    apply (turn_effect (adder v) t l y y' Ht Hl) in He. split; [done| | |].
    + eapply (count_step v y t l); try done; [apply Had|apply Had|]. intros Hp u l' Hu Hp'. by eapply (pending_alone v y t u l l').
    + intros ->. eapply flag_step; try done. by apply (ad_flag _ _ Had).
    + rewrite (size_step v true y y'); [apply Had| |done]. by eapply pi_placed, ad_sys.
  - destruct (idle_step _ y y' (pi_placed _ _ _ _ (ad_sys _ _ Had)) Hstep) as (_ & Hp & _ & _ & _ & Hm & _).
    destruct Had as [_ [H1 H2 H3] Hf Hs]. split; [done| | |by rewrite Hp].
    + split; rewrite ?Hp, ?Hm; done.
    + intros E. destruct (Hf E) as [F1 F2 F3]. split; rewrite ?Hp, ?Hm; done.
Qed.

(** The instructions a thread has left with the mutex. *)
Definition blocking_weight (l : ALoc) : nat :=
  (5 * (PER_THREAD - a_it l) + 1 - match a_st l with
    | Retry => 0 | Enter | Claim => 1 | Read => 2 | Compute => 3 | Write => 4 | Leave => 5 end)%nat.

Lemma blocking_lowers l : lowers (adder Blocking) blocking_weight l.
Proof.
  destruct l as [it st tv cv]. unfold lowers, adder, blocking_weight. cbn [a_it a_st a_t a_cur].
  destruct (Nat.ltb_spec it PER_THREAD); [|done]. unfold PER_THREAD in *. destruct st; cbn [a_it a_st snd]; try intros; lia.
Qed.

(** C18: The protected adders are exact.  With the mutex as with the atomic flag,
    in every interleaving of the sixteen threads: the variable is at every moment
    the number of additions completed, so none is lost, and when all threads have
    ended it is 16000, which [main] asserts; no instruction panics; and as long as
    a thread has not ended one is running, ready or asleep.  With the mutex a run
    executes at most 5001 instructions per thread: five for each addition and the exit. *)
Theorem adders_exact v n y0 y :
  v = Blocking ∨ v = Atomic → adders_ready v y0 → runs (adder v) n y0 y →
  A (mem y) = Z.of_nat (msum (λ _, added) (pcs y)) ∧
  ((∀ t l, pcs y !! t = Some l → adder v l = Exit) → A (mem y) = Z.of_nat (PER_THREAD * THREAD_COUNT)) ∧
  (∀ t l, cur (p_s y) = Some t → pcs y !! t = Some l → ∃ y', turn (adder v) t y = Ok (tt, y')) ∧
  (∀ t l, pcs y !! t = Some l → adder v l ≠ Exit → cur (p_s y) ≠ None ∨ ready_queue (p_s y) ≠ [] ∨ asleep y ≠ []) ∧
  (v = Blocking → (n <= (5 * PER_THREAD + 1) * THREAD_COUNT)%nat).
Proof.
  intros Hv H0 Hr. assert (adding v y) as [Hy [Hle _ Hsum] _ Hsz].
  { pose proof (adders_ready_adding v y0 H0) as Ha. clear H0. induction Hr as [|n y0 b z z' _ IH Hs]; [done|].
    eapply adding_step; [done|by apply IH|done]. }
  pose proof (adder_disciplined v) as Hd. split_and!; [done| | | |].
  - intros Hx. by rewrite Hsum, (all_ended v y Hle Hx), Hsz.
  - intros t l. by apply (turn_ok _ _ _ Hd).
  - intros t l. by apply (no_deadlock _ _ _ Hd).
  - intros ->. assert (placed (adder Blocking) y0) as Hp by (eapply pi_placed, started_inv, adders_started, H0).
    destruct (runs_lower _ blocking_weight blocking_lowers n y0 y Hp Hr) as [_ Hl].
    rewrite <- (ar_count _ _ H0). enough (left_to_do blocking_weight y0 <= (5 * PER_THREAD + 1) * size (pcs y0))%nat by lia.
    apply msum_bound. intros t l Hpc. destruct (ar_pcs _ _ H0 t l Hpc) as [-> _]. case_decide; [|lia].
    unfold blocking_weight, PER_THREAD. cbn [a_it a_st]. lia.
Qed.

(** ** Lost updates *)

(** An addition has been lost: the variable, and what the threads have read of
    it, is behind the number of additions. *)
Record lagging (y : Sys) : Prop := {
  lg_le : ∀ t l, pcs y !! t = Some l → (a_it l <= PER_THREAD)%nat;
  lg_mem : 0 <= A (mem y) < Z.of_nat (msum (λ _, added) (pcs y));
  lg_cur : ∀ t l, pcs y !! t = Some l → pending l → 0 <= a_cur l < Z.of_nat (msum (λ _, added) (pcs y))
}.

Lemma lagging_step v b y y' : placed (adder v) y → lagging y → pstep (adder v) b y y' → lagging y'.
Proof.
  intros Hpl [Hle Hmem Hcur] Hs. destruct b.
  - inversion Hs as [| | | |? t ? Ht He]; subst.
    destruct (pcs y !! t) as [l|] eqn:Hl; [|by unfold turn, mbind, M_bind, get in He; rewrite Hl in He].
    apply (turn_effect (adder v) t l y y' Ht Hl) in He.
    destruct (adder_effect v t y l y' Hl He) as (k & Hp & Hk & Hcase). pose proof (msum_update (λ _, added) (pcs y) t l k Hl) as Hu.
    assert (∀ u lu, pcs y' !! u = Some lu → u = t ∧ lu = k ∨ u ≠ t ∧ pcs y !! u = Some lu) as Hpc.
    { intros u lu Hlu. rewrite Hp in Hlu. apply lookup_insert_Some in Hlu as [[<- <-]|[? ?]]; auto. }
    assert (∀ x, 0 <= x → 0 <= wrap64 x <= x) as Hw by (intros x Hx; split; [apply Z.mod_pos_bound; lia|by apply Z.mod_le]).
    split.
    + intros u lu [[-> ->]|[_ Hlu]]%Hpc; [apply Hk|]; by eapply Hle.
    + rewrite Hp. destruct Hcase as [(-> & Ha & _)|[(-> & Ha & _)|(Hpl' & -> & Ha & _)]]; [lia|lia|].
      specialize (Hcur t l Hl Hpl'). specialize (Hw (a_cur l + 1)). lia.
    + intros u lu [[-> ->]|[_ Hlu]]%Hpc Hpe; rewrite Hp.
      * destruct Hcase as [(_ & Ha & Hq)|[(_ & Ha & ->)|(_ & _ & _ & Hn)]]; [|lia|done].
        destruct (Hq Hpe) as [Hpl' ->]. specialize (Hcur t l Hl Hpl'). lia.
      * specialize (Hcur u lu Hlu Hpe). destruct Hcase as [(_ & Ha & _)|[(_ & Ha & _)|(_ & _ & Ha & _)]]; lia.
  - destruct (idle_step _ y y' Hpl Hs) as (_ & Hp & _ & _ & _ & Hm & _). split; rewrite ?Hp, ?Hm; done.
Qed.

Lemma lagging_runs v n y y' : placed (adder v) y → lagging y → runs (adder v) n y y' → lagging y'.
Proof.
  intros Hp Hl Hr. induction Hr as [|n y b z z' Hr IH Hs]; [done|].
  eapply lagging_step; [|by apply IH|done]. by eapply placed_runs.
Qed.

Lemma size_runs v n y y' : placed (adder v) y → runs (adder v) n y y' → size (pcs y') = size (pcs y).
Proof.
  intros Hp Hr. induction Hr as [|n y b z z' Hr IH Hs]; [done|]. rewrite <- (IH Hp). eapply size_step; [|done]. by eapply placed_runs.
Qed.

(** The state in which [main] waits for the threads 1 to 16. *)
Definition created : list Z := seqZ 1 (Z.of_nat THREAD_COUNT).
Definition adders_start (v : variant) : Sys :=
  mkPSys {| ready_queue := created; cur := None; idle_task_cx := zero_init; cpu := zero_init;
            tcbs := list_to_map ((λ t, (t, demo_tcb)) <$> created) |}
    (replicate (mutexes v) MutexBlocking_new) [] [] [] 0 {| A := 0; OCCUPIED := false |}
    (list_to_map ((λ t, (t, mkALoc 0 Enter 2 0)) <$> created)).

Lemma started_map {B} (b : B) (ts : list Z) t l : NoDup ts →
  (list_to_map ((λ t, (t, b)) <$> ts) : gmap Z B) !! t = Some l ↔ t ∈ ts ∧ l = b.
Proof.
  intros Hn. rewrite <- elem_of_list_to_map.
  - rewrite list_elem_of_fmap. split; [by intros (? & [= -> ->] & ?)|]. intros [? ->]; by exists t.
  - rewrite <- list_fmap_compose. rewrite (list_fmap_ext _ id); [by rewrite list_fmap_id|done].
Qed.

Lemma adders_start_ready v : adders_ready v (adders_start v).
Proof.
  pose proof (NoDup_seqZ 1 (Z.of_nat THREAD_COUNT) : NoDup created) as Hnd.
  assert (places (p_s (adders_start v)) [] = created) as Hpl by (unfold places; cbn; by rewrite app_nil_r).
  split; [split|reflexivity|split_and!; reflexivity| |by vm_compute|reflexivity].
  - by rewrite Hpl.
  - rewrite Hpl. intros t Ht. exists demo_tcb. by apply (started_map demo_tcb created).
  - intros t [=].
  - intros t l Hl. rewrite Hpl. by apply (started_map (mkALoc 0 Enter 2 0) created t l Hnd) in Hl as [? ->].
Qed.

Definition laggingb (y : Sys) : bool :=
  let total := Z.of_nat (msum (λ _, added) (pcs y)) in
  bool_decide (map_Forall (λ _ l, (a_it l <= PER_THREAD)%nat ∧ (¬ pending l ∨ 0 <= a_cur l < total)) (pcs y)) &&
  bool_decide (0 <= A (mem y) < total).

Lemma lagging_check y : laggingb y = true → lagging y.
Proof.
  intros [Hm Ha]%andb_prop. apply bool_decide_eq_true in Hm, Ha. split; [intros t l Hl; by apply (Hm t l Hl)|done|].
  intros t l Hl Hp. by destruct (Hm t l Hl) as [_ [?|?]].
Qed.

(** The first thread is preempted between its read and its write, or between its
    test and its claim of the flag. *)
Definition overtaken (v : variant) : list nat :=
  match v with Racy => [3; 6] ++ replicate 14 1 ++ [3] | _ => [2; 4] ++ replicate 14 1 ++ [5; 3] end%nat.

Lemma lost_for_good v ks : lagging (snd (slices (adder v) ks 0 (adders_start v))) →
  ∃ n y, runs (adder v) n (adders_start v) y ∧ ∀ n' y', runs (adder v) n' y y' →
    A (mem y') < Z.of_nat (msum (λ _, added) (pcs y')) ∧
    ((∀ t l, pcs y' !! t = Some l → adder v l = Exit) → A (mem y') ≠ Z.of_nat (PER_THREAD * THREAD_COUNT)).
Proof.
  intros Hlag. pose proof (slices_runs (adder v) (adders_start v) ks 0 _ (runs_nil _ _)) as Hr.
  assert (placed (adder v) (adders_start v)) as Hp by (eapply pi_placed, ad_sys, adders_ready_adding, adders_start_ready).
  pose proof (placed_runs _ _ _ _ Hp Hr) as Hp1. pose proof (size_runs v _ _ _ Hp Hr) as Hs.
  rewrite (ar_count _ _ (adders_start_ready v)) in Hs.
  eexists _, _. split; [exact Hr|]. intros n' y' Hr'. pose proof (size_runs v _ _ _ Hp1 Hr') as Hs'.
  destruct (lagging_runs v n' _ _ Hp1 Hlag Hr') as [Hle Hm _]. split; [lia|]. intros Hx.
  rewrite (all_ended v y' Hle Hx), Hs', Hs in Hm. lia.
Qed.

(** C25: The unprotected adders lose additions.  With no protection, and with the
    flag tested and then set in two steps, there is a run of the sixteen threads,
    from the state [main] starts them in, after which the assertion of [main]
    cannot hold: however the run goes on, the variable stays below the number of
    additions completed, and is not 16000 when all threads have ended. *)
Theorem races_lose :
  Forall (λ v, ∃ n y, runs (adder v) n (adders_start v) y ∧ ∀ n' y', runs (adder v) n' y y' →
    A (mem y') < Z.of_nat (msum (λ _, added) (pcs y')) ∧
    ((∀ t l, pcs y' !! t = Some l → adder v l = Exit) → A (mem y') ≠ Z.of_nat (PER_THREAD * THREAD_COUNT)))
    [Loop; Racy].
Proof.
  constructor; [|constructor; [|done]].
  - apply (lost_for_good Loop (overtaken Loop)), lagging_check. by vm_compute.
  - apply (lost_for_good Racy (overtaken Racy)), lagging_check. by vm_compute.
Qed.

(** The first forty additions. *)
Definition demo_adding := play (adder Atomic) 200 0 (adders_start Atomic).

Lemma adders_exact_witness :
  A (mem (snd demo_adding)) = Z.of_nat (msum (λ _, added) (pcs (snd demo_adding))) ∧ A (mem (snd demo_adding)) = 40.
Proof.
  assert (runs (adder Atomic) (fst demo_adding) (adders_start Atomic) (snd demo_adding)) as Hr
    by (unfold demo_adding; exact (play_runs (adder Atomic) (adders_start Atomic) 200 0 (adders_start Atomic) (runs_nil (adder Atomic) (adders_start Atomic)))).
  split; [|by vm_compute].
  apply (adders_exact Atomic _ (adders_start Atomic) (snd demo_adding) (or_intror eq_refl) (adders_start_ready Atomic) Hr).
Defined.
