(* ===== verification/Buffer.v ===== *)
(** * The bounded buffer

    [user/src/bin/mpsc_sem.rs]: four producers and a consumer that share a buffer
    of eight places, with one semaphore for the free places, one for the filled
    ones and one as a mutex.  The run starts when [main] has created the
    semaphores and the threads.

    The first part holds for every program of [Threads] that synchronises by
    semaphores only: the counter of a semaphore is what its threads have put in
    less what they have taken, and its queue is as long as the counter is below
    zero. *)

From S2P Require Import Prelude Sched Sync Threads.

Section counting.
Context {Mem Loc : Type} (prog : Loc → instr Mem Loc) (downs ups : nat → Loc → nat) (init : list Z).
Abbreviation Sys := (PSys Mem Loc).

(** [downs i l] and [ups i l] are the calls on semaphore [i] that a thread has
    made when it is at [l]. *)
Record counting : Prop := {
  cn_down : ∀ l i k j, prog l = Down i k → downs j k = (downs j l + if decide (j = i) then 1 else 0)%nat ∧ ups j k = ups j l;
  cn_up : ∀ l i k j, prog l = Up i k → downs j k = downs j l ∧ ups j k = (ups j l + if decide (j = i) then 1 else 0)%nat;
  cn_act : ∀ l f n m j, prog l = Act f → downs j (snd (f n m)) = downs j l ∧ ups j (snd (f n m)) = ups j l;
  cn_only : ∀ l, match prog l with Down i _ | Up i _ => (i < length init)%nat | Act _ | Exit => True | _ => False end
}.

Definition total (f : Loc → nat) (y : Sys) : Z := Z.of_nat (msum (λ _, f) (pcs y)).

Record sems_inv (y : Sys) : Prop := {
  sv_placed : placed prog y;
  sv_len : length (sems y) = length init;
  sv_count : ∀ i x c, sems y !! i = Some x → init !! i = Some c → count x = c + total (ups i) y - total (downs i) y;
  sv_queue : ∀ i x, sems y !! i = Some x → length (sem_queue x) = Z.to_nat (- count x);
  sv_parked : ∀ i x t, sems y !! i = Some x → t ∈ sem_queue x → ∃ l k, pcs y !! t = Some k ∧ prog l = Down i k;
  sv_none : mxs y = [] ∧ cvs y = [] ∧ asleep y = []
}.

(** The counters stay within the width of [isize]. *)
Definition small (y : Sys) : Prop := ∀ i, total (ups i) y < 2 ^ 62 ∧ total (downs i) y < 2 ^ 62.

Lemma total_goto f (y y' : Sys) t l k : pcs y !! t = Some l → pcs y' = <[t := k]> (pcs y) →
  total f y' + Z.of_nat (f l) = total f y + Z.of_nat (f k).
Proof. intros Hl Hp. unfold total. rewrite Hp. pose proof (msum_update (λ _, f) (pcs y) t l k Hl). lia. Qed.

Lemma parked_in_sem (y : Sys) i x t : sems y !! i = Some x → t ∈ sem_queue x → t ∈ parked y.
Proof. intros Hx Ht. destruct (parked_sem y i x Hx) as (u & v & -> & _). set_solver. Qed.

(** The semaphore [i] is the only one that changes, and by the caller. *)
Lemma sems_inv_call y y' t l k i x x' d u :
  sems_inv y → placed prog y' → cur (p_s y) = Some t → pcs y !! t = Some l → pcs y' = <[t := k]> (pcs y) →
  sems y !! i = Some x → sems y' = <[i := x']> (sems y) → (mxs y', cvs y', asleep y') = (mxs y, cvs y, asleep y) →
  (∀ j, downs j k = (downs j l + if decide (j = i) then d else 0)%nat) →
  (∀ j, ups j k = (ups j l + if decide (j = i) then u else 0)%nat) →
  count x' = count x + Z.of_nat u - Z.of_nat d → length (sem_queue x') = Z.to_nat (- count x') →
  (∀ v, v ∈ sem_queue x' → v ∈ sem_queue x ∨ v = t ∧ prog l = Down i k) → sems_inv y'.
Proof.
  intros [Hpl Hlen Hc Hq Hp Hno] Hpl' Ht Hl Hpc Hx Hs [= Hm Hcv Ha] Hd Hu Hcount Hqueue Hin.
  destruct (cur_not_parked prog y t Hpl Ht) as [Hnp _].
  assert (∀ j z v, sems y !! j = Some z → v ∈ sem_queue z → ∃ l0 k0, pcs y' !! v = Some k0 ∧ prog l0 = Down j k0) as Hold.
  { intros j z v Hz Hv. rewrite Hpc, lookup_insert_ne; [by eapply Hp|]. intros <-. by eapply Hnp, parked_in_sem. }
  split; [done|by rewrite Hs, length_insert| | | |by rewrite Hm, Hcv, Ha].
  - intros j z c Hz Hj. pose proof (total_goto (ups j) y y' t l k Hl Hpc). pose proof (total_goto (downs j) y y' t l k Hl Hpc).
    specialize (Hd j). specialize (Hu j). rewrite Hs in Hz. apply list_lookup_insert_Some in Hz as [(-> & -> & _)|[Hne Hz]].
    + rewrite decide_True in Hd, Hu by done. rewrite Hcount, (Hc j x c Hx Hj). lia.
    + rewrite decide_False in Hd, Hu by done. rewrite (Hc j z c Hz Hj). lia.
  - intros j z Hz. rewrite Hs in Hz. apply list_lookup_insert_Some in Hz as [(-> & -> & _)|[_ Hz]]; [done|by eapply Hq].
  - intros j z v Hz Hv. rewrite Hs in Hz. apply list_lookup_insert_Some in Hz as [(-> & -> & _)|[_ Hz]]; [|by eapply Hold].
    destruct (Hin v Hv) as [Hv'|[-> Hd']]; [by eapply Hold|]. exists l, k. by rewrite Hpc, lookup_insert_eq.
Qed.

Lemma sems_inv_same y y' t l k :
  sems_inv y → placed prog y' → cur (p_s y) = Some t → pcs y !! t = Some l → pcs y' = <[t := k]> (pcs y) →
  sems y' = sems y → (mxs y', cvs y', asleep y') = (mxs y, cvs y, asleep y) →
  (∀ j, downs j k = downs j l ∧ ups j k = ups j l) → sems_inv y'.
Proof.
  intros [Hpl Hlen Hc Hq Hp Hno] Hpl' Ht Hl Hpc Hs [= Hm Hcv Ha] Hk.
  destruct (cur_not_parked prog y t Hpl Ht) as [Hnp _]. split; rewrite ?Hs; [done|done| |done| |by rewrite Hm, Hcv, Ha].
  - intros j z c Hz Hj. destruct (Hk j). rewrite (Hc j z c Hz Hj).
    pose proof (total_goto (ups j) y y' t l k Hl Hpc). pose proof (total_goto (downs j) y y' t l k Hl Hpc). lia.
  - intros j z v Hz Hv. rewrite Hpc, lookup_insert_ne; [by eapply Hp|]. intros <-. by eapply Hnp, parked_in_sem.
Qed.

Lemma sems_inv_step b y y' : counting → Forall (λ c, 0 <= c < 2 ^ 62) init → sems_inv y → small y → pstep prog b y y' → sems_inv y'.
Proof.
  intros Hcn Hinit Hy Hsm Hstep. pose proof (placed_step prog b y y' (sv_placed _ Hy) Hstep) as Hpl'. destruct b; cycle 1.
  { destruct (idle_step prog y y' (sv_placed _ Hy) Hstep) as (_ & Hpc & Hm & Hs & Hcv & _).
    destruct Hy as [Hpl Hlen Hc Hq Hp (Hn1 & Hn2 & Hn3)]. unfold total in *. split; rewrite ?Hs, ?Hm, ?Hcv; unfold total; rewrite ?Hpc; try done.
    split_and!; try done. inversion Hstep as [| |? a1 v a2 ? Ha| |]; subst; try done. rewrite Hn3 in Ha. by destruct a1. }
  inversion Hstep as [| | | |? t ? Ht He]; subst.
  destruct (pcs y !! t) as [l|] eqn:Hl; [|by unfold turn, mbind, M_bind, get in He; rewrite Hl in He].
  apply (turn_effect prog t l y y' Ht Hl) in He. pose proof (cn_only Hcn l) as Hok.
  assert (∀ i x, sems y !! i = Some x → (i < length init)%nat → - 2 ^ 62 < count x < 2 ^ 63 - 1) as Hrange.
  { intros i x Hx Hi. destruct (lookup_lt_is_Some_2 init i Hi) as [c Hc]. rewrite (sv_count _ Hy i x c Hx Hc).
    pose proof (proj1 (Forall_lookup _ _) Hinit i c Hc). simpl in *. specialize (Hsm i). unfold total in *. lia. }
  destruct (prog l) as [| |i k|i k| | | | |f|] eqn:Hp; try done.
  - inversion He as [| | |? ? x Hx Hc|? ? x Hx Hc| | | | | | | | |]; subst; specialize (Hrange i x Hx Hok); pose proof (sv_queue _ Hy i x Hx) as Hq;
      rewrite to_signed_id in Hc by lia; rewrite to_signed_id in * by lia;
      (eapply (sems_inv_call y _ t l k i x _ 1 0); [done|done|done|done|done|done|done|done|..];
        [by intros j; apply (cn_down Hcn l i k j)|intros j; case_decide; pose proof (cn_down Hcn l i k j Hp); lia|simpl; lia|..]).
    + simpl. lia.
    + intros v Hv. by left.
    + simpl. rewrite length_app. simpl. lia.
    + simpl. intros v [?|Hw%list_elem_of_singleton]%elem_of_app; [by left|by right].
  - inversion He as [| | | | |? ? x Hx Hc|? ? x v q Hx Hc Hqq| | | | | | |]; subst; specialize (Hrange i x Hx Hok); pose proof (sv_queue _ Hy i x Hx) as Hq;
      rewrite to_signed_id in Hc by lia; rewrite to_signed_id in * by lia;
      (eapply (sems_inv_call y _ t l k i x _ 0 1); [done|done|done|done|done|done|done|done|..];
        [intros j; case_decide; pose proof (cn_up Hcn l i k j Hp); lia|by intros j; apply (cn_up Hcn l i k j)|simpl; lia|..]).
    + simpl. destruct Hc as [?|Hc]; [lia|]. rewrite Hc in *. simpl in *. lia.
    + intros v Hv. by left.
    + rewrite Hqq in Hq. simpl in *. lia.
    + simpl. intros w Hw. left. rewrite Hqq. by right.
  - inversion He; subst. eapply (sems_inv_same y _ t l); try done. intros j. by apply (cn_act Hcn l f).
  - inversion He; subst. eapply (sems_inv_same y _ t l l); try done. simpl. by rewrite insert_id.
Qed.

Lemma sem_queue_nodup y i x : placed prog y → sems y !! i = Some x → NoDup (sem_queue x).
Proof.
  intros Hpl Hx. pose proof (so_nodup _ _ (pl_sched _ _ Hpl)) as Hnd. destruct (parked_sem y i x Hx) as (u & v & Hp & _).
  unfold places in Hnd. rewrite Hp in Hnd. do 3 apply NoDup_app in Hnd as (_ & _ & Hnd).
  by apply NoDup_app in Hnd as (? & _ & _).
Qed.

(** What the threads that are not parked have taken was there. *)
Lemma granted y i x c (f : Z → Loc → nat) : sems_inv y → sems y !! i = Some x → init !! i = Some c →
  (∀ t l, pcs y !! t = Some l → (f t l + (if decide (t ∈ sem_queue x) then 1 else 0) <= downs i l)%nat) →
  Z.of_nat (msum f (pcs y)) <= c + total (ups i) y.
Proof.
  intros Hy Hx Hc Hf. pose proof (sv_count _ Hy i x c Hx Hc) as Hcount. pose proof (sv_queue _ Hy i x Hx) as Hq.
  assert (msum (λ t l, f t l + (if decide (t ∈ sem_queue x) then 1 else 0)) (pcs y) <= msum (λ _, downs i) (pcs y))%nat as Hle
    by (by apply msum_le). rewrite msum_add, msum_members in Hle.
  - unfold total in *. lia.
  - eapply sem_queue_nodup; [apply Hy|done].
  - intros t Ht. destruct (sv_parked _ Hy i x t Hx Ht) as (_ & k & -> & _). by eexists.
Qed.

(** A thread is parked only on a semaphore with nothing left. *)
Lemma parked_empty y i x c t : sems_inv y → sems y !! i = Some x → init !! i = Some c → t ∈ sem_queue x →
  total (downs i) y = c + total (ups i) y + Z.of_nat (length (sem_queue x)).
Proof.
  intros Hy Hx Hc Ht. pose proof (sv_count _ Hy i x c Hx Hc). rewrite (sv_queue _ Hy i x Hx).
  pose proof (sv_queue _ Hy i x Hx). destruct (sem_queue x); [by apply not_elem_of_nil in Ht|]. simpl in *. lia.
Qed.

Lemma sem_turn_ok y t l : counting → sems_inv y → cur (p_s y) = Some t → pcs y !! t = Some l → ∃ y', turn prog t y = Ok (tt, y').
Proof.
  intros Hcn Hy Ht Hl. enough (∃ y', effect t y (prog l) y') as [y' He] by (exists y'; by apply (turn_effect prog t l)).
  pose proof (cn_only Hcn l) as Hok. destruct (prog l) as [| |i k|i k| | | | |f|]; try done.
  - destruct (lookup_lt_is_Some_2 (sems y) i) as [x Hx]; [by rewrite (sv_len _ Hy)|].
    destruct (decide (0 <= to_signed 64 (count x - 1))); eexists; [by eapply ef_down|eapply ef_down_wait; [done|lia]].
  - destruct (lookup_lt_is_Some_2 (sems y) i) as [x Hx]; [by rewrite (sv_len _ Hy)|].
    destruct (decide (0 < to_signed 64 (count x + 1))); [eexists; eapply ef_up; [done|by left]|].
    destruct (sem_queue x) as [|v q] eqn:Hq; eexists; [eapply ef_up; [done|by right]|eapply ef_up_wake; [done|lia|done]].
  - eexists. apply ef_act.
  - eexists. apply ef_exit.
Qed.

(** When nothing runs, a thread that has not ended waits for a semaphore. *)
Lemma stuck_parked y t l : sems_inv y → cur (p_s y) = None → ready_queue (p_s y) = [] → pcs y !! t = Some l → prog l ≠ Exit →
  ∃ i x, sems y !! i = Some x ∧ t ∈ sem_queue x.
Proof.
  intros Hy Hc Hr Hl Hne. pose proof (pl_live _ _ (sv_placed _ Hy) t l Hl Hne) as Hin. destruct (sv_none _ Hy) as (Hm & Hcv & Ha).
  unfold places, parked in Hin. rewrite Hc, Hr, Hm, Hcv, Ha in Hin. simpl in Hin. rewrite app_nil_r in Hin.
  apply list_elem_of_In, in_concat in Hin as (q & Hq & Ht). apply list_elem_of_In, list_elem_of_fmap in Hq as (x & -> & Hx).
  apply list_elem_of_lookup in Hx as [i Hi]. exists i, x. split; [done|]. by apply list_elem_of_In.
Qed.
End counting.

(** ** The program *)

Definition SEM_MUTEX : nat := 0.
Definition SEM_EMPTY : nat := 1.
Definition SEM_EXISTED : nat := 2.
Definition BUFFER_SIZE : nat := 8.
Definition PRODUCER_COUNT : nat := 4.
Definition NUMBER_PER_PRODUCER : nat := 100.

(** The static variables, and the numbers printed so far. *)
Record BMem := mkBMem { BUFFER : list Z; FRONT : Z; TAIL : Z; printed : list Z }.

(** The locations: who the thread is, the iteration and the next statement.  A
    thread whose index is out of range is at [Crash]. *)
Inductive role := Producer (id : Z) | Consumer.
Inductive bstage := Reserve | Acquire | Access | Advance | Release | Publish | Crash.
Record BLoc := mkBLoc { b_role : role; b_it : nat; b_st : bstage }.

Definition iterations (r : role) : nat :=
  match r with Producer _ => NUMBER_PER_PRODUCER | Consumer => PRODUCER_COUNT * NUMBER_PER_PRODUCER end.
Definition reserve_sem (r : role) : nat := match r with Producer _ => SEM_EMPTY | Consumer => SEM_EXISTED end.
Definition publish_sem (r : role) : nat := match r with Producer _ => SEM_EXISTED | Consumer => SEM_EMPTY end.

(** [BUFFER[FRONT] = id] and [print!("{} ", BUFFER[TAIL])]; [None] is an index out
    of range. *)
Definition access (r : role) (m : BMem) : option BMem :=
  match r with
  | Producer id =>
      if FRONT m <? Z.of_nat BUFFER_SIZE
      then Some (mkBMem (<[Z.to_nat (FRONT m) := id]> (BUFFER m)) (FRONT m) (TAIL m) (printed m)) else None
  | Consumer => v ← BUFFER m !! Z.to_nat (TAIL m); Some (mkBMem (BUFFER m) (FRONT m) (TAIL m) (printed m ++ [v]))
  end.
Definition advance (r : role) (m : BMem) : BMem :=
  match r with
  | Producer _ => mkBMem (BUFFER m) (wrap64 (FRONT m + 1) mod Z.of_nat BUFFER_SIZE) (TAIL m) (printed m)
  | Consumer => mkBMem (BUFFER m) (FRONT m) (wrap64 (TAIL m + 1) mod Z.of_nat BUFFER_SIZE) (printed m)
  end.

(** The thread functions [producer] and [consumer]; the empty line that the
    consumer prints before it exits is left out. *)
Definition worker (l : BLoc) : instr BMem BLoc :=
  let go s := mkBLoc (b_role l) (b_it l) s in
  if (b_it l <? iterations (b_role l))%nat then
    match b_st l with
    | Reserve => Down (reserve_sem (b_role l)) (go Acquire)
    | Acquire => Down SEM_MUTEX (go Access)
    | Access => Act (λ _ m, match access (b_role l) m with Some m' => (m', go Advance) | None => (m, go Crash) end)
    | Advance => Act (λ _ m, (advance (b_role l) m, go Release))
    | Release => Up SEM_MUTEX (go Publish)
    | Publish => Up (publish_sem (b_role l)) (mkBLoc (b_role l) (S (b_it l)) Reserve)
    | Crash => Exit
    end
  else Exit.

Definition sem_init : list Z := [1; Z.of_nat BUFFER_SIZE; 0].

(** The statements of an iteration behind a thread. *)
Definition rank (s : bstage) : nat :=
  match s with Reserve => 0 | Acquire => 1 | Access | Crash => 2 | Advance => 3 | Release => 4 | Publish => 5 end.
Definition past (n : nat) (l : BLoc) : nat := (b_it l + if decide (n <= rank (b_st l))%nat then 1 else 0)%nat.

Definition b_downs (i : nat) (l : BLoc) : nat :=
  if decide (i = SEM_MUTEX) then past 2 l else if decide (i = reserve_sem (b_role l)) then past 1 l else 0%nat.
Definition b_ups (i : nat) (l : BLoc) : nat :=
  if decide (i = SEM_MUTEX) then past 5 l else if decide (i = publish_sem (b_role l)) then b_it l else 0%nat.

Lemma worker_counting : counting worker b_downs b_ups sem_init.
Proof.
  assert (∀ r, reserve_sem r ≠ SEM_MUTEX ∧ publish_sem r ≠ SEM_MUTEX ∧ (reserve_sem r < 3)%nat ∧ (publish_sem r < 3)%nat) as Hr
    by (intros []; unfold SEM_MUTEX; simpl; unfold SEM_EMPTY, SEM_EXISTED; lia).
  split; intros [r it st]; unfold worker, b_downs, b_ups, past; cbn [b_role b_it b_st]; destruct (Hr r) as (H1 & H2 & H3 & H4);
    destruct (it <? _)%nat; try done.
  - intros i k j Hp. destruct st; try done; injection Hp as <- <-; cbn [b_role b_it b_st rank]; repeat case_decide; subst; try done; lia.
  - intros i k j Hp. destruct st; try done; injection Hp as <- <-; cbn [b_role b_it b_st rank]; repeat case_decide; subst; try done; lia.
  - intros f n m j Hp. destruct st; try done; injection Hp as <-; [destruct (access r m)|]; cbn [snd b_role b_it b_st rank];
      repeat case_decide; try done; lia.
  - destruct st; try done; simpl; unfold SEM_MUTEX; lia.
Qed.

Abbreviation BSys := (PSys BMem BLoc).
Abbreviation SInv := (sems_inv worker b_downs b_ups sem_init).

(** ** The invariant *)

Definition is_producer (r : role) : bool := match r with Producer _ => true | Consumer => false end.

(** The iterations in which the producers, or the consumers, have passed the
    statement [n]; the numbers stored for [id]. *)
Definition made (b : bool) (n : nat) (l : BLoc) : nat := if eqb (is_producer (b_role l)) b then past n l else 0%nat.
Definition sum_made (b : bool) (n : nat) (y : BSys) : nat := msum (λ _, made b n) (pcs y).
Definition stored_by (id : Z) (l : BLoc) : nat := match b_role l with Producer p => if decide (p = id) then past 3 l else 0 | Consumer => 0 end%nat.
Definition occurs (x : Z) (l : list Z) : nat := length (filter (λ v, v = x) l).

(** The places of the buffer from number [k] up to number [s]. *)
Definition in_flight (m : BMem) (k s : nat) : list Z := (λ n, BUFFER m !!! (n mod BUFFER_SIZE)%nat) <$> seq k (s - k).

Definition wf_loc (l : BLoc) : Prop :=
  (b_it l < iterations (b_role l))%nat ∧ b_st l ≠ Crash ∨ b_it l = iterations (b_role l) ∧ b_st l = Reserve.

Record mem_inv (m : BMem) (S F K T : nat) (by_id : Z → nat) : Prop := {
  mi_buffer : length (BUFFER m) = BUFFER_SIZE;
  mi_front : FRONT m = Z.of_nat (F mod BUFFER_SIZE);
  mi_tail : TAIL m = Z.of_nat (T mod BUFFER_SIZE);
  mi_printed : length (printed m) = K;
  mi_le : (K <= S <= K + BUFFER_SIZE)%nat;
  mi_occurs : ∀ id, (occurs id (printed m) + occurs id (in_flight m K S))%nat = by_id id
}.

(** Four producers and a consumer, and the numbers they have to go through. *)
Definition team : list role := (Producer ∘ Z.of_nat <$> seq 0 PRODUCER_COUNT) ++ [Consumer].
Definition cap (b : bool) (r : role) : nat := if eqb (is_producer r) b then iterations r else 0%nat.
Definition one (id : Z) (r : role) : nat := match r with Producer p => if decide (p = id) then 1 else 0 | Consumer => 0 end%nat.

Record manned (y : BSys) : Prop := {
  mn_size : size (pcs y) = length team;
  mn_cap : ∀ b, msum (λ _, cap b ∘ b_role) (pcs y) = (PRODUCER_COUNT * NUMBER_PER_PRODUCER)%nat;
  mn_ids : ∀ id, 0 <= id < Z.of_nat PRODUCER_COUNT → msum (λ _, one id ∘ b_role) (pcs y) = 1%nat
}.

Record buf_inv (y : BSys) : Prop := {
  bu_sem : SInv y;
  bu_manned : manned y;
  bu_wf : ∀ t l, pcs y !! t = Some l → wf_loc l;
  bu_mem : mem_inv (mem y) (sum_made true 3 y) (sum_made true 4 y) (sum_made false 3 y) (sum_made false 4 y)
    (λ id, msum (λ _, stored_by id) (pcs y))
}.

#[local] Arguments Nat.modulo : simpl never.

(** ** The memory *)

Lemma occurs_app x l l' : occurs x (l ++ l') = (occurs x l + occurs x l')%nat.
Proof. unfold occurs. by rewrite filter_app, length_app. Qed.

Lemma occurs_one x v : occurs x [v] = (if decide (v = x) then 1 else 0)%nat.
Proof. unfold occurs. rewrite filter_cons, filter_nil. by case_decide. Qed.

Lemma advance_index n : wrap64 (Z.of_nat (n mod BUFFER_SIZE) + 1) mod Z.of_nat BUFFER_SIZE = Z.of_nat (S n mod BUFFER_SIZE).
Proof.
  pose proof (Nat.mod_upper_bound n 8 ltac:(lia)). unfold BUFFER_SIZE in *. rewrite wrap_small by lia.
  rewrite !Nat2Z.inj_mod, Nat2Z.inj_succ. change (Z.of_nat 8) with 8. rewrite Z.add_mod_idemp_l by lia. f_equal. lia.
Qed.

Lemma store_inv m S K T id by_id m' : mem_inv m S S K T by_id → (S < K + BUFFER_SIZE)%nat → access (Producer id) m = Some m' →
  mem_inv m' (Datatypes.S S) S K T (λ p, by_id p + if decide (id = p) then 1 else 0)%nat.
Proof.
  intros [Hb Hf Ht Hp Hle Ho] Hlt Ha. unfold access in Ha. destruct (_ <? _); [|done]. injection Ha as <-.
  split; cbn [BUFFER FRONT TAIL printed]; try done; [by rewrite length_insert|lia|]. intros p. rewrite <- (Ho p).
  unfold in_flight. cbn [BUFFER]. replace (Datatypes.S S - K)%nat with ((S - K) + 1)%nat by lia. rewrite seq_app, fmap_app, occurs_app.
  replace (K + (S - K))%nat with S by lia. simpl. rewrite Hf, Nat2Z.id.
  rewrite list_lookup_total_insert_eq by (rewrite Hb; apply Nat.mod_upper_bound; unfold BUFFER_SIZE; lia).
  replace (_ <$> seq K (S - K)) with ((λ n, BUFFER m !!! (n mod BUFFER_SIZE)%nat) <$> seq K (S - K)).
  - rewrite occurs_one. lia.
  - apply list_fmap_ext. intros i n Hn. apply lookup_seq in Hn as [-> Hn].
    rewrite list_lookup_total_insert_ne; [done|]. unfold BUFFER_SIZE in *.
    pose proof (Nat.div_mod S 8 ltac:(lia)). pose proof (Nat.div_mod (K + i) 8 ltac:(lia)). intros E. rewrite <- E in *. lia.
Qed.

Lemma take_inv m S F K by_id m' : mem_inv m S F K K by_id → (K < S)%nat → access Consumer m = Some m' →
  mem_inv m' S F (Datatypes.S K) K by_id.
Proof.
  intros [Hb Hf Ht Hp Hle Ho] Hlt Ha. unfold access in Ha. destruct (BUFFER m !! _) as [v|] eqn:Hv; [|done]. injection Ha as <-.
  split; cbn [BUFFER FRONT TAIL printed]; try done; [rewrite length_app; simpl; lia|lia|]. intros p. rewrite <- (Ho p), occurs_app.
  unfold in_flight. cbn [BUFFER]. replace (S - K)%nat with (1 + (S - Datatypes.S K))%nat by lia. rewrite seq_app, fmap_app, occurs_app.
  rewrite Ht, Nat2Z.id in Hv. simpl. rewrite (list_lookup_total_correct _ _ _ Hv). replace (K + 1)%nat with (Datatypes.S K) by lia. lia.
Qed.

Lemma advance_inv r m S F K T by_id : mem_inv m S F K T by_id →
  mem_inv (advance r m) S (if is_producer r then Datatypes.S F else F) K (if is_producer r then T else Datatypes.S T) by_id.
Proof.
  intros [Hb Hf Ht Hp Hle Ho]. destruct r; split; cbn [advance BUFFER FRONT TAIL printed is_producer]; try done.
  - by rewrite Hf, advance_index.
  - by rewrite Ht, advance_index.
Qed.

Lemma access_some r m S F K T by_id : mem_inv m S F K T by_id → is_Some (access r m).
Proof.
  intros [Hb Hf Ht _ _ _]. pose proof (Nat.mod_upper_bound F 8 ltac:(lia)). pose proof (Nat.mod_upper_bound T 8 ltac:(lia)).
  unfold access, BUFFER_SIZE in *. destruct r.
  - destruct (Z.ltb_spec (FRONT m) (Z.of_nat 8)); [by eexists|lia].
  - destruct (lookup_lt_is_Some_2 (BUFFER m) (Z.to_nat (TAIL m))) as [v ->]; [lia|]. by eexists.
Qed.

(** ** The steps of a thread *)

Lemma worker_effect t y l y' : pcs y !! t = Some l → wf_loc l → is_Some (access (b_role l) (mem y)) → effect t y (worker l) y' →
  ∃ k, pcs y' = <[t := k]> (pcs y) ∧ b_role k = b_role l ∧ wf_loc k ∧
  ((mem y' = mem y ∧ past 3 k = past 3 l ∧ past 4 k = past 4 l) ∨
   (b_st l = Access ∧ access (b_role l) (mem y) = Some (mem y') ∧ past 3 k = S (past 3 l) ∧ past 4 k = past 4 l) ∨
   (b_st l = Advance ∧ mem y' = advance (b_role l) (mem y) ∧ past 3 k = past 3 l ∧ past 4 k = S (past 4 l))).
Proof.
  intros Hl Hwf [m' Hm'] He. destruct (effect_shape _ _ _ _ He) as [_ Hs]. clear He.
  destruct l as [r it st]. unfold worker, wf_loc in *. cbn [b_role b_it b_st] in *.
  destruct (Nat.ltb_spec it (iterations r)) as [Hlt|Hge].
  - destruct st; [| | | | | |by destruct Hwf as [[_ ?]|[? _]]; [|lia]]; destruct Hs as [Hp Hm]; rewrite ?Hm' in *;
      (eexists; split; [exact Hp|]; split; [done|]); cbn [snd fst b_role b_it b_st] in *; unfold past; cbn [b_it b_st rank].
    1,2,5: split; [by left|left; split; [done|]; repeat case_decide; lia].
    + split; [by left|]. right; left. rewrite Hm. split_and!; try done; repeat case_decide; lia.
    + split; [by left|]. right; right. split_and!; try done; repeat case_decide; lia.
    + split; [destruct (decide (S it = iterations r)); [by right|left; split; [lia|done]]|]. left. split; [done|]. repeat case_decide; lia.
  - destruct Hs as [Hp Hm]. exists (mkBLoc r it st). split; [by rewrite Hp, insert_id|]. split; [done|]. split; [done|]. by left.
Qed.

(** A thread parked on a semaphore is behind the call. *)
Lemma parked_at y i x t l : SInv y → sems y !! i = Some x → t ∈ sem_queue x → pcs y !! t = Some l →
  (b_it l < iterations (b_role l))%nat ∧
  (i = SEM_MUTEX ∧ b_st l = Access ∨ i = reserve_sem (b_role l) ∧ b_st l = Acquire).
Proof.
  intros Hy Hx Ht Hl. destruct (sv_parked _ _ _ _ _ Hy i x t Hx Ht) as ([r it st] & k & Hk & Hp). simplify_eq.
  unfold worker in Hp. cbn [b_role b_it b_st] in Hp. destruct (Nat.ltb_spec it (iterations r)); [|done].
  destruct st; try done; injection Hp as <- <-; auto.
Qed.

(** Between the two calls on [SEM_MUTEX] there is one thread. *)
Lemma exclusive y t u l l' : SInv y → cur (p_s y) = Some t → pcs y !! t = Some l → (2 <= rank (b_st l) <= 4)%nat →
  pcs y !! u = Some l' → (3 <= rank (b_st l') <= 4)%nat → u = t.
Proof.
  intros Hy Ht Hl Hr Hu Hr'. destruct (decide (u = t)) as [|Hne]; [done|exfalso].
  destruct (lookup_lt_is_Some_2 (sems y) SEM_MUTEX) as [x Hx]; [rewrite (sv_len _ _ _ _ _ Hy); unfold SEM_MUTEX; simpl; lia|].
  destruct (cur_not_parked worker y t (sv_placed _ _ _ _ _ Hy) Ht) as [Hnp _].
  pose proof (granted _ _ _ _ y SEM_MUTEX x 1 (λ v lv, past 5 lv + if decide (v ∈ [t; u]) then 1 else 0)%nat Hy Hx eq_refl) as Hg.
  rewrite msum_add, msum_members in Hg.
  - simpl in Hg. unfold total, b_ups in Hg. simpl in Hg. lapply Hg; [lia|]. clear Hg.
    intros v lv Hv. unfold b_downs, past. simpl. destruct (decide (v ∈ [t; u])) as [Hin|_]; [|destruct (decide (v ∈ sem_queue x)) as [Hq|_]].
    + assert (v ∉ sem_queue x ∧ (2 <= rank (b_st lv) <= 4)%nat) as [Hq Hrk].
      { apply elem_of_cons in Hin as [->|Hin%list_elem_of_singleton]; simplify_eq.
        - split; [|done]. intros Hq. by eapply Hnp, parked_in_sem.
        - split; [|lia]. intros Hq. destruct (parked_at y _ x _ _ Hy Hx Hq Hu) as [_ [[_ E]|[_ E]]]; rewrite E in Hr'; simpl in Hr'; lia. }
      rewrite (decide_False _ _ Hq). repeat case_decide; lia.
    + destruct (parked_at y _ x v lv Hy Hx Hq Hv) as [_ [[_ ->]|[E _]]]; [simpl; lia|by destruct (b_role lv)].
    + repeat case_decide; lia.
  - repeat constructor; set_solver.
  - intros v [->|Hv%list_elem_of_singleton]%elem_of_cons; [by eexists|]. subst v. by eexists.
Qed.

(** At the access nobody has an access to complete. *)
Lemma all_advanced y t l b : SInv y → cur (p_s y) = Some t → pcs y !! t = Some l → b_st l = Access →
  sum_made b 4 y = sum_made b 3 y.
Proof.
  intros Hy Ht Hl Hst. apply msum_ext. intros u lu Hu. unfold made. destruct (eqb _ _); [|done]. unfold past.
  enough (rank (b_st lu) ≠ 3)%nat by (repeat case_decide; lia). intros Hr.
  assert (u = t) as -> by (eapply (exclusive y t u l lu); try done; [rewrite Hst; simpl; lia|lia]). simplify_eq. by rewrite Hst in Hr.
Qed.

(** Each side waits for the semaphore the other side puts in. *)
Lemma sides r r' : (reserve_sem r = reserve_sem r' ↔ is_producer r' = is_producer r) ∧ reserve_sem r ≠ SEM_MUTEX ∧
  (reserve_sem r = publish_sem r' ↔ is_producer r' = negb (is_producer r)).
Proof. by destruct r, r'. Qed.

(** At the access there is a place to fill, or a number to take. *)
Lemma room y t l c : SInv y → (∀ u lu, pcs y !! u = Some lu → wf_loc lu) → cur (p_s y) = Some t → pcs y !! t = Some l →
  (b_it l < iterations (b_role l))%nat → b_st l = Access → sem_init !! reserve_sem (b_role l) = Some c →
  Z.of_nat (sum_made (is_producer (b_role l)) 3 y) + 1 <= c + Z.of_nat (sum_made (negb (is_producer (b_role l))) 3 y).
Proof.
  intros Hy Hwf Ht Hl Hit Hst Hc. set (i := reserve_sem (b_role l)) in *. set (b := is_producer (b_role l)) in *.
  destruct (lookup_lt_is_Some_2 (sems y) i) as [x Hx]; [rewrite (sv_len _ _ _ _ _ Hy); by apply lookup_lt_is_Some_1; eexists|].
  destruct (cur_not_parked worker y t (sv_placed _ _ _ _ _ Hy) Ht) as [Hnp _].
  pose proof (sides (b_role l)) as Hi. fold i b in Hi.
  pose proof (granted _ _ _ _ y i x c (λ v lv, made b 3 lv + if decide (v ∈ [t]) then 1 else 0)%nat Hy Hx Hc) as Hg.
  rewrite msum_add, msum_members in Hg.
  - lapply Hg; clear Hg.
    + intros Hg. change (msum _ (pcs y)) with (sum_made b 3 y) in Hg. simpl in Hg.
      enough (total (b_ups i) y <= Z.of_nat (sum_made (negb b) 3 y)) by lia.
      apply inj_le, msum_le. intros v lv _. unfold b_ups, made. destruct (Hi (b_role lv)) as (_ & Hm & Hp).
      rewrite decide_False by done. case_decide as E; [|lia]. rewrite (proj1 Hp E), eqb_reflx. unfold past. lia.
    + intros v lv Hv. unfold b_downs, made. destruct (Hi (b_role lv)) as (Hr & Hm & _). rewrite (decide_False _ _ Hm).
      destruct (decide (v ∈ [t])) as [Hin|_]; [|destruct (decide (v ∈ sem_queue x)) as [Hq|_]].
      * apply list_elem_of_singleton in Hin. simplify_eq. rewrite decide_False by (intros Hq; by eapply Hnp, parked_in_sem).
        unfold i, b. rewrite (decide_True _ _ eq_refl), eqb_reflx. unfold past. rewrite Hst. simpl. lia.
      * destruct (parked_at y i x v lv Hy Hx Hq Hv) as [_ [[E _]|[E Hac]]]; [done|]. rewrite (decide_True _ _ E).
        rewrite (proj1 Hr E), eqb_reflx. unfold past. rewrite Hac. simpl. lia.
      * destruct (decide (i = reserve_sem (b_role lv))) as [E|E].
        -- rewrite (proj1 Hr E), eqb_reflx. unfold past. repeat case_decide; lia.
        -- destruct (eqb _ b) eqn:Eb; [|lia]. apply eqb_prop in Eb. by destruct E; apply Hr.
  - repeat constructor; set_solver.
  - intros v Hv%list_elem_of_singleton. subst v. by eexists.
Qed.

Lemma sum_made_step y y' t l k b n : pcs y !! t = Some l → pcs y' = <[t := k]> (pcs y) → b_role k = b_role l →
  (sum_made b n y' + (if eqb (is_producer (b_role l)) b then past n l else 0) =
   sum_made b n y + (if eqb (is_producer (b_role l)) b then past n k else 0))%nat.
Proof.
  intros Hl Hp Hk. unfold sum_made. rewrite Hp. pose proof (msum_update (λ _, made b n) (pcs y) t l k Hl) as Hu.
  unfold made in Hu at 2 4. by rewrite Hk in Hu.
Qed.

Lemma mem_inv_cast m S F K T f S' F' K' T' g : mem_inv m S F K T f →
  S' = S → F' = F → K' = K → T' = T → (∀ id, g id = f id) → mem_inv m S' F' K' T' g.
Proof. intros [H1 H2 H3 H4 H5 H6] -> -> -> -> H. split; try done. intros id. by rewrite H. Qed.

Lemma stored_by_step (y y' : BSys) t l k id : pcs y !! t = Some l → pcs y' = <[t := k]> (pcs y) → b_role k = b_role l →
  (msum (λ _, stored_by id) (pcs y') + (match b_role l with Producer p => if decide (p = id) then past 3 l else 0 | Consumer => 0 end) =
   msum (λ _, stored_by id) (pcs y) + (match b_role l with Producer p => if decide (p = id) then past 3 k else 0 | Consumer => 0 end))%nat.
Proof.
  intros Hl Hp Hk. rewrite Hp. pose proof (msum_update (λ _, stored_by id) (pcs y) t l k Hl) as Hu.
  cbv beta in Hu. change (stored_by id k) with (match b_role k with Producer p => if decide (p = id) then past 3 k else 0 | Consumer => 0 end)%nat in Hu.
  by rewrite Hk in Hu.
Qed.

(** What the memory and the counts become at a step of [t]. *)
Lemma mem_inv_step y y' t l k : buf_inv y → cur (p_s y) = Some t → pcs y !! t = Some l → pcs y' = <[t := k]> (pcs y) →
  b_role k = b_role l →
  ((mem y' = mem y ∧ past 3 k = past 3 l ∧ past 4 k = past 4 l) ∨
   (b_st l = Access ∧ access (b_role l) (mem y) = Some (mem y') ∧ past 3 k = S (past 3 l) ∧ past 4 k = past 4 l) ∨
   (b_st l = Advance ∧ mem y' = advance (b_role l) (mem y) ∧ past 3 k = past 3 l ∧ past 4 k = S (past 4 l))) →
  mem_inv (mem y') (sum_made true 3 y') (sum_made true 4 y') (sum_made false 3 y') (sum_made false 4 y')
    (λ id, msum (λ _, stored_by id) (pcs y')).
Proof.
  intros [Hy _ Hwf Hm] Ht Hl Hp Hk Hcase. pose proof (λ b n, sum_made_step y y' t l k b n Hl Hp Hk) as Hs.
  pose proof (λ id, stored_by_step y y' t l k id Hl Hp Hk) as Hid.
  pose proof (Hs true 3%nat) as S3. pose proof (Hs true 4%nat) as S4. pose proof (Hs false 3%nat) as K3. pose proof (Hs false 4%nat) as K4.
  clear Hs. destruct Hcase as [(-> & E3 & E4)|[(Hst & Ha & E3 & E4)|(Hst & -> & E3 & E4)]];
    rewrite E3 in S3, K3; rewrite E4 in S4, K4.
  - eapply (mem_inv_cast _ _ _ _ _ _ _ _ _ _ _ Hm); [lia..|]. intros id. specialize (Hid id). rewrite E3 in Hid. cbv beta. lia.
  - assert (b_it l < iterations (b_role l))%nat as Hit by (destruct (Hwf t l Hl) as [[? _]|[_ E]]; [done|by rewrite Hst in E]).
    pose proof (λ c, room y t l c Hy Hwf Ht Hl Hit Hst) as Hroom. pose proof (λ b, all_advanced y t l b Hy Ht Hl Hst) as Hadv.
    destruct (b_role l) as [id|] eqn:Hr; specialize (Hroom _ eq_refl); simpl in S3, S4, K3, K4, Hroom.
    + pose proof (Hadv true) as Ht4. rewrite Ht4 in Hm.
      assert (sum_made true 3 y < sum_made false 3 y + BUFFER_SIZE)%nat as Hlt by lia.
      pose proof (store_inv _ _ _ _ id _ _ Hm Hlt Ha) as Hm'.
      eapply (mem_inv_cast _ _ _ _ _ _ _ _ _ _ _ Hm'); [lia..|]. intros p. specialize (Hid p). simpl in Hid. rewrite ?E3 in Hid. cbv beta. case_decide; lia.
    + pose proof (Hadv false) as Ht4. rewrite Ht4 in Hm.
      assert (sum_made false 3 y < sum_made true 3 y)%nat as Hlt by lia. pose proof (take_inv _ _ _ _ _ _ Hm Hlt Ha) as Hm'.
      eapply (mem_inv_cast _ _ _ _ _ _ _ _ _ _ _ Hm'); [lia..|]. intros p. specialize (Hid p). simpl in Hid. rewrite ?E3 in Hid. cbv beta. lia.
  - eapply (mem_inv_cast _ _ _ _ _ _ _ _ _ _ _ (advance_inv (b_role l) _ _ _ _ _ _ Hm));
      [destruct (b_role l); simpl in *; lia..|]. intros id. specialize (Hid id). rewrite E3 in Hid. cbv beta. lia.
Qed.

Lemma manned_step (y y' : BSys) t l k : manned y → pcs y !! t = Some l → pcs y' = <[t := k]> (pcs y) → b_role k = b_role l → manned y'.
Proof.
  intros [Hs Hc Hi] Hl Hp Hk. assert (∀ f : role → nat, msum (λ _, f ∘ b_role) (pcs y') = msum (λ _, f ∘ b_role) (pcs y)) as E.
  { intros f. rewrite Hp. pose proof (msum_update (λ _, f ∘ b_role) (pcs y) t l k Hl) as Hu. cbn in Hu. rewrite Hk in Hu. lia. }
  split; [by rewrite Hp, map_size_insert_Some|..]; intros; rewrite E; auto.
Qed.

Lemma wf_small l n : wf_loc l → (past n l <= 401)%nat ∧ (b_it l <= 400)%nat.
Proof.
  intros Hw. assert (b_it l <= 400)%nat; [|unfold past; case_decide; lia].
  assert (iterations (b_role l) <= 400)%nat by (destruct (b_role l); vm_compute; lia). destruct Hw as [[? _]|[? _]]; lia.
Qed.

Lemma buf_small y : buf_inv y → small b_downs b_ups y.
Proof.
  intros Hy i. destruct (bu_manned _ Hy) as [Hs _ _].
  assert (∀ f, (∀ l, wf_loc l → f l <= 401)%nat → total f y < 2 ^ 62) as H.
  { intros f Hf. unfold total. enough (msum (λ _, f) (pcs y) <= 401 * size (pcs y))%nat as Hle by (rewrite Hs in Hle; unfold team in Hle; simpl in Hle; lia).
    apply msum_bound. intros t l Hl. by eapply Hf, bu_wf. }
  split; apply H; intros l Hl; unfold b_ups, b_downs; destruct (wf_small l 2 Hl), (wf_small l 5 Hl), (wf_small l 1 Hl); repeat case_decide; lia.
Qed.

Lemma buf_inv_step b y y' : buf_inv y → pstep worker b y y' → buf_inv y'.
Proof.
  intros Hy Hstep.
  assert (SInv y') as Hy'.
  { eapply sems_inv_step; [exact worker_counting| |by apply bu_sem|by apply buf_small|done].
    repeat constructor; unfold BUFFER_SIZE; lia. }
  destruct b.
  - inversion Hstep as [| | | |? t ? Ht He]; subst.
    destruct (pcs y !! t) as [l|] eqn:Hl; [|by unfold turn, mbind, M_bind, get in He; rewrite Hl in He].
    apply (turn_effect worker t l y y' Ht Hl) in He.
    destruct (worker_effect t y l y' Hl (bu_wf _ Hy t l Hl) (access_some _ _ _ _ _ _ _ (bu_mem _ Hy)) He) as (k & Hp & Hk & Hwk & Hcase).
    split; [done|eapply manned_step; [apply Hy|done..]| |by eapply mem_inv_step].
    intros u lu Hu. rewrite Hp in Hu. apply lookup_insert_Some in Hu as [[_ <-]|[_ Hu]]; [done|by eapply bu_wf].
  - destruct (idle_step worker y y' (sv_placed _ _ _ _ _ (bu_sem _ Hy)) Hstep) as (_ & Hp & _ & _ & _ & Hm & _).
    destruct Hy as [_ [H1 H2 H3] Hwf Hmem]. unfold sum_made in *. split; [done|split; by rewrite Hp|by rewrite Hp|].
    unfold sum_made. by rewrite Hm, Hp.
Qed.

(** ** Progress *)

(** Where the threads are when nothing runs. *)
Lemma at_rest y t l : buf_inv y → cur (p_s y) = None → ready_queue (p_s y) = [] → pcs y !! t = Some l →
  (b_it l = iterations (b_role l) ∧ b_st l = Reserve) ∨
  (b_it l < iterations (b_role l))%nat ∧ ∃ x, sems y !! reserve_sem (b_role l) = Some x ∧ t ∈ sem_queue x ∧ b_st l = Acquire.
Proof.
  intros Hb Hc Hr. pose proof (bu_sem _ Hb) as Hy.
  assert (∀ u lu, pcs y !! u = Some lu → (b_it lu = iterations (b_role lu) ∧ b_st lu = Reserve) ∨
    ∃ i x, sems y !! i = Some x ∧ u ∈ sem_queue x) as Hp.
  { intros u lu Hu. destruct (bu_wf _ Hb u lu Hu) as [[Hit Hst]|?]; [right|by left]. eapply stuck_parked; try done.
    unfold worker. rewrite (proj2 (Nat.ltb_lt _ _) Hit). by destruct (b_st lu). }
  assert (∀ x u, sems y !! SEM_MUTEX = Some x → u ∉ sem_queue x) as Hno.
  { intros x u Hx Hu. pose proof (parked_empty _ _ _ _ y SEM_MUTEX x 1 u Hy Hx eq_refl Hu) as E.
    assert (msum (λ _, b_downs SEM_MUTEX) (pcs y) <=
      msum (λ v lv, b_ups SEM_MUTEX lv + if decide (v ∈ sem_queue x) then 1 else 0) (pcs y))%nat as Hle.
    { apply msum_le. intros v lv Hv. unfold b_downs, b_ups, past. simpl. destruct (Hp v lv Hv) as [[_ ->]|(i & z & Hz & Hin)]; [simpl; lia|].
      destruct (parked_at y i z v lv Hy Hz Hin Hv) as [_ [[-> ->]|[_ ->]]]; [|simpl; lia]. simplify_eq. rewrite (decide_True _ _ Hin). simpl. lia. }
    rewrite msum_add, msum_members in Hle; [change (msum (λ _ lv, b_ups SEM_MUTEX lv) (pcs y)) with (msum (λ _, b_ups SEM_MUTEX) (pcs y)) in Hle; unfold total in E; lia|eapply sem_queue_nodup; [apply Hy|done]|].
    intros v Hv. destruct (sv_parked _ _ _ _ _ Hy _ x v Hx Hv) as (_ & k & -> & _). by eexists. }
  intros Hl. destruct (Hp t l Hl) as [?|(i & x & Hx & Hin)]; [by left|]. right.
  destruct (parked_at y i x t l Hy Hx Hin Hl) as [Hit [[-> _]|[-> Hst]]]; [by destruct (Hno x t Hx)|]. eauto 10.
Qed.

(** A side with a thread at rest before the end has as many numbers through as
    the other side allows. *)
Lemma side_full y t l c : buf_inv y → cur (p_s y) = None → ready_queue (p_s y) = [] → pcs y !! t = Some l →
  (b_it l < iterations (b_role l))%nat → sem_init !! reserve_sem (b_role l) = Some c →
  Z.of_nat (sum_made (is_producer (b_role l)) 3 y) = c + Z.of_nat (sum_made (negb (is_producer (b_role l))) 3 y).
Proof.
  intros Hb Hc Hr Hl Hit Hi. pose proof (bu_sem _ Hb) as Hy. pose proof (λ u lu, at_rest y u lu Hb Hc Hr) as Hrest.
  destruct (Hrest t l Hl) as [[? _]|(_ & x & Hx & Hin & _)]; [lia|].
  set (i := reserve_sem (b_role l)) in *. set (b := is_producer (b_role l)) in *.
  pose proof (sides (b_role l)) as Hi'. fold i b in Hi'.
  pose proof (parked_empty _ _ _ _ y i x c t Hy Hx Hi Hin) as E. unfold total in E.
  assert (msum (λ _, b_ups i) (pcs y) = sum_made (negb b) 3 y) as E1.
  { apply msum_ext. intros u lu Hu. unfold b_ups, made. destruct (Hi' (b_role lu)) as (_ & Hm & Hp). rewrite (decide_False _ _ Hm).
    assert (past 3 lu = b_it lu) as -> by (unfold past; destruct (Hrest u lu Hu) as [[_ ->]|(_ & _ & _ & _ & ->)]; simpl; lia).
    case_decide as D; [by rewrite (proj1 Hp D), eqb_reflx|]. destruct (eqb _ _) eqn:Eb; [|done]. apply eqb_prop in Eb. by destruct D; apply Hp. }
  assert (msum (λ _, b_downs i) (pcs y) = sum_made b 3 y + length (sem_queue x))%nat as E2; [|lia].
  rewrite <- (msum_members (sem_queue x) (pcs y)); [|eapply sem_queue_nodup; [apply Hy|done]|].
  - unfold sum_made. rewrite <- msum_add. apply msum_ext. intros u lu Hu. unfold b_downs, made.
    destruct (Hi' (b_role lu)) as (Hd & Hm & _). rewrite (decide_False _ _ Hm). unfold past.
    destruct (Hrest u lu Hu) as [[Hend ->]|(Hbe & z & Hz & Hu' & ->)]; simpl.
    + rewrite (decide_False (P := u ∈ _)); [|intros Hq; destruct (parked_at y i x u lu Hy Hx Hq Hu); lia].
      case_decide as D; [rewrite (proj1 Hd D), eqb_reflx; lia|]. destruct (eqb _ _) eqn:Eb; [|lia]. apply eqb_prop in Eb. by destruct D; apply Hd.
    + case_decide as D.
      * rewrite <- D in Hz. simplify_eq. rewrite (decide_True _ _ Hu'), (proj1 Hd D), eqb_reflx. lia.
      * rewrite (decide_False (P := u ∈ _)); [|by intros Hq; destruct (parked_at y i x u lu Hy Hx Hq Hu) as [_ [[? _]|[? _]]]].
        destruct (eqb _ _) eqn:Eb; [|lia]. apply eqb_prop in Eb. by destruct D; apply Hd.
  - intros u Hu. destruct (sv_parked _ _ _ _ _ Hy i x u Hx Hu) as (_ & k & -> & _). by eexists.
Qed.

Lemma not_ended y t l : buf_inv y → pcs y !! t = Some l → worker l ≠ Exit → (b_it l < iterations (b_role l))%nat.
Proof.
  intros Hb Hl Hne. destruct (bu_wf _ Hb t l Hl) as [[? _]|[Hit _]]; [done|]. destruct Hne. unfold worker.
  by rewrite (proj2 (Nat.ltb_ge _ _)) by lia.
Qed.

(** What the two sides have been through, at rest. *)
Lemma rest_sum y b : buf_inv y → cur (p_s y) = None → ready_queue (p_s y) = [] →
  (sum_made b 3 y < PRODUCER_COUNT * NUMBER_PER_PRODUCER)%nat ∧
    (∃ t l, pcs y !! t = Some l ∧ is_producer (b_role l) = b ∧ (b_it l < iterations (b_role l))%nat) ∨
  sum_made b 3 y = (PRODUCER_COUNT * NUMBER_PER_PRODUCER)%nat ∧
    (∀ t l, pcs y !! t = Some l → is_producer (b_role l) = b → b_it l = iterations (b_role l)).
Proof.
  intros Hb Hc Hr. rewrite <- (mn_cap _ (bu_manned _ Hb) b). unfold sum_made.
  assert (∀ u lu, pcs y !! u = Some lu → past 3 lu = b_it lu ∧ (b_it lu <= iterations (b_role lu))%nat) as Hle.
  { intros u lu Hu. unfold past. destruct (at_rest y u lu Hb Hc Hr Hu) as [[? ->]|(? & _ & _ & _ & ->)]; simpl; lia. }
  destruct (decide (map_Forall (λ _ l, is_producer (b_role l) = b → b_it l = iterations (b_role l)) (pcs y))) as [Hall|Hex].
  - right. split; [|exact Hall]. apply msum_ext. intros u lu Hu. unfold made, cap. simpl. destruct (Hle u lu Hu) as [-> _].
    destruct (eqb _ b) eqn:Eb; [|done]. apply eqb_prop in Eb. by apply (Hall u lu).
  - left. apply map_not_Forall in Hex as (t & l & Hl & Hn); [|solve_decision]. destruct (Hle t l Hl) as [E Hlt].
    assert (is_producer (b_role l) = b ∧ (b_it l < iterations (b_role l))%nat) as [Eb Hit].
    { destruct (decide (is_producer (b_role l) = b)) as [Eb|]; [|by destruct Hn]. split; [done|].
      destruct (decide (b_it l = iterations (b_role l))); [by destruct Hn|lia]. }
    split; [|by exists t, l]. apply (msum_lt _ _ (pcs y) t l Hl).
    + intros u lu Hu. unfold made, cap. simpl. destruct (Hle u lu Hu) as [-> ?]. destruct (eqb _ b); lia.
    + unfold made, cap. simpl. rewrite Eb, eqb_reflx, E. lia.
Qed.

Lemma buffer_progress y t l : buf_inv y → pcs y !! t = Some l → worker l ≠ Exit →
  cur (p_s y) ≠ None ∨ ready_queue (p_s y) ≠ [].
Proof.
  intros Hb Hl Hne. destruct (cur (p_s y)) eqn:Hc; [by left|]. destruct (ready_queue (p_s y)) eqn:Hr; [exfalso|by right].
  pose proof (not_ended y t l Hb Hl Hne) as Hit.
  assert (∀ b, (∃ t l, pcs y !! t = Some l ∧ is_producer (b_role l) = b ∧ (b_it l < iterations (b_role l))%nat) →
    Z.of_nat (sum_made b 3 y) = (if b then Z.of_nat BUFFER_SIZE else 0) + Z.of_nat (sum_made (negb b) 3 y)) as Hfull.
  { intros b (u & lu & Hu & <- & Hiu). apply (side_full y u lu _ Hb Hc Hr Hu Hiu). by destruct (b_role lu). }
  pose proof (Hfull true) as Fp. pose proof (Hfull false) as Fc. simpl in Fp, Fc. unfold BUFFER_SIZE in *.
  destruct (rest_sum y true Hb Hc Hr) as [[Sp Ep]|[Sp Np]], (rest_sum y false Hb Hc Hr) as [[Sc Ec]|[Sc Nc]];
    [specialize (Fp Ep); specialize (Fc Ec); lia|specialize (Fp Ep); lia|specialize (Fc Ec); lia|].
  destruct (is_producer (b_role l)) eqn:Eb; [specialize (Np t l Hl Eb)|specialize (Nc t l Hl Eb)]; lia.
Qed.

(** ** The run *)

(** [main] has created the semaphores and the threads [ts]. *)
Record buffer_ready (ts : list Z) (y : BSys) : Prop := {
  br_sched : sched_ok (p_s y) [];
  br_sems : sems y = Semaphore_new <$> sem_init;
  br_none : mxs y = [] ∧ cvs y = [] ∧ asleep y = [];
  br_threads : NoDup ts ∧ length ts = length team ∧ ∀ t, t ∈ ts → t ∈ places (p_s y) [];
  br_pcs : pcs y = list_to_map (zip ts ((λ r, mkBLoc r 0 Reserve) <$> team));
  br_mem : mem y = mkBMem (replicate BUFFER_SIZE 0) 0 0 []
}.

Lemma ready_loc ts y t l : buffer_ready ts y → pcs y !! t = Some l → t ∈ ts ∧ ∃ r, l = mkBLoc r 0 Reserve.
Proof.
  intros Hr Hl. rewrite (br_pcs _ _ Hr) in Hl. apply elem_of_list_to_map_2 in Hl.
  split; [by eapply elem_of_zip_l|]. apply elem_of_zip_r, list_elem_of_fmap in Hl as (r & -> & _). by exists r.
Qed.

Lemma ready_manned ts y : buffer_ready ts y → manned y.
Proof.
  intros Hr. destruct (br_threads _ _ Hr) as (Hnd & Hlen & _).
  assert (∀ f, msum (λ _, f ∘ b_role) (pcs y) = sum_list (f <$> team)) as E.
  { intros f. rewrite (br_pcs _ _ Hr), msum_zip by (done || by rewrite length_fmap). by rewrite <- list_fmap_compose. }
  split.
  - pose proof (msum_const (λ _, (λ _, 1%nat) ∘ b_role) (pcs y) 1 ltac:(done)) as Hone. 
    rewrite E, Nat.mul_1_l in Hone. by rewrite <- Hone.
  - intros b. rewrite E. by destruct b.
  - intros id Hid. rewrite E. assert (id = 0 ∨ id = 1 ∨ id = 2 ∨ id = 3) as Hc by (unfold PRODUCER_COUNT in Hid; lia).
    by destruct Hc as [->|[->|[->| ->]]].
Qed.

Lemma ready_inv ts y : buffer_ready ts y → buf_inv y.
Proof.
  intros Hr. pose proof (λ t l, ready_loc ts y t l Hr) as Hloc. destruct (br_none _ _ Hr) as (Hm & Hcv & Ha).
  assert (∀ f, (∀ r, f (mkBLoc r 0 Reserve) = 0%nat) → msum (λ _, f) (pcs y) = 0%nat) as Hz.
  { intros f Hf. apply msum_zero. intros t l Hl. destruct (Hloc t l Hl) as [_ [r ->]]. apply Hf. }
  assert (parked y = []) as Hp by (unfold parked; rewrite Hm, Hcv, Ha, (br_sems _ _ Hr); done).
  assert (∀ i x, sems y !! i = Some x → ∃ c, sem_init !! i = Some c ∧ x = {| count := c; sem_queue := [] |}) as Hsem.
  { intros i x Hx. rewrite (br_sems _ _ Hr), list_lookup_fmap in Hx. apply fmap_Some in Hx as (c & Hc & ->). exists c. split; [done|].
    unfold Semaphore_new. rewrite to_signed_id; [done|lia|]. apply list_elem_of_lookup_2 in Hc. unfold sem_init, BUFFER_SIZE in Hc. set_solver by lia. }
  split; [split| | |].
  - split; rewrite Hp; [apply Hr|]. intros t l Hl _. apply (br_threads _ _ Hr). by eapply Hloc.
  - by rewrite (br_sems _ _ Hr), length_fmap.
  - intros i x c Hx Hc. destruct (Hsem i x Hx) as (c' & ? & ->). simplify_eq. unfold total. rewrite !Hz; [simpl; lia|..]; intros r;
      unfold b_downs, b_ups, past; simpl; by repeat case_decide.
  - intros i x Hx. destruct (Hsem i x Hx) as (c & Hc & ->). simpl. apply list_elem_of_lookup_2 in Hc. unfold sem_init, BUFFER_SIZE in Hc. set_solver by lia.
  - intros i x t Hx Ht. destruct (Hsem i x Hx) as (c & _ & ->). by apply not_elem_of_nil in Ht.
  - done.
  - by eapply ready_manned.
  - intros t l Hl. destruct (Hloc t l Hl) as [_ [r ->]]. left. split; [|done]. by destruct r; vm_compute; lia.
  - unfold sum_made. rewrite !Hz; [|intros r; unfold made, past; simpl; by destruct (eqb _ _)..].
    rewrite (br_mem _ _ Hr). split; try done; [simpl; lia|]. intros id. symmetry. apply Hz. intros r. unfold stored_by, past. simpl. destruct r; [by case_decide|done].
Qed.

(** The instructions a thread has left. *)
Definition b_weight (l : BLoc) : nat :=
  match b_st l with Crash => 0 | s => 6 * (iterations (b_role l) - b_it l) - rank s end%nat.

Lemma worker_lowers l : lowers worker b_weight l.
Proof.
  destruct l as [r it st]. unfold lowers, worker, b_weight. cbn [b_role b_it b_st].
  destruct (Nat.ltb_spec it (iterations r)); [|done]. destruct st; cbn [b_role b_it b_st rank snd]; try done; try intros n v; try lia.
  destruct (access r v); cbn [snd b_st b_it b_role rank]; lia.
Qed.

Lemma runs_buffer ts n y0 y : buffer_ready ts y0 → runs worker n y0 y → buf_inv y.
Proof. intros H0 Hr. induction Hr as [|n y0 b z z' _ IH Hs]; [by eapply ready_inv|]. eapply buf_inv_step; [by apply IH|done]. Qed.

(** When all threads have ended. *)
Lemma ended_counts y : buf_inv y → (∀ t l, pcs y !! t = Some l → worker l = Exit) →
  (∀ b, sum_made b 3 y = (PRODUCER_COUNT * NUMBER_PER_PRODUCER)%nat) ∧
  (∀ id, 0 <= id < Z.of_nat PRODUCER_COUNT → msum (λ _, stored_by id) (pcs y) = NUMBER_PER_PRODUCER).
Proof.
  intros Hb Hx. assert (∀ t l, pcs y !! t = Some l → past 3 l = iterations (b_role l)) as Hp.
  { intros t l Hl. specialize (Hx t l Hl). unfold past. destruct (bu_wf _ Hb t l Hl) as [[Hit Hst]|[-> ->]]; [|simpl; lia].
    unfold worker in Hx. rewrite (proj2 (Nat.ltb_lt _ _) Hit) in Hx. by destruct (b_st l). }
  split.
  - intros b. rewrite <- (mn_cap _ (bu_manned _ Hb) b). apply msum_ext. intros t l Hl. unfold made, cap. simpl. by rewrite (Hp t l Hl).
  - intros id Hid. transitivity (NUMBER_PER_PRODUCER * msum (λ _, one id ∘ b_role) (pcs y))%nat; [|rewrite (mn_ids _ (bu_manned _ Hb) id Hid); lia].
    rewrite <- msum_scale. apply msum_ext. intros t l Hl. unfold stored_by, one. cbn [compose]. rewrite (Hp t l Hl).
    destruct (b_role l); cbn [iterations]; [case_decide|]; lia.
Qed.

(** C15: The bounded buffer delivers every number once.  In every interleaving of
    the four producers and the consumer, at every moment: no index is out of
    range; between none and eight numbers are stored and not yet printed; and for
    every number, its occurrences among those printed and those waiting in the
    buffer are together as many as its producer has stored, so none is lost,
    overwritten or printed twice.  When all threads have ended, 400 numbers have
    been printed, each of 0 to 3 a hundred times. *)
Theorem numbers_delivered ts n y0 y : buffer_ready ts y0 → runs worker n y0 y →
  let taken := length (printed (mem y)) in let stored := sum_made true 3 y in
  (∀ t l, pcs y !! t = Some l → b_st l ≠ Crash) ∧ (taken <= stored <= taken + BUFFER_SIZE)%nat ∧
  (∀ id, (occurs id (printed (mem y)) + occurs id (in_flight (mem y) taken stored))%nat = msum (λ _, stored_by id) (pcs y)) ∧
  ((∀ t l, pcs y !! t = Some l → worker l = Exit) →
     taken = (PRODUCER_COUNT * NUMBER_PER_PRODUCER)%nat ∧
     ∀ id, 0 <= id < Z.of_nat PRODUCER_COUNT → occurs id (printed (mem y)) = NUMBER_PER_PRODUCER).
Proof.
  intros H0 Hr. pose proof (runs_buffer ts n y0 y H0 Hr) as Hb. destruct (bu_mem _ Hb) as [_ _ _ Hp Hle Ho]. cbv zeta. rewrite Hp.
  split_and!; [|lia|lia|done|].
  - intros t l Hl Hst. destruct (bu_wf _ Hb t l Hl) as [[_ ?]|[_ E]]; [done|]. by rewrite Hst in E.
  - intros Hx. destruct (ended_counts y Hb Hx) as [Hs Hid]. split; [by apply Hs|]. intros id Hi. specialize (Ho id).
    rewrite (Hid id Hi), !Hs in Ho. unfold in_flight in Ho. rewrite Nat.sub_diag in Ho. cbn in Ho. lia.
Qed.

(** C24: The producers and the consumer come to their end.  In every run: the
    running thread's instruction succeeds; as long as a thread has not ended, one
    is running or ready, so the three semaphores never leave all threads waiting;
    and the run executes at most 4805 instructions, six for each number stored
    and printed and one exit per thread. *)
Theorem buffer_ends ts n y0 y : buffer_ready ts y0 → runs worker n y0 y →
  (∀ t l, cur (p_s y) = Some t → pcs y !! t = Some l → ∃ y', turn worker t y = Ok (tt, y')) ∧
  (∀ t l, pcs y !! t = Some l → worker l ≠ Exit → cur (p_s y) ≠ None ∨ ready_queue (p_s y) ≠ []) ∧
  (n <= PRODUCER_COUNT * (6 * NUMBER_PER_PRODUCER + 1) + (6 * (PRODUCER_COUNT * NUMBER_PER_PRODUCER) + 1))%nat.
Proof.
  intros H0 Hr. pose proof (runs_buffer ts n y0 y H0 Hr) as Hb. split_and!.
  - intros t l Ht Hl. by apply (sem_turn_ok worker b_downs b_ups sem_init y t l worker_counting (bu_sem _ Hb)).
  - intros t l. by apply buffer_progress.
  - pose proof (sv_placed _ _ _ _ _ (bu_sem _ (ready_inv ts y0 H0))) as Hp.
    destruct (runs_lower _ b_weight worker_lowers n y0 y Hp Hr) as [_ Hl]. etransitivity; [etransitivity; [|exact Hl]; lia|].
    destruct (br_threads _ _ H0) as (Hnd & Hlen & _).
    transitivity (msum (λ _ l, S (6 * iterations (b_role l))) (pcs y0)).
    + apply msum_le. intros t l Hpc. destruct (ready_loc ts y0 t l H0 Hpc) as [_ [r ->]]. case_decide; [|lia].
      unfold b_weight. cbn [b_st b_role b_it rank]. lia.
    + rewrite (br_pcs _ _ H0), (msum_zip (λ l, S (6 * iterations (b_role l)))) by (done || by rewrite length_fmap).
      rewrite <- list_fmap_compose. apply Nat.leb_le. by vm_compute.
Qed.

(** ** The whole program *)

Definition workers : list Z := [1; 2; 3; 4; 5].
Definition buffer_start : BSys :=
  mkPSys {| ready_queue := workers; cur := None; idle_task_cx := zero_init; cpu := zero_init;
            tcbs := list_to_map ((λ t, (t, demo_tcb)) <$> workers) |}
    [] (Semaphore_new <$> sem_init) [] [] 0 (mkBMem (replicate BUFFER_SIZE 0) 0 0 [])
    (list_to_map (zip workers ((λ r, mkBLoc r 0 Reserve) <$> team))).

Lemma buffer_start_ready : buffer_ready workers buffer_start.
Proof.
  assert (NoDup workers) as Hnd by (apply (bool_decide_unpack _); by vm_compute).
  split; [split|done|done|split_and!|done|done].
  - done.
  - intros t. change (places _ []) with (workers ++ []). rewrite app_nil_r. unfold workers. intros Ht.
    repeat (apply elem_of_cons in Ht as [->|Ht]; [by eexists|]). by apply not_elem_of_nil in Ht.
  - done.
  - done.
  - done.
  - intros t Ht. change (places _ []) with (workers ++ []). by rewrite app_nil_r.
Qed.

Definition whole_run := play worker (120 * 100) 0 buffer_start.

Lemma whole_run_runs : runs worker (fst whole_run) buffer_start (snd whole_run).
Proof. apply play_runs. constructor. Qed.

Definition all_through (y : BSys) : bool := bool_decide (map_Forall (λ _ l, ¬ (b_it l < iterations (b_role l))%nat) (pcs y)).

Lemma through_exit y : all_through y = true → ∀ t l, pcs y !! t = Some l → worker l = Exit.
Proof.
  intros H t l Hl. apply bool_decide_eq_true in H. specialize (H t l Hl). cbn in H. unfold worker.
  destruct (Nat.ltb_spec (b_it l) (iterations (b_role l))); [lia|done].
Qed.

Lemma whole_run_through : all_through (snd whole_run) = true.
Proof. by vm_compute. Qed.

Lemma numbers_delivered_witness : occurs 2 (printed (mem (snd whole_run))) = NUMBER_PER_PRODUCER.
Proof.
  exact (proj2 (proj2 (proj2 (proj2 (numbers_delivered workers (fst whole_run) buffer_start (snd whole_run) buffer_start_ready whole_run_runs)))
    (through_exit _ whole_run_through)) 2 (conj (Zle_bool_imp_le 0 2 eq_refl) eq_refl)).
Defined.

Lemma buffer_ends_witness : (fst whole_run <= PRODUCER_COUNT * (6 * NUMBER_PER_PRODUCER + 1) + (6 * (PRODUCER_COUNT * NUMBER_PER_PRODUCER) + 1))%nat.
Proof.
  exact (proj2 (proj2 (buffer_ends workers (fst whole_run) buffer_start (snd whole_run) buffer_start_ready whole_run_runs))).
Defined.
