(* ===== verification/TaskId.v ===== *)
(** * Identifiers, kernel stacks and the user resources of threads

    [os/src/task/id.rs].  [PID_ALLOCATOR], [KSTACK_ALLOCATOR] and the thread-id
    allocator of a process are [RecycleAllocator]s.  A kernel stack is an area of
    the kernel space and the resources of a thread are two areas of the space of
    its process, so the operations run on an address space, an allocator and the
    memory ([Space]).  A [Drop] implementation is an operation of its own. *)

From S2P Require Import Prelude Address FrameAllocator PageTable MemorySet Sched.

(** ** [RecycleAllocator] *)

Record RecycleAllocator := { rc_current : Z; rc_recycled : list Z }.

Definition RecycleAllocator_new : RecycleAllocator := {| rc_current := 0; rc_recycled := [] |}.

Definition rc_alloc : M RecycleAllocator Z :=
  a ← get;
  match vec_pop (rc_recycled a) with
  | Some (id, rest) => _ ← put {| rc_current := rc_current a; rc_recycled := rest |}; mret id
  | None =>
      let current' := wrap64 (rc_current a + 1) in
      _ ← put {| rc_current := current'; rc_recycled := rc_recycled a |};
      mret (wrap64 (current' - 1))
  end.

Definition rc_dealloc (id : Z) : M RecycleAllocator unit :=
  a ← get;
  _ ← assert_ (id <? rc_current a);
  _ ← assert_ (negb (existsb (λ i, i =? id) (rc_recycled a)));
  put {| rc_current := rc_current a; rc_recycled := vec_push (rc_recycled a) id |}.

(** [pid_alloc] and [Drop for PidHandle]: on [PID_ALLOCATOR]. *)
Definition pid_alloc : M RecycleAllocator Z := rc_alloc.
Definition drop_pid (pid : Z) : M RecycleAllocator unit := rc_dealloc pid.

(** ** Kernel stacks *)

Record Space := { sp_mm : MM; sp_ms : MemorySet; sp_ids : RecycleAllocator }.
Definition upd_ids (a : RecycleAllocator) (x : Space) : Space :=
  {| sp_mm := sp_mm x; sp_ms := sp_ms x; sp_ids := a |}.
Definition upd_sp_mm (m : MM) (x : Space) : Space :=
  {| sp_mm := m; sp_ms := sp_ms x; sp_ids := sp_ids x |}.

(** An operation on the address space. *)
Definition on_space (f : MemorySet → M MM MemorySet) : M Space unit := λ x,
  match f (sp_ms x) (sp_mm x) with
  | Ok (ms, m) => Ok (tt, {| sp_mm := m; sp_ms := ms; sp_ids := sp_ids x |})
  | Panic p => Panic p
  end.

(** (bottom, top) of a kernel stack. *)
Definition kernel_stack_position (kstack_id : Z) : Z * Z :=
  let top := wrap64 (TRAMPOLINE - wrap64 (kstack_id * (KERNEL_STACK_SIZE + PAGE_SIZE))) in
  let bottom := wrap64 (top - KERNEL_STACK_SIZE) in
  (bottom, top).

Definition kstack_alloc : M Space Z :=
  kstack_id ← zoom sp_ids upd_ids rc_alloc;
  let '(kstack_bottom, kstack_top) := kernel_stack_position kstack_id in
  _ ← on_space (λ ms, insert_framed_area ms (VirtAddr_from kstack_bottom) (VirtAddr_from kstack_top)
                        (Z.lor MP_R MP_W));
  mret kstack_id.

Definition drop_kstack (kstack_id : Z) : M Space unit :=
  let '(kernel_stack_bottom, _) := kernel_stack_position kstack_id in
  vpn ← lift_result (PageNum_from_Addr (VirtAddr_from kernel_stack_bottom));
  on_space (λ ms, remove_area_with_start_vpn ms vpn).

Definition get_top (kstack_id : Z) : Z := snd (kernel_stack_position kstack_id).

(** The address [push_on_top] writes a value of [size] bytes to. *)
Definition push_on_top (kstack_id size : Z) : Z := wrap64 (get_top kstack_id - size).

(** ** User resources of a thread *)

Definition trap_cx_bottom_from_tid (tid : Z) : Z := wrap64 (TRAP_CONTEXT_BASE - wrap64 (tid * PAGE_SIZE)).
Definition ustack_bottom_from_tid (ustack_base tid : Z) : Z :=
  wrap64 (ustack_base + wrap64 (tid * (PAGE_SIZE + USER_STACK_SIZE))).

Definition alloc_user_res (r : TaskUserRes) : M Space unit :=
  let ustack_bottom := ustack_bottom_from_tid (ustack_base r) (tid r) in
  let ustack_top := wrap64 (ustack_bottom + USER_STACK_SIZE) in
  _ ← on_space (λ ms, insert_framed_area ms (VirtAddr_from ustack_bottom) (VirtAddr_from ustack_top)
                        (Z.lor (Z.lor MP_R MP_W) MP_U));
  let trap_cx_bottom := trap_cx_bottom_from_tid (tid r) in
  let trap_cx_top := wrap64 (trap_cx_bottom + PAGE_SIZE) in
  on_space (λ ms, insert_framed_area ms (VirtAddr_from trap_cx_bottom) (VirtAddr_from trap_cx_top)
                    (Z.lor MP_R MP_W)).

Definition TaskUserRes_new (ustack_base : Z) (alloc : bool) : M Space TaskUserRes :=
  tid ← zoom sp_ids upd_ids rc_alloc;
  let task_user_res := {| tid := tid; ustack_base := ustack_base |} in
  _ ← (if alloc then alloc_user_res task_user_res else mret tt);
  mret task_user_res.

Definition dealloc_user_res (r : TaskUserRes) : M Space unit :=
  ustack_vpn ← lift_result (PageNum_from_Addr (VirtAddr_from (ustack_bottom_from_tid (ustack_base r) (tid r))));
  _ ← on_space (λ ms, remove_area_with_start_vpn ms ustack_vpn);
  trap_cx_vpn ← lift_result (PageNum_from_Addr (VirtAddr_from (trap_cx_bottom_from_tid (tid r))));
  on_space (λ ms, remove_area_with_start_vpn ms trap_cx_vpn).

Definition dealloc_tid (r : TaskUserRes) : M Space unit := zoom sp_ids upd_ids (rc_dealloc (tid r)).

Definition drop_user_res (r : TaskUserRes) : M Space unit :=
  _ ← dealloc_tid r; dealloc_user_res r.

Definition trap_cx_user_va (r : TaskUserRes) : Z := trap_cx_bottom_from_tid (tid r).

Definition res_trap_cx_ppn (r : TaskUserRes) : M Space Z :=
  x ← get;
  vpn ← lift_result (PageNum_from_Addr (VirtAddr_from (trap_cx_bottom_from_tid (tid r))));
  pte ← unwrap (ms_translate (mem (sp_mm x)) (sp_ms x) vpn);
  mret (pte_ppn pte).

Definition ustack_top (r : TaskUserRes) : Z :=
  wrap64 (ustack_bottom_from_tid (ustack_base r) (tid r) + USER_STACK_SIZE).

(** ** The allocator of identifiers

    [live] are the identifiers handed out and not returned. *)

Record rc_ok (a : RecycleAllocator) (live : gset Z) : Prop := {
  rc_pos : 0 <= rc_current a;
  rc_nodup : NoDup (rc_recycled a);
  rc_live : ∀ x, x ∈ live ↔ 0 <= x < rc_current a ∧ x ∉ rc_recycled a;
  rc_range : ∀ x, x ∈ rc_recycled a → 0 <= x < rc_current a
}.

Lemma rc_new_ok : rc_ok RecycleAllocator_new ∅.
Proof. split; simpl; [done|constructor|set_solver by lia|set_solver]. Qed.

Lemma wp_rc_alloc a live (Q : Z → RecycleAllocator → Prop) :
  rc_ok a live → rc_current a < 2 ^ 64 - 1 →
  (∀ id a', rc_ok a' ({[id]} ∪ live) → id ∉ live → 0 <= id <= rc_current a →
     rc_current a <= rc_current a' <= rc_current a + 1 → 
     (rc_recycled a = [] → id = rc_current a ∧ a' = {| rc_current := rc_current a + 1; rc_recycled := [] |}) →
     Q id a') →
  wp rc_alloc Q a.
Proof.
  intros [Hp Hnd Hl Hr] Hb HQ. unfold rc_alloc. wp_steps.
  destruct (vec_pop_cases (rc_recycled a)) as [[He ->]|(v & x & He & ->)]; wp_steps.
  - rewrite (wrap_small _ (rc_current a + 1)) by lia. rewrite wrap_small by lia.
    replace (rc_current a + 1 - 1) with (rc_current a) by lia.
    apply HQ; simpl; [|rewrite Hl; lia|lia|lia|by rewrite He].
    split; simpl; [lia|done| |].
    + intros y. rewrite elem_of_union, elem_of_singleton, Hl, He. split; [|intros [? ?]].
      * intros [->|[? ?]]; split; try lia; apply not_elem_of_nil.
      * destruct (decide (y = rc_current a)); [by left|right; split; [lia|done]].
    + intros y Hy%Hr. lia.
  - rewrite He in *. apply NoDup_app in Hnd as (Hnd & Hdj & _).
    assert (x ∉ v) as Hxv by (intros Hx; apply (Hdj x Hx); left).
    assert (0 <= x < rc_current a) as Hx by (apply Hr; set_solver).
    apply HQ; simpl; [|rewrite Hl; set_solver|lia|lia|by destruct v].
    split; simpl; [done|done| |intros y Hy; apply Hr; set_solver].
    intros y. rewrite elem_of_union, elem_of_singleton, Hl, elem_of_app, list_elem_of_singleton.
    split.
    + intros [->|[? ?]]; [done|]. split; [done|]. tauto.
    + intros [? ?]. destruct (decide (y = x)); [by left|]. right. tauto.
Qed.

Lemma rc_dealloc_eq a live id : rc_ok a live → 0 <= id →
  rc_dealloc id a =
    if decide (id ∈ live) then Ok (tt, {| rc_current := rc_current a; rc_recycled := rc_recycled a ++ [id] |})
    else Panic PAssert.
Proof.
  intros [Hp Hnd Hl Hr] Hid. unfold rc_dealloc, mbind, M_bind, get, assert_, mret, M_ret, put.
  pose proof (existsb_eqb_elem (rc_recycled a) id) as Hex. case_decide as Hin.
  - apply Hl in Hin as [Hrng Hni]. rewrite (proj2 (Z.ltb_lt _ _)) by lia.
    destruct (existsb (λ i, i =? id) (rc_recycled a)); [by destruct Hni; apply Hex|done].
  - destruct (Z.ltb_spec id (rc_current a)); [|done].
    destruct (existsb (λ i, i =? id) (rc_recycled a)); [done|].
    destruct Hin. apply Hl. split; [lia|]. intros Hc%Hex. done.
Qed.

Lemma rc_dealloc_ok a live id : rc_ok a live → id ∈ live →
  rc_ok {| rc_current := rc_current a; rc_recycled := rc_recycled a ++ [id] |} (live ∖ {[id]}).
Proof.
  intros [Hp Hnd Hl Hr] Hin. apply Hl in Hin as [Hrng Hni]. split; simpl; [done| | |].
  - apply NoDup_app. split; [done|]. split; [|apply NoDup_singleton].
    intros x Hx ->%list_elem_of_singleton. done.
  - intros x. rewrite elem_of_difference, elem_of_singleton, Hl, elem_of_app, list_elem_of_singleton. tauto.
  - intros x [?%Hr| ->%list_elem_of_singleton]%elem_of_app; done.
Qed.

(** Histories: identifiers are requested and returned by their holders. *)
Inductive id_step : RecycleAllocator * list Z → RecycleAllocator * list Z → Prop :=
  | id_alloc a ids id a' : rc_current a < 2 ^ 64 - 1 → rc_alloc a = Ok (id, a') →
      id_step (a, ids) (a', id :: ids)
  | id_dealloc a ids1 id ids2 a' : rc_dealloc id a = Ok (tt, a') →
      id_step (a, ids1 ++ id :: ids2) (a', ids1 ++ ids2).

Lemma id_reach_ok x : rtc id_step (RecycleAllocator_new, []) x →
  NoDup x.2 ∧ rc_ok x.1 (list_to_set x.2).
Proof.
  remember (RecycleAllocator_new, []) as x0 eqn:H0.
  assert (NoDup x0.2 ∧ rc_ok x0.1 (list_to_set x0.2)) as Hi.
  { subst. split; [constructor|apply rc_new_ok]. }
  clear H0. induction 1 as [|x y z Hstep _ IH]; [done|]. apply IH. clear IH. destruct Hi as [Hnd Hok].
  destruct Hstep as [a ids id a' Hb He|a ids1 id ids2 a' He]; simpl in *.
  - destruct (wp_ok _ _ _ (wp_rc_alloc a _ (λ i b, rc_ok b ({[i]} ∪ list_to_set ids) ∧ i ∉@{gset Z} list_to_set ids)
      Hok Hb (λ i b H1 H2 _ _ _, conj H1 H2))) as (i & b & E & Hb1 & Hb2).
    rewrite E in He. simplify_eq. split; [constructor; [set_solver|done]|done].
  - assert (id ∈@{gset Z} list_to_set (ids1 ++ id :: ids2)) as Hin by set_solver.
    assert (0 <= id) as H0 by (apply (rc_live _ _ Hok) in Hin; lia).
    rewrite (rc_dealloc_eq _ _ _ Hok H0), decide_True in He by done. simplify_eq.
    pose proof (rc_dealloc_ok _ _ _ Hok Hin) as Hok'.
    rewrite <- Permutation_middle in Hnd. apply NoDup_cons in Hnd as [Hni Hnd]. split; [done|].
    replace (list_to_set (ids1 ++ ids2) : gset Z) with
      ((list_to_set (ids1 ++ id :: ids2) : gset Z) ∖ {[id]}); [done|].
    apply set_eq. intros y. rewrite elem_of_difference, !elem_of_list_to_set, elem_of_singleton.
    rewrite elem_of_app in Hni. rewrite !elem_of_app, elem_of_cons. naive_solver.
Qed.

(** ** Where stacks and trap contexts lie

    Page numbers of the areas, in the 39-bit virtual address space. *)

Definition kstack_lo (id : Z) : Z := floor (VirtAddr_from (fst (kernel_stack_position id))).
Definition kstack_hi (id : Z) : Z := ceil (VirtAddr_from (snd (kernel_stack_position id))).

Lemma TRAMPOLINE_eq : TRAMPOLINE = 2 ^ 64 - 4096.
Proof. reflexivity. Qed.
Lemma TRAP_CONTEXT_BASE_eq : TRAP_CONTEXT_BASE = 2 ^ 64 - 8192.
Proof. reflexivity. Qed.

(** An address within 2^39 of the top, truncated to 39 bits. *)
Lemma VirtAddr_from_high d : 0 < d <= 2 ^ 39 → VirtAddr_from (2 ^ 64 - d) = 2 ^ 39 - d.
Proof.
  intros Hd. rewrite VirtAddr_from_mod.
  replace (2 ^ 64 - d) with (2 ^ 39 - d + (2 ^ 25 - 1) * 2 ^ 39) by lia.
  rewrite Z.mod_add by lia. apply Z.mod_small. lia.
Qed.
Lemma VirtAddr_from_low a : 0 <= a < 2 ^ 39 → VirtAddr_from a = a.
Proof. intros. rewrite VirtAddr_from_mod. by apply Z.mod_small. Qed.

Lemma ceil_page k : 0 < k <= 2 ^ 27 → ceil (k * 4096) = k.
Proof.
  intros. pose proof (ceil_spec (k * 4096) ltac:(unfold PAGE_SIZE; lia)). unfold PAGE_SIZE in *. lia.
Qed.

Lemma kernel_stack_position_eq id : 0 <= id < 2 ^ 25 →
  VirtAddr_from (fst (kernel_stack_position id)) = (2 ^ 27 - 3 - 3 * id) * 4096 ∧
  VirtAddr_from (snd (kernel_stack_position id)) = (2 ^ 27 - 1 - 3 * id) * 4096.
Proof.
  intros Hid. unfold kernel_stack_position, KERNEL_STACK_SIZE, PAGE_SIZE. rewrite TRAMPOLINE_eq.
  rewrite !(wrap_small _ (id * _)) by lia. rewrite !(wrap_small _ (2 ^ 64 - 4096 - _)) by lia.
  rewrite wrap_small by lia. cbn [fst snd].
  replace (2 ^ 64 - 4096 - id * (4096 * 2 + 4096) - 4096 * 2) with (2 ^ 64 - (12288 * id + 12288)) by lia.
  replace (2 ^ 64 - 4096 - id * (4096 * 2 + 4096)) with (2 ^ 64 - (12288 * id + 4096)) by lia.
  rewrite !VirtAddr_from_high by lia. lia.
Qed.

Lemma kstack_pages id : 0 <= id < 2 ^ 25 →
  kstack_lo id = 2 ^ 27 - 3 - 3 * id ∧ kstack_hi id = kstack_lo id + 2.
Proof.
  intros Hid. unfold kstack_lo, kstack_hi. destruct (kernel_stack_position_eq id Hid) as [-> ->].
  rewrite floor_page, ceil_page by lia. lia.
Qed.

Definition ustack_lo (r : TaskUserRes) : Z := floor (VirtAddr_from (ustack_bottom_from_tid (ustack_base r) (tid r))).
Definition trap_cx_page (r : TaskUserRes) : Z := floor (VirtAddr_from (trap_cx_bottom_from_tid (tid r))).

(** The stacks of [n] threads fit between the base and the trap contexts. *)
Definition fits (base n : Z) : Prop :=
  0 <= base ∧ base mod PAGE_SIZE = 0 ∧ base + n * (PAGE_SIZE + USER_STACK_SIZE) <= 2 ^ 39 - (n + 1) * PAGE_SIZE.

Lemma res_addresses base n t : fits base n → 0 <= t < n →
  let r := {| tid := t; ustack_base := base |} in
  ∃ b, base = b * 4096 ∧ 0 <= b ∧ b + 3 * t + 2 < 2 ^ 27 - 2 - t ∧ t < 2 ^ 27 - 2 ∧
    VirtAddr_from (ustack_bottom_from_tid base t) = (b + 3 * t) * 4096 ∧
    VirtAddr_from (wrap64 (ustack_bottom_from_tid base t + USER_STACK_SIZE)) = (b + 3 * t + 2) * 4096 ∧
    VirtAddr_from (trap_cx_bottom_from_tid t) = (2 ^ 27 - 2 - t) * 4096 ∧
    VirtAddr_from (wrap64 (trap_cx_bottom_from_tid t + PAGE_SIZE)) = (2 ^ 27 - 1 - t) * 4096.
Proof.
  intros (Hb0 & Hal & Hfit) Ht. exists (base / 4096).
  unfold ustack_bottom_from_tid, trap_cx_bottom_from_tid, USER_STACK_SIZE, PAGE_SIZE in *.
  rewrite TRAP_CONTEXT_BASE_eq. assert (base = base / 4096 * 4096) as Hbase by zdiv.
  assert (0 <= base / 4096) by zdiv. set (b := base / 4096) in *. clearbody b. subst base.
  rewrite !(wrap_small _ (t * _)) by lia. rewrite !(wrap_small _ (b * 4096 + _)) by lia.
  rewrite !(wrap_small _ (2 ^ 64 - 8192 - _)) by lia.
  rewrite !(wrap_small _ (b * 4096 + _ + _)) by lia. rewrite !(wrap_small _ (2 ^ 64 - 8192 - _ + _)) by lia.
  replace (2 ^ 64 - 8192 - t * 4096 + 4096) with (2 ^ 64 - (t * 4096 + 4096)) by lia.
  replace (2 ^ 64 - 8192 - t * 4096) with (2 ^ 64 - (t * 4096 + 8192)) by lia.
  rewrite !VirtAddr_from_high by lia. rewrite !VirtAddr_from_low by lia. split_and!; lia.
Qed.

Lemma res_pages base n t : fits base n → 0 <= t < n →
  let r := {| tid := t; ustack_base := base |} in
  ustack_lo r = base / 4096 + 3 * t ∧ trap_cx_page r = 2 ^ 27 - 2 - t ∧ 0 <= ustack_lo r ∧
  ustack_lo r + 2 < trap_cx_page r.
Proof.
  intros Hf Ht r. destruct (res_addresses base n t Hf Ht) as (b & Hb & Hb0 & Hlt & Ht2 & H1 & H2 & H3 & H4).
  unfold ustack_lo, trap_cx_page. cbn [tid ustack_base r]. rewrite H1, H3, !floor_page.
  rewrite Hb, Z.div_mul by lia. lia.
Qed.

(** ** Areas of a space come and go *)

Lemma wp_on_space f (Q : unit → Space → Prop) x :
  wp (f (sp_ms x)) (λ ms m, Q tt {| sp_mm := m; sp_ms := ms; sp_ids := sp_ids x |}) (sp_mm x) →
  wp (on_space f) Q x.
Proof. unfold wp, on_space. by destruct (f (sp_ms x) (sp_mm x)) as [[ms m]|]. Qed.

Definition nonempty_areas (ms : MemorySet) : Prop :=
  ∀ a, a ∈ areas ms → range_l (vpn_range a) < range_r (vpn_range a).

Lemma start_not_used lo owned s ms v a :
  ms_inv lo owned s ms → nonempty_areas ms → mapping (mem s) (page_table ms) v = None →
  a ∈ areas ms → (range_l (vpn_range a) =? v) = false.
Proof.
  intros Hi Hne Hv Ha. apply Z.eqb_neq. intros <-.
  apply (area_ok_mapped _ _ _ _ (range_l (vpn_range a)) (mi_ok _ _ _ _ Hi a Ha)); [|done].
  apply elem_of_area_pages; [by apply (mi_wf _ _ _ _ Hi)|]. specialize (Hne a Ha). lia.
Qed.

(** The first area that starts at [v] is the one at position [length l]. *)
Lemma find_index_first (p : MapArea → bool) l a post :
  (∀ b, b ∈ l → p b = false) → p a = true → find_index p (l ++ a :: post) = Some (length l).
Proof.
  intros Hl Ha. apply find_index_Some. split.
  - exists a. split; [|done]. by rewrite lookup_app_r, Nat.sub_diag by lia.
  - intros j b Hj Hb. apply Hl. rewrite lookup_app_l in Hb by done. by eapply list_elem_of_lookup_2.
Qed.

(** [grown]: the space after areas with the pages [P] and the frames [F] were
    added to it, taking at most [b] frames. *)
Record grown (lo : Z) (owned : gset Z) (x : Space) (new : list MapArea) (P : Z → Prop) (b : Z)
    (owned' : gset Z) (x' : Space) : Prop := {
  gr_inv : ms_inv lo owned' (sp_mm x') (sp_ms x');
  gr_nonempty : nonempty_areas (sp_ms x');
  gr_ids : sp_ids x' = sp_ids x;
  gr_areas : areas (sp_ms x') = areas (sp_ms x) ++ new;
  gr_root : root_ppn (page_table (sp_ms x')) = root_ppn (page_table (sp_ms x));
  gr_tables : ∀ f, f ∈ frames (page_table (sp_ms x)) → f ∈ frames (page_table (sp_ms x'));
  gr_fresh : ∀ a v f, a ∈ new → data_frames a !! v = Some f →
     f ∉ owned ∧ page_of (mem (sp_mm x')) f = ∅;
  gr_owned : ∀ f, f ∈ owned' ↔ f ∈ owned ∨ f ∈ frames (page_table (sp_ms x')) ∨
     ∃ a v, a ∈ new ∧ data_frames a !! v = Some f;
  gr_new_tables : ∀ f, f ∈ frames (page_table (sp_ms x')) → f ∈ owned → f ∈ frames (page_table (sp_ms x));
  gr_mapping : ∀ v, 0 <= v < 2 ^ 27 → ¬ P v →
     mapping (mem (sp_mm x')) (page_table (sp_ms x')) v = mapping (mem (sp_mm x)) (page_table (sp_ms x)) v;
  gr_pages : ∀ f, f ∈ owned → f ∉ frames (page_table (sp_ms x)) →
     page_of (mem (sp_mm x')) f = page_of (mem (sp_mm x)) f;
  gr_free : nfree (fa (sp_mm x)) <= nfree (fa (sp_mm x')) + b
}.

Lemma grown_refl lo owned x : ms_inv lo owned (sp_mm x) (sp_ms x) → nonempty_areas (sp_ms x) →
  grown lo owned x [] (λ _, False) 0 owned x.
Proof.
  intros Hi Hne. split; try done.
  - by rewrite app_nil_r.
  - by intros a v f ?%elem_of_nil.
  - intros f. split; [by left|]. intros [?|[Hf|(a & v & ?%elem_of_nil & _)]]; [done| |done].
    by apply (inv_owned _ _ _ _ (mi_pt _ _ _ _ Hi)).
  - lia.
Qed.

Definition is_area (a : MapArea) (l r perm : Z) : Prop :=
  map_type a = Framed ∧ map_perm a = perm ∧ vpn_range a = {| range_l := l; range_r := r |}.

Lemma wp_grow lo owned0 x0 new P b owned x start_va end_va perm (Q : unit → Space → Prop) :
  grown lo owned0 x0 new P b owned x →
  0 <= start_va < end_va → end_va <= 2 ^ 39 → 0 <= perm < 256 → floor start_va < ceil end_va →
  (∀ v, floor start_va <= v < ceil end_va →
     mapping (mem (sp_mm x0)) (page_table (sp_ms x0)) v = None ∧ ¬ P v) →
  3 * (ceil end_va - floor start_va) <= nfree (fa (sp_mm x)) →
  (∀ a owned' x', is_area a (floor start_va) (ceil end_va) perm →
     grown lo owned0 x0 (new ++ [a]) (λ v, P v ∨ floor start_va <= v < ceil end_va)
       (b + 3 * (ceil end_va - floor start_va)) owned' x' → Q tt x') →
  wp (on_space (λ ms, insert_framed_area ms start_va end_va perm)) Q x.
Proof.
  intros G Hs He Hp Hlt Hun Hfree HQ. apply wp_on_space. pose proof (gr_inv _ _ _ _ _ _ _ _ G) as Hi.
  pose proof (ceil_spec end_va ltac:(unfold PAGE_SIZE; lia)) as Hce.
  assert (ceil end_va <= 2 ^ 27) as Hce2 by (unfold PAGE_SIZE in *; lia).
  assert (0 <= floor start_va) as Hfl by (unfold floor, PAGE_SIZE; zdiv).
  eapply wp_insert_framed; [done..| |done|].
  { intros v Hv. destruct (Hun v Hv) as [Hv1 Hv2]. rewrite (gr_mapping _ _ _ _ _ _ _ _ G); [done|lia|done]. }
  intros a T owned' s' pt'. cbv zeta. intros Hi' Hwf Hty Hpm Hl Hr Ham HT Hsz.
  destruct Ham as [A1 A2 A3 A4 A5 A6 A7 A8 A9 A10 A11]. destruct G as [G1 G2 G3 G4 G5 G6 G7 G8 G9 G10 G11 G12].
  apply (HQ (with_frames a T) owned').
  { unfold is_area. simpl. split_and!; [done|done|]. by destruct (vpn_range a); simpl in *; subst. }
  split; cbn [sp_mm sp_ms sp_ids page_table areas].
  - done.
  - intros c [Hc| ->%list_elem_of_singleton]%elem_of_app; [by apply G2|]. simpl. lia.
  - done.
  - by rewrite G4, app_assoc.
  - congruence.
  - auto.
  - intros c v f [Hc| ->%list_elem_of_singleton]%elem_of_app Hv.
    + destruct (G7 c v f Hc Hv) as [? Hpg]. split; [done|]. rewrite A9; [done| |].
      * intros Hf. assert (f ∈ owned) as Hfo by (apply G8; right; right; eauto).
        pose proof (mi_ok _ _ _ _ G1 c ltac:(rewrite G4; set_solver)) as Hok.
        specialize (A4 f Hf Hfo). unfold area_ok in Hok. destruct (map_type c).
        { destruct Hok as [Hd _]. by rewrite Hd in Hv. } by destruct (proj2 Hok v f Hv) as (_ & ? & _).
      * intros w Hw. destruct (A6 w f Hw) as [Hf _]. apply Hf, G8. right; right; eauto.
    + simpl in Hv. destruct (A6 v f Hv) as (Hf & _ & Hz). split; [|done]. intros ?. apply Hf, G8. by left.
  - intros f. rewrite A5, G8. setoid_rewrite elem_of_app. setoid_rewrite list_elem_of_singleton. split.
    + intros [[?|[?|(c & v & ? & ?)]]|[?|[v Hv]]]; [by left|right; left; auto|right; right; eauto|right; by left|].
      right; right. exists (with_frames a T), v. auto.
    + intros [?|[?|(c & v & [?| ->] & Hv)]]; [left; by left|right; by left|left; right; right; eauto|].
      right; right. by exists v.
  - intros f Hf Ho. apply G9; [|done]. apply A4; [done|]. apply G8. by left.
  - intros v Hv Hn. rewrite A8 by done. destruct (T !! v) as [f|] eqn:Hf.
    + destruct Hn. right. apply HT. by eexists.
    + apply G10; [done|tauto].
  - intros f Ho Hf. rewrite A9; [auto| |].
    + intros Hf'. apply Hf, G9; [|done]. apply A4; [done|]. apply G8. by left.
    + intros v Hv. destruct (A6 v f Hv) as [Hn _]. apply Hn, G8. by left.
  - lia.
Qed.

(** Removing the first of the added areas again. *)
Lemma wp_shrink lo owned0 x0 a rest P b owned x l r perm (Q : unit → Space → Prop) :
  grown lo owned0 x0 (a :: rest) P b owned x → ms_inv lo owned0 (sp_mm x0) (sp_ms x0) →
  nonempty_areas (sp_ms x0) → is_area a l r perm → l < r →
  (∀ v, l <= v < r → mapping (mem (sp_mm x0)) (page_table (sp_ms x0)) v = None) →
  (∀ owned' x', grown lo owned0 x0 rest (λ v, P v ∧ ¬ (l <= v < r)) b owned' x' → Q tt x') →
  wp (on_space (λ ms, remove_area_with_start_vpn ms l)) Q x.
Proof.
  intros G Hi0 Hne0 Ha Hlt Hun HQ. destruct G as [G1 G2 G3 G4 G5 G6 G7 G8 G9 G10 G11 G12].
  apply wp_on_space. destruct Ha as (Hty & Hpm & Hrg).
  assert (a ∈ areas (sp_ms x)) as Hin by (rewrite G4; set_solver).
  pose proof (mi_wf _ _ _ _ G1 a Hin) as Hwf. pose proof (mi_ok _ _ _ _ G1 a Hin) as Hok.
  unfold area_ok in Hok. rewrite Hty in Hok. destruct Hok as [Hd Hok].
  assert (∀ v, v ∈ area_pages a ↔ l <= v < r) as Hpg by (intros v; by rewrite elem_of_area_pages, Hrg).
  replace l with (range_l (vpn_range a)) by by rewrite Hrg.
  eapply (wp_remove_area _ _ _ _ (length (areas (sp_ms x0)))); [done| | |].
  { rewrite G4. apply find_index_first; [|by rewrite Z.eqb_refl].
    intros c Hc. rewrite Hrg. cbn [range_l].
    eapply (start_not_used lo owned0 (sp_mm x0) (sp_ms x0)); [done|done|apply Hun; lia|done]. }
  { rewrite G4. by rewrite lookup_app_r, Nat.sub_diag by lia. }
  intros owned' s'. cbv zeta. intros Hi' [U1 U2 U3 U4 U5 U6]. apply (HQ owned').
  assert (take (length (areas (sp_ms x0))) (areas (sp_ms x)) ++ drop (S (length (areas (sp_ms x0)))) (areas (sp_ms x))
    = areas (sp_ms x0) ++ rest) as Hareas.
  { rewrite G4, take_app_length, drop_app_ge by lia.
    by replace (S (length (areas (sp_ms x0))) - length (areas (sp_ms x0)))%nat with 1%nat by lia. }
  rewrite Hareas in Hi' |- *.
  assert (∀ f, f ∈ frames (page_table (sp_ms x)) → ∀ v, data_frames a !! v ≠ Some f) as Hnt.
  { intros f Hf v Hv. by destruct (Hok v f Hv) as (_ & ? & _). }
  split; cbn [sp_mm sp_ms sp_ids page_table areas]; try done.
  - intros c Hc. apply G2. rewrite G4. set_solver.
  - intros c v f Hc Hv. destruct (G7 c v f ltac:(by right) Hv) as [? Hz]. split; [done|]. rewrite U4; [done|].
    intros Hf. pose proof (mi_ok _ _ _ _ G1 c ltac:(rewrite G4; set_solver)) as Hokc.
    unfold area_ok in Hokc. destruct (map_type c); [destruct Hokc as [Hdc _]; by rewrite Hdc in Hv|].
    by destruct (proj2 Hokc v f Hv) as (_ & ? & _).
  - intros f. rewrite U2, G8. setoid_rewrite elem_of_cons. split.
    + intros [[?|[?|(c & v & [->|?] & Hv)]] Hn]; [by left|right; by left| |right; right; eauto].
      destruct (Hn v); [|done]. apply Hd. by eexists.
    + intros Hf. split; [naive_solver|]. intros v _ Hv. destruct Hf as [Hf|[Hf|(c & w & Hc & Hw)]].
      * by destruct (G7 a v f ltac:(by left) Hv).
      * by apply (Hnt f Hf v).
      * apply list_elem_of_lookup in Hc as [k Hk].
        destruct (mi_inj _ _ _ _ G1 (length (areas (sp_ms x0))) (length (areas (sp_ms x0)) + S k)%nat a c v w f)
          as [? _]; [by rewrite G4, lookup_app_r, Nat.sub_diag by lia| |done|done|lia].
        rewrite G4, lookup_app_r by lia. by replace (_ + S k - _)%nat with (S k) by lia.
  - intros v Hv Hn. rewrite U3 by done. case_decide as Hva.
    + symmetry. by apply Hun, Hpg.
    + apply G10; [done|]. rewrite Hpg in Hva. tauto.
  - intros f Ho Hf. rewrite U4; [auto|]. intros Hf'. apply Hf. by apply G9.
  - lia.
Qed.

Lemma grown_area_pages lo owned0 x0 new P b owned x a l r perm v :
  grown lo owned0 x0 new P b owned x → a ∈ new → is_area a l r perm → l <= v < r →
  ∃ f, mapping (mem (sp_mm x)) (page_table (sp_ms x)) v = Some (f, Z.lor perm PTE_V) ∧
    f ∉ owned0 ∧ page_of (mem (sp_mm x)) f = ∅.
Proof.
  intros G Ha (Hty & <- & Hrg) Hv. destruct G as [G1 _ _ G4 _ _ G7 _ _ _ _ _].
  assert (a ∈ areas (sp_ms x)) as Hin by (rewrite G4; set_solver).
  pose proof (mi_ok _ _ _ _ G1 a Hin) as Hok. unfold area_ok in Hok. rewrite Hty in Hok.
  destruct Hok as [Hd Hok]. destruct (proj2 (Hd v)) as [f Hf].
  { apply elem_of_area_pages; [by apply (mi_wf _ _ _ _ G1)|by rewrite Hrg]. }
  exists f. destruct (Hok v f Hf) as (_ & _ & Hm). destruct (G7 a v f Ha Hf). done.
Qed.

(** A space that may hold threads [0 .. n-1]: the pages of the ids not in use
    are unmapped. *)
Record thread_space (lo base n : Z) (owned live : gset Z) (x : Space) : Prop := {
  ts_inv : ms_inv lo owned (sp_mm x) (sp_ms x);
  ts_nonempty : nonempty_areas (sp_ms x);
  ts_ids : rc_ok (sp_ids x) live;
  ts_more : rc_current (sp_ids x) < n;
  ts_fits : fits base n;
  ts_unmapped : ∀ t v, 0 <= t < n → t ∉ live →
    let r := {| tid := t; ustack_base := base |} in
    ustack_lo r <= v < ustack_lo r + 2 ∨ v = trap_cx_page r →
    mapping (mem (sp_mm x)) (page_table (sp_ms x)) v = None
}.

Definition perm_ustack : Z := Z.lor (Z.lor MP_R MP_W) MP_U.
Definition perm_trap_cx : Z := Z.lor MP_R MP_W.

(** The two areas of a thread. *)
Definition res_areas (r : TaskUserRes) (a1 a2 : MapArea) : Prop :=
  is_area a1 (ustack_lo r) (ustack_lo r + 2) perm_ustack ∧
  is_area a2 (trap_cx_page r) (trap_cx_page r + 1) perm_trap_cx.

Lemma wp_alloc_user_res lo base n t owned x (Q : unit → Space → Prop) :
  let r := {| tid := t; ustack_base := base |} in
  ms_inv lo owned (sp_mm x) (sp_ms x) → nonempty_areas (sp_ms x) → fits base n → 0 <= t < n →
  (∀ v, ustack_lo r <= v < ustack_lo r + 2 ∨ v = trap_cx_page r →
    mapping (mem (sp_mm x)) (page_table (sp_ms x)) v = None) →
  9 <= nfree (fa (sp_mm x)) →
  (∀ a1 a2 owned' x', res_areas r a1 a2 →
     grown lo owned x [a1; a2] (λ v, (False ∨ ustack_lo r <= v < ustack_lo r + 2) ∨
       trap_cx_page r <= v < trap_cx_page r + 1) 9 owned' x' → Q tt x') →
  wp (alloc_user_res r) Q x.
Proof.
  intros r Hi Hne Hf Ht Hun Hfree HQ.
  destruct (res_addresses base n t Hf Ht) as (b & Hb & Hb0 & Hlt & Ht2 & H1 & H2 & H3 & H4).
  unfold res_areas, ustack_lo, trap_cx_page in *. cbn [tid ustack_base r] in *.
  unfold alloc_user_res. cbn [tid ustack_base r]. rewrite H1, H2, H3, H4. rewrite H1, H3, !floor_page in *.
  wp_steps. eapply (wp_grow lo owned x); [by apply grown_refl|lia|lia|done|rewrite floor_page, ceil_page; lia| | |].
  { rewrite floor_page, ceil_page by lia. intros v Hv. split; [|tauto]. apply Hun. lia. }
  { rewrite floor_page, ceil_page by lia. lia. }
  rewrite !floor_page, !ceil_page by lia. intros a1 owned1 x1 Ha1 G1.
  pose proof (gr_free _ _ _ _ _ _ _ _ G1) as Hfr1.
  eapply (wp_grow lo owned x); [exact G1|lia|lia|done|rewrite floor_page, ceil_page; lia| | |].
  { rewrite floor_page, ceil_page by lia. intros v Hv. split; [|lia]. apply Hun. lia. }
  { rewrite floor_page, ceil_page by lia. lia. }
  rewrite !floor_page, !ceil_page by lia. intros a2 owned2 x2 Ha2 G2.
  replace (2 ^ 27 - 1 - t) with (2 ^ 27 - 2 - t + 1) in * by lia.
  replace (0 + 3 * (b + 3 * t + 2 - (b + 3 * t)) + 3 * (2 ^ 27 - 2 - t + 1 - (2 ^ 27 - 2 - t))) with 9 in * by lia.
  by apply (HQ a1 a2 owned2 x2).
Qed.

Lemma wp_dealloc_user_res lo base n t owned0 owned x0 x a1 a2 P b (Q : unit → Space → Prop) :
  let r := {| tid := t; ustack_base := base |} in
  ms_inv lo owned0 (sp_mm x0) (sp_ms x0) → nonempty_areas (sp_ms x0) → fits base n → 0 <= t < n →
  (∀ v, ustack_lo r <= v < ustack_lo r + 2 ∨ v = trap_cx_page r →
    mapping (mem (sp_mm x0)) (page_table (sp_ms x0)) v = None) →
  res_areas r a1 a2 → grown lo owned0 x0 [a1; a2] P b owned x →
  (∀ owned' x', grown lo owned0 x0 [] (λ v, (P v ∧ ¬ ustack_lo r <= v < ustack_lo r + 2) ∧
     ¬ trap_cx_page r <= v < trap_cx_page r + 1) b owned' x' → Q tt x') →
  wp (dealloc_user_res r) Q x.
Proof.
  intros r Hi Hne Hf Ht Hun [Ha1 Ha2] G HQ.
  destruct (res_addresses base n t Hf Ht) as (bb & Hb & Hb0 & Hlt & Ht2 & H1 & H2 & H3 & H4).
  unfold ustack_lo, trap_cx_page in *. cbn [tid ustack_base r] in *.
  rewrite H1, H3, !floor_page in *. unfold dealloc_user_res. cbn [tid ustack_base r]. rewrite H1, H3.
  rewrite !page_num_of_page. wp_steps. eapply wp_lift_result; [done|]. wp_steps.
  eapply wp_shrink; [exact G|done|done|exact Ha1|lia|intros v Hv; apply Hun; by left|].
  intros owned1 x1 G1. wp_steps. eapply wp_lift_result; [done|].
  eapply wp_shrink; [exact G1|done|done|exact Ha2|lia|intros v Hv; apply Hun; right; lia|].
  intros owned2 x2 G2. by apply (HQ owned2).
Qed.

(** The trap context of a thread is where its page is mapped. *)
Lemma res_trap_cx_ppn_ok base n t x f fl : fits base n → 0 <= t < n →
  let r := {| tid := t; ustack_base := base |} in
  mapping (mem (sp_mm x)) (page_table (sp_ms x)) (trap_cx_page r) = Some (f, fl) →
  res_trap_cx_ppn r x = Ok (f, x).
Proof.
  intros Hf Ht r Hm. destruct (res_addresses base n t Hf Ht) as (b & Hb & Hb0 & Hlt & Ht2 & H1 & H2 & H3 & H4).
  unfold trap_cx_page in Hm. cbn [tid r] in Hm. rewrite H3, floor_page in Hm.
  destruct (mapping_translate _ _ _ _ _ Hm) as (pte & Hpte & <-).
  unfold res_trap_cx_ppn, mbind, M_bind, get, lift_result. cbn [tid r]. rewrite H3, page_num_of_page.
  unfold ms_translate. by rewrite Hpte.
Qed.

Definition same_mapping (x x' : Space) : Prop := ∀ v, 0 <= v < 2 ^ 27 →
  mapping (mem (sp_mm x')) (page_table (sp_ms x')) v = mapping (mem (sp_mm x)) (page_table (sp_ms x)) v.

Lemma wp_drop_user_res lo base n t owned live x0 x a1 a2 b owned1 :
  let r := {| tid := t; ustack_base := base |} in
  ms_inv lo owned (sp_mm x0) (sp_ms x0) → nonempty_areas (sp_ms x0) → fits base n → 0 <= t < n →
  (∀ v, ustack_lo r <= v < ustack_lo r + 2 ∨ v = trap_cx_page r →
    mapping (mem (sp_mm x0)) (page_table (sp_ms x0)) v = None) →
  rc_ok (sp_ids x) ({[t]} ∪ live) → t ∉ live → sp_ids x0 = sp_ids x →
  res_areas r a1 a2 →
  grown lo owned x0 [a1; a2] (λ v, (False ∨ ustack_lo r <= v < ustack_lo r + 2) ∨
    trap_cx_page r <= v < trap_cx_page r + 1) b owned1 x →
  wp (drop_user_res r) (λ _ x2, ∃ owned2, ms_inv lo owned2 (sp_mm x2) (sp_ms x2) ∧
    areas (sp_ms x2) = areas (sp_ms x0) ∧ rc_ok (sp_ids x2) live ∧ same_mapping x0 x2 ∧
    (∀ f, f ∈ owned2 ↔ f ∈ owned ∨ f ∈ frames (page_table (sp_ms x2)))) x.
Proof.
  intros r Hi Hne Hf Ht Hun Hids Hnl Hx0 Hra G. unfold drop_user_res, dealloc_tid. wp_steps. apply wp_zoom.
  unfold wp at 1. cbn [tid r]. rewrite (rc_dealloc_eq _ _ _ Hids), decide_True by (lia || set_solver).
  assert (t ∈ {[t]} ∪ live) as Hin by set_solver. pose proof (rc_dealloc_ok _ _ _ Hids Hin) as Hids'.
  set (a' := {| rc_current := rc_current (sp_ids x); rc_recycled := rc_recycled (sp_ids x) ++ [t] |}) in *.
  assert (grown lo owned (upd_ids a' x0) [a1; a2] (λ v, (False ∨ ustack_lo r <= v < ustack_lo r + 2) ∨
    trap_cx_page r <= v < trap_cx_page r + 1) b owned1 (upd_ids a' x)) as G' by (destruct G; split; done).
  eapply (wp_dealloc_user_res lo base n t owned owned1 (upd_ids a' x0)); [done..|].
  intros owned2 x2 [G1 G2 G3 G4 G5 G6 G7 G8 G9 G10 G11 G12]. exists owned2. split_and!.
  - done.
  - by rewrite G4, app_nil_r.
  - rewrite G3. simpl. replace live with (({[t]} ∪ live) ∖ {[t]}); [done|].
    apply set_eq. intros y. rewrite elem_of_difference, elem_of_union, elem_of_singleton.
    destruct (decide (y = t)) as [->|?]; tauto.
  - intros v Hv. apply G10; [done|]. tauto.
  - intros f. rewrite G8. setoid_rewrite elem_of_nil. naive_solver.
Qed.

(** ** Properties *)

(** Identifiers (of processes, of the threads of a process, of kernel stacks)
    are unique: in every history of allocations and returns no identifier is held
    twice, a new one is not held by anybody, and returning an identifier is
    accepted exactly if it is held. *)
Theorem ids_never_shared a ids :
  rtc id_step (RecycleAllocator_new, []) (a, ids) → rc_current a < 2 ^ 64 - 1 →
  NoDup ids ∧
  (∃ id a', rc_alloc a = Ok (id, a') ∧ id ∉ ids ∧ 0 <= id <= rc_current a) ∧
  (∀ id, 0 <= id → (∃ a', rc_dealloc id a = Ok (tt, a')) ↔ id ∈ ids).
Proof.
  intros Hr Hb. destruct (id_reach_ok _ Hr) as [Hnd Hok]. simpl in *. split; [done|]. split.
  - destruct (wp_ok _ _ _ (wp_rc_alloc a _ (λ i b, i ∉ ids ∧ 0 <= i <= rc_current a) Hok Hb
      (λ i b _ H2 H3 _ _, conj (λ H, H2 (proj2 (elem_of_list_to_set i ids) H)) H3))) as (i & b & ? & ? & ?).
    by exists i, b.
  - intros id Hid. rewrite (rc_dealloc_eq _ _ _ Hok Hid).
    case_decide as Hin; rewrite elem_of_list_to_set in Hin; naive_solver.
Qed.

(** The stacks and trap contexts cannot overlap.  Kernel stacks of different
    ids occupy disjoint pages of the kernel space, none of them the trampoline,
    and the page below each of them belongs to no kernel stack (the guard page).
    In a process whose user stacks fit below the trap contexts, the user stacks and
    trap contexts of its threads are pairwise disjoint and avoid the trampoline. *)
Theorem stacks_disjoint :
  (∀ i j v, 0 <= i < 2 ^ 25 → 0 <= j < 2 ^ 25 → kstack_lo i <= v < kstack_hi i →
     v ≠ TRAMPOLINE_VPN ∧ 0 < kstack_lo i ∧ ¬ (kstack_lo j <= kstack_lo i - 1 < kstack_hi j) ∧
     (kstack_lo j <= v < kstack_hi j → i = j)) ∧
  (∀ base n t u v, fits base n → 0 <= t < n → 0 <= u < n →
     let r t := {| tid := t; ustack_base := base |} in
     trap_cx_page (r t) ≠ TRAMPOLINE_VPN ∧
     (trap_cx_page (r t) = trap_cx_page (r u) → t = u) ∧
     (ustack_lo (r t) <= v < ustack_lo (r t) + 2 →
        v ≠ TRAMPOLINE_VPN ∧ v ≠ trap_cx_page (r u) ∧
        (ustack_lo (r u) <= v < ustack_lo (r u) + 2 → t = u))).
Proof.
  assert (TRAMPOLINE_VPN = 2 ^ 27 - 1) as Htr by reflexivity. rewrite Htr. split.
  - intros i j v Hi Hj. destruct (kstack_pages i Hi) as [-> ->], (kstack_pages j Hj) as [-> ->].
    lia.
  - intros base n t u v Hf Ht Hu. cbv zeta.
    destruct (res_pages base n t Hf Ht) as (-> & -> & Ht0 & Ht1).
    destruct (res_pages base n u Hf Hu) as (-> & -> & Hu0 & Hu1).
    destruct Hf as (? & ? & Hfit). unfold USER_STACK_SIZE, PAGE_SIZE in *. zdiv.
Qed.

(** The resources of a thread, from creation to exit.  [TaskUserRes::new]
    picks an unused thread id and maps a zeroed user stack (accessible to the user)
    and a zeroed trap context (not accessible to the user) in fresh frames,
    [trap_cx_ppn] finds the latter, and no other page is affected; dropping the
    resources later returns the id and the frames and restores the mapping of the
    address space, so that only page-table frames stay allocated. *)
Theorem thread_res_lifecycle lo base n owned live x :
  thread_space lo base n owned live x → 9 <= nfree (fa (sp_mm x)) → rc_current (sp_ids x) < 2 ^ 64 - 1 →
  ∃ r x1 owned1, TaskUserRes_new base true x = Ok (r, x1) ∧
    tid r ∉ live ∧ ustack_base r = base ∧ ms_inv lo owned1 (sp_mm x1) (sp_ms x1) ∧
    rc_ok (sp_ids x1) ({[tid r]} ∪ live) ∧
    (∀ v, ustack_lo r <= v < ustack_lo r + 2 → ∃ f, f ∉ owned ∧ page_of (mem (sp_mm x1)) f = ∅ ∧
       mapping (mem (sp_mm x1)) (page_table (sp_ms x1)) v = Some (f, Z.lor perm_ustack PTE_V)) ∧
    (∃ f, f ∉ owned ∧ page_of (mem (sp_mm x1)) f = ∅ ∧ res_trap_cx_ppn r x1 = Ok (f, x1) ∧
       mapping (mem (sp_mm x1)) (page_table (sp_ms x1)) (trap_cx_page r) =
         Some (f, Z.lor perm_trap_cx PTE_V)) ∧
    (∀ v, 0 <= v < 2 ^ 27 → ¬ (ustack_lo r <= v < ustack_lo r + 2) → v ≠ trap_cx_page r →
       mapping (mem (sp_mm x1)) (page_table (sp_ms x1)) v =
       mapping (mem (sp_mm x)) (page_table (sp_ms x)) v) ∧
    ∃ x2 owned2, drop_user_res r x1 = Ok (tt, x2) ∧ ms_inv lo owned2 (sp_mm x2) (sp_ms x2) ∧
      areas (sp_ms x2) = areas (sp_ms x) ∧ rc_ok (sp_ids x2) live ∧ same_mapping x x2 ∧
      (∀ f, f ∈ owned2 ↔ f ∈ owned ∨ f ∈ frames (page_table (sp_ms x2))).
Proof.
  intros [Hi Hne Hids Hmore Hf Hun] Hfree Hb.
  destruct (wp_ok _ _ _ (wp_rc_alloc (sp_ids x) live
    (λ t a', rc_ok a' ({[t]} ∪ live) ∧ t ∉ live ∧ 0 <= t <= rc_current (sp_ids x)) Hids Hb
    (λ t a' H1 H2 H3 _ _, conj H1 (conj H2 H3)))) as (t & a' & Ea & Hids' & Hnl & Ht).
  assert (0 <= t < n) as Htn by lia. set (r := {| tid := t; ustack_base := base |}).
  assert (∀ v, ustack_lo r <= v < ustack_lo r + 2 ∨ v = trap_cx_page r →
    mapping (mem (sp_mm x)) (page_table (sp_ms x)) v = None) as Hun' by (intros v; by apply (Hun t v Htn Hnl)).
  destruct (wp_ok (alloc_user_res r) (λ _ x', ∃ a1 a2 owned', res_areas r a1 a2 ∧
     grown lo owned (upd_ids a' x) [a1; a2] (λ v, (False ∨ ustack_lo r <= v < ustack_lo r + 2) ∨
       trap_cx_page r <= v < trap_cx_page r + 1) 9 owned' x') (upd_ids a' x))
    as ([] & x1 & E1 & a1 & a2 & owned1 & Hra & G).
  { eapply (wp_alloc_user_res lo base n t owned); [done..|]. intros a1 a2 owned' x' Hra G. eauto 10. }
  exists r, x1, owned1. pose proof (gr_ids _ _ _ _ _ _ _ _ G) as Hx1. simpl in Hx1.
  destruct (grown_area_pages _ _ _ _ _ _ _ _ a2 _ _ _ (trap_cx_page r) G ltac:(set_solver) (proj2 Hra) ltac:(lia))
    as (f & Hm & Hfo & Hfz).
  split_and!.
  - unfold TaskUserRes_new, mbind, M_bind, zoom. rewrite Ea. fold r. by rewrite E1.
  - done.
  - done.
  - apply G.
  - by rewrite Hx1.
  - intros v Hv. destruct (grown_area_pages _ _ _ _ _ _ _ _ a1 _ _ _ v G ltac:(set_solver) (proj1 Hra) Hv)
      as (g & ? & ? & ?). by exists g.
  - exists f. split_and!; try done. by apply (res_trap_cx_ppn_ok base n t x1 f (Z.lor perm_trap_cx PTE_V)).
  - intros v Hv Hn1 Hn2. apply (gr_mapping _ _ _ _ _ _ _ _ G); [done|lia].
  - destruct (wp_ok _ _ _ (wp_drop_user_res lo base n t owned live (upd_ids a' x) x1 a1 a2 9 owned1 Hi Hne Hf Htn
      Hun' ltac:(by rewrite Hx1) Hnl ltac:(by rewrite Hx1) Hra G)) as ([] & x2 & E2 & owned2 & ?).
    by exists x2, owned2.
Qed.

Lemma wp_kstack_alloc lo owned live x (Q : Z → Space → Prop) :
  ms_inv lo owned (sp_mm x) (sp_ms x) → nonempty_areas (sp_ms x) → rc_ok (sp_ids x) live →
  rc_current (sp_ids x) < 2 ^ 25 → 6 <= nfree (fa (sp_mm x)) →
  (∀ id v, 0 <= id < 2 ^ 25 → id ∉ live → kstack_lo id <= v < kstack_hi id →
     mapping (mem (sp_mm x)) (page_table (sp_ms x)) v = None) →
  (∀ id a x' owned', id ∉ live → 0 <= id < 2 ^ 25 →
     is_area a (kstack_lo id) (kstack_hi id) perm_trap_cx → rc_ok (sp_ids x') ({[id]} ∪ live) →
     grown lo owned (upd_ids (sp_ids x') x) [a] (λ v, False ∨ kstack_lo id <= v < kstack_hi id) 6 owned' x' →
     Q id x') →
  wp kstack_alloc Q x.
Proof.
  intros Hi Hne Hids Hb Hfree Hun HQ. unfold kstack_alloc. wp_steps. apply wp_zoom.
  eapply wp_rc_alloc; [done|lia|]. intros id a' Hids' Hnl Hid _ _. assert (0 <= id < 2 ^ 25) as Hid' by lia.
  specialize (Hun id). specialize (HQ id).
  destruct (kernel_stack_position_eq id Hid') as [H1 H2]. destruct (kstack_pages id Hid') as [Hlo Hhi].
  rewrite Hhi, Hlo in *. set (k := 2 ^ 27 - 3 - 3 * id) in *.
  replace (2 ^ 27 - 1 - 3 * id) with (k + 2) in H2 by lia.
  destruct (kernel_stack_position id) as [bot top]. cbn [fst snd] in *. rewrite H1, H2. wp_steps.
  eapply (wp_grow lo owned (upd_ids a' x)); [by apply grown_refl|lia|lia|done|..];
    rewrite !floor_page, !ceil_page by lia; [lia| |simpl; lia|].
  { intros v Hv. split; [by apply Hun|tauto]. }
  intros a owned' x' Ha G. wp_steps. pose proof (gr_ids _ _ _ _ _ _ _ _ G) as Hx. simpl in Hx.
  apply (HQ a x' owned'); [done|done|done|by rewrite Hx|]. rewrite Hx.
  by replace (0 + 3 * (k + 2 - k)) with 6 in G by lia.
Qed.

(** A kernel stack, from [kstack_alloc] to its [Drop]: two zeroed pages for
    the kernel only are mapped at the place of a fresh id and nothing else
    changes; [Drop] unmaps them again and returns their frames.  It does not return
    the id: the allocator is left as it was, so an id is never reused. *)
Theorem kstack_lifecycle lo owned live x :
  ms_inv lo owned (sp_mm x) (sp_ms x) → nonempty_areas (sp_ms x) → rc_ok (sp_ids x) live →
  rc_current (sp_ids x) < 2 ^ 25 → 6 <= nfree (fa (sp_mm x)) →
  (∀ id v, 0 <= id < 2 ^ 25 → id ∉ live → kstack_lo id <= v < kstack_hi id →
     mapping (mem (sp_mm x)) (page_table (sp_ms x)) v = None) →
  ∃ id x1, kstack_alloc x = Ok (id, x1) ∧ id ∉ live ∧
    (∀ v, kstack_lo id <= v < kstack_hi id → ∃ f, f ∉ owned ∧ page_of (mem (sp_mm x1)) f = ∅ ∧
       mapping (mem (sp_mm x1)) (page_table (sp_ms x1)) v = Some (f, Z.lor perm_trap_cx PTE_V)) ∧
    (∀ v, 0 <= v < 2 ^ 27 → ¬ (kstack_lo id <= v < kstack_hi id) →
       mapping (mem (sp_mm x1)) (page_table (sp_ms x1)) v =
       mapping (mem (sp_mm x)) (page_table (sp_ms x)) v) ∧
    ∃ x2, drop_kstack id x1 = Ok (tt, x2) ∧ same_mapping x x2 ∧ areas (sp_ms x2) = areas (sp_ms x) ∧
      rc_ok (sp_ids x2) ({[id]} ∪ live).
Proof.
  intros Hi Hne Hids Hb Hfree Hun.
  destruct (wp_ok kstack_alloc (λ id x1, id ∉ live ∧ 0 <= id < 2 ^ 25 ∧ rc_ok (sp_ids x1) ({[id]} ∪ live) ∧
    ∃ a owned1, is_area a (kstack_lo id) (kstack_hi id) perm_trap_cx ∧
      grown lo owned (upd_ids (sp_ids x1) x) [a] (λ v, False ∨ kstack_lo id <= v < kstack_hi id) 6 owned1 x1) x)
    as (id & x1 & E1 & Hnl & Hid & Hids' & a & owned1 & Ha & G).
  { eapply wp_kstack_alloc; [done..|]. intros id a x' owned' ? ? ? ? ?. eauto 10. }
  destruct (kernel_stack_position_eq id Hid) as [H1 _]. destruct (kstack_pages id Hid) as [Hlo Hhi].
  exists id, x1. split_and!; [done|done| | |].
  - intros v Hv. destruct (grown_area_pages _ _ _ _ _ _ _ _ a _ _ _ v G ltac:(set_solver) Ha Hv) as (g & ? & ? & ?).
    by exists g.
  - intros v Hv Hn. apply (gr_mapping _ _ _ _ _ _ _ _ G); [done|tauto].
  - destruct (wp_ok (drop_kstack id) (λ _ x2, ∃ P owned2,
      grown lo owned (upd_ids (sp_ids x1) x) [] P 6 owned2 x2 ∧ ∀ v, ¬ P v) x1)
      as ([] & x2 & E2 & P & owned2 & G2 & HP).
    { unfold drop_kstack. destruct (kernel_stack_position id) as [bot top]. cbn [fst snd] in H1.
      rewrite H1, page_num_of_page, <- Hlo. wp_steps. eapply wp_lift_result; [done|].
      eapply (wp_shrink lo owned (upd_ids (sp_ids x1) x)); [exact G|done|done|exact Ha|lia| |].
      - intros v Hv. by apply (Hun id).
      - intros owned2 x2 G2. eexists _, owned2. split; [exact G2|]. simpl. tauto. }
    exists x2. destruct G2 as [_ _ G3 G4 _ _ _ _ _ G10 _ _]. split_and!; [done| |by rewrite G4, app_nil_r|].
    + intros v Hv. by apply G10.
    + by rewrite G3.
Qed.

(** ** Witnesses *)

Definition demo_space : Space := {| sp_mm := demo_mm; sp_ms := demo_ms; sp_ids := RecycleAllocator_new |}.

Lemma demo_fits : fits 0x10000 4.
Proof. unfold fits, PAGE_SIZE, USER_STACK_SIZE. split_and!; (done || lia). Qed.

Lemma ids_never_shared_witness : NoDup [0] ∧ ∃ id a', rc_alloc {| rc_current := 1; rc_recycled := [] |} = Ok (id, a') ∧ id ∉ [0].
Proof.
  destruct (ids_never_shared {| rc_current := 1; rc_recycled := [] |} [0]) as (Hnd & (id & a' & ? & ? & _) & _).
  - apply rtc_once. by constructor.
  - done.
  - split; [done|]. by exists id, a'.
Defined.

Lemma thread_res_lifecycle_witness : ∃ r x1, TaskUserRes_new 0x10000 true demo_space = Ok (r, x1).
Proof.
  destruct (thread_res_lifecycle 0x80500 0x10000 4 {[0x80500]} ∅ demo_space) as (r & x1 & _ & E & _).
  - split; [apply demo_ms_inv|by intros a ?%elem_of_nil|apply rc_new_ok|done|apply demo_fits|].
    intros t v _ _ r _. apply demo_inv.
  - by vm_compute.
  - done.
  - by exists r, x1.
Defined.

Lemma kstack_lifecycle_witness : ∃ id x1 x2, kstack_alloc demo_space = Ok (id, x1) ∧ drop_kstack id x1 = Ok (tt, x2).
Proof.
  destruct (kstack_lifecycle 0x80500 {[0x80500]} ∅ demo_space) as (id & x1 & E & _ & _ & _ & x2 & E2 & _).
  - apply demo_ms_inv.
  - by intros a ?%elem_of_nil.
  - apply rc_new_ok.
  - done.
  - by vm_compute.
  - intros id v _ _ _. apply demo_inv.
  - by exists id, x1, x2.
Defined.
