(* ===== verification/KernelSpace.v ===== *)
(** * The address space of the kernel

    [MemorySet::new_kernel] and [remap_test] ([os/src/mm/memory_set.rs]) and
    [mm::init] ([os/src/mm/mod.rs]): the sections of the kernel, the free memory
    and the devices are mapped to themselves.  The definitions of [MemorySet] are
    used; [activate] (the write to [satp]) and the heap are left out. *)

From S2P Require Import Prelude Address FrameAllocator PageTable MemorySet TaskId.

(** ** Mapping pages to themselves

    A page costs at most two tables, and none when the page before it is in the
    same leaf table: an area costs two frames for each table it touches. *)

(** The leaf tables that the pages from [l] to [r] are in. *)
Definition leaf_tables (l r : Z) : Z := if decide (l < r) then (r - 1) / 512 - l / 512 + 1 else 0.

Lemma leaf_tables_step l x : l <= x →
  leaf_tables l (x + 1) = leaf_tables l x + (if decide (l < x ∧ (x - 1) / 512 = x / 512) then 0 else 1).
Proof.
  intros Hx. unfold leaf_tables. replace (x + 1 - 1) with x by lia. rewrite (decide_True (P := l < x + 1)) by lia.
  destruct (decide (l < x)) as [Hlt|Hge].
  - destruct (decide ((x - 1) / 512 = x / 512)) as [E|E].
    + rewrite decide_True by done. lia.
    + rewrite decide_False by tauto. revert E. clear. intros. zdiv.
  - rewrite decide_False by tauto. assert (x = l) as -> by lia. lia.
Qed.

Lemma leaf_tables_nonneg l r : 0 <= leaf_tables l r.
Proof. unfold leaf_tables. case_decide as H; [|done]. revert H. clear. intros. zdiv. Qed.

Lemma leaf_tables_mono l x r : l <= x <= r → leaf_tables l x <= leaf_tables l r.
Proof. unfold leaf_tables. intros H. destruct (decide (l < x)), (decide (l < r)); try lia; zdiv. Qed.

Section identical.
Context (lo : Z) (owned : gset Z) (s : MM) (pt : PageTable) (a : MapArea).
Context (Hinv : pt_inv lo owned s pt) (Hwf : area_wf a) (Hty : map_type a = Identical).
Context (Hun : ∀ v, v ∈ area_pages a → mapping (mem s) pt v = None).
Let l := range_l (vpn_range a).

(** The state after the pages from [l] to [x]. *)
Record identical_to (x : Z) (T : gmap Z Z) (owned' : gset Z) (s' : MM) (pt' : PageTable) : Prop := {
  it_mapped : area_mapped lo (map_perm a) owned s pt T ∅ owned' s' pt';
  it_same : ∀ v f, T !! v = Some f → f = v;
  it_dom : ∀ v, is_Some (T !! v) ↔ l <= v < x;
  it_free : nfree (fa s) - 2 * leaf_tables l x <= nfree (fa s')
}.

Lemma wp_map_page x T owned1 s1 pt1 (Q : PageTable → MM → Prop) : l <= x < range_r (vpn_range a) →
  identical_to x T owned1 s1 pt1 → 2 * leaf_tables l (x + 1) <= nfree (fa s) →
  (∀ owned2 s2 pt2, identical_to (x + 1) (<[x := x]> T) owned2 s2 pt2 → Q pt2 s2) →
  wp (map pt1 x x (map_perm a)) Q s1.
Proof.
  intros Hx [Hm Hs Ht Hf] Hfree HQ. destruct Hwf as (W1 & W2 & W3). fold l in W1.
  assert (T !! x = None) as HT by (apply eq_None_not_Some; intros ?%Ht; lia).
  assert (mapping (mem s1) pt1 x = None) as Hnone.
  { rewrite (am_mapping _ _ _ _ _ _ _ _ _ _ Hm), HT by lia. by apply Hun, elem_of_area_pages. }
  rewrite (leaf_tables_step l x) in Hfree by lia.
  assert (∀ T' owned2 s2 pt2, area_mapped lo (map_perm a) owned s pt T' ∅ owned2 s2 pt2 → T' = <[x := x]> T →
    nfree (fa s) - 2 * leaf_tables l (x + 1) <= nfree (fa s2) → identical_to (x + 1) T' owned2 s2 pt2) as Hnext.
  { intros T' owned2 s2 pt2 Hm2 -> Hf2. split; [done| | |done].
    - intros v f [[<- <-]|[_ ?]]%lookup_insert_Some; eauto.
    - intros v. rewrite lookup_insert_is_Some', Ht. lia. }
  rewrite (leaf_tables_step l x) in Hnext by lia.
  destruct (decide (l < x ∧ (x - 1) / 512 = x / 512)) as [[Hlt Hnear]|_].
  - destruct (proj2 (Ht (x - 1)) ltac:(lia)) as [f Hf'].
    eapply (wp_map_near lo owned1 s1 pt1 x (x - 1)); [apply Hm| |done|lia|lia|done|done|].
    { rewrite (am_mapping _ _ _ _ _ _ _ _ _ _ Hm), Hf' by lia. done. }
    intros s2 Hinv2 Hext Hfa Hm2. apply (HQ owned1), Hnext; [|done|rewrite Hfa; lia].
    apply (area_mapped_page lo (map_perm a) owned s pt T ∅ owned1 s1 pt1 x x ∅ owned1 s1 owned1 s2 pt1); try done; [|by rewrite Hfa; lia].
    left. split_and!; done || lia.
  - eapply (wp_map lo owned1 s1 pt1); [apply Hm|lia|lia|lia|done|done|].
    intros owned2 s2 pt2 Hinv2 Hext Hn Hm2. apply (HQ owned2), Hnext; [|done|lia].
    apply (area_mapped_page lo (map_perm a) owned s pt T ∅ owned1 s1 pt1 x x ∅ owned1 s1 owned2 s2 pt2); try done.
    left. split_and!; done || lia.
Qed.

Lemma wp_map_identical (Q : MapArea * PageTable → MM → Prop) :
  2 * leaf_tables l (range_r (vpn_range a)) <= nfree (fa s) →
  (∀ T owned' s' pt', identical_to (range_r (vpn_range a)) T owned' s' pt' → Q (a, pt') s') →
  wp (area_map a pt) Q s.
Proof.
  intros Hfree HQ. unfold area_map. pose proof Hwf as (W1 & W2 & W3). fold l in W1.
  rewrite range_items_seqZ by (fold l; lia). fold l.
  eapply wp_mono; [apply (wp_fold_m (λ pre st s', ∃ T owned', st.1 = a ∧ identical_to (l + lengthZ pre) T owned' s' st.2))|].
  - exists ∅, owned. split; [done|]. unfold lengthZ. simpl. rewrite Z.add_0_r.
    split; [by apply area_mapped_refl|by intros v f ?%lookup_empty_Some| |].
    + intros v. rewrite lookup_empty. split; [by intros []|lia].
    + unfold leaf_tables. rewrite decide_False by lia. lia.
  - intros pre x post [a1 pt1] s1 Hp (T & owned1 & Ha & Hit). cbn [fst snd] in *. subst a1.
    assert (x = l + lengthZ pre ∧ l + lengthZ pre < range_r (vpn_range a)) as [-> Hx].
    { assert (seqZ l (range_r (vpn_range a) - l) !! length pre = Some x) as Hl by (by rewrite Hp, list_lookup_middle).
      apply lookup_seqZ in Hl. unfold lengthZ. lia. }
    pose proof (lengthZ_nonneg pre) as Hpos. unfold map_one. rewrite Hty. wp_steps. cbn [fst snd].
    eapply wp_unwrap; [by apply from_bits_PTE|]. wp_steps.
    eapply (wp_map_page _ T owned1); [lia|done| |].
    { pose proof (leaf_tables_mono l (l + lengthZ pre + 1) (range_r (vpn_range a)) ltac:(lia)). lia. }
    intros owned2 s2 pt2 Hit2. wp_steps. eexists _, owned2. split; [done|].
    replace (l + lengthZ (pre ++ [l + lengthZ pre])) with (l + lengthZ pre + 1) by (unfold lengthZ; rewrite length_app; simpl; lia).
    exact Hit2.
  - intros [a' pt'] s' (T & owned' & Ha & Hit). cbn [fst snd] in *. subst a'. apply (HQ T owned').
    replace (range_r (vpn_range a)) with (l + lengthZ (seqZ l (range_r (vpn_range a) - l))); [done|].
    unfold lengthZ. rewrite length_seqZ. lia.
Qed.
End identical.

(** ** The sections *)

Abbreviation section := (Z * Z * Z)%type.
Definition sec_lo (sec : section) : Z := floor (VirtAddr_from sec.1.1).
Definition sec_hi (sec : section) : Z := ceil (VirtAddr_from sec.1.2).

Definition sec_ok (sec : section) : Prop := 0 <= sec_lo sec < sec_hi sec ∧ sec_hi sec <= TRAMPOLINE_VPN ∧ 0 <= sec.2 < 256.
Definition apart (p q : section) : Prop := sec_hi p <= sec_lo q ∨ sec_hi q <= sec_lo p.

(** The leaf tables that the sections touch. *)
Definition sec_tables (secs : list section) : Z := foldr (λ sec n, leaf_tables (sec_lo sec) (sec_hi sec) + n) 0 secs.

Lemma sec_tables_app l l' : sec_tables (l ++ l') = sec_tables l + sec_tables l'.
Proof. unfold sec_tables. induction l as [|sec l IH]; simpl; [done|]. rewrite IH. lia. Qed.

Lemma sec_tables_nonneg l : 0 <= sec_tables l.
Proof. unfold sec_tables. induction l as [|sec l IH]; simpl; [done|]. pose proof (leaf_tables_nonneg (sec_lo sec) (sec_hi sec)). lia. Qed.

(** The space [ms] in which the sections [secs] are mapped; [s] is the memory
    before the first table was taken. *)
Record kernel_mapped (lo : Z) (owned : gset Z) (s : MM) (tramp : Z) (secs : list section)
    (ms : MemorySet) (owned' : gset Z) (s' : MM) : Prop := {
  km_inv : ms_inv lo owned' s' ms;
  km_areas : nonempty_areas ms;
  km_sections : ∀ sec v, sec ∈ secs → sec_lo sec <= v < sec_hi sec →
     mapping (mem s') (page_table ms) v = Some (v, Z.lor sec.2 PTE_V);
  km_trampoline : mapping (mem s') (page_table ms) TRAMPOLINE_VPN = Some (tramp, Z.lor (Z.lor PTE_R PTE_X) PTE_V);
  km_unmapped : ∀ v, 0 <= v < 2 ^ 27 → v ≠ TRAMPOLINE_VPN → (∀ sec, sec ∈ secs → ¬ (sec_lo sec <= v < sec_hi sec)) →
     mapping (mem s') (page_table ms) v = None;
  km_owned : ∀ x, x ∈ owned' ↔ x ∈ owned ∨ x ∈ frames (page_table ms);
  km_tables : ∀ x, x ∈ frames (page_table ms) → x ∉ owned;
  km_pages : ∀ x, x ∉ frames (page_table ms) → page_of (mem s') x = page_of (mem s) x;
  km_free : nfree (fa s) - 3 - 2 * sec_tables secs <= nfree (fa s');
  km_end : end_ (fa s') = end_ (fa s)
}.

Lemma wp_push_identical lo owned s tramp pre sec ms1 owned1 s1 (Q : MemorySet → MM → Prop) :
  kernel_mapped lo owned s tramp pre ms1 owned1 s1 → sec_ok sec → (∀ p, p ∈ pre → sec_ok p ∧ apart p sec) →
  3 + 2 * sec_tables (pre ++ [sec]) <= nfree (fa s) →
  (∀ ms2 owned2 s2, kernel_mapped lo owned s tramp (pre ++ [sec]) ms2 owned2 s2 → Q ms2 s2) →
  wp (push_identical ms1 sec) Q s1.
Proof.
  intros [K1 K2 K3 K4 K5 K6 K7 K8 K9 K10] (S1 & S2 & S3) Hpre Hfree HQ. rewrite sec_tables_app in Hfree.
  unfold sec_tables at 2 in Hfree. cbn [foldr] in Hfree. rewrite Z.add_0_r in Hfree.
  destruct sec as [[start end'] perm]. cbn [snd] in S3. unfold push_identical.
  set (sec := (start, end', perm)) in *. assert (TRAMPOLINE_VPN = 2 ^ 27 - 1) as Htv by done.
  set (a := {| vpn_range := {| range_l := sec_lo sec; range_r := sec_hi sec |}; data_frames := ∅; map_type := Identical; map_perm := perm |}).
  wp_steps. eapply (wp_lift_result _ a).
  { unfold MapArea_new, SimpleRange_new. change (floor (VirtAddr_from start)) with (sec_lo sec). change (ceil (VirtAddr_from end')) with (sec_hi sec).
    rewrite (proj2 (Z.leb_le _ _)) by lia. done. }
  assert (area_wf a) as Hwf by (split_and!; simpl; lia).
  assert (∀ v, v ∈ area_pages a ↔ sec_lo sec <= v < sec_hi sec) as Hpg by (intros v; by apply (elem_of_area_pages a)).
  assert (∀ v, v ∈ area_pages a → mapping (mem s1) (page_table ms1) v = None) as Hun.
  { intros v Hv%Hpg. apply K5; [lia|lia|]. intros p Hp Hv'. destruct (Hpre p Hp) as [_ [?|?]]; lia. }
  unfold push. wp_steps. eapply (wp_map_identical lo owned1 s1 (page_table ms1) a); [apply K1|done|done|done| |].
  { cbn [a vpn_range range_l range_r]. lia. }
  intros T owned2 s2 pt2 [Ham Hsame Hdom Hf]. cbn [a vpn_range range_l range_r] in Hdom, Hf. wp_steps. cbn [fst snd]. apply (HQ _ owned2).
  assert (∀ v, is_Some (T !! v) ↔ v ∈ area_pages a) as HT by (intros v; by rewrite Hdom, Hpg).
  pose proof (ms_inv_push _ _ _ _ _ _ _ _ _ _ K1 Hwf Hun Ham (conj eq_refl Hsame) HT) as Hi.
  destruct Ham as [A1 A2 A3 A4 A5 A6 A7 A8 A9 A10 A11].
  assert (∀ x, x ∈ frames pt2 → x ∉ owned) as Hnew.
  { intros x Hx Ho. apply (K7 x); [|done]. apply A4; [done|]. apply K6. by left. }
  split; cbn [page_table areas].
  - exact Hi.
  - intros b [Hb|Hb%list_elem_of_singleton]%elem_of_app; [by apply K2|]. subst b. simpl. lia.
  - intros p v [Hp|Hp%list_elem_of_singleton]%elem_of_app Hv.
    + destruct (Hpre p Hp) as [(P1 & P2 & _) Hap]. rewrite A8 by lia.
      destruct (T !! v) as [f|] eqn:E; [|by apply K3]. assert (sec_lo sec <= v < sec_hi sec) by (apply Hdom; by eexists).
      destruct Hap; lia.
    + subst p. rewrite A8 by lia. destruct (proj2 (Hdom v) Hv) as [f Hf']. rewrite Hf'. by rewrite (Hsame v f Hf').
  - rewrite A8 by lia. destruct (T !! TRAMPOLINE_VPN) as [f|] eqn:E; [|done].
    assert (sec_lo sec <= TRAMPOLINE_VPN < sec_hi sec) by (apply Hdom; by eexists). lia.
  - intros v Hv Hne Hn. rewrite A8 by done. destruct (T !! v) as [f|] eqn:E.
    + destruct (Hn sec); [apply elem_of_app; right; by left|]. apply Hdom. by eexists.
    + apply K5; [done..|]. intros p Hp. apply Hn, elem_of_app. by left.
  - intros x. rewrite A5, K6. setoid_rewrite lookup_empty. pose proof (A3 x). clear -H. naive_solver.
  - exact Hnew.
  - intros x Hx. rewrite A9 by done. apply K8. intros Hx'. by apply Hx, A3.
  - rewrite sec_tables_app. unfold sec_tables at 2. cbn [foldr]. lia.
  - congruence.
Qed.

(** The space with the trampoline alone. *)
Lemma wp_kernel_bare lo s tramp (Q : MemorySet → MM → Prop) :
  fa_inv lo (fa s) ∅ → aligned (PhysAddr_from tramp) = true → 3 <= nfree (fa s) →
  (∀ ms owned' s', kernel_mapped lo ∅ s (floor (PhysAddr_from tramp)) [] ms owned' s' → Q ms s') →
  wp (ms ← new_bare; map_trampoline tramp ms) Q s.
Proof.
  intros Hfa Hal Hfree HQ. destruct (strampoline_ppn _ Hal) as [Hok Hr].
  unfold new_bare. wp_steps. eapply wp_PageTable_new; [done|lia|].
  intros p s1 Hp pt Hinv Hnone Hpg Hn He. wp_steps. unfold map_trampoline.
  wp_steps. eapply wp_lift_result; [exact trampoline_vpn_ok|]. wp_steps. eapply wp_lift_result; [exact Hok|].
  wp_steps. cbn [page_table areas].
  eapply wp_map; [done|lia|by vm_compute|done|by vm_compute|done|].
  intros owned' s' pt' Hinv' [E1 E2 E3 E4 E5 E6 E7] Hn' Hm. wp_steps. apply (HQ _ owned').
  assert (p ∈ frames pt') as Hpf by (apply E2; by left).
  split; cbn [page_table areas].
  - split; [done|..]; cbn [areas]; [by intros a ?%elem_of_nil|by intros a ?%elem_of_nil|intros i j a b v w f Ha|intros i j a b v Ha]; by rewrite lookup_nil in Ha.
  - by intros a ?%elem_of_nil.
  - by intros sec v ?%elem_of_nil.
  - rewrite Hm by (by vm_compute). by rewrite decide_True.
  - intros v Hv Hne _. rewrite Hm by done. by rewrite decide_False.
  - intros x. rewrite E3, elem_of_union, elem_of_singleton. split; [intros [[->|?]|?]|intros [?|?]]; auto.
  - intros x _. apply not_elem_of_empty.
  - intros x Hx. rewrite E5 by done. apply Hpg. by intros ->.
  - unfold sec_tables. cbn [foldr]. lia.
  - congruence.
Qed.

Lemma wp_bind_assoc {St A B C} (m : M St A) (f : A → M St B) (g : B → M St C) Q s :
  wp ((m ≫= f) ≫= g) Q s → wp (m ≫= λ a, f a ≫= g) Q s.
Proof. unfold wp, mbind, M_bind. by destruct (m s) as [[a s1]|]. Qed.

Lemma wp_new_kernel lo s k :
  fa_inv lo (fa s) ∅ → aligned (PhysAddr_from (strampoline k)) = true → (∀ sec, sec ∈ kernel_sections k → sec_ok sec) →
  (∀ i j p q, kernel_sections k !! i = Some p → kernel_sections k !! j = Some q → (i < j)%nat → apart p q) →
  3 + 2 * sec_tables (kernel_sections k) <= nfree (fa s) →
  wp (new_kernel k) (λ ms s', ∃ owned', kernel_mapped lo ∅ s (floor (PhysAddr_from (strampoline k))) (kernel_sections k) ms owned' s') s.
Proof.
  intros Hfa Hal Hok Hap Hfree. pose proof (sec_tables_nonneg (kernel_sections k)) as Hnn. unfold new_kernel.
  apply wp_bind_assoc. apply wp_bind. eapply wp_kernel_bare; [done|done|lia|]. intros ms owned' s' Hk.
  apply (wp_fold_m (λ pre ms s', ∃ owned', kernel_mapped lo ∅ s (floor (PhysAddr_from (strampoline k))) pre ms owned' s')); [by exists owned'|].
  intros pre sec post ms1 s1 Hsecs (owned1 & Hk1). eapply wp_push_identical; [exact Hk1| | | |eauto].
  - apply Hok. rewrite Hsecs. set_solver.
  - intros p Hp. split; [apply Hok; rewrite Hsecs; set_solver|]. apply list_elem_of_lookup in Hp as [i Hi].
    apply (Hap i (length pre)); [rewrite Hsecs; by apply lookup_app_l_Some|rewrite Hsecs; by apply list_lookup_middle|by eapply lookup_lt_Some].
  - rewrite Hsecs, (cons_middle sec), app_assoc, sec_tables_app in Hfree. pose proof (sec_tables_nonneg post). lia.
Qed.

(** ** The linker script *)

(** The symbols in the order of [linker-qemu.ld]: every section starts and ends
    at a page boundary, none is empty, the trampoline is in the text, and some
    memory is left behind the kernel. *)
Record linked (k : KernelLayout) : Prop := {
  lk_text : 0x80200000 <= stext k < etext k;
  lk_rodata : etext k <= srodata k < erodata k;
  lk_data : erodata k <= sdata k < edata k;
  lk_bss : edata k <= sbss_with_stack k < ebss k;
  lk_end : ebss k <= ekernel k ∧ ekernel k + 32 * PAGE_SIZE <= MEMORY_END;
  lk_trampoline : stext k <= strampoline k < etext k ∧ strampoline k mod PAGE_SIZE = 0;
  lk_aligned : Forall (λ x, x mod PAGE_SIZE = 0)
    [stext k; etext k; srodata k; erodata k; sdata k; edata k; sbss_with_stack k; ebss k; ekernel k]
}.

(** The page of an aligned address. *)
Lemma page_bounds x : 0 < x < 2 ^ 39 → x mod PAGE_SIZE = 0 →
  floor (VirtAddr_from x) = x / PAGE_SIZE ∧ ceil (VirtAddr_from x) = x / PAGE_SIZE.
Proof.
  intros Hx Hm. rewrite VirtAddr_from_mod, Z.mod_small by lia. split; [done|].
  pose proof (ceil_spec x ltac:(unfold PAGE_SIZE; lia)) as Hc. unfold PAGE_SIZE in *. revert Hm Hc. generalize (ceil x). clear -Hx. intros. zdiv.
Qed.

Lemma kernel_sections_pages k : linked k →
  (λ sec, (sec_lo sec, sec_hi sec, sec.2)) <$> kernel_sections k =
  [(stext k / PAGE_SIZE, etext k / PAGE_SIZE, Z.lor MP_R MP_X); (srodata k / PAGE_SIZE, erodata k / PAGE_SIZE, MP_R);
   (sdata k / PAGE_SIZE, edata k / PAGE_SIZE, Z.lor MP_R MP_W); (sbss_with_stack k / PAGE_SIZE, ebss k / PAGE_SIZE, Z.lor MP_R MP_W);
   (ekernel k / PAGE_SIZE, 0x80800, Z.lor MP_R MP_W); (0x10001, 0x10002, Z.lor MP_R MP_W)].
Proof.
  intros [L1 L2 L3 L4 [L5 L5'] _ L7]. unfold MEMORY_END, PAGE_SIZE in L5'. rewrite !Forall_cons in L7.
  destruct L7 as (A1 & A2 & A3 & A4 & A5 & A6 & A7 & A8 & A9 & _).
  unfold kernel_sections, sec_lo, sec_hi, MMIO. cbn [fmap list_fmap app fst snd].
  rewrite (proj1 (page_bounds (stext k) ltac:(lia) A1)), (proj2 (page_bounds (etext k) ltac:(lia) A2)).
  rewrite (proj1 (page_bounds (srodata k) ltac:(lia) A3)), (proj2 (page_bounds (erodata k) ltac:(lia) A4)).
  rewrite (proj1 (page_bounds (sdata k) ltac:(lia) A5)), (proj2 (page_bounds (edata k) ltac:(lia) A6)).
  rewrite (proj1 (page_bounds (sbss_with_stack k) ltac:(lia) A7)), (proj2 (page_bounds (ebss k) ltac:(lia) A8)).
  rewrite (proj1 (page_bounds (ekernel k) ltac:(lia) A9)). reflexivity.
Qed.

Lemma aligned_lt x y : x mod PAGE_SIZE = 0 → y mod PAGE_SIZE = 0 → x < y → x / PAGE_SIZE < y / PAGE_SIZE.
Proof. unfold PAGE_SIZE. intros. zdiv. Qed.

(** The order of the sections, in pages. *)
Lemma section_order k : linked k →
  0x80200 <= stext k / PAGE_SIZE < etext k / PAGE_SIZE ∧ etext k / PAGE_SIZE <= srodata k / PAGE_SIZE < erodata k / PAGE_SIZE ∧
  erodata k / PAGE_SIZE <= sdata k / PAGE_SIZE < edata k / PAGE_SIZE ∧ edata k / PAGE_SIZE <= sbss_with_stack k / PAGE_SIZE < ebss k / PAGE_SIZE ∧
  ebss k / PAGE_SIZE <= ekernel k / PAGE_SIZE ∧ ekernel k / PAGE_SIZE + 32 <= 0x80800.
Proof.
  intros [L1 L2 L3 L4 [L5 L5'] _ L7]. rewrite !Forall_cons in L7. destruct L7 as (A1 & A2 & A3 & A4 & A5 & A6 & A7 & A8 & A9 & _).
  pose proof (aligned_lt _ _ A1 A2). pose proof (aligned_lt _ _ A3 A4). pose proof (aligned_lt _ _ A5 A6). pose proof (aligned_lt _ _ A7 A8).
  assert (∀ x y, x <= y → x / PAGE_SIZE <= y / PAGE_SIZE) as Hle by (intros; by apply Z.div_le_mono).
  pose proof (Hle 0x80200000 (stext k) ltac:(lia)) as Hbase. change (0x80200000 / PAGE_SIZE) with 0x80200 in Hbase.
  assert (ekernel k / PAGE_SIZE + 32 <= 0x80800) by (clear -L5'; unfold MEMORY_END, PAGE_SIZE in *; zdiv).
  split_and!; try lia; apply Hle; lia.
Qed.

Lemma sections_ok k : linked k →
  (∀ sec, sec ∈ kernel_sections k → sec_ok sec) ∧
  (∀ i j p q, kernel_sections k !! i = Some p → kernel_sections k !! j = Some q → (i < j)%nat → apart p q) ∧
  sec_tables (kernel_sections k) <= 8.
Proof.
  intros Hk. pose proof (kernel_sections_pages k Hk) as Hp. destruct (section_order k Hk) as (O1 & O2 & O3 & O4 & O5 & O6).
  revert Hp O1 O2 O3 O4 O5 O6. generalize (kernel_sections k) as secs.
  generalize (stext k / PAGE_SIZE) (etext k / PAGE_SIZE) (srodata k / PAGE_SIZE) (erodata k / PAGE_SIZE) (sdata k / PAGE_SIZE) (edata k / PAGE_SIZE)
    (sbss_with_stack k / PAGE_SIZE) (ebss k / PAGE_SIZE) (ekernel k / PAGE_SIZE). clear k Hk.
  intros p1 p2 p3 p4 p5 p6 p7 p8 p9 secs Hp O1 O2 O3 O4 O5 O6. assert (TRAMPOLINE_VPN = 2 ^ 27 - 1) as Htv by done.
  assert (∀ i sec, secs !! i = Some sec → (λ sec, (sec_lo sec, sec_hi sec, sec.2)) <$> secs !! i = Some (sec_lo sec, sec_hi sec, sec.2)) as Hl
    by (by intros i sec ->).
  setoid_rewrite <- list_lookup_fmap in Hl. rewrite Hp in Hl. split_and!.
  - intros sec [i Hi%Hl]%list_elem_of_lookup. unfold sec_ok. rewrite Htv.
    do 6 (destruct i as [|i]; [injection Hi as <- <- <-; split_and!; try lia; by vm_compute|]). done.
  - intros i j p q Hi%Hl Hj%Hl Hij. unfold apart. revert Hi Hj Hij.
    do 6 (destruct i as [|i]; [intros [= <- <- _]; do 6 (destruct j as [|j]; [intros [= <- <- _]; lia|]); done|]). done.
  - assert (sec_tables secs = foldr (λ t n, leaf_tables t.1.1 t.1.2 + n) 0 ((λ sec, (sec_lo sec, sec_hi sec, sec.2)) <$> secs)) as ->.
    { unfold sec_tables. clear. induction secs as [|sec secs IH]; simpl; [done|]. by rewrite IH. }
    rewrite Hp. cbn [foldr fst snd]. unfold leaf_tables. rewrite !decide_True by lia. clear Hl Hp. change (0x10002 - 1) with 0x10001. zdiv.
Qed.

Lemma sections_below k sec : linked k → sec ∈ kernel_sections k → sec_hi sec <= 0x80800.
Proof.
  intros Hk Hin. destruct (section_order k Hk) as (O1 & O2 & O3 & O4 & O5 & O6).
  assert ((sec_lo sec, sec_hi sec, sec.2) ∈ (λ sec, (sec_lo sec, sec_hi sec, sec.2)) <$> kernel_sections k) as H by (apply list_elem_of_fmap; by exists sec).
  rewrite (kernel_sections_pages k Hk), !elem_of_cons in H.
  destruct H as [[= _ -> _]|[[= _ -> _]|[[= _ -> _]|[[= _ -> _]|[[= _ -> _]|[[= _ -> _]|H%elem_of_nil]]]]]]; lia || done.
Qed.

(** ** [mm::init] and [remap_test] *)

(** [KERNEL_SPACE] is made when [init] activates it. *)
Definition mm_init (k : KernelLayout) : M MM MemorySet :=
  _ ← modify (λ s, {| fa := init_frame_allocator (ekernel k); mem := mem s |});
  new_kernel k.

Definition remap_test (k : KernelLayout) (kernel_space : MemorySet) : M MM unit :=
  let mid_text := VirtAddr_from (wrap64 (stext k + etext k) / 2) in
  let mid_rodata := VirtAddr_from (wrap64 (srodata k + erodata k) / 2) in
  let mid_data := VirtAddr_from (wrap64 (sdata k + edata k) / 2) in
  s ← get;
  t ← unwrap (translate (mem s) (page_table kernel_space) (floor mid_text));
  _ ← assert_ (negb (writable t));
  r ← unwrap (translate (mem s) (page_table kernel_space) (floor mid_rodata));
  _ ← assert_ (negb (writable r));
  d ← unwrap (translate (mem s) (page_table kernel_space) (floor mid_data));
  assert_ (negb (executable d)).

Lemma init_fa k : linked k →
  fa_inv (ekernel k / PAGE_SIZE) (init_frame_allocator (ekernel k)) ∅ ∧
  nfree (init_frame_allocator (ekernel k)) = 0x80800 - ekernel k / PAGE_SIZE ∧ end_ (init_frame_allocator (ekernel k)) = 0x80800.
Proof.
  intros Hk. destruct (section_order k Hk) as (O1 & O2 & O3 & O4 & O5 & O6). destruct Hk as [L1 L2 L3 L4 [L5 L5'] _ L7].
  rewrite !Forall_cons in L7. destruct L7 as (_ & _ & _ & _ & _ & _ & _ & _ & A9 & _). unfold MEMORY_END, PAGE_SIZE in L5'.
  assert (ceil (PhysAddr_from (ekernel k)) = ekernel k / PAGE_SIZE) as Hc.
  { rewrite PhysAddr_from_mod, Z.mod_small by lia. rewrite <- (proj2 (page_bounds (ekernel k) ltac:(lia) A9)).
    by rewrite VirtAddr_from_mod, Z.mod_small by lia. }
  unfold init_frame_allocator, init. rewrite Hc. change (floor (PhysAddr_from MEMORY_END)) with 0x80800.
  unfold nfree. cbn [current end_ recycled StackFrameAllocator_new]. split_and!; [|unfold lengthZ; simpl; lia|done].
  split; cbn [current end_ recycled]; [lia|apply NoDup_nil_2|by intros p ?%elem_of_nil|].
  intros p. rewrite elem_of_empty. lia.
Qed.

Lemma mapping_flags m pt v f fl : mapping m pt v = Some (f, fl) → ∃ pte, translate m pt v = Some pte ∧ pte_flags pte = fl.
Proof.
  unfold mapping. destruct (translate m pt v) as [pte|]; [|done]. cbn [mbind option_bind].
  destruct (is_valid pte); [|done]. intros [= _ <-]. by exists pte.
Qed.

(** The page in the middle of a section is in it. *)
Lemma mid_page x y : 0 <= x < y → y < 2 ^ 39 → x mod PAGE_SIZE = 0 → y mod PAGE_SIZE = 0 →
  x / PAGE_SIZE <= floor (VirtAddr_from (wrap64 (x + y) / 2)) < y / PAGE_SIZE.
Proof.
  intros Hx Hy Ax Ay. rewrite wrap_small by lia. rewrite VirtAddr_from_mod, Z.mod_small by zdiv. unfold floor, PAGE_SIZE in *. zdiv.
Qed.

Lemma kernel_section_page k lo_ hi perm : linked k → (lo_, hi, perm) ∈ (λ sec, (sec_lo sec, sec_hi sec, sec.2)) <$> kernel_sections k →
  ∃ sec, sec ∈ kernel_sections k ∧ sec_lo sec = lo_ ∧ sec_hi sec = hi ∧ sec.2 = perm.
Proof. intros _ (sec & [= -> -> ->] & Hin)%list_elem_of_fmap. by exists sec. Qed.

Lemma wp_remap_test k s0 tramp ms owned' s : linked k →
  kernel_mapped (ekernel k / PAGE_SIZE) ∅ s0 tramp (kernel_sections k) ms owned' s →
  wp (remap_test k ms) (λ _ s', s' = s) s.
Proof.
  intros Hk Hm. pose proof (kernel_sections_pages k Hk) as Hp. pose proof Hk as [L1 L2 L3 L4 [L5 L5'] _ L7]. unfold MEMORY_END, PAGE_SIZE in L5'.
  rewrite !Forall_cons in L7. destruct L7 as (A1 & A2 & A3 & A4 & A5 & A6 & _).
  assert (∀ lo_ hi perm v, (lo_, hi, perm) ∈ (λ sec, (sec_lo sec, sec_hi sec, sec.2)) <$> kernel_sections k → lo_ <= v < hi →
    ∃ pte, translate (mem s) (page_table ms) v = Some pte ∧ pte_flags pte = Z.lor perm PTE_V) as Htr.
  { intros lo_ hi perm v (sec & Hin & <- & <- & <-)%(kernel_section_page k _ _ _ Hk) Hv.
    exact (mapping_flags _ _ _ _ _ (km_sections _ _ _ _ _ _ _ _ Hm sec v Hin Hv)). }
  rewrite Hp in Htr. unfold remap_test. wp_steps.
  destruct (Htr _ _ _ _ ltac:(by left) (mid_page (stext k) (etext k) ltac:(lia) ltac:(lia) A1 A2)) as (t & Ht & Hft).
  destruct (Htr _ _ _ _ ltac:(by right; left) (mid_page (srodata k) (erodata k) ltac:(lia) ltac:(lia) A3 A4)) as (r & Hr & Hfr).
  destruct (Htr _ _ _ _ ltac:(by right; right; left) (mid_page (sdata k) (edata k) ltac:(lia) ltac:(lia) A5 A6)) as (d & Hd & Hfd).
  eapply wp_unwrap; [exact Ht|]. wp_steps. apply wp_assert; [unfold writable, has_flag; by rewrite Hft|].
  wp_steps. eapply wp_unwrap; [exact Hr|]. wp_steps. apply wp_assert; [unfold writable, has_flag; by rewrite Hfr|].
  wp_steps. eapply wp_unwrap; [exact Hd|]. wp_steps. apply wp_assert; [unfold executable, has_flag; by rewrite Hfd|].
  done.
Qed.

(** What [rust_main] does with the memory before it starts processes. *)
Definition memory_up (k : KernelLayout) : M MM MemorySet :=
  kernel_space ← mm_init k;
  _ ← remap_test k kernel_space;
  mret kernel_space.

Lemma wp_memory_up k s : linked k →
  wp (memory_up k) (λ ms s', ∃ owned', kernel_mapped (ekernel k / PAGE_SIZE) ∅ {| fa := init_frame_allocator (ekernel k); mem := mem s |}
    (strampoline k / PAGE_SIZE) (kernel_sections k) ms owned' s') s.
Proof.
  intros Hk. destruct (init_fa k Hk) as (Hfa & Hn & _). destruct (sections_ok k Hk) as (Hok & Hap & Htab).
  destruct (section_order k Hk) as (O1 & O2 & O3 & O4 & O5 & O6). pose proof Hk as [L1 L2 L3 L4 [L5 L5'] [L6 L6'] _].
  unfold MEMORY_END, PAGE_SIZE in L5'. unfold memory_up, mm_init. wp_steps.
  assert (PhysAddr_from (strampoline k) = strampoline k) as Hst by (rewrite PhysAddr_from_mod, Z.mod_small by lia; done).
  eapply wp_mono; [apply (wp_new_kernel (ekernel k / PAGE_SIZE)); [exact Hfa| |done|done|cbn [fa]; lia]|].
  { unfold aligned. rewrite Hst, page_offset_mod. by apply Z.eqb_eq. }
  rewrite Hst. intros ms s1 (owned' & Hm). wp_steps. eapply wp_mono; [by eapply wp_remap_test|]. intros [] s2 ->. wp_steps. by exists owned'.
Qed.

(** No page of the kernel can be both written and executed. *)
Lemma kernel_wx k s0 tramp ms owned' s v f fl : linked k →
  kernel_mapped (ekernel k / PAGE_SIZE) ∅ s0 tramp (kernel_sections k) ms owned' s → 0 <= v < 2 ^ 27 →
  mapping (mem s) (page_table ms) v = Some (f, fl) → Z.land fl PTE_W = 0 ∨ Z.land fl PTE_X = 0.
Proof.
  intros Hk Hm Hv Hf. destruct (decide (v = TRAMPOLINE_VPN)) as [->|Hne].
  { rewrite (km_trampoline _ _ _ _ _ _ _ _ Hm) in Hf. injection Hf as _ <-. by left. }
  destruct (decide (Exists (λ sec, sec_lo sec <= v < sec_hi sec) (kernel_sections k))) as [(sec & Hin & Hs)%Exists_exists|Hn].
  - rewrite (km_sections _ _ _ _ _ _ _ _ Hm sec v Hin Hs) in Hf. injection Hf as _ <-.
    assert (sec.2 ∈ [Z.lor MP_R MP_X; MP_R; Z.lor MP_R MP_W]) as Hp.
    { clear -Hin. unfold kernel_sections, MMIO in Hin. cbn [fmap list_fmap app] in Hin. rewrite !elem_of_cons in Hin. rewrite !elem_of_cons.
      destruct Hin as [->|[->|[->|[->|[->|[->|Hin%elem_of_nil]]]]]]; cbn [snd]; tauto. }
    rewrite !elem_of_cons in Hp. destruct Hp as [->|[->|[->|Hp%elem_of_nil]]]; [by left|by left|by right|done].
  - rewrite (km_unmapped _ _ _ _ _ _ _ _ Hm) in Hf; [done|done|done|]. intros sec Hin Hs. apply Hn, Exists_exists. by exists sec.
Qed.

(** C7: The address space of the kernel.  When the symbols are in the order of
    the linker script and 32 pages are left behind the kernel, [mm::init] and
    [remap_test] do not panic, whatever the memory holds.  Every page of the text,
    the read-only data, the data, the bss with the boot stack, the free memory
    and the devices is mapped to itself with the permissions of its section, the
    trampoline page is mapped to the code of the trampoline, every other page is
    not mapped, and no page can be both written and executed.  The tables are
    frames behind the kernel, at most 19 of them, and nothing else in memory is
    changed. *)
Theorem kernel_space_mapped k s : linked k →
  ∃ ms s', memory_up k s = Ok (ms, s') ∧
    (∀ sec v, sec ∈ kernel_sections k → sec_lo sec <= v < sec_hi sec →
       mapping (mem s') (page_table ms) v = Some (v, Z.lor sec.2 PTE_V)) ∧
    mapping (mem s') (page_table ms) TRAMPOLINE_VPN = Some (strampoline k / PAGE_SIZE, Z.lor (Z.lor PTE_R PTE_X) PTE_V) ∧
    (∀ v, 0 <= v < 2 ^ 27 → v ≠ TRAMPOLINE_VPN → (∀ sec, sec ∈ kernel_sections k → ¬ (sec_lo sec <= v < sec_hi sec)) →
       mapping (mem s') (page_table ms) v = None) ∧
    (∀ v f fl, 0 <= v < 2 ^ 27 → mapping (mem s') (page_table ms) v = Some (f, fl) → Z.land fl PTE_W = 0 ∨ Z.land fl PTE_X = 0) ∧
    (∀ x, x ∈ frames (page_table ms) → ekernel k / PAGE_SIZE <= x < MEMORY_END / PAGE_SIZE) ∧
    MEMORY_END / PAGE_SIZE - ekernel k / PAGE_SIZE - 19 <= nfree (fa s') ∧
    (∀ x, x ∉ frames (page_table ms) → page_of (mem s') x = page_of (mem s) x).
Proof.
  intros Hk. destruct (wp_ok _ _ _ (wp_memory_up k s Hk)) as (ms & s' & Hrun & owned' & Hm). exists ms, s'. split; [exact Hrun|].
  destruct (init_fa k Hk) as (_ & Hn & He). destruct (sections_ok k Hk) as (_ & _ & Htab). change (MEMORY_END / PAGE_SIZE) with 0x80800.
  pose proof (inv_fa _ _ _ _ (mi_pt _ _ _ _ (km_inv _ _ _ _ _ _ _ _ Hm))) as [Hb _ _ Ho].
  split_and!; [apply Hm|apply Hm|apply Hm| | | |apply Hm].
  - intros v f fl. by eapply kernel_wx.
  - intros x Hx. assert (x ∈ owned') as [? _]%Ho by (apply (km_owned _ _ _ _ _ _ _ _ Hm); by right).
    pose proof (km_end _ _ _ _ _ _ _ _ Hm) as Hend. cbn [fa] in Hend. rewrite He in Hend. lia.
  - pose proof (km_free _ _ _ _ _ _ _ _ Hm) as Hfree. cbn [fa] in Hfree. lia.
Qed.

Definition demo_layout : KernelLayout :=
  {| stext := 0x80200000; etext := 0x80211000; srodata := 0x80211000; erodata := 0x80216000; sdata := 0x80216000; edata := 0x80217000;
     sbss_with_stack := 0x80217000; ebss := 0x80528000; ekernel := 0x80528000; strampoline := 0x80201000 |}.
Lemma demo_linked : linked demo_layout.
Proof. split; cbn [demo_layout stext etext srodata erodata sdata edata sbss_with_stack ebss ekernel strampoline]; unfold MEMORY_END, PAGE_SIZE; try lia; [split; [lia|done]|by repeat constructor]. Qed.

Lemma demo_text_page : let sec := (0x80200000, 0x80211000, Z.lor MP_R MP_X) in sec_lo sec <= 0x80205 < sec_hi sec.
Proof. by vm_compute. Qed.

Lemma kernel_space_mapped_witness : ∃ ms s', memory_up demo_layout {| fa := StackFrameAllocator_new; mem := ∅ |} = Ok (ms, s') ∧
  mapping (mem s') (page_table ms) 0x80205 = Some (0x80205, Z.lor (Z.lor MP_R MP_X) PTE_V) ∧ mapping (mem s') (page_table ms) 0x100 = None.
Proof.
  destruct (kernel_space_mapped demo_layout {| fa := StackFrameAllocator_new; mem := ∅ |} demo_linked) as (ms & s' & Hrun & Hs & _ & Hu & _).
  exists ms, s'. split; [exact Hrun|]. split.
  - exact (Hs _ _ ltac:(by left) demo_text_page).
  - apply Hu; [lia|by vm_compute|]. intros sec Hin [H1 H2].
    unfold kernel_sections, MMIO in Hin. cbn [fmap list_fmap app] in Hin. rewrite !elem_of_cons in Hin.
    destruct Hin as [->|[->|[->|[->|[->|[->|Hin%elem_of_nil]]]]]]; [vm_compute in H1; by destruct H1..|done].
Defined.
