(* ===== verification/Kernel.v ===== *)
(** * Processes

    [os/src/task/process.rs], [task.rs] and [mod.rs], [signal.rs],
    [os/src/trap/context.rs], and the process tables of [manager.rs]: process
    control blocks and the operations that create, duplicate, replace and end
    processes and threads.

    Process and task control blocks live in tables and an [Arc] to one is its
    number.  The exclusive borrows of [UPSafeCell]s are explicit: [borrowed] are
    the processes whose [inner] is borrowed at the moment, and a second borrow
    panics.  The strong count of a process is the number of its occurrences in
    the structures that hold [Arc]s.  [trap_return], [trap_handler] and
    [strampoline] are addresses of code, [sstatus] is the register as
    [sstatus::read] returns it with [SPP] set to user. *)

From S2P Require Import Prelude Address FrameAllocator PageTable UserBuffer MemorySet Sched TaskId.

(** ** Signals *)

Definition SIGINT : Z := Z.shiftl 1 2.
Definition SIGILL : Z := Z.shiftl 1 4.
Definition SIGABRT : Z := Z.shiftl 1 6.
Definition SIGFPE : Z := Z.shiftl 1 8.
Definition SIGSEGV : Z := Z.shiftl 1 11.
Definition SignalFlags_all : Z := Z.lor SIGINT (Z.lor SIGILL (Z.lor SIGABRT (Z.lor SIGFPE SIGSEGV))).

(** The error number; the message is printed only. *)
Definition check_error (s : Z) : option Z :=
  if contains s SIGINT then Some (-2)
  else if contains s SIGILL then Some (-4)
  else if contains s SIGABRT then Some (-6)
  else if contains s SIGFPE then Some (-8)
  else if contains s SIGSEGV then Some (-11)
  else None.

(** ** Trap contexts *)

Record TrapContext := {
  tc_x : list Z; tc_sstatus : Z; tc_sepc : Z; tc_kernel_satp : Z; tc_kernel_sp : Z; tc_trap_handler : Z
}.
Definition set_x (i v : Z) (c : TrapContext) : TrapContext :=
  {| tc_x := insertZ i v (tc_x c); tc_sstatus := tc_sstatus c; tc_sepc := tc_sepc c;
     tc_kernel_satp := tc_kernel_satp c; tc_kernel_sp := tc_kernel_sp c; tc_trap_handler := tc_trap_handler c |}.
Definition set_sp (sp : Z) (c : TrapContext) : TrapContext := set_x 2 sp c.
Definition app_init_context (sstatus entry sp kernel_satp kernel_sp trap_handler : Z) : TrapContext :=
  set_sp sp {| tc_x := replicate 32 0; tc_sstatus := sstatus; tc_sepc := entry;
               tc_kernel_satp := kernel_satp; tc_kernel_sp := kernel_sp; tc_trap_handler := trap_handler |}.

(** The [repr(C)] image in a frame: 37 words from its start. *)
Definition TC_SEPC : Z := 33.
Definition TC_KERNEL_SP : Z := 35.
Definition trap_cx_words (c : TrapContext) : list Z :=
  tc_x c ++ [tc_sstatus c; tc_sepc c; tc_kernel_satp c; tc_kernel_sp c; tc_trap_handler c].
Fixpoint write_words (m : gmap Z page) (ppn i : Z) (ws : list Z) : gmap Z page :=
  match ws with
  | [] => m
  | w :: ws' => write_words (set_word m ppn i w) ppn (i + 1) ws'
  end.
Definition write_trap_cx (ppn : Z) (c : TrapContext) (m : gmap Z page) : gmap Z page :=
  write_words m ppn 0 (trap_cx_words c).

(** ** Process control blocks *)

(** An open file: the object behind an [Arc<dyn File>]. *)
Inductive FileRef :=
  | FStdin
  | FStdout
  | FInode (readable writable : bool) (inode : Z)
  | FPipe (readable writable : bool) (pipe : Z).
#[export] Instance FileRef_eq_dec : EqDecision FileRef.
Proof. solve_decision. Defined.

Record ProcessControlBlock := {
  pid : Z;
  is_zombie : bool;
  memory_set : MemorySet;
  parent : option Z;
  children : list Z;
  pcb_exit_code : Z;
  fd_table : list (option FileRef);
  signals : Z;
  tasks : list (option Z);
  task_res_allocator : RecycleAllocator;
  mutex_list : list (option Z);
  semaphore_list : list (option Z);
  condvar_list : list (option Z)
}.

(** A new block, as [new] and [fork] build it. *)
Definition pcb_init (pid : Z) (ms : MemorySet) (parent : option Z) (fds : list (option FileRef)) :
    ProcessControlBlock :=
  {| pid := pid; is_zombie := false; memory_set := ms; parent := parent; children := [];
     pcb_exit_code := 0; fd_table := fds; signals := 0; tasks := [];
     task_res_allocator := RecycleAllocator_new; mutex_list := []; semaphore_list := []; condvar_list := [] |}.

Definition set_space (ms : MemorySet) (ids : RecycleAllocator) (p : ProcessControlBlock) : ProcessControlBlock :=
  {| pid := pid p; is_zombie := is_zombie p; memory_set := ms; parent := parent p; children := children p;
     pcb_exit_code := pcb_exit_code p; fd_table := fd_table p; signals := signals p; tasks := tasks p;
     task_res_allocator := ids; mutex_list := mutex_list p; semaphore_list := semaphore_list p;
     condvar_list := condvar_list p |}.
Definition set_tasks (ts : list (option Z)) (p : ProcessControlBlock) : ProcessControlBlock :=
  {| pid := pid p; is_zombie := is_zombie p; memory_set := memory_set p; parent := parent p;
     children := children p; pcb_exit_code := pcb_exit_code p; fd_table := fd_table p; signals := signals p;
     tasks := ts; task_res_allocator := task_res_allocator p; mutex_list := mutex_list p;
     semaphore_list := semaphore_list p; condvar_list := condvar_list p |}.
Definition set_family (par : option Z) (ch : list Z) (p : ProcessControlBlock) : ProcessControlBlock :=
  {| pid := pid p; is_zombie := is_zombie p; memory_set := memory_set p; parent := par; children := ch;
     pcb_exit_code := pcb_exit_code p; fd_table := fd_table p; signals := signals p; tasks := tasks p;
     task_res_allocator := task_res_allocator p; mutex_list := mutex_list p;
     semaphore_list := semaphore_list p; condvar_list := condvar_list p |}.
Definition set_zombie (code : Z) (p : ProcessControlBlock) : ProcessControlBlock :=
  {| pid := pid p; is_zombie := true; memory_set := memory_set p; parent := parent p; children := children p;
     pcb_exit_code := code; fd_table := fd_table p; signals := signals p; tasks := tasks p;
     task_res_allocator := task_res_allocator p; mutex_list := mutex_list p;
     semaphore_list := semaphore_list p; condvar_list := condvar_list p |}.
Definition set_fds (fds : list (option FileRef)) (p : ProcessControlBlock) : ProcessControlBlock :=
  {| pid := pid p; is_zombie := is_zombie p; memory_set := memory_set p; parent := parent p;
     children := children p; pcb_exit_code := pcb_exit_code p; fd_table := fds; signals := signals p;
     tasks := tasks p; task_res_allocator := task_res_allocator p; mutex_list := mutex_list p;
     semaphore_list := semaphore_list p; condvar_list := condvar_list p |}.
Definition set_signals (s : Z) (p : ProcessControlBlock) : ProcessControlBlock :=
  {| pid := pid p; is_zombie := is_zombie p; memory_set := memory_set p; parent := parent p;
     children := children p; pcb_exit_code := pcb_exit_code p; fd_table := fd_table p; signals := s;
     tasks := tasks p; task_res_allocator := task_res_allocator p; mutex_list := mutex_list p;
     semaphore_list := semaphore_list p; condvar_list := condvar_list p |}.

(** [alloc_fd]: the lowest free descriptor, or a new one at the end. *)
Definition alloc_fd (fds : list (option FileRef)) : Z * list (option FileRef) :=
  match find_index (λ f, match f with None => true | Some _ => false end) fds with
  | Some fd => (Z.of_nat fd, fds)
  | None => (lengthZ fds, vec_push fds None)
  end.

Definition thread_count (p : ProcessControlBlock) : Z := lengthZ (tasks p).

Definition get_task (t : Z) (p : ProcessControlBlock) : result Z :=
  match lookupZ (tasks p) t with
  | Some (Some x) => Ok x
  | Some None => Panic PUnwrap
  | None => Panic PIndex
  end.

(** ** The state of the kernel *)

Record Kernel := {
  mm : MM;
  kernel_space : MemorySet;
  kstack_ids : RecycleAllocator;
  pid_ids : RecycleAllocator;
  sched : Sched;
  pcbs : gmap Z ProcessControlBlock;
  pid2pcb : gmap Z Z;
  borrowed : gset Z;
  parked : list Z;          (** tasks held by wait queues and timers *)
  stack_refs : list Z;      (** processes held by suspended calls on kernel stacks *)
  next_obj : Z;             (** number of the next control block *)
  initproc : Z
}.

Definition upd_mm (m : MM) (k : Kernel) : Kernel :=
  {| mm := m; kernel_space := kernel_space k; kstack_ids := kstack_ids k; pid_ids := pid_ids k;
     sched := sched k; pcbs := pcbs k; pid2pcb := pid2pcb k; borrowed := borrowed k; parked := parked k;
     stack_refs := stack_refs k; next_obj := next_obj k; initproc := initproc k |}.
Definition upd_kspace (x : Space) (k : Kernel) : Kernel :=
  {| mm := sp_mm x; kernel_space := sp_ms x; kstack_ids := sp_ids x; pid_ids := pid_ids k;
     sched := sched k; pcbs := pcbs k; pid2pcb := pid2pcb k; borrowed := borrowed k; parked := parked k;
     stack_refs := stack_refs k; next_obj := next_obj k; initproc := initproc k |}.
Definition upd_pids (a : RecycleAllocator) (k : Kernel) : Kernel :=
  {| mm := mm k; kernel_space := kernel_space k; kstack_ids := kstack_ids k; pid_ids := a;
     sched := sched k; pcbs := pcbs k; pid2pcb := pid2pcb k; borrowed := borrowed k; parked := parked k;
     stack_refs := stack_refs k; next_obj := next_obj k; initproc := initproc k |}.
Definition upd_sched (s : Sched) (k : Kernel) : Kernel :=
  {| mm := mm k; kernel_space := kernel_space k; kstack_ids := kstack_ids k; pid_ids := pid_ids k;
     sched := s; pcbs := pcbs k; pid2pcb := pid2pcb k; borrowed := borrowed k; parked := parked k;
     stack_refs := stack_refs k; next_obj := next_obj k; initproc := initproc k |}.
Definition upd_pcbs (f : gmap Z ProcessControlBlock → gmap Z ProcessControlBlock) (k : Kernel) : Kernel :=
  {| mm := mm k; kernel_space := kernel_space k; kstack_ids := kstack_ids k; pid_ids := pid_ids k;
     sched := sched k; pcbs := f (pcbs k); pid2pcb := pid2pcb k; borrowed := borrowed k; parked := parked k;
     stack_refs := stack_refs k; next_obj := next_obj k; initproc := initproc k |}.
Definition upd_pid2pcb (f : gmap Z Z → gmap Z Z) (k : Kernel) : Kernel :=
  {| mm := mm k; kernel_space := kernel_space k; kstack_ids := kstack_ids k; pid_ids := pid_ids k;
     sched := sched k; pcbs := pcbs k; pid2pcb := f (pid2pcb k); borrowed := borrowed k; parked := parked k;
     stack_refs := stack_refs k; next_obj := next_obj k; initproc := initproc k |}.
Definition upd_borrowed (b : gset Z) (k : Kernel) : Kernel :=
  {| mm := mm k; kernel_space := kernel_space k; kstack_ids := kstack_ids k; pid_ids := pid_ids k;
     sched := sched k; pcbs := pcbs k; pid2pcb := pid2pcb k; borrowed := b; parked := parked k;
     stack_refs := stack_refs k; next_obj := next_obj k; initproc := initproc k |}.
Definition upd_next (n : Z) (k : Kernel) : Kernel :=
  {| mm := mm k; kernel_space := kernel_space k; kstack_ids := kstack_ids k; pid_ids := pid_ids k;
     sched := sched k; pcbs := pcbs k; pid2pcb := pid2pcb k; borrowed := borrowed k; parked := parked k;
     stack_refs := stack_refs k; next_obj := n; initproc := initproc k |}.

Definition on_mm {A} (m : M MM A) : M Kernel A := zoom mm upd_mm m.
Definition on_sched {A} (m : M Sched A) : M Kernel A := zoom sched upd_sched m.
Definition on_kspace {A} (m : M Space A) : M Kernel A :=
  zoom (λ k, {| sp_mm := mm k; sp_ms := kernel_space k; sp_ids := kstack_ids k |}) upd_kspace m.

(** [Weak::upgrade().unwrap()] and dereferencing an [Arc]. *)
Definition pcb_of (p : Z) : M Kernel ProcessControlBlock :=
  k ← get; unwrap (pcbs k !! p).
Definition tcb_of (t : Z) : M Kernel TaskControlBlock :=
  k ← get; unwrap (tcbs (sched k) !! t).

(** [p.inner_exclusive_access()], held until [release]. *)
Definition borrow (p : Z) : M Kernel ProcessControlBlock :=
  k ← get;
  b ← pcb_of p;
  if decide (p ∈ borrowed k) then panic_with PBorrow
  else _ ← put (upd_borrowed ({[p]} ∪ borrowed k) k); mret b.
Definition release (p : Z) : M Kernel unit := modify (λ k, upd_borrowed (borrowed k ∖ {[p]}) k).

(** A borrow that ends with the statement. *)
Definition access (p : Z) (f : ProcessControlBlock → ProcessControlBlock) : M Kernel ProcessControlBlock :=
  b ← borrow p;
  _ ← modify (upd_pcbs (alter f p));
  _ ← release p;
  mret b.

(** An operation on the address space and thread ids of [p], through
    [process.inner_exclusive_access()]. *)
Definition on_process {A} (p : Z) (m : M Space A) : M Kernel A :=
  b ← borrow p;
  k ← get;
  r ← lift_result (m {| sp_mm := mm k; sp_ms := memory_set b; sp_ids := task_res_allocator b |});
  let '(a, x) := r in
  _ ← modify (λ k, upd_pcbs (alter (set_space (sp_ms x) (sp_ids x)) p) (upd_mm (sp_mm x) k));
  _ ← release p;
  mret a.

(** ** Tables *)

Definition insert_into_pid2process (pid p : Z) : M Kernel unit := modify (upd_pid2pcb (insert pid p)).
Definition pid2process (pid : Z) : M Kernel (option Z) := gets (λ k, pid2pcb k !! pid).
Definition remove_from_pid2process (pid : Z) : M Kernel unit :=
  k ← get;
  match pid2pcb k !! pid with
  | Some _ => put (upd_pid2pcb (delete pid) k)
  | None => panic_with PExplicit
  end.

(** [Arc::new] of a control block. *)
Definition new_obj : M Kernel Z :=
  k ← get; _ ← put (upd_next (next_obj k + 1) k); mret (next_obj k).

Definition upd_task (t : Z) (f : TaskControlBlock → TaskControlBlock) : M Kernel unit :=
  on_sched (modify (upd_tcb t f)).
Definition set_res (r : option TaskUserRes) (b : TaskControlBlock) : TaskControlBlock :=
  {| process := process b; kstack := kstack b; res := r; trap_cx_ppn := trap_cx_ppn b;
     task_cx := task_cx b; task_status := task_status b; exit_code := exit_code b |}.
Definition set_trap_cx_ppn (ppn : Z) (b : TaskControlBlock) : TaskControlBlock :=
  {| process := process b; kstack := kstack b; res := res b; trap_cx_ppn := ppn;
     task_cx := task_cx b; task_status := task_status b; exit_code := exit_code b |}.
Definition set_task_exit (code : Z) (b : TaskControlBlock) : TaskControlBlock :=
  {| process := process b; kstack := kstack b; res := res b; trap_cx_ppn := trap_cx_ppn b;
     task_cx := task_cx b; task_status := task_status b; exit_code := Some code |}.

Definition write_mem (f : gmap Z page → gmap Z page) : M Kernel unit := on_mm (modify (upd_mem f)).

Definition current_process : M Kernel Z :=
  o ← on_sched current_task;
  t ← unwrap o;
  b ← tcb_of t;
  _ ← pcb_of (process b);
  mret (process b).

Definition check_signals_of_current : M Kernel (option Z) :=
  p ← current_process;
  b ← access p id;
  mret (check_error (signals b)).

Definition current_add_signal (signal : Z) : M Kernel unit :=
  p ← current_process;
  _ ← access p (λ b, set_signals (Z.lor (signals b) signal) b);
  mret tt.

Section process.
Context (trap_return trap_handler strampoline sstatus : Z).

(** ** Creating threads and processes *)

Definition TaskControlBlock_new (p ustack_base : Z) (alloc_user_res : bool) : M Kernel Z :=
  res ← on_process p (TaskUserRes_new ustack_base alloc_user_res);
  trap_cx_ppn ← on_process p (res_trap_cx_ppn res);
  kstack ← on_kspace kstack_alloc;
  let kstack_top := get_top kstack in
  t ← new_obj;
  _ ← on_sched (modify (λ s, {| ready_queue := ready_queue s; cur := cur s; idle_task_cx := idle_task_cx s;
         cpu := cpu s;
         tcbs := <[t := {| process := p; kstack := kstack; res := Some res; trap_cx_ppn := trap_cx_ppn;
                           task_cx := goto_trap_return trap_return kstack_top; task_status := Ready;
                           exit_code := None |}]> (tcbs s) |}));
  mret t.

Definition kernel_token : M Kernel Z := gets (λ k, ms_token (kernel_space k)).

Definition ProcessControlBlock_new (elf : option ElfFile) : M Kernel Z :=
  r ← on_mm (from_elf strampoline elf);
  let '(ms, ustack_base, entry_point) := r in
  pid ← zoom pid_ids upd_pids pid_alloc;
  p ← new_obj;
  _ ← modify (upd_pcbs (insert p (pcb_init pid ms None [Some FStdin; Some FStdout; Some FStdout])));
  t ← TaskControlBlock_new p ustack_base true;
  b ← tcb_of t;
  res ← unwrap (res b);
  satp ← kernel_token;
  _ ← write_mem (write_trap_cx (trap_cx_ppn b)
        (app_init_context sstatus entry_point (ustack_top res) satp (get_top (kstack b)) trap_handler));
  _ ← access p (λ b, set_tasks (vec_push (tasks b) (Some t)) b);
  _ ← insert_into_pid2process pid p;
  _ ← on_sched (add_task t);
  mret p.

Definition fork (self : Z) : M Kernel Z :=
  parent ← borrow self;
  _ ← assert_ (thread_count parent =? 1);
  memory_set ← on_mm (from_existed_user strampoline (memory_set parent));
  pid ← zoom pid_ids upd_pids pid_alloc;
  child ← new_obj;
  _ ← modify (upd_pcbs (insert child (pcb_init pid memory_set (Some self) (fd_table parent))));
  _ ← modify (upd_pcbs (alter (λ b, set_family (Kernel.parent b) (vec_push (children b) child) b) self));
  t0 ← lift_result (get_task 0 parent);
  b0 ← tcb_of t0;
  res0 ← unwrap (res b0);
  t ← TaskControlBlock_new child (ustack_base res0) false;
  _ ← access child (λ b, set_tasks (vec_push (tasks b) (Some t)) b);
  b ← tcb_of t;
  _ ← write_mem (λ m, set_word m (trap_cx_ppn b) TC_KERNEL_SP (get_top (kstack b)));
  _ ← insert_into_pid2process pid child;
  _ ← on_sched (add_task t);
  _ ← release self;
  mret child.

(** ** [exec] *)

(** A store of [u8] or [usize] through a reference to physical memory. *)
Definition write_u8 (pa v : Z) (m : gmap Z page) : gmap Z page :=
  set_byte m (floor pa) (page_offset pa) v.
Fixpoint write_le (n : nat) (pa v : Z) (m : gmap Z page) : gmap Z page :=
  match n with
  | O => m
  | S n => write_le n (wrap64 (pa + 1)) (Z.shiftr v 8) (write_u8 pa (Z.land v 255) m)
  end.
Definition write_usize (pa v : Z) (m : gmap Z page) : gmap Z page := write_le 8 pa v m.

Definition refmut (token va : Z) : M Kernel Z :=
  k ← get; lift_result (translated_refmut (mem (mm k)) token va).

(** [for c in args\[i\].as_bytes()] and the terminator. *)
Fixpoint push_str (token p : Z) (bs : list Z) : M Kernel unit :=
  pa ← refmut token p;
  match bs with
  | [] => write_mem (write_u8 pa 0)
  | c :: bs' => _ ← write_mem (write_u8 pa c); push_str token (wrap64 (p + 1)) bs'
  end.

(** [for i in 0..args.len()]; [argv] are the physical addresses of the slots. *)
Fixpoint push_args (token : Z) (argv : list Z) (args : list (list Z)) (user_sp : Z) : M Kernel Z :=
  match args, argv with
  | arg :: args', slot :: argv' =>
      let user_sp := wrap64 (user_sp - (lengthZ arg + 1)) in
      _ ← write_mem (write_usize slot user_sp);
      _ ← push_str token user_sp arg;
      push_args token argv' args' user_sp
  | [], _ => mret user_sp
  | _ :: _, [] => panic_with PIndex
  end.

Fixpoint refmuts (token : Z) (vas : list Z) : M Kernel (list Z) :=
  match vas with
  | [] => mret []
  | va :: vas' => pa ← refmut token va; pas ← refmuts token vas'; mret (pa :: pas)
  end.

(** The arguments on the user stack: the array of their addresses, which ends
    with a zero, and the strings below it.  The result is the address of the array
    and the new stack pointer. *)
Definition push_arguments (token ustack_top : Z) (args : list (list Z)) : M Kernel (Z * Z) :=
  let user_sp := wrap64 (ustack_top - wrap64 ((lengthZ args + 1) * 8)) in
  let argv_base := user_sp in
  argv ← refmuts token ((λ i, wrap64 (argv_base + i * 8)) <$> seqZ 0 (lengthZ args + 1));
  slot ← index argv (lengthZ args);
  _ ← write_mem (write_usize slot 0);
  user_sp ← push_args token argv args user_sp;
  mret (argv_base, user_sp - user_sp mod 8).

Definition exec (self : Z) (elf : option ElfFile) (args : list (list Z)) : M Kernel unit :=
  b ← access self id;
  _ ← assert_ (thread_count b =? 1);
  r ← on_mm (from_elf strampoline elf);
  let '(ms, base, entry_point) := r in
  let new_token := ms_token ms in
  old ← access self (λ b, set_space ms (task_res_allocator b) b);
  _ ← on_mm (drop_memory_set (memory_set old));
  b ← access self id;
  t ← lift_result (get_task 0 b);
  tb ← tcb_of t;
  res0 ← unwrap (res tb);
  let res1 := {| tid := tid res0; ustack_base := base |} in
  _ ← upd_task t (set_res (Some res1));
  _ ← on_process self (alloc_user_res res1);
  ppn ← on_process self (res_trap_cx_ppn res1);
  _ ← upd_task t (set_trap_cx_ppn ppn);
  '(argv_base, user_sp) ← push_arguments new_token (ustack_top res1) args;
  satp ← kernel_token;
  let trap_cx := app_init_context sstatus entry_point user_sp satp (get_top (kstack tb)) trap_handler in
  write_mem (write_trap_cx ppn (set_x 11 argv_base (set_x 10 (lengthZ args) trap_cx))).

(** ** The end of a thread or process *)

(** [task_inner.res = None] of a task of [p]: the old value is dropped. *)
Definition clear_res (p t : Z) : M Kernel unit :=
  b ← tcb_of t;
  _ ← match res b with
      | Some r => on_process p (drop_user_res r)
      | None => mret tt
      end;
  upd_task t (set_res None).

(** [exit_current_and_run_next], up to the switch to the idle control flow. *)
Definition exit_current_and_run_next (code : Z) : M Kernel unit :=
  o ← on_sched take_current_task;
  t ← unwrap o;
  b ← tcb_of t;
  let p := process b in
  _ ← pcb_of p;
  r ← unwrap (res b);
  _ ← upd_task t (set_task_exit code);
  _ ← clear_res p t;
  _ ← (if tid r =? 0 then
         pb ← pcb_of p;
         _ ← remove_from_pid2process (pid pb);
         pb ← borrow p;
         _ ← modify (upd_pcbs (alter (set_zombie code) p));
         k ← get;
         let init := initproc k in
         _ ← borrow init;
         _ ← fold_m (λ _ child,
               _ ← access child (λ c, set_family (Some init) (children c) c);
               modify (upd_pcbs (alter (λ i, set_family (Kernel.parent i) (vec_push (children i) child) i) init)))
             tt (children pb);
         _ ← release init;
         _ ← fold_m (λ _ o, match o with Some u => clear_res p u | None => mret tt end) tt (tasks pb);
         _ ← modify (upd_pcbs (alter (λ q, set_family (Kernel.parent q) [] q) p));
         pb ← pcb_of p;
         ms ← on_mm (recycle_data_pages (memory_set pb));
         _ ← modify (upd_pcbs (alter (λ q, set_fds [] (set_space ms (task_res_allocator q) q)) p));
         release p
       else mret tt);
  on_sched (schedule UnusedCx).

End process.

(** ** Strong counts and the drop of a process *)

Definition count_occ_Z (l : list Z) (x : Z) : nat := length (filter (λ y, y = x) l).
Definition strong_count (k : Kernel) (p : Z) : nat :=
  (count_occ_Z (map_to_list (pcbs k) ≫= λ qb, children (snd qb)) p
   + count_occ_Z (snd <$> map_to_list (pid2pcb k)) p
   + count_occ_Z (stack_refs k) p
   + (if decide (initproc k = p) then 1 else 0))%nat.

(** The last reference of a task control block: its kernel stack is freed, then
    [res] is dropped, which upgrades the reference to the process. *)
Definition drop_task (p t : Z) : M Kernel unit :=
  k ← get;
  if decide (t ∈ ready_queue (sched k) ∨ cur (sched k) = Some t ∨ t ∈ parked k) then mret tt
  else
    b ← tcb_of t;
    _ ← on_kspace (drop_kstack (kstack b));
    _ ← match res b with Some r => on_process p (drop_user_res r) | None => mret tt end;
    on_sched (modify (λ s, {| ready_queue := ready_queue s; cur := cur s; idle_task_cx := idle_task_cx s;
                              cpu := cpu s; tcbs := delete t (tcbs s) |})).

(** The last reference of a process is dropped: its pid is returned, its address
    space freed and its tasks released. *)
Definition drop_process (p : Z) : M Kernel unit :=
  b ← pcb_of p;
  _ ← zoom pid_ids upd_pids (drop_pid (pid b));
  _ ← on_mm (drop_memory_set (memory_set b));
  _ ← modify (upd_pcbs (delete p));
  fold_m (λ _ o, match o with Some t => drop_task p t | None => mret tt end) tt (tasks b).
