(* ===== verification/Syscall.v ===== *)
(** * System calls on processes, threads and descriptors

    [os/src/syscall/process.rs], [thread.rs], the descriptor calls of [fs.rs] and
    the creation calls of [sync.rs].  The result of a call is its [isize] value; a
    panic of the kernel is a panic of the model. *)

From S2P Require Import Prelude Address FrameAllocator PageTable UserBuffer MemorySet Sched TaskId Kernel.

Definition sys_getpid : M Kernel Z :=
  p ← current_process; b ← pcb_of p; mret (pid b).

Definition sys_gettid : M Kernel Z :=
  o ← on_sched current_task;
  t ← unwrap o;
  b ← tcb_of t;
  r ← unwrap (res b);
  mret (tid r).

Definition sys_kill (pid signal : Z) : M Kernel Z :=
  o ← pid2process pid;
  match o with
  | Some p =>
      match from_bits SignalFlags_all signal with
      | Some flag => _ ← access p (λ b, set_signals (Z.lor (signals b) flag) b); mret 0
      | None => mret (-1)
      end
  | None => mret (-1)
  end.

Section calls.
Context (trap_return trap_handler strampoline sstatus : Z).

Definition sys_fork : M Kernel Z :=
  p ← current_process;
  child ← fork trap_return strampoline p;
  cb ← borrow child;
  t ← lift_result (get_task 0 cb);
  b ← tcb_of t;
  _ ← write_mem (λ m, set_word m (trap_cx_ppn b) 10 0);
  _ ← release child;
  mret (pid cb).

(** [while tasks.len() < tid + 1 { tasks.push(None) }]. *)
Definition pad_tasks (ts : list (option Z)) (n : nat) : list (option Z) :=
  ts ++ replicate (n - length ts) None.

Definition sys_thread_create (entry arg : Z) : M Kernel Z :=
  o ← on_sched current_task;
  t0 ← unwrap o;
  b0 ← tcb_of t0;
  let p := process b0 in
  _ ← pcb_of p;
  r0 ← unwrap (res b0);
  t ← TaskControlBlock_new trap_return p (ustack_base r0) true;
  _ ← on_sched (add_task t);
  b ← tcb_of t;
  r ← unwrap (res b);
  _ ← borrow p;
  _ ← modify (upd_pcbs (alter (λ q,
        set_tasks (insertZ (tid r) (Some t) (pad_tasks (tasks q) (Z.to_nat (tid r + 1)))) q) p));
  satp ← kernel_token;
  _ ← write_mem (write_trap_cx (trap_cx_ppn b)
        (set_x 10 arg (app_init_context sstatus entry (ustack_top r) satp (get_top (kstack b)) trap_handler)));
  _ ← release p;
  mret (tid r).
End calls.

(** Thread [tid] of the calling process: -1 for the caller itself or a thread
    that was collected before, -2 while it runs, its exit code otherwise. *)
Definition sys_waittid (wtid : Z) : M Kernel Z :=
  o ← on_sched current_task;
  t ← unwrap o;
  b ← tcb_of t;
  let p := process b in
  pb ← borrow p;
  r ← unwrap (res b);
  if tid r =? wtid then _ ← release p; mret (-1)
  else
    w ← index (tasks pb) wtid;
    match w with
    | Some u =>
        ub ← tcb_of u;
        match exit_code ub with
        | Some code =>
            _ ← modify (upd_pcbs (alter (λ q, set_tasks (insertZ wtid None (tasks q)) q) p));
            _ ← drop_task p u;
            _ ← release p;
            mret code
        | None => _ ← release p; mret (-2)
        end
    | None => _ ← release p; mret (-1)
    end.

(** [pid == -1 || pid as usize == p.getpid()]. *)
Definition pid_matches (pid child_pid : Z) : bool := (pid =? -1) || (wrap64 pid =? child_pid).

(** The first zombie among the children that match, with its position. *)
Fixpoint find_zombie (pid : Z) (cs : list Z) (i : nat) : M Kernel (option (nat * Z)) :=
  match cs with
  | [] => mret None
  | c :: cs' =>
      b ← access c id;
      if is_zombie b && pid_matches pid (Kernel.pid b) then mret (Some (i, c))
      else find_zombie pid cs' (S i)
  end.

Fixpoint any_match (pid : Z) (cs : list Z) : M Kernel bool :=
  match cs with
  | [] => mret false
  | c :: cs' =>
      b ← pcb_of c;
      if pid_matches pid (Kernel.pid b) then mret true else any_match pid cs'
  end.

Definition sys_waitpid (pid exit_code_ptr : Z) : M Kernel Z :=
  p ← current_process;
  inner ← borrow p;
  found ← any_match pid (children inner);
  if negb found then _ ← release p; mret (-1)
  else
    pair ← find_zombie pid (children inner) 0;
    match pair with
    | Some (idx, child) =>
        _ ← modify (upd_pcbs (alter (λ b, set_family (parent b)
              (take idx (children b) ++ drop (S idx) (children b)) b) p));
        k ← get;
        _ ← assert_ (bool_decide (strong_count k child = 0%nat));
        cb ← access child id;
        pa ← refmut (ms_token (memory_set inner)) exit_code_ptr;
        _ ← write_mem (write_le 4 pa (wrap32 (pcb_exit_code cb)));
        _ ← drop_process child;
        _ ← release p;
        mret (Kernel.pid cb)
    | None => _ ← release p; mret (-2)
    end.

(** ** Descriptors *)

Definition sys_close (fd : Z) : M Kernel Z :=
  p ← current_process;
  inner ← borrow p;
  if lengthZ (fd_table inner) <=? fd then _ ← release p; mret (-1)
  else
    f ← index (fd_table inner) fd;
    match f with
    | None => _ ← release p; mret (-1)
    | Some _ =>
        _ ← modify (upd_pcbs (alter (λ b, set_fds (insertZ fd None (fd_table b)) b) p));
        _ ← release p;
        mret 0
    end.

Definition sys_dup (fd : Z) : M Kernel Z :=
  p ← current_process;
  inner ← borrow p;
  if lengthZ (fd_table inner) <=? fd then _ ← release p; mret (-1)
  else
    f ← index (fd_table inner) fd;
    match f with
    | None => _ ← release p; mret (-1)
    | Some file =>
        let '(new_fd, fds) := alloc_fd (fd_table inner) in
        _ ← modify (upd_pcbs (alter (λ b, set_fds (insertZ new_fd (Some file) fds) b) p));
        _ ← release p;
        mret new_fd
    end.

(** The pipe objects are given; [usize] values are stored at the user address. *)
Definition sys_pipe (rd wr : FileRef) (pipe : Z) : M Kernel Z :=
  p ← current_process;
  b ← access p id;
  let token := ms_token (memory_set b) in
  inner ← borrow p;
  let '(read_fd, fds) := alloc_fd (fd_table inner) in
  let fds := insertZ read_fd (Some rd) fds in
  let '(write_fd, fds) := alloc_fd fds in
  let fds := insertZ write_fd (Some wr) fds in
  _ ← modify (upd_pcbs (alter (set_fds fds) p));
  pa ← refmut token pipe;
  _ ← write_mem (write_usize pa read_fd);
  pa ← refmut token (wrap64 (pipe + 8));
  _ ← write_mem (write_usize pa write_fd);
  _ ← release p;
  mret 0.

(** ** Creating synchronisation objects: the first free slot, or a new one *)

Definition install (obj : Z) (l : list (option Z)) : Z * list (option Z) :=
  match find_index (λ o, match o with None => true | Some _ => false end) l with
  | Some id => (Z.of_nat id, <[id := Some obj]> l)
  | None => (lengthZ l, vec_push l (Some obj))
  end.
