(* ===== verification/Process.v ===== *)
(** * Theorems on processes

    Rules for the borrows and the parts of the kernel state, and the theorems on
    [fork], [exit_current_and_run_next], [sys_waitpid], [sys_waittid], [sys_kill]
    and the descriptor calls. *)

From S2P Require Import Prelude Address FrameAllocator PageTable UserBuffer MemorySet Sched TaskId Kernel Syscall.

(** ** Rules *)

Lemma kernel_eta k : upd_borrowed (borrowed k) k = k.
Proof. by destruct k. Qed.

Lemma wp_pcb_of p b (Q : ProcessControlBlock → Kernel → Prop) k :
  pcbs k !! p = Some b → Q b k → wp (pcb_of p) Q k.
Proof. intros Hp HQ. unfold pcb_of. wp_steps. by eapply wp_unwrap. Qed.
Lemma wp_tcb_of t b (Q : TaskControlBlock → Kernel → Prop) k :
  tcbs (sched k) !! t = Some b → Q b k → wp (tcb_of t) Q k.
Proof. intros Hp HQ. unfold tcb_of. wp_steps. by eapply wp_unwrap. Qed.

Lemma wp_borrow p b (Q : ProcessControlBlock → Kernel → Prop) k :
  pcbs k !! p = Some b → p ∉ borrowed k → Q b (upd_borrowed ({[p]} ∪ borrowed k) k) → wp (borrow p) Q k.
Proof.
  intros Hp Hb HQ. unfold borrow. wp_steps. eapply wp_pcb_of; [done|].
  rewrite decide_False by done. by wp_steps.
Qed.

Lemma wp_access p f b (Q : ProcessControlBlock → Kernel → Prop) k :
  pcbs k !! p = Some b → p ∉ borrowed k → Q b (upd_pcbs (alter f p) k) → wp (access p f) Q k.
Proof.
  intros Hp Hb HQ. unfold access. wp_steps. eapply wp_borrow; [done..|]. unfold release. wp_steps.
  cbn [upd_borrowed upd_pcbs borrowed]. 
  replace (({[p]} ∪ borrowed k) ∖ {[p]}) with (borrowed k) by set_solver. by destruct k.
Qed.

Lemma wp_on_process {A} p b (m : M Space A) (Q : A → Kernel → Prop) k :
  pcbs k !! p = Some b → p ∉ borrowed k →
  wp m (λ a x, Q a (upd_pcbs (alter (set_space (sp_ms x) (sp_ids x)) p) (upd_mm (sp_mm x) k)))
    {| sp_mm := mm k; sp_ms := memory_set b; sp_ids := task_res_allocator b |} →
  wp (on_process p m) Q k.
Proof.
  intros Hp Hb Hm. unfold on_process. wp_steps. eapply wp_borrow; [done..|]. wp_steps.
  apply wp_ok in Hm as (a & x & E & HQ). cbn [upd_borrowed mm].
  eapply wp_lift_result; [exact E|]. unfold release. wp_steps. cbn [upd_borrowed upd_pcbs upd_mm borrowed].
  replace (({[p]} ∪ borrowed k) ∖ {[p]}) with (borrowed k) by set_solver. by destruct k.
Qed.

Lemma wp_on_mm {A} (m : M MM A) (Q : A → Kernel → Prop) k :
  wp m (λ a s, Q a (upd_mm s k)) (mm k) → wp (on_mm m) Q k.
Proof. apply wp_zoom. Qed.

(** ** Several address spaces share the memory

    A space keeps its invariant when others allocate, free or write frames it
    does not hold. *)
Lemma ms_inv_frame lo owned owned' s s' ms :
  ms_inv lo owned s ms → fa_inv lo (fa s') owned' →
  (∀ x, ms_holds ms x → x ∈ owned') →
  (∀ x, x ∈ frames (page_table ms) → page_of (mem s') x = page_of (mem s) x) →
  ms_inv lo owned' s' ms.
Proof.
  intros Hi Hfa Hown Hag. pose proof (mi_pt _ _ _ _ Hi) as [P1 P2 P3 P4].
  assert (∀ v, mapping (mem s') (page_table ms) v = mapping (mem s) (page_table ms) v) as Hm
    by (intros; by apply mapping_agree).
  split; [|apply Hi| |apply Hi|apply Hi].
  - split; [done|by eapply pt_wf_agree| |done]. intros q Hq. apply Hown. by left.
  - intros a Ha. pose proof (mi_ok _ _ _ _ Hi a Ha) as Hok. unfold area_ok in *.
    destruct (map_type a).
    + destruct Hok as [? Hok]. split; [done|]. intros v Hv. rewrite Hm. auto.
    + destruct Hok as [Hd Hok]. split; [done|]. intros v f Hv. destruct (Hok v f Hv) as (_ & ? & ?).
      rewrite Hm. split_and!; [|done|done]. apply Hown. right. eauto.
Qed.

(** ** [fork] *)

Section fork.
Context (trap_return strampoline : Z).

(** A running kernel in which [p], with the single thread [t0], can fork. *)
Record fork_ready (lo : Z) (owned plive klive : gset Z) (k : Kernel) (p : Z)
    (pb : ProcessControlBlock) (t0 : Z) (tb : TaskControlBlock) (r0 : TaskUserRes) : Prop := {
  fr_pcb : pcbs k !! p = Some pb;
  fr_free : p ∉ borrowed k;
  fr_tasks : tasks pb = [Some t0];
  fr_tcb : tcbs (sched k) !! t0 = Some tb;
  fr_res : res tb = Some r0;
  fr_base : fits (ustack_base r0) 1;
  fr_user : user_space lo owned (mm k) (memory_set pb);
  fr_trap : ∃ a f, a ∈ areas (memory_set pb) ∧
     data_frames a !! trap_cx_page {| tid := 0; ustack_base := ustack_base r0 |} = Some f;
  fr_kernel : ms_inv lo owned (mm k) (kernel_space k);
  fr_knonempty : nonempty_areas (kernel_space k);
  fr_kids : rc_ok (kstack_ids k) klive;
  fr_kmore : rc_current (kstack_ids k) < 2 ^ 25;
  fr_kunmapped : ∀ id v, 0 <= id < 2 ^ 25 → id ∉ klive → kstack_lo id <= v < kstack_hi id →
     mapping (mem (mm k)) (page_table (kernel_space k)) v = None;
  fr_pids : rc_ok (pid_ids k) plive;
  fr_pmore : rc_current (pid_ids k) < 2 ^ 64 - 1;
  fr_fresh : ∀ x, next_obj k <= x → pcbs k !! x = None ∧ tcbs (sched k) !! x = None ∧ x ∉ borrowed k;
  fr_frames : 9 + 3 * lengthZ (areas (memory_set pb) ≫= area_pages) <= nfree (fa (mm k));
  fr_tramp : aligned (PhysAddr_from strampoline) = true
}.

(** The child's memory after [fork]: copies of the parent's pages; in the trap
    context only the kernel stack pointer differs. *)
Definition copied (s s' : MM) (top ppn : Z) (f g : Z) : Prop :=
  page_of (mem s') g = if decide (g = ppn) then <[TC_KERNEL_SP := top]> (page_of (mem s) f) else page_of (mem s) f.

Record forked (owned plive klive : gset Z) (k : Kernel) (p : Z) (pb : ProcessControlBlock) (base : Z)
    (c : Z) (k' : Kernel) (cb : ProcessControlBlock) (t : Z) (tb : TaskControlBlock) : Prop := {
  fo_new : pcbs k !! c = None ∧ tcbs (sched k) !! t = None;
  fo_child : pcbs k' !! c = Some cb;
  fo_pid : pid cb ∉ plive;
  fo_parent : parent cb = Some p;
  fo_children : children cb = [];
  fo_zombie : is_zombie cb = false;
  fo_signals : signals cb = 0;
  fo_fds : fd_table cb = fd_table pb;
  fo_tasks : tasks cb = [Some t];
  fo_self : pcbs k' !! p = Some (set_family (parent pb) (children pb ++ [c]) pb);
  fo_others : ∀ q, q ≠ p → q ≠ c → pcbs k' !! q = pcbs k !! q;
  fo_tcb : tcbs (sched k') !! t = Some tb;
  fo_process : process tb = c;
  fo_res : res tb = Some {| tid := 0; ustack_base := base |};
  fo_cx : task_cx tb = goto_trap_return trap_return (get_top (kstack tb));
  fo_ready : ready_queue (sched k') = ready_queue (sched k) ++ [t];
  fo_cur : cur (sched k') = cur (sched k);
  fo_table : pid2pcb k' = <[pid cb := c]> (pid2pcb k);
  fo_areas : length (areas (memory_set cb)) = length (areas (memory_set pb));
  fo_copy : ∀ i a b, areas (memory_set pb) !! i = Some a → areas (memory_set cb) !! i = Some b →
     vpn_range b = vpn_range a ∧ map_type b = map_type a ∧ map_perm b = map_perm a ∧
     ∀ v f, data_frames a !! v = Some f → ∃ g, data_frames b !! v = Some g ∧ g ∉ owned ∧
       mapping (mem (mm k')) (page_table (memory_set cb)) v = Some (g, Z.lor (map_perm a) PTE_V) ∧
       copied (mm k) (mm k') (get_top (kstack tb)) (trap_cx_ppn tb) f g;
  fo_trap : ∃ fl, mapping (mem (mm k')) (page_table (memory_set cb))
     (trap_cx_page {| tid := 0; ustack_base := base |}) = Some (trap_cx_ppn tb, fl);
  fo_kstack : kstack tb ∉ klive ∧ ∀ v, kstack_lo (kstack tb) <= v < kstack_hi (kstack tb) →
     mapping (mem (mm k)) (page_table (kernel_space k)) v = None ∧
     ∃ f, mapping (mem (mm k')) (page_table (kernel_space k')) v = Some (f, Z.lor perm_trap_cx PTE_V) ∧
       f ∉ owned ∧ ¬ ms_holds (memory_set cb) f ∧ page_of (mem (mm k')) f = ∅;
  fo_kernel : ∀ v, 0 <= v < 2 ^ 27 → ¬ (kstack_lo (kstack tb) <= v < kstack_hi (kstack tb)) →
     mapping (mem (mm k')) (page_table (kernel_space k')) v = mapping (mem (mm k)) (page_table (kernel_space k)) v;
  fo_frame : ∀ x, x ∈ owned → x ∉ frames (page_table (kernel_space k)) →
     page_of (mem (mm k')) x = page_of (mem (mm k)) x;
  fo_borrowed : borrowed k' = borrowed k ∧ c ∉ borrowed k'
}.

(** The child's trap context page, before anything is written to it. *)
Lemma fork_trap_page lo owned s usr ms1 owned1 s1 a f v :
  user_space lo owned s usr → fork_inv lo owned s (areas usr) ms1 owned1 s1 →
  a ∈ areas usr → data_frames a !! v = Some f →
  ∃ g fl, mapping (mem s1) (page_table ms1) v = Some (g, fl) ∧ ms_holds ms1 g ∧ g ∉ frames (page_table ms1).
Proof.
  intros Hu [F1 F2 F3 F4 F5 F6 F7 F8] Ha Hf. apply list_elem_of_lookup in Ha as [i Hi].
  destruct (lookup_lt_is_Some_2 (areas ms1) i) as [b Hb]; [rewrite F2; by eapply lookup_lt_Some|].
  destruct (F6 i a b Hi Hb) as (_ & Hty & _ & Hc). destruct (Hc v f Hf) as (g & Hg & _).
  pose proof (mi_ok _ _ _ _ F1 b ltac:(by eapply list_elem_of_lookup_2)) as Hok. unfold area_ok in Hok.
  rewrite Hty, (us_framed _ _ _ _ Hu a) in Hok by by eapply list_elem_of_lookup_2.
  destruct (proj2 Hok v g Hg) as (_ & Hnf & Hm). exists g, (Z.lor (map_perm b) PTE_V). split; [done|].
  split; [|done]. right. exists b, v. split; [by eapply list_elem_of_lookup_2|done].
Qed.

(** The main thread of the child: it takes thread id 0 and the trap context that
    was copied, and gets a kernel stack of its own. *)
Lemma wp_fork_task lo owned klive k c cb base g fl (Q : Z → Kernel → Prop) :
  pcbs k !! c = Some cb → c ∉ borrowed k → task_res_allocator cb = RecycleAllocator_new →
  fits base 1 →
  mapping (mem (mm k)) (page_table (memory_set cb))
    (trap_cx_page {| tid := 0; ustack_base := base |}) = Some (g, fl) →
  ms_inv lo owned (mm k) (kernel_space k) → nonempty_areas (kernel_space k) →
  rc_ok (kstack_ids k) klive → rc_current (kstack_ids k) < 2 ^ 25 → 6 <= nfree (fa (mm k)) →
  (∀ id v, 0 <= id < 2 ^ 25 → id ∉ klive → kstack_lo id <= v < kstack_hi id →
     mapping (mem (mm k)) (page_table (kernel_space k)) v = None) →
  (∀ kid a x owned', kid ∉ klive → 0 <= kid < 2 ^ 25 → is_area a (kstack_lo kid) (kstack_hi kid) perm_trap_cx →
     grown lo owned {| sp_mm := mm k; sp_ms := kernel_space k; sp_ids := sp_ids x |} [a]
       (λ v, False ∨ kstack_lo kid <= v < kstack_hi kid) 6 owned' x →
     let t := next_obj k in
     let tb := {| process := c; kstack := kid; res := Some {| tid := 0; ustack_base := base |};
                  trap_cx_ppn := g; task_cx := goto_trap_return trap_return (get_top kid);
                  task_status := Ready; exit_code := None |} in
     let cb' := set_space (memory_set cb) {| rc_current := 1; rc_recycled := [] |} cb in
     ∀ k', mm k' = sp_mm x → kernel_space k' = sp_ms x → sched k' = {| ready_queue := ready_queue (sched k); cur := cur (sched k);
         idle_task_cx := idle_task_cx (sched k); cpu := cpu (sched k); tcbs := <[t := tb]> (tcbs (sched k)) |} →
       pcbs k' = <[c := cb']> (pcbs k) → pid2pcb k' = pid2pcb k → borrowed k' = borrowed k → Q t k') →
  wp (TaskControlBlock_new trap_return c base false) Q k.
Proof.
  intros Hc Hnb Hnew Hfits Hm Hker Hne Hids Hmore Hfree Hun HQ. unfold TaskControlBlock_new.
  wp_steps. eapply wp_on_process; [done|done|]. unfold wp at 1. rewrite Hnew.
  change (TaskUserRes_new base false {| sp_mm := mm k; sp_ms := memory_set cb; sp_ids := RecycleAllocator_new |})
    with (Ok ({| tid := 0; ustack_base := base |}, {| sp_mm := mm k; sp_ms := memory_set cb;
       sp_ids := {| rc_current := 1; rc_recycled := [] |} |})).
  cbn [sp_mm sp_ms sp_ids]. set (ids1 := {| rc_current := 1; rc_recycled := [] |}) in *.
  set (k1 := upd_pcbs (alter (set_space (memory_set cb) ids1) c) (upd_mm (mm k) k)).
  assert (pcbs k1 !! c = Some (set_space (memory_set cb) ids1 cb)) as Hc1
    by (unfold k1; simpl; by rewrite lookup_alter_eq, Hc).
  wp_steps. eapply wp_on_process; [done|done|]. unfold wp at 1.
  rewrite (res_trap_cx_ppn_ok base 1 0 _ g fl Hfits) by (done || lia). cbn [sp_mm sp_ms sp_ids].
  wp_steps. apply wp_zoom. eapply (wp_kstack_alloc lo owned klive); [done..|].
  intros kid a x owned' Hkid Hkr Ha Hids' G. unfold new_obj. wp_steps. apply wp_zoom. wp_steps.
  eapply (HQ kid a x owned'); [done|done|exact Ha|exact G|done|done|done| |done|done].
  cbn [upd_sched upd_kspace upd_pcbs upd_next pcbs]. unfold k1. cbn [upd_pcbs pcbs upd_mm].
  apply map_eq. intros q. destruct (decide (q = c)) as [->|Hne'].
  - rewrite !lookup_alter_eq, Hc, lookup_insert_eq. done.
  - rewrite !lookup_alter_ne, lookup_insert_ne by done. done.
Qed.

(** The frames of the child and of everybody else once the kernel stack is
    mapped and the kernel stack pointer is stored in the child's trap context. *)
Lemma fork_memory lo owned s usr ms1 owned1 s1 ks x a kid owned' g top :
  user_space lo owned s usr → fork_inv lo owned s (areas usr) ms1 owned1 s1 → ms_inv lo owned s ks → ms_holds ms1 g → g ∉ frames (page_table ms1) →
  is_area a (kstack_lo kid) (kstack_hi kid) perm_trap_cx →
  grown lo owned1 {| sp_mm := s1; sp_ms := ks; sp_ids := sp_ids x |} [a] (λ v, False ∨ kstack_lo kid <= v < kstack_hi kid) 6 owned' x →
  let s' := upd_mem (λ m, set_word m g TC_KERNEL_SP top) (sp_mm x) in
  (∀ i a b, areas usr !! i = Some a → areas ms1 !! i = Some b →
     vpn_range b = vpn_range a ∧ map_type b = map_type a ∧ map_perm b = map_perm a ∧
     ∀ v f, data_frames a !! v = Some f → ∃ g', data_frames b !! v = Some g' ∧ g' ∉ owned ∧
       mapping (mem s') (page_table ms1) v = Some (g', Z.lor (map_perm a) PTE_V) ∧ copied s s' top g f g') ∧
  (∀ y, y ∈ owned → y ∉ frames (page_table ks) → page_of (mem s') y = page_of (mem s) y) ∧
  (∀ v, mapping (mem s') (page_table ms1) v = mapping (mem s1) (page_table ms1) v) ∧
  (∀ v, kstack_lo kid <= v < kstack_hi kid →
     ∃ f, mapping (mem s') (page_table (sp_ms x)) v = Some (f, Z.lor perm_trap_cx PTE_V) ∧
       f ∉ owned ∧ ¬ ms_holds ms1 f ∧ page_of (mem s') f = ∅) ∧
  (∀ v, 0 <= v < 2 ^ 27 → ¬ (kstack_lo kid <= v < kstack_hi kid) →
     mapping (mem s') (page_table (sp_ms x)) v = mapping (mem s) (page_table ks) v).
Proof.
  intros Hu [F1 F2 F3 F4 F5 F6 F7 F8] Hks Hgh Hgf Ha G s'. pose proof (gr_pages _ _ _ _ _ _ _ _ G) as Hpg. simpl in Hpg.
  assert (∀ y, y ∈ frames (page_table ks) → y ∈ owned) as Hkt by (intros y Hy; eapply ms_holds_owned; [done|by left]).
  assert (∀ y, ms_holds ms1 y → page_of (mem (sp_mm x)) y = page_of (mem s1) y) as Hch.
  { intros y Hy. apply Hpg; [apply F4; by right|]. intros Hk. by apply (F5 y Hy), Hkt. }
  assert (∀ v, mapping (mem s') (page_table ms1) v = mapping (mem s1) (page_table ms1) v) as Hcm.
  { intros v. apply mapping_agree; [apply (mi_pt _ _ _ _ F1)|]. intros y Hy. simpl.
    rewrite page_of_set_word_ne by (intros ->; done). apply Hch. by left. }
  assert (∀ v, mapping (mem s') (page_table (sp_ms x)) v = mapping (mem (sp_mm x)) (page_table (sp_ms x)) v) as Hkm.
  { intros v. apply mapping_agree; [apply (mi_pt _ _ _ _ (gr_inv _ _ _ _ _ _ _ _ G))|]. intros y Hy. simpl.
    apply page_of_set_word_ne. intros ->. apply (F5 y Hgh), Hkt.
    apply (gr_new_tables _ _ _ _ _ _ _ _ G); [done|]. apply F4. by right. }
  split_and!; [| |exact Hcm| |].
  - intros i a' b Ha' Hb. destruct (F6 i a' b Ha' Hb) as (? & Hty & Hpm & Hc). split_and!; try done.
    intros v f Hf. destruct (Hc v f Hf) as (g' & Hg' & Hpage).
    assert (b ∈ areas ms1) as Hbin by by eapply list_elem_of_lookup_2.
    assert (ms_holds ms1 g') as Hh by (right; by exists b, v).
    exists g'. split; [done|]. split; [by apply F5|]. split.
    { pose proof (mi_ok _ _ _ _ F1 b Hbin) as Hok. unfold area_ok in Hok.
      rewrite Hty, (us_framed _ _ _ _ Hu a') in Hok by by eapply list_elem_of_lookup_2.
      rewrite Hcm, <- Hpm. by apply Hok. }
    unfold copied. simpl. rewrite <- Hpage, <- (Hch g' Hh). case_decide as Hgg.
    + subst g'. unfold set_word. by rewrite page_of_insert.
    + by rewrite page_of_set_word_ne by congruence.
  - intros y Hy Hn. simpl. rewrite page_of_set_word_ne by (intros ->; by apply (F5 y)).
    rewrite Hpg; [by apply F3|apply F4; by left|done].
  - intros v Hv. destruct (grown_area_pages _ _ _ _ _ _ _ _ a _ _ _ v G ltac:(by left) Ha Hv) as (f & Hfm & Hfo & Hfz).
    exists f. split; [by rewrite Hkm|]. split; [intros Ho; apply Hfo, F4; by left|].
    split; [intros Hh; apply Hfo, F4; by right|]. simpl. rewrite page_of_set_word_ne; [done|].
    intros ->. apply Hfo, F4. by right.
  - intros v Hv Hn. rewrite Hkm, (gr_mapping _ _ _ _ _ _ _ _ G) by (done || tauto). cbn [sp_mm sp_ms].
    apply mapping_agree; [apply (mi_pt _ _ _ _ Hks)|]. intros y Hy. by apply F3, Hkt.
Qed.

Lemma wp_fork lo owned plive klive k p pb t0 tb r0 :
  fork_ready lo owned plive klive k p pb t0 tb r0 →
  wp (fork trap_return strampoline p)
    (λ c k', ∃ cb t tb', forked owned plive klive k p pb (ustack_base r0) c k' cb t tb') k.
Proof.
  intros [H1 H2 H3 H4 H5 H6 H7 H8 H9 H10 H11 H12 H13 H14 H15 H16 H17 H18].
  destruct H8 as (a0 & f0 & Ha0 & Hf0).
  unfold fork. wp_steps. eapply wp_borrow; [done..|]. wp_steps.
  apply wp_assert; [unfold thread_count; by rewrite H3|]. wp_steps. apply wp_on_mm. cbn [upd_borrowed mm].
  eapply wp_mono; [apply (wp_from_existed_user lo owned); [exact H7|exact H18|simpl; lia]|].
  intros ms1 s1 (owned1 & Hfk). wp_steps. apply wp_zoom.
  eapply wp_rc_alloc; [exact H14|exact H15|]. intros pidc ids' Hpids Hpid _ _ _. unfold new_obj. wp_steps.
  cbn [upd_pids upd_borrowed upd_mm next_obj pid2pcb pcbs]. set (c := next_obj k).
  destruct (H16 c ltac:(unfold c; lia)) as (Hc1 & Hc2 & Hc3).
  assert (c ≠ p) as Hcp by (intros ->; congruence).
  eapply wp_lift_result; [unfold get_task; rewrite H3; done|]. wp_steps.
  eapply wp_tcb_of; [done|]. wp_steps. eapply wp_unwrap; [done|]. wp_steps.
  destruct (fork_trap_page lo owned _ _ _ _ _ _ _ _ H7 Hfk Ha0 Hf0) as (g & fl & Hg & Hgh & Hgf).
  match goal with |- wp _ _ ?K => set (k2 := K) end. pose proof Hfk as [F1 F2 F3 F4 _ _ _ F8].
  assert (∀ x, x ∈ frames (page_table (kernel_space k)) → page_of (mem s1) x = page_of (mem (mm k)) x) as Hkp.
  { intros x Hx. apply F3, (ms_holds_owned lo owned _ _ _ H9). by left. }
  eapply (wp_fork_task lo owned1 klive k2 c (pcb_init pidc ms1 (Some p) (fd_table pb))); cbn [k2 mm upd_mm upd_pcbs upd_next].
  { simpl. rewrite lookup_alter_ne, lookup_insert_eq by done. done. }
  { apply not_elem_of_union. by rewrite not_elem_of_singleton. }
  { done. } { done. } { exact Hg. }
  { simpl. eapply ms_inv_frame; [exact H9|apply F1|intros x Hx; apply F4; left; by eapply ms_holds_owned|exact Hkp]. }
  { done. } { exact H11. } { exact H12. }
  { simpl. unfold lengthZ in *. lia. }
  { simpl. intros id v Hid Hnl Hv. rewrite (mapping_agree (mem (mm k))); [by apply (H13 id)|apply (mi_pt _ _ _ _ H9)|done]. }
  intros kid a x owned' Hkid Hkr Ha G. cbv zeta. intros k3 E1 E0 E2 E3 E4 E5. simpl in G, E2, E3, E4, E5 |- *.
  set (tb' := {| process := c; kstack := kid; res := Some {| tid := 0; ustack_base := ustack_base r0 |};
    trap_cx_ppn := g; task_cx := goto_trap_return trap_return (get_top kid);
    task_status := Ready; exit_code := None |}) in *.
  set (t := next_obj k + 1) in *. destruct (H16 t ltac:(unfold t; lia)) as (Ht1 & Ht2 & Ht3).
  wp_steps. eapply wp_access; [by rewrite E3, lookup_insert_eq|rewrite E5; apply not_elem_of_union; by rewrite not_elem_of_singleton|]. wp_steps.
  eapply wp_tcb_of; [simpl; by rewrite E2; simpl; rewrite lookup_insert_eq|]. unfold write_mem, insert_into_pid2process, release.
  wp_steps. apply wp_on_mm. wp_steps. apply wp_zoom. unfold add_task. wp_steps.
  destruct (fork_memory _ _ _ _ _ _ _ _ _ _ _ _ g (get_top kid) H7 Hfk H9 Hgh Hgf Ha G) as (Hm1 & Hm2 & Hm3 & Hm4 & Hm5).
  rewrite <- E1 in Hm1, Hm2, Hm3, Hm4, Hm5. rewrite <- E0 in Hm4, Hm5. change (c + 1) with t in *.
  exists (set_tasks [Some t] (set_space ms1 {| rc_current := 1; rc_recycled := [] |}
            (pcb_init pidc ms1 (Some p) (fd_table pb)))), t, tb'.
  split; simpl; try done; rewrite ?E2, ?E3, ?E4, ?E5; simpl; try done.
  - by rewrite lookup_alter_eq, lookup_insert_eq.
  - by rewrite lookup_alter_ne, lookup_insert_ne, lookup_alter_eq, lookup_insert_ne, H1 by done.
  - intros q Hqp Hqc. by rewrite lookup_alter_ne, lookup_insert_ne, lookup_alter_ne, lookup_insert_ne by done.
  - by rewrite lookup_insert_eq.
  - exists fl. by rewrite Hm3.
  - split; [done|]. intros v Hv. split; [by apply (H13 kid)|by apply Hm4].
  - replace (({[p]} ∪ borrowed k) ∖ {[p]}) with (borrowed k) by (clear -H2; set_solver). done.
Qed.
End fork.

(** ** [sys_waitpid] *)

Section waitpid.
Context (k : Kernel).

(** The children of the caller are live and nobody holds their [inner]. *)
Definition family_ok (cs : list Z) : Prop :=
  ∀ c, c ∈ cs → is_Some (pcbs k !! c) ∧ c ∉ borrowed k.

Definition child_pid (c : Z) : Z := match pcbs k !! c with Some b => pid b | None => 0 end.
Definition child_zombie (c : Z) : bool := match pcbs k !! c with Some b => is_zombie b | None => false end.
Definition waits_for (wpid c : Z) : bool := pid_matches wpid (child_pid c).
Definition reapable (wpid c : Z) : bool := child_zombie c && waits_for wpid c.

Lemma access_id p b : pcbs k !! p = Some b → p ∉ borrowed k → access p id k = Ok (b, k).
Proof.
  intros Hp Hb. destruct (wp_ok (access p id) (λ b' k', b' = b ∧ k' = upd_pcbs (alter id p) k) k)
    as (b' & k' & E & -> & ->); [by eapply wp_access|]. rewrite E. do 2 f_equal.
  unfold upd_pcbs. rewrite alter_id by done. by destruct k.
Qed.

Lemma any_match_eq wpid cs : family_ok cs → any_match wpid cs k = Ok (existsb (waits_for wpid) cs, k).
Proof.
  induction cs as [|c cs IH]; intros Hf; [done|]. cbn [any_match existsb].
  destruct (Hf c ltac:(left)) as [[b Hb] _]. unfold mbind, M_bind, pcb_of, mbind, M_bind, get, unwrap.
  rewrite Hb. unfold waits_for at 1, child_pid. rewrite Hb. unfold mret, M_ret.
  destruct (pid_matches wpid (pid b)); [done|]. apply IH. intros c' Hc'. apply Hf. by right.
Qed.

Lemma find_zombie_eq wpid cs i : family_ok cs →
  find_zombie wpid cs i k =
    Ok (match find_index (reapable wpid) cs with
        | Some j => (λ c, ((i + j)%nat, c)) <$> cs !! j
        | None => None
        end, k).
Proof.
  revert i. induction cs as [|c cs IH]; intros i Hf; [done|]. cbn [find_zombie find_index].
  destruct (Hf c ltac:(left)) as [[b Hb] Hnb]. unfold mbind, M_bind. rewrite (access_id c b Hb Hnb).
  unfold reapable at 1, child_zombie, waits_for, child_pid. rewrite Hb.
  destruct (is_zombie b && pid_matches wpid (pid b)).
  - simpl. by rewrite Nat.add_0_r.
  - rewrite IH by (intros c' Hc'; apply Hf; by right).
    destruct (find_index (reapable wpid) cs) as [j|]; [|done]. cbn [fmap option_fmap option_map].
    cbn [lookup list_lookup]. by replace (i + S j)%nat with (S i + j)%nat by lia.
Qed.
End waitpid.

(** The calling process. *)
Record running (k : Kernel) (t : Z) (tb : TaskControlBlock) (p : Z) (pb : ProcessControlBlock) : Prop := {
  ru_cur : cur (sched k) = Some t;
  ru_tcb : tcbs (sched k) !! t = Some tb;
  ru_process : process tb = p;
  ru_pcb : pcbs k !! p = Some pb;
  ru_free : p ∉ borrowed k
}.

Lemma current_process_eq k t tb p pb : running k t tb p pb → current_process k = Ok (p, k).
Proof.
  intros [H1 H2 <- H4 _]. unfold current_process, on_sched, zoom, mbind, M_bind, current_task, gets, unwrap.
  rewrite H1. unfold mret, M_ret. unfold tcb_of, mbind, M_bind, get, unwrap.
  replace (upd_sched (sched k) k) with k by by destruct k. rewrite H2. unfold mret, M_ret.
  unfold pcb_of, mbind, M_bind, get, unwrap. by rewrite H4.
Qed.

Lemma borrow_eq k p b : pcbs k !! p = Some b → p ∉ borrowed k →
  borrow p k = Ok (b, upd_borrowed ({[p]} ∪ borrowed k) k).
Proof.
  intros Hp Hb. destruct (wp_ok (borrow p) (λ b' k', b' = b ∧ k' = upd_borrowed ({[p]} ∪ borrowed k) k) k)
    as (b' & k' & E & -> & ->); [by eapply wp_borrow|done].
Qed.

Lemma release_borrowed k p : p ∉ borrowed k →
  upd_borrowed (borrowed (upd_borrowed ({[p]} ∪ borrowed k) k) ∖ {[p]}) (upd_borrowed ({[p]} ∪ borrowed k) k) = k.
Proof.
  intros Hp. simpl. replace (({[p]} ∪ borrowed k) ∖ {[p]}) with (borrowed k) by set_solver. by destruct k.
Qed.

(** Returning a list of frames. *)
Lemma wp_dealloc_all lo l : ∀ owned s (Q : unit → MM → Prop),
  fa_inv lo (fa s) owned → NoDup l → (∀ x, x ∈ l → x ∈ owned) →
  (∀ a', fa_inv lo a' (owned ∖ list_to_set l) → end_ a' = end_ (fa s) → Q tt {| fa := a'; mem := mem s |}) →
  wp (fold_m (λ _ f, frame_dealloc f) tt l) Q s.
Proof.
  induction l as [|x l IH]; intros owned s Q Hfa Hnd Hin HQ; cbn [fold_m].
  - wp_steps. destruct s as [a m]. apply (HQ a); [|done]. simpl in *.
    by replace (owned ∖ ∅) with owned by set_solver.
  - apply NoDup_cons in Hnd as [Hx Hnd]. wp_steps. eapply wp_frame_dealloc; [done|apply Hin; left|].
    intros a' Ha' _ He. eapply (IH (owned ∖ {[x]})); [done|done| |].
    + intros y Hy. apply elem_of_difference. split; [apply Hin; by right|].
      rewrite elem_of_singleton. intros ->. done.
    + intros a2 Ha2 He2. apply HQ; [|by rewrite He2]. simpl in Ha2. simpl.
      replace (owned ∖ ({[x]} ∪ list_to_set l)) with (owned ∖ {[x]} ∖ list_to_set l) by set_solver. done.
Qed.

(** A zombie that can be freed: its data pages are gone, its only task has exited
    and is referenced by nobody else, and its kernel stack is mapped. *)
Record zombie_ok (lo : Z) (owned plive : gset Z) (k : Kernel) (cb : ProcessControlBlock)
    (u : Z) (ub : TaskControlBlock) (idx : nat) (ka : MapArea) : Prop := {
  zo_pids : rc_ok (pid_ids k) plive;
  zo_pid : pid cb ∈ plive;
  zo_areas : areas (memory_set cb) = [];
  zo_nodup : NoDup (frames (page_table (memory_set cb)));
  zo_owned : ∀ x, x ∈ frames (page_table (memory_set cb)) → x ∈ owned ∧ ¬ ms_holds (kernel_space k) x;
  zo_tasks : tasks cb = [Some u];
  zo_task : tcbs (sched k) !! u = Some ub;
  zo_res : res ub = None;
  zo_unref : u ∉ ready_queue (sched k) ∧ cur (sched k) ≠ Some u ∧ u ∉ parked k;
  zo_kernel : ms_inv lo owned (mm k) (kernel_space k);
  zo_kid : 0 <= kstack ub < 2 ^ 25;
  zo_stack : find_index (λ b, range_l (vpn_range b) =? range_l (vpn_range ka)) (areas (kernel_space k)) = Some idx ∧
     areas (kernel_space k) !! idx = Some ka ∧ range_l (vpn_range ka) = kstack_lo (kstack ub)
}.

Lemma wp_drop_process lo owned plive k c cb u ub idx ka (Q : unit → Kernel → Prop) :
  pcbs k !! c = Some cb → zombie_ok lo owned plive k cb u ub idx ka →
  (∀ k' owned', pcbs k' = delete c (pcbs k) → tcbs (sched k') = delete u (tcbs (sched k)) →
     ready_queue (sched k') = ready_queue (sched k) → cur (sched k') = cur (sched k) →
     pid2pcb k' = pid2pcb k → borrowed k' = borrowed k →
     rc_ok (pid_ids k') (plive ∖ {[pid cb]}) →
     ms_inv lo owned' (mm k') (kernel_space k') →
     areas (kernel_space k') = take idx (areas (kernel_space k)) ++ drop (S idx) (areas (kernel_space k)) →
     (∀ x, x ∈ owned' ↔ x ∈ owned ∧ x ∉ frames (page_table (memory_set cb)) ∧
        ∀ v, v ∈ area_pages ka → data_frames ka !! v ≠ Some x) →
     (∀ x, x ∉ frames (page_table (kernel_space k)) → page_of (mem (mm k')) x = page_of (mem (mm k)) x) →
     page_table (kernel_space k') = page_table (kernel_space k) →
     (∀ v, 0 <= v < 2 ^ 27 → mapping (mem (mm k')) (page_table (kernel_space k')) v =
        if decide (v ∈ area_pages ka) then None else mapping (mem (mm k)) (page_table (kernel_space k)) v) →
     Q tt k') →
  wp (drop_process c) Q k.
Proof.
  intros Hc [Z1 Z2 Z3 Z4 Z5 Z6 Z7 Z8 (Z9 & Z10 & Z11) Z12 Z13 (Z14 & Z15 & Z16)] HQ.
  unfold drop_process. wp_steps. eapply wp_pcb_of; [done|]. wp_steps. apply wp_zoom.
  assert (0 <= pid cb) as H0 by (apply (rc_live _ _ Z1) in Z2; lia).
  unfold drop_pid, wp at 1. rewrite (rc_dealloc_eq _ _ _ Z1 H0), decide_True by done.
  wp_steps. apply wp_on_mm. unfold drop_memory_set. rewrite Z3. wp_steps.
  eapply (wp_dealloc_all lo); [apply (mi_pt _ _ _ _ Z12)|done|intros x Hx; by apply Z5|].
  intros a' Ha' _. wp_steps. rewrite Z6. cbn [fold_m]. unfold drop_task. wp_steps.
  cbn [upd_pcbs upd_mm upd_pids sched parked].
  rewrite decide_False by (intros [?|[?|?]]; done). wp_steps.
  eapply wp_tcb_of; [done|]. wp_steps. apply wp_zoom.
  unfold drop_kstack. destruct (kernel_stack_position_eq _ Z13) as [Hp1 _]. destruct (kstack_pages _ Z13) as [Hlo _].
  destruct (kernel_stack_position (kstack ub)) as [bot top]. cbn [fst] in Hp1.
  rewrite Hp1, page_num_of_page, <- Hlo, <- Z16. wp_steps. eapply wp_lift_result; [done|].
  apply wp_on_space. cbn [sp_ms sp_mm upd_pcbs upd_mm upd_pids kernel_space mm].
  eapply wp_remove_area; [|exact Z14|exact Z15|].
  { eapply (ms_inv_frame lo owned); [exact Z12|exact Ha'| |done]. intros x Hx. apply elem_of_difference.
    split; [by eapply ms_holds_owned|]. rewrite elem_of_list_to_set. intros Hx'. by destruct (Z5 x Hx'). }
  intros owned' s'. cbv zeta. intros Hi' [U1 U2 U3 U4 U5 U6]. wp_steps. rewrite Z8. wp_steps. apply wp_zoom. wp_steps.
  eapply (HQ _ owned'); [reflexivity|reflexivity|reflexivity|reflexivity|reflexivity|reflexivity| |exact Hi'|reflexivity| |exact U4|reflexivity|exact U3].
  - by apply rc_dealloc_ok.
  - intros x. rewrite U2, elem_of_difference, elem_of_list_to_set. tauto.
Qed.

(** What is left of the zombie [cb] with the task [u] when it is reaped: nothing.
    The allocator has its page tables and the frames of its kernel stack back, and
    the pages of the stack are not mapped any more; no other page of the kernel
    space and no other task changes. *)
Record reaped (lo : Z) (owned : gset Z) (k : Kernel) (cb : ProcessControlBlock) (pa u : Z) (ub : TaskControlBlock)
    (owned' : gset Z) (k' : Kernel) : Prop := {
  rp_task : tasks cb = [Some u] ∧ tcbs (sched k) !! u = Some ub ∧ tcbs (sched k') = delete u (tcbs (sched k));
  rp_sched : ready_queue (sched k') = ready_queue (sched k) ∧ cur (sched k') = cur (sched k);
  rp_kernel : ms_inv lo owned' (mm k') (kernel_space k');
  rp_owned : ∀ x, x ∈ owned' ↔ x ∈ owned ∧ x ∉ frames (page_table (memory_set cb)) ∧
     ∀ v fl, kstack_lo (kstack ub) <= v < kstack_hi (kstack ub) →
       mapping (mem (mm k)) (page_table (kernel_space k)) v ≠ Some (x, fl);
  rp_stack : ∀ v, kstack_lo (kstack ub) <= v < kstack_hi (kstack ub) →
     is_Some (mapping (mem (mm k)) (page_table (kernel_space k)) v) ∧
     mapping (mem (mm k')) (page_table (kernel_space k')) v = None;
  rp_mapping : ∀ v, 0 <= v < 2 ^ 27 → ¬ (kstack_lo (kstack ub) <= v < kstack_hi (kstack ub)) →
     mapping (mem (mm k')) (page_table (kernel_space k')) v = mapping (mem (mm k)) (page_table (kernel_space k)) v;
  rp_pages : ∀ x, x ∉ frames (page_table (kernel_space k)) → x ≠ floor pa →
     page_of (mem (mm k')) x = page_of (mem (mm k)) x
}.

(** The frames that a kernel stack holds are those its pages are mapped to. *)
Lemma stack_frames lo owned k idx ka kid : ms_inv lo owned (mm k) (kernel_space k) → areas (kernel_space k) !! idx = Some ka →
  is_area ka (kstack_lo kid) (kstack_hi kid) perm_trap_cx →
  (∀ v, v ∈ area_pages ka ↔ kstack_lo kid <= v < kstack_hi kid) ∧
  (∀ v, kstack_lo kid <= v < kstack_hi kid → 0 <= v < 2 ^ 27 ∧ is_Some (mapping (mem (mm k)) (page_table (kernel_space k)) v)) ∧
  ∀ x, (∀ v, v ∈ area_pages ka → data_frames ka !! v ≠ Some x) ↔
    ∀ v fl, kstack_lo kid <= v < kstack_hi kid → mapping (mem (mm k)) (page_table (kernel_space k)) v ≠ Some (x, fl).
Proof.
  intros Hi Hka%list_elem_of_lookup_2 (Hty & Hpm & Hrg).
  pose proof (mi_ok _ _ _ _ Hi ka Hka) as Hok. unfold area_ok in Hok. rewrite Hty in Hok. destruct Hok as [Hdom Hok].
  pose proof (mi_wf _ _ _ _ Hi ka Hka) as Hwf.
  assert (∀ v, v ∈ area_pages ka ↔ kstack_lo kid <= v < kstack_hi kid) as Hpg.
  { intros v. rewrite elem_of_area_pages by done. by rewrite Hrg. }
  split; [done|]. destruct Hwf as (W1 & W2 & _). rewrite Hrg in W1, W2. cbn [range_l range_r] in W1, W2. split.
  - intros v Hv. split; [lia|]. destruct (proj2 (Hdom v) (proj2 (Hpg v) Hv)) as [f Hf].
    destruct (Hok v f Hf) as (_ & _ & ->). by eexists.
  - intros x. split.
    + intros Hn v fl Hv Hm. apply Hpg in Hv. destruct (proj2 (Hdom v) Hv) as [f Hf]. destruct (Hok v f Hf) as (_ & _ & Hm').
      rewrite Hm in Hm'. injection Hm' as -> _. by apply (Hn v).
    + intros Hn v Hv Hf. destruct (Hok v x Hf) as (_ & _ & Hm). apply (Hn v _ (proj1 (Hpg v) Hv) Hm).
Qed.

(** A store that stays inside a frame. *)
Lemma next_in_page pa n : 0 <= pa < 2 ^ 56 → page_offset pa + Z.of_nat (S (S n)) <= PAGE_SIZE →
  floor (pa + 1) = floor pa ∧ page_offset (pa + 1) = page_offset pa + 1 ∧ 0 <= pa + 1 < 2 ^ 56.
Proof.
  intros Hpa Hoff. pose proof (page_offset_range pa). rewrite !page_offset_mod in *.
  unfold floor, PAGE_SIZE in *. split_and!; zdiv.
Qed.

Lemma get_set_byte m p o v j : 0 <= o → 0 <= j →
  get_byte (set_byte m p o (Z.land v 255)) p j = if decide (o = j) then Z.land v 255 else get_byte m p j.
Proof.
  intros Ho Hj. unfold get_byte, set_byte. rewrite page_of_insert, page_byte_set; [done|done|done|].
  change 255 with (Z.ones 8). rewrite Z.land_ones by lia. apply Z.mod_pos_bound. lia.
Qed.

Lemma write_le_page n : ∀ pa v m x, 0 <= pa < 2 ^ 56 → page_offset pa + Z.of_nat n <= PAGE_SIZE →
  x ≠ floor pa → page_of (write_le n pa v m) x = page_of m x.
Proof.
  induction n as [|n IH]; intros pa v m x Hpa Hoff Hx; [done|]. cbn [write_le].
  rewrite wrap_small by lia. unfold write_u8, set_byte.
  destruct n as [|n]; [cbn [write_le]; by rewrite page_of_insert_ne|].
  destruct (next_in_page pa n Hpa Hoff) as (Hf & Ho & Hr).
  rewrite IH; [|lia|lia|by rewrite Hf]. by rewrite page_of_insert_ne.
Qed.

Lemma write_le_below n : ∀ pa v m j, 0 <= pa < 2 ^ 56 → page_offset pa + Z.of_nat n <= PAGE_SIZE →
  0 <= j < page_offset pa → get_byte (write_le n pa v m) (floor pa) j = get_byte m (floor pa) j.
Proof.
  induction n as [|n IH]; intros pa v m j Hpa Hoff Hj; [done|]. cbn [write_le].
  rewrite wrap_small by lia. unfold write_u8.
  pose proof (get_set_byte m (floor pa) (page_offset pa) v j ltac:(lia) ltac:(lia)) as Hs.
  rewrite decide_False in Hs by lia. destruct n as [|n]; [exact Hs|].
  destruct (next_in_page pa n Hpa Hoff) as (Hf & Ho & Hr).
  rewrite <- Hf. rewrite IH by lia. rewrite Hf. exact Hs.
Qed.

Lemma write_le_byte n : ∀ pa v m i, 0 <= pa < 2 ^ 56 → page_offset pa + Z.of_nat n <= PAGE_SIZE →
  0 <= i < Z.of_nat n →
  get_byte (write_le n pa v m) (floor pa) (page_offset pa + i) = Z.land (Z.shiftr v (8 * i)) 255.
Proof.
  induction n as [|n IH]; intros pa v m i Hpa Hoff Hi; [lia|]. cbn [write_le]. rewrite wrap_small by lia.
  pose proof (page_offset_range pa). unfold write_u8.
  pose proof (get_set_byte m (floor pa) (page_offset pa) v (page_offset pa) ltac:(lia) ltac:(lia)) as Hs.
  rewrite decide_True in Hs by done. destruct n as [|n].
  { cbn [write_le]. replace i with 0 by lia. rewrite Z.add_0_r. exact Hs. }
  destruct (next_in_page pa n Hpa Hoff) as (Hf & Ho & Hr). destruct (decide (i = 0)) as [->|Hi0].
  - rewrite <- Hf. rewrite write_le_below by lia. rewrite Z.add_0_r, Hf. exact Hs.
  - rewrite <- Hf. replace (page_offset pa + i) with (page_offset (pa + 1) + (i - 1)) by lia.
    rewrite IH by lia. rewrite Z.shiftr_shiftr by lia. do 2 f_equal. lia.
Qed.

(** What is left to check before the zombie [c] at position [i] can be reaped:
    the assertion on its strong count and the caller's pointer. *)
Record reap_ok (lo : Z) (owned plive : gset Z) (k : Kernel) (p : Z) (pb : ProcessControlBlock)
    (i : nat) (c : Z) (cb : ProcessControlBlock) (ptr pa : Z) : Prop := {
  re_child : pcbs k !! c = Some cb;
  re_ne : c ≠ p;
  re_zombie : ∃ u ub idx ka, zombie_ok lo owned plive k cb u ub idx ka ∧
     is_area ka (kstack_lo (kstack ub)) (kstack_hi (kstack ub)) perm_trap_cx;
  re_count : strong_count (upd_pcbs (alter (λ b, set_family (parent b)
     (take i (children b) ++ drop (S i) (children b)) b) p) k) c = 0%nat;
  re_ptr : translated_refmut (mem (mm k)) (ms_token (memory_set pb)) ptr = Ok pa;
  re_pa : 0 <= pa < 2 ^ 56 ∧ page_offset pa + 4 <= PAGE_SIZE;
  re_page : floor pa ∉ frames (page_table (kernel_space k))
}.

Lemma zombie_ok_write lo owned plive k cb u ub idx ka b f m :
  zombie_ok lo owned plive k cb u ub idx ka →
  (∀ x, x ∈ frames (page_table (kernel_space k)) → page_of (m (mem (mm k))) x = page_of (mem (mm k)) x) →
  zombie_ok lo owned plive (upd_mm (upd_mem m (mm k)) (upd_pcbs f (upd_borrowed b k))) cb u ub idx ka.
Proof.
  intros [Z1 Z2 Z3 Z4 Z5 Z6 Z7 Z8 Z9 Z10 Z11 Z12] Hm. split; try done.
  by apply (ms_inv_agree _ _ (mm k)).
Qed.

Lemma waitpid_reaps lo owned plive k t tb p pb wpid ptr i c cb pa :
  running k t tb p pb → family_ok k (children pb) → p ∉ children pb →
  find_index (reapable k wpid) (children pb) = Some i → children pb !! i = Some c →
  reap_ok lo owned plive k p pb i c cb ptr pa →
  wp (sys_waitpid wpid ptr) (λ r k', r = pid cb ∧
    pcbs k' = delete c (alter (λ b, set_family (parent b)
      (take i (children b) ++ drop (S i) (children b)) b) p (pcbs k)) ∧
    borrowed k' = borrowed k ∧ rc_ok (pid_ids k') (plive ∖ {[pid cb]}) ∧
    (∀ j, 0 <= j < 4 → get_byte (mem (mm k')) (floor pa) (page_offset pa + j) =
       Z.land (Z.shiftr (wrap32 (pcb_exit_code cb)) (8 * j)) 255) ∧
    ∃ u ub owned', reaped lo owned k cb pa u ub owned' k') k.
Proof.
  intros Hr Hf Hp Hi Hc [R1 R2 (u & ub & idx & ka & R3 & Hka) R4 R5 (R6 & R7) R8].
  pose proof (ru_pcb _ _ _ _ _ Hr) as Hpb. pose proof (ru_free _ _ _ _ _ Hr) as Hpf.
  unfold sys_waitpid. apply wp_bind. unfold wp at 1. rewrite (current_process_eq _ _ _ _ _ Hr).
  wp_steps. eapply wp_borrow; [done..|]. set (k1 := upd_borrowed ({[p]} ∪ borrowed k) k).
  assert (family_ok k1 (children pb)) as Hf1.
  { intros d Hd. destruct (Hf d Hd). split; [done|]. simpl. set_solver. }
  wp_steps. unfold wp at 1. rewrite (any_match_eq k1 wpid _ Hf1).
  assert (existsb (waits_for k1 wpid) (children pb) = true) as Hex.
  { apply existsb_exists. exists c. split; [by apply list_elem_of_In; eapply list_elem_of_lookup_2|].
    apply find_index_Some in Hi as [(d & Hd & Hrp) _]. rewrite Hc in Hd. injection Hd as <-.
    unfold reapable in Hrp. by apply andb_true_iff in Hrp as [_ ?]. }
  rewrite Hex. cbn [negb]. wp_steps. unfold wp at 1. rewrite (find_zombie_eq k1 wpid _ 0 Hf1).
  change (find_index (reapable k1 wpid) (children pb)) with (find_index (reapable k wpid) (children pb)).
  rewrite Hi, Hc. cbn [fmap option_fmap option_map]. wp_steps.
  apply wp_assert; [apply bool_decide_eq_true; exact R4|]. wp_steps.
  eapply wp_mono.
  { eapply (wp_access c id cb (λ b k', b = cb ∧ k' = _) _); [by simpl; rewrite lookup_alter_ne| |split; reflexivity].
    simpl. destruct (Hf c ltac:(by eapply list_elem_of_lookup_2)). set_solver. }
  intros b k3 [-> ->]. rewrite !Nat.add_0_l. unfold refmut. wp_steps.
  eapply wp_lift_result; [exact R5|]. unfold write_mem. wp_steps. apply wp_on_mm. wp_steps.
  assert (∀ x, x ∈ frames (page_table (kernel_space k)) →
    page_of (write_le 4 pa (wrap32 (pcb_exit_code cb)) (mem (mm k))) x = page_of (mem (mm k)) x) as Hw.
  { intros x Hx. apply write_le_page; [done|done|]. by intros ->. }
  eapply (wp_drop_process lo owned plive); [|exact (zombie_ok_write _ _ _ _ _ _ _ _ _ ({[p]} ∪ borrowed k)
    (λ x, alter id c (alter _ p x)) _ R3 Hw)|].
  { simpl. by rewrite lookup_alter_eq, lookup_alter_ne, R1. }
  intros k' owned' E1 E2 E3 E4 E5 E6 E7 E8 E9 E10 E11 E12 E13. unfold release. wp_steps.
  pose proof (zo_kernel _ _ _ _ _ _ _ _ _ R3) as Hkm. destruct (zo_stack _ _ _ _ _ _ _ _ _ R3) as (_ & Hidx & _).
  destruct (stack_frames _ _ _ _ _ _ Hkm Hidx Hka) as (S1 & S2 & S3). simpl in *.
  split_and!; [done| | |done| |].
  - rewrite E1. f_equal. by rewrite alter_id.
  - rewrite E6. set_solver.
  - intros j Hj. unfold get_byte. rewrite E11 by done.
    exact (write_le_byte 4 pa (wrap32 (pcb_exit_code cb)) (mem (mm k)) j R6 R7 Hj).
  - exists u, ub, owned'. split; cbn [upd_borrowed mm kernel_space sched].
    + split_and!; [apply R3|apply R3|exact E2].
    + done.
    + exact E8.
    + intros x. rewrite E10, S3. done.
    + intros v Hv. destruct (S2 v Hv) as [Hr' Hsome]. split; [done|]. rewrite E13 by done. by rewrite decide_True by by apply S1.
    + intros v Hv Hn. rewrite E13 by done. rewrite decide_False by by rewrite S1.
      apply mapping_agree; [apply (mi_pt _ _ _ _ Hkm)|exact Hw].
    + intros x Hx Hne. rewrite E11 by done. exact (write_le_page 4 pa (wrap32 (pcb_exit_code cb)) (mem (mm k)) x R6 R7 Hne).
Qed.

(** ** A process whose main thread exits while others live *)

Lemma wlp_pcb_of p (Q : ProcessControlBlock → Kernel → Prop) k :
  (∀ b, pcbs k !! p = Some b → Q b k) → wlp (pcb_of p) Q k.
Proof. intros HQ. unfold pcb_of. wlp_steps. by apply wlp_unwrap. Qed.
Lemma wlp_tcb_of t (Q : TaskControlBlock → Kernel → Prop) k :
  (∀ b, tcbs (sched k) !! t = Some b → Q b k) → wlp (tcb_of t) Q k.
Proof. intros HQ. unfold tcb_of. wlp_steps. by apply wlp_unwrap. Qed.
Lemma wlp_borrow p (Q : ProcessControlBlock → Kernel → Prop) k :
  (∀ b, pcbs k !! p = Some b → p ∉ borrowed k → Q b (upd_borrowed ({[p]} ∪ borrowed k) k)) → wlp (borrow p) Q k.
Proof.
  intros HQ. unfold borrow. wlp_steps. apply wlp_pcb_of. intros b Hb. case_decide; [done|].
  wlp_steps. by apply HQ.
Qed.

Lemma wlp_release p (Q : unit → Kernel → Prop) k :
  Q tt (upd_borrowed (borrowed k ∖ {[p]}) k) → wlp (release p) Q k.
Proof. intros HQ. unfold release. by apply wlp_modify. Qed.

(** Task [u] still owns its user resources. *)
Definition has_res (u : Z) (k : Kernel) : Prop :=
  ∃ bu ru, tcbs (sched k) !! u = Some bu ∧ res bu = Some ru.

Lemma wlp_fold {A} (I : Kernel → Prop) (body : unit → A → M Kernel unit) l k :
  I k → (∀ x k, I k → wlp (body tt x) (λ _ k', I k') k) → wlp (fold_m body tt l) (λ _ k', I k') k.
Proof.
  intros HI Hb. revert k HI. induction l as [|x l IH]; intros k HI; cbn [fold_m]; [by wlp_steps|].
  wlp_steps. eapply wlp_mono; [by apply Hb|]. intros [] k' HI'. by apply IH.
Qed.

Lemma wlp_upd_task t f u k (Q : unit → Kernel → Prop) :
  has_res u k → (t = u → ∀ b, res (f b) = res b) →
  (∀ s', tcbs s' = alter f t (tcbs (sched k)) → has_res u (upd_sched s' k) → Q tt (upd_sched s' k)) →
  wlp (upd_task t f) Q k.
Proof.
  intros (bu & ru & Hu & Hr) Hf HQ a k'. unfold upd_task, on_sched, zoom, modify. intros [= <- <-].
  apply HQ; [done|]. unfold has_res. simpl. destruct (decide (t = u)) as [->|Hne].
  - exists (f bu), ru. rewrite lookup_alter_eq, Hu. split; [done|]. by rewrite Hf.
  - exists bu, ru. by rewrite lookup_alter_ne.
Qed.

(** A borrow by somebody else does not return while [p] is borrowed. *)
Lemma wlp_clear_res_borrowed p t u k (Q : unit → Kernel → Prop) :
  p ∈ borrowed k → has_res u k → (t ≠ u → ∀ k', p ∈ borrowed k' → has_res u k' → Q tt k') →
  wlp (clear_res p t) Q k.
Proof.
  intros Hp Hu HQ. unfold clear_res. wlp_steps. apply wlp_tcb_of. intros b Hb. wlp_steps.
  destruct (res b) as [r|] eqn:Hr.
  { unfold on_process. wlp_steps. apply wlp_borrow. done. }
  wlp_steps. assert (t ≠ u) as Hne.
  { intros ->. destruct Hu as (bu & ru & Hu & Hru). congruence. }
  apply (wlp_upd_task _ _ u); [done|done|]. intros s' _ Hu'. by apply HQ.
Qed.

Lemma wlp_clear_tasks p u ts k :
  Some u ∈ ts → p ∈ borrowed k → has_res u k →
  wlp (fold_m (λ _ o, match o with Some w => clear_res p w | None => mret tt end) tt ts) (λ _ _, False) k.
Proof.
  revert k. induction ts as [|o ts IH]; intros k Hin Hp Hu; [by apply elem_of_nil in Hin|]. cbn [fold_m].
  wlp_steps. destruct o as [w|].
  - eapply (wlp_clear_res_borrowed p w u); [done|done|]. intros Hne k' Hp' Hu'. apply IH; [|done|done].
    apply elem_of_cons in Hin as [[= ->]|?]; done.
  - wlp_steps. apply IH; [|done|done]. apply elem_of_cons in Hin as [?|?]; done.
Qed.

(** Moving the children to [initproc] under the borrow of [p]. *)
Lemma wlp_access_keep p u c f k :
  p ∈ borrowed k → has_res u k → wlp (access c f) (λ _ k', p ∈ borrowed k' ∧ has_res u k') k.
Proof.
  intros Hp Hu. unfold access. wlp_steps. apply wlp_borrow. intros b Hb Hc. unfold release. wlp_steps.
  split; [|done]. simpl. set_solver.
Qed.

Lemma wlp_on_process_keep {A} q (m : M Space A) p u k :
  has_res u k →
  wlp (on_process q m) (λ _ k', has_res u k' ∧ borrowed k' = borrowed k ∧
    (tasks <$> pcbs k' !! p) = (tasks <$> pcbs k !! p)) k.
Proof.
  intros Hu. unfold on_process. wlp_steps. apply wlp_borrow. intros b Hb Hq. wlp_steps.
  intros [a x] k'. unfold lift_result. destruct (m _) as [[a' x']|]; [|done]. intros [= -> -> <-].
  unfold release. wlp_steps. split_and!; [done| |].
  - simpl. set_solver.
  - simpl. destruct (decide (q = p)) as [->|Hne]; [|by rewrite lookup_alter_ne].
    rewrite lookup_alter_eq. by destruct (pcbs k !! p).
Qed.

Lemma exit_stuck code k t tb r p pb u :
  cur (sched k) = Some t → tcbs (sched k) !! t = Some tb → process tb = p → res tb = Some r → tid r = 0 →
  pcbs k !! p = Some pb → Some u ∈ tasks pb → t ≠ u → has_res u k →
  wlp (exit_current_and_run_next code) (λ _ _, False) k.
Proof.
  intros Hcur Htb <- Hr Ht Hpb Hin Hne Hu. unfold exit_current_and_run_next. wlp_steps.
  intros o k0 E. unfold on_sched, zoom, take_current_task, mbind, M_bind, get, modify, mret, M_ret in E.
  simplify_eq. wlp_steps. apply wlp_unwrap. intros t' Ht'. rewrite Hcur in Ht'. injection Ht' as <-.
  wlp_steps. apply wlp_tcb_of. simpl. intros b Hb. rewrite Htb in Hb. injection Hb as <-.
  wlp_steps. apply wlp_pcb_of. intros _ _. wlp_steps. apply wlp_unwrap. intros r' Hr'. rewrite Hr in Hr'.
  injection Hr' as <-. wlp_steps. apply (wlp_upd_task t _ u); [done|done|]. intros s1 Hs1 Hu1. wlp_steps.
  unfold clear_res at 1. wlp_steps. apply wlp_tcb_of. intros b Hb. wlp_steps.
  match goal with |- wlp _ _ ?K => set (k1 := K) in * end.
  eapply (wlp_mono _ (λ _ k', has_res u k' ∧ (tasks <$> pcbs k' !! process tb) = Some (tasks pb))).
  { destruct (res b).
    - eapply wlp_mono; [by apply (wlp_on_process_keep _ _ (process tb) u)|]. intros [] k' (? & _ & ->). simpl. by rewrite Hpb.
    - wlp_steps. simpl. by rewrite Hpb. }
  intros [] k2 [Hu2 Htk]. apply (wlp_upd_task t _ u); [done|by intros ->|]. intros s2 _ Hu3. wlp_steps.
  rewrite (proj2 (Z.eqb_eq _ _)) by done. wlp_steps. apply wlp_pcb_of. intros pb2 Hpb2. simpl in Hpb2.
  wlp_steps. unfold remove_from_pid2process. wlp_steps. destruct (_ !! pid pb2); [|done].
  wlp_steps. apply wlp_borrow. intros pb3 Hpb3 Hnb. wlp_steps.
  apply wlp_borrow. intros ib Hib Hni. wlp_steps. simpl in Hpb3. rewrite Hpb3 in Htk. injection Htk as Htk.
  eapply wlp_mono.
  { apply (wlp_fold (λ k', process tb ∈ borrowed k' ∧ has_res u k')); [split; [simpl; set_solver|done]|].
    intros c k' [H1 H2]. wlp_steps. eapply wlp_mono; [by apply wlp_access_keep|]. intros _ k4 [? ?]. by wlp_steps. }
  intros [] k4 [Hb4 Hu4]. wlp_steps. apply wlp_release. wlp_steps.
  eapply wlp_mono; [apply (wlp_clear_tasks _ u)|done]; [by rewrite Htk| |done].
  simpl in *. apply elem_of_difference. split; [done|]. rewrite elem_of_singleton. intros Heq. apply Hni.
  rewrite <- Heq. set_solver.
Qed.

(** ** Properties *)

(** C1: [sys_fork] by a single-threaded process succeeds when enough frames are
    free and returns a pid nobody has.  The child has the same open files, is
    recorded as the last child of the caller and in the pid table, and its only
    thread is at the end of the ready queue, about to return from the trap on a
    kernel stack of its own: its number was not in use, its pages were not mapped
    in the kernel space and are now mapped to zeroed frames that were free and are
    not the child's, and nothing else changes in the kernel space.  The child's
    address space has the same areas, each page mapped to a copy of the caller's
    page in a frame that was free; its trap context, which is the page mapped at
    the place of the trap context, differs in the kernel stack pointer and in the
    return value, which is 0.  No frame in use before, other than the kernel's own
    page tables, and no other process is changed. *)
Theorem fork_creates_child trap_return strampoline lo owned plive klive k p pb t0 tb r0 :
  fork_ready strampoline lo owned plive klive k p pb t0 tb r0 → running k t0 tb p pb →
  ∃ c cb t tb' k1 k', sys_fork trap_return strampoline k = Ok (pid cb, k') ∧
    forked trap_return owned plive klive k p pb (ustack_base r0) c k1 cb t tb' ∧
    k' = upd_mm (upd_mem (λ m, set_word m (trap_cx_ppn tb') 10 0) (mm k1)) k1.
Proof.
  intros Hf Hr. destruct (wp_ok _ _ _ (wp_fork trap_return _ _ _ _ _ _ _ _ _ _ _ Hf))
    as (c & k1 & E & cb & t & tb' & Hfo).
  exists c, cb, t, tb', k1. eexists. split; [|split; [exact Hfo|done]].
  pose proof (fo_child _ _ _ _ _ _ _ _ _ _ _ _ _ Hfo) as F2. pose proof (fo_tasks _ _ _ _ _ _ _ _ _ _ _ _ _ Hfo) as F9.
  pose proof (fo_tcb _ _ _ _ _ _ _ _ _ _ _ _ _ Hfo) as F12. destruct (fo_borrowed _ _ _ _ _ _ _ _ _ _ _ _ _ Hfo) as [F22 F23].
  unfold sys_fork, mbind, M_bind. rewrite (current_process_eq _ _ _ _ _ Hr), E.
  rewrite (borrow_eq _ _ _ F2 F23). unfold lift_result, get_task. rewrite F9. cbn [lookupZ].
  unfold tcb_of, mbind, M_bind, get, unwrap. cbn [upd_borrowed sched]. simpl. rewrite F12.
  unfold write_mem, on_mm, zoom, release, modify, mret, M_ret. simpl. do 2 f_equal.
  unfold upd_borrowed, upd_mm. simpl. f_equal. set_solver.
Qed.

(** C5: [sys_waitpid] by its specification: -1 if no child has the pid asked for,
    -2 if there is one but it has not exited (the kernel state is unchanged in both
    cases); otherwise it collects the first such zombie: the child is gone from the
    process table and from the caller's children, and its pid can be reused; its
    task is gone, the allocator has its page tables and the frames of its kernel
    stack back, the pages of the stack are not mapped in the kernel space any more,
    and nothing else is returned or unmapped; its exit code is stored at the
    caller's pointer. *)
Theorem waitpid_outcomes k t tb p pb wpid ptr :
  running k t tb p pb → family_ok k (children pb) → p ∉ children pb →
  (existsb (waits_for k wpid) (children pb) = false → sys_waitpid wpid ptr k = Ok (-1, k)) ∧
  (existsb (waits_for k wpid) (children pb) = true →
   find_index (reapable k wpid) (children pb) = None → sys_waitpid wpid ptr k = Ok (-2, k)) ∧
  (∀ lo owned plive i c cb pa,
     find_index (reapable k wpid) (children pb) = Some i → children pb !! i = Some c →
     reap_ok lo owned plive k p pb i c cb ptr pa →
     ∃ k', sys_waitpid wpid ptr k = Ok (pid cb, k') ∧ pcbs k' !! c = None ∧
       (children <$> pcbs k' !! p) = Some (take i (children pb) ++ drop (S i) (children pb)) ∧
       (∀ q, q ≠ p → q ≠ c → pcbs k' !! q = pcbs k !! q) ∧
       rc_ok (pid_ids k') (plive ∖ {[pid cb]}) ∧ borrowed k' = borrowed k ∧
       (∃ u ub owned', reaped lo owned k cb pa u ub owned' k') ∧
       (∀ j, 0 <= j < 4 → get_byte (mem (mm k')) (floor pa) (page_offset pa + j) =
          Z.land (Z.shiftr (wrap32 (pcb_exit_code cb)) (8 * j)) 255)).
Proof.
  intros Hr Hf Hp. pose proof (ru_pcb _ _ _ _ _ Hr) as Hpb. pose proof (ru_free _ _ _ _ _ Hr) as Hpf.
  set (k1 := upd_borrowed ({[p]} ∪ borrowed k) k).
  assert (family_ok k1 (children pb)) as Hf1.
  { intros d Hd. destruct (Hf d Hd). split; [done|]. simpl. set_solver. }
  assert (release p k1 = Ok (tt, k)) as Hrel.
  { unfold release, modify, k1. by rewrite (release_borrowed k p Hpf). }
  split_and!.
  - intros Hex. unfold sys_waitpid, mbind, M_bind. rewrite (current_process_eq _ _ _ _ _ Hr), (borrow_eq _ _ _ Hpb Hpf).
    fold k1. rewrite (any_match_eq k1 wpid _ Hf1).
    change (existsb (waits_for k1 wpid) (children pb)) with (existsb (waits_for k wpid) (children pb)).
    rewrite Hex. cbn [negb]. by rewrite Hrel.
  - intros Hex Hfi. unfold sys_waitpid, mbind, M_bind.
    rewrite (current_process_eq _ _ _ _ _ Hr), (borrow_eq _ _ _ Hpb Hpf).
    fold k1. rewrite (any_match_eq k1 wpid _ Hf1).
    change (existsb (waits_for k1 wpid) (children pb)) with (existsb (waits_for k wpid) (children pb)).
    rewrite Hex. cbn [negb]. rewrite (find_zombie_eq k1 wpid _ 0 Hf1).
    change (find_index (reapable k1 wpid) (children pb)) with (find_index (reapable k wpid) (children pb)).
    rewrite Hfi. by rewrite Hrel.
  - intros lo owned plive i c cb pa Hi Hc Hre.
    destruct (wp_ok _ _ _ (waitpid_reaps lo owned plive k t tb p pb wpid ptr i c cb pa Hr Hf Hp Hi Hc Hre))
      as (r & k' & E & -> & Hpc & Hb & Hids & Hm & Hrp).
    assert (c ≠ p) as Hcp by apply Hre. exists k'. rewrite Hpc. split_and!; [done| | | |done|done|done|done].
    + apply lookup_delete_eq.
    + rewrite lookup_delete_ne, lookup_alter_eq, Hpb by done. done.
    + intros q Hqp Hqc. by rewrite lookup_delete_ne, lookup_alter_ne by done.
Qed.

(** When the main thread of a process exits while another of its threads
    still owns its user resources, the kernel panics: the other thread's resources
    are dropped while the process is exclusively borrowed, and dropping them borrows
    the process again. *)
Theorem exit_with_live_threads_panics code k t tb r p pb u :
  running k t tb p pb → res tb = Some r → tid r = 0 → Some u ∈ tasks pb → t ≠ u → has_res u k →
  ∃ e, exit_current_and_run_next code k = Panic e.
Proof.
  intros [H1 H2 H3 H4 _] Hr Ht Hin Hne Hu.
  pose proof (exit_stuck code k t tb r p pb u H1 H2 H3 Hr Ht H4 Hin Hne Hu) as Hs. unfold wlp in Hs.
  destruct (exit_current_and_run_next code k) as [[a k']|e]; [by destruct (Hs a k')|eauto].
Qed.

(** ** Witnesses *)

Definition demo_pcb (ms : MemorySet) (ts : list (option Z)) : ProcessControlBlock :=
  set_tasks ts (pcb_init 1 ms None [Some FStdin; Some FStdout; Some FStdout]).
Definition demo_tcb1 : TaskControlBlock := set_status Running demo_tcb.
Definition demo_kernel (s : MM) (ms : MemorySet) (ts : list (option Z)) : Kernel :=
  {| mm := s; kernel_space := demo_ms; kstack_ids := RecycleAllocator_new; pid_ids := RecycleAllocator_new;
     sched := demo_s1; pcbs := {[ 0 := demo_pcb ms ts ]}; pid2pcb := {[ 1 := 0 ]}; borrowed := ∅;
     parked := []; stack_refs := []; next_obj := 100; initproc := 0 |}.

Lemma demo_running s ms ts : running (demo_kernel s ms ts) 1 demo_tcb1 0 (demo_pcb ms ts).
Proof. split; [done|done|done|done|set_solver]. Qed.

Lemma demo_tcbs : tcbs demo_s1 = {[ 1 := demo_tcb1; 2 := demo_tcb ]}.
Proof. reflexivity. Qed.

(** A user space with the trap context of its main thread, beside the kernel's. *)
Lemma demo_user : ∃ s ms owned, user_space 0x80500 owned s ms ∧ ms_inv 0x80500 owned s demo_ms ∧
  (∀ v, mapping (mem s) (page_table demo_ms) v = None) ∧
  (∃ a f, a ∈ areas ms ∧ data_frames a !! (2 ^ 27 - 2) = Some f) ∧
  9 + 3 * lengthZ (areas ms ≫= area_pages) <= nfree (fa s) ∧ ¬ ms_holds ms 0x80500.
Proof.
  destruct (wp_ok (pt ← PageTable_new; insert_framed_area {| page_table := pt; areas := [] |} (2 ^ 39 - 8192) (2 ^ 39 - 4096) perm_trap_cx)
    (λ ms s, ∃ owned, user_space 0x80500 owned s ms ∧ ms_inv 0x80500 owned s demo_ms ∧
       (∀ v, mapping (mem s) (page_table demo_ms) v = None) ∧
       (∃ a f, a ∈ areas ms ∧ data_frames a !! (2 ^ 27 - 2) = Some f) ∧
       9 + 3 * lengthZ (areas ms ≫= area_pages) <= nfree (fa s) ∧ ¬ ms_holds ms 0x80500) demo_mm) as (ms & s & _ & owned & H).
  2: { exists s, ms, owned. exact H. }
  pose proof demo_ms_inv as Hk. pose proof (proj1 demo_inv) as Hki.
  wp_steps. eapply (wp_PageTable_new 0x80500 {[0x80500]}); [apply Hki|by vm_compute|].
  intros root s1 Hroot pt Hpt Hnone Hpages Hn1 _.
  replace (2 ^ 39 - 8192) with ((2 ^ 27 - 2) * 4096) by lia. replace (2 ^ 39 - 4096) with ((2 ^ 27 - 1) * 4096) by lia.
  eapply (wp_insert_framed 0x80500); [|lia|lia|done| | |];
    rewrite ?floor_page, ?ceil_page by lia; [| |rewrite Hn1; by vm_compute|].
  { split; simpl; [exact Hpt|by intros ? ?%elem_of_nil..| |]; by intros i j a b *; rewrite lookup_nil. }
  { intros v _. apply Hnone. }
  intros a T owned s2 pt2. cbv zeta. intros Hi Hwf Hty Hpm Hl Hr [A1 A2 A3 A4 A5 A6 A7 A8 A9 A10 A11] HT Hsz.
  assert (0x80500 ∉ frames pt2) as Hnf.
  { intros Hf. assert (0x80500 ∈ frames pt) as Hf' by (apply A4; [done|set_solver]).
    unfold pt in Hf'. simpl in Hf'. apply list_elem_of_singleton in Hf'. subst root. set_solver. }
  assert (∀ x, x ∈ frames (page_table demo_ms) → page_of (mem s2) x = page_of (mem demo_mm) x) as Hag.
  { intros x Hx%list_elem_of_singleton. subst x. rewrite A9; [|done|].
    - apply Hpages. set_solver.
    - intros v Hv. destruct (A6 v _ Hv) as [Hv' _]. set_solver. }
  exists owned. split_and!.
  - split; [done| |]; simpl; intros b ->%list_elem_of_singleton; [done|].
    rewrite elem_of_area_pages by done. simpl. rewrite Hl, Hr. change TRAMPOLINE_VPN with (2 ^ 27 - 1). lia.
  - eapply (ms_inv_frame _ {[0x80500]}); [exact Hk|apply A1| |exact Hag].
    intros x [Hx%list_elem_of_singleton|(b & v & Hb%elem_of_nil & _)]; [|done]. subst x. apply A5. left. set_solver.
  - intros v. rewrite (mapping_agree (mem demo_mm)); [apply demo_inv|apply Hki|exact Hag].
  - destruct (proj2 (HT (2 ^ 27 - 2)) ltac:(lia)) as [f Hf]. exists (with_frames a T), f. split; [left|done].
  - simpl. rewrite app_nil_r. unfold lengthZ, area_pages. simpl.
    rewrite range_items_seqZ, length_seqZ, Hl, Hr by (destruct Hwf; lia).
    replace (Z.of_nat (size T)) with 1 in A10 by lia. change (nfree (fa demo_mm)) with 767 in Hn1. lia.
  - intros [Hf|(b & v & ->%list_elem_of_singleton & Hv)]; [done|]. destruct (A6 v _ Hv) as [Hv' _]. set_solver.
Qed.

Lemma fork_creates_child_witness : ∃ s ms npid k', sys_fork 0x80200000 0x80201000 (demo_kernel s ms [Some 1]) = Ok (npid, k').
Proof.
  destruct demo_user as (s & ms & owned & Hu & Hk & Hm & (a & f & Ha & Hf) & Hn & _).
  destruct (fork_creates_child 0x80200000 0x80201000 0x80500 owned ∅ ∅ (demo_kernel s ms [Some 1]) 0
    (demo_pcb ms [Some 1]) 1 demo_tcb1 {| tid := 0; ustack_base := 0x10000 |}) as (c & cb & t & tb' & k1 & k' & E & _).
  - split; try done.
    + by exists a, f.
    + by intros b ?%elem_of_nil.
    + apply rc_new_ok.
    + apply rc_new_ok.
    + intros x Hx. simpl in *. split_and!; [apply lookup_singleton_ne; lia| |apply not_elem_of_empty].
      change (tcbs demo_s1 !! x = None). rewrite demo_tcbs, lookup_insert_ne, lookup_singleton_ne by lia. done.
  - apply demo_running.
  - by exists s, ms, (pid cb), k'.
Defined.

(** The caller with one child: the zombie [5], whose task [7] has the kernel stack
    [kid] of the space [x]. *)
Definition demo_zombie : ProcessControlBlock :=
  set_tasks [Some 7] (set_zombie 42 (pcb_init 0 {| page_table := {| root_ppn := 0; frames := [] |}; areas := [] |} (Some 0) [])).
Definition demo_dead (kid : Z) : TaskControlBlock :=
  {| process := 5; kstack := kid; res := None; trap_cx_ppn := 0x80600; task_cx := zero_init; task_status := Ready; exit_code := Some 42 |}.
Definition demo_family (ms : MemorySet) (x : Space) (kid : Z) : Kernel :=
  {| mm := sp_mm x; kernel_space := sp_ms x; kstack_ids := sp_ids x; pid_ids := {| rc_current := 1; rc_recycled := [] |};
     sched := {| ready_queue := []; cur := Some 1; idle_task_cx := zero_init; cpu := zero_init;
                 tcbs := {[ 1 := demo_tcb1; 7 := demo_dead kid ]} |};
     pcbs := {[ 0 := set_family None [5] (demo_pcb ms [Some 1]); 5 := demo_zombie ]}; pid2pcb := {[ 1 := 0 ]}; borrowed := ∅;
     parked := []; stack_refs := []; next_obj := 100; initproc := 0 |}.

(** The stack is mapped beside a user space, in which a pointer can be followed. *)
Lemma demo_stack : ∃ ms x kid a owned pa, is_area a (kstack_lo kid) (kstack_hi kid) perm_trap_cx ∧ 0 <= kid < 2 ^ 25 ∧
  ms_inv 0x80500 owned (sp_mm x) (sp_ms x) ∧ areas (sp_ms x) = [a] ∧ 0 <= pa < 2 ^ 56 ∧ page_offset pa = 0 ∧
  translated_refmut (mem (sp_mm x)) (ms_token ms) (2 ^ 39 - 8192) = Ok pa ∧ floor pa ∉ frames (page_table (sp_ms x)).
Proof.
  destruct demo_user as (s & ms & owned & Hu & Hk & Hm & (a0 & f & Ha0 & Hf) & Hn & H5).
  destruct (wp_ok kstack_alloc (λ kid x, ∃ a owned', is_area a (kstack_lo kid) (kstack_hi kid) perm_trap_cx ∧ 0 <= kid < 2 ^ 25 ∧
    grown 0x80500 owned {| sp_mm := s; sp_ms := demo_ms; sp_ids := sp_ids x |} [a] (λ v, False ∨ kstack_lo kid <= v < kstack_hi kid) 6 owned' x)
    {| sp_mm := s; sp_ms := demo_ms; sp_ids := RecycleAllocator_new |}) as (kid & x & _ & a & owned' & Ha & Hkid & G).
  { eapply (wp_kstack_alloc 0x80500 owned ∅); [done|by intros b ?%elem_of_nil|apply rc_new_ok|done| |by intros; apply Hm|].
    - pose proof (lengthZ_nonneg (areas ms ≫= area_pages)). cbn [sp_mm]. lia.
    - intros kid a x owned' _ Hkid Ha _ G. exists a, owned'. done. }
  pose proof (us_inv _ _ _ _ Hu) as Hi. pose proof (mi_pt _ _ _ _ Hi) as Hpt.
  assert (∀ y, ms_holds ms y → y ∉ frames (page_table demo_ms)) as Hdis by (intros y Hy ->%list_elem_of_singleton; done).
  pose proof (mi_ok _ _ _ _ Hi a0 Ha0) as Hok. unfold area_ok in Hok. rewrite (us_framed _ _ _ _ Hu a0 Ha0) in Hok.
  destruct (proj2 Hok _ f Hf) as (Hfo & _ & Hfm).
  assert (mapping (mem (sp_mm x)) (page_table ms) (2 ^ 27 - 2) = Some (f, Z.lor (map_perm a0) PTE_V)) as Hfm'.
  { rewrite <- Hfm. apply mapping_agree; [apply Hpt|]. intros y Hy. apply (gr_pages _ _ _ _ _ _ _ _ G); [by apply (inv_owned _ _ _ _ Hpt)|].
    apply Hdis. by left. }
  destruct (mapping_translate _ _ _ _ _ Hfm') as (pte & Ht & Hppn).
  rewrite <- (translate_root _ _ (from_token (token (page_table ms)))) in Ht.
  2: { apply from_token_root. apply (wf_range _ _ (inv_wf _ _ _ _ Hpt)), (wf_reach _ _ (inv_wf _ _ _ _ Hpt) []); [simpl; lia|done]. }
  change (2 ^ 27 - 2) with (floor (2 ^ 39 - 8192)) in Ht. destruct (translate_va_loc _ _ _ _ Ht) as (pa & Hpa & Hfl & Hpo).
  exists ms, x, kid, a, owned', pa. split; [exact Ha|]. split; [exact Hkid|]. split; [apply G|].
  split; [exact (gr_areas _ _ _ _ _ _ _ _ G)|]. split; [by eapply translate_va_range|]. split; [exact Hpo|]. split.
  - unfold translated_refmut. change (VirtAddr_from (2 ^ 39 - 8192)) with (2 ^ 39 - 8192). unfold ms_token. by rewrite Hpa.
  - rewrite Hfl, Hppn. intros Hx. apply (gr_new_tables _ _ _ _ _ _ _ _ G) in Hx; [|done].
    revert Hx. apply Hdis. right. by exists a0, (2 ^ 27 - 2).
Qed.

(** No child, and a zombie that is collected. *)
Lemma waitpid_outcomes_witness : sys_waitpid (-1) 0 (demo_kernel demo_mm demo_ms [Some 1]) = Ok (-1, demo_kernel demo_mm demo_ms [Some 1]) ∧
  ∃ ms x kid k', sys_waitpid (-1) (2 ^ 39 - 8192) (demo_family ms x kid) = Ok (0, k') ∧ pcbs k' !! 5 = None ∧
    mapping (mem (mm k')) (page_table (kernel_space k')) (kstack_lo kid) = None.
Proof.
  split.
  { apply (waitpid_outcomes _ 1 demo_tcb1 0 (demo_pcb demo_ms [Some 1])); [apply demo_running| | |done].
    - by intros c ?%elem_of_nil.
    - apply not_elem_of_nil. }
  destruct demo_stack as (ms & x & kid & a & owned & pa & Ha & Hkid & Hi & Has & Hpa & Hpo & Hptr & Hpg).
  destruct (waitpid_outcomes (demo_family ms x kid) 1 demo_tcb1 0 (set_family None [5] (demo_pcb ms [Some 1])) (-1) (2 ^ 39 - 8192))
    as (_ & _ & Hreap); [split; done|by intros c ->%list_elem_of_singleton; split; [eexists|apply not_elem_of_empty]|
      by apply (bool_decide_unpack _)|].
  destruct (Hreap 0x80500 owned {[0]} 0%nat 5 demo_zombie pa) as (k' & E & E5 & _ & _ & _ & _ & (u & ub & owned' & Hrp) & _); [done|done| |].
  - split; [done|done| |reflexivity|exact Hptr|rewrite Hpo; unfold PAGE_SIZE; lia|exact Hpg].
    exists 7, (demo_dead kid), 0%nat, a. split; [|exact Ha].
    split; [|by apply elem_of_singleton|done|by apply NoDup_nil_2|by intros y ?%elem_of_nil|done|done|done| |exact Hi|exact Hkid|].
    + split; [done|by apply NoDup_nil_2| |by intros y ?%elem_of_nil]. intros y. rewrite elem_of_singleton. cbn [demo_family pid_ids rc_current rc_recycled].
      split; [intros ->; split; [lia|apply not_elem_of_nil]|intros [? _]; lia].
    + split_and!; [apply not_elem_of_nil|done|apply not_elem_of_nil].
    + cbn [demo_family kernel_space kstack demo_dead]. rewrite Has. cbn [find_index lookup list_lookup]. rewrite Z.eqb_refl.
      split_and!; [done|done|by destruct Ha as (_ & _ & ->)].
  - exists ms, x, kid, k'. split_and!; [exact E|exact E5|]. destruct (rp_task _ _ _ _ _ _ _ _ _ Hrp) as (Hu & Hub & _).
    injection Hu as <-. injection Hub as <-. destruct (kstack_pages kid Hkid). apply (rp_stack _ _ _ _ _ _ _ _ _ Hrp). cbn [kstack demo_dead]. lia.
Defined.

Lemma exit_with_live_threads_panics_witness : ∃ e,
  exit_current_and_run_next 0 (demo_kernel demo_mm demo_ms [Some 1; Some 2]) = Panic e.
Proof.
  apply (exit_with_live_threads_panics 0 _ 1 demo_tcb1 {| tid := 0; ustack_base := 0x10000 |} 0
    (demo_pcb demo_ms [Some 1; Some 2]) 2); [apply demo_running|done|done|right; left|done|].
  exists demo_tcb, {| tid := 0; ustack_base := 0x10000 |}. done.
Defined.
