(* ===== verification/Exit.v ===== *)
(** * The end of a process

    [exit_current_and_run_next] ([os/src/task/mod.rs]) of a process with one
    thread: what is released, what the zombie keeps for its parent, and what
    happens to its children. *)

From stdpp Require Import sorting.
From S2P Require Import Prelude Address FrameAllocator PageTable UserBuffer MemorySet Sched TaskId Kernel Syscall Process.

(** ** The address space *)

(** Areas are found by their first page. *)
Lemma area_index lo owned s ms a :
  ms_inv lo owned s ms → nonempty_areas ms → a ∈ areas ms →
  ∃ idx, find_index (λ b, range_l (vpn_range b) =? range_l (vpn_range a)) (areas ms) = Some idx ∧
    areas ms !! idx = Some a.
Proof.
  intros Hi Hne Ha. apply list_elem_of_lookup in Ha as [i Hia]. exists i. split; [|done].
  apply find_index_Some. split; [exists a; split; [done|apply Z.eqb_refl]|].
  intros j b Hj Hb. apply Z.eqb_neq. intros E.
  assert (∀ c, c ∈ areas ms → range_l (vpn_range c) ∈ area_pages c) as Hstart.
  { intros c Hc. apply elem_of_area_pages; [by apply (mi_wf _ _ _ _ Hi)|]. specialize (Hne c Hc). lia. }
  apply (mi_disj _ _ _ _ Hi j i b a (range_l (vpn_range b)) Hb Hia); [lia| |].
  - apply Hstart. by eapply list_elem_of_lookup_2.
  - rewrite E. apply Hstart. by eapply list_elem_of_lookup_2.
Qed.

Lemma elem_of_remove_at (l : list MapArea) i a b :
  l !! i = Some a → b ∈ l ↔ b = a ∨ b ∈ take i l ++ drop (S i) l.
Proof.
  intros Hi. rewrite <- (take_drop_middle _ _ _ Hi) at 1. rewrite !elem_of_app, elem_of_cons. tauto.
Qed.

(** The frames of an area. *)
Definition area_frame (a : MapArea) (x : Z) : Prop := ∃ v, data_frames a !! v = Some x.

Lemma area_frame_pages lo owned s ms a x :
  ms_inv lo owned s ms → a ∈ areas ms →
  (∀ v, v ∈ area_pages a → data_frames a !! v ≠ Some x) ↔ ¬ area_frame a x.
Proof.
  intros Hi Ha. pose proof (mi_ok _ _ _ _ Hi a Ha) as Hok. unfold area_ok in Hok. split.
  - intros Hn [v Hv]. destruct (map_type a).
    + destruct Hok as [Hd _]. by rewrite Hd in Hv.
    + apply (Hn v); [|done]. apply (proj1 Hok). by eexists.
  - intros Hn v _ Hv. apply Hn. by exists v.
Qed.

(** Removing the area that starts at [range_l (vpn_range a)]. *)
Lemma wp_remove_at lo owned x a (Q : unit → Space → Prop) :
  ms_inv lo owned (sp_mm x) (sp_ms x) → nonempty_areas (sp_ms x) → a ∈ areas (sp_ms x) →
  (∀ owned' x', ms_inv lo owned' (sp_mm x') (sp_ms x') → nonempty_areas (sp_ms x') →
     page_table (sp_ms x') = page_table (sp_ms x) → sp_ids x' = sp_ids x →
     (∀ b, b ∈ areas (sp_ms x) ↔ b = a ∨ b ∈ areas (sp_ms x')) →
     (∀ f, f ∈ owned' ↔ f ∈ owned ∧ ¬ area_frame a f) →
     (∀ f, f ∉ frames (page_table (sp_ms x)) → page_of (mem (sp_mm x')) f = page_of (mem (sp_mm x)) f) →
     Q tt x') →
  wp (on_space (λ ms, remove_area_with_start_vpn ms (range_l (vpn_range a)))) Q x.
Proof.
  intros Hi Hne Ha HQ. destruct (area_index _ _ _ _ a Hi Hne Ha) as (idx & Hidx & Hat).
  apply wp_on_space. eapply wp_remove_area; [done|done|done|]. intros owned' s'. cbv zeta. intros Hi' [U1 U2 U3 U4 U5 U6].
  apply (HQ owned'); cbn [sp_mm sp_ms sp_ids page_table areas]; try done.
  - intros b Hb. apply Hne. cbn [areas] in Hb. rewrite (elem_of_remove_at _ idx a); [by right|done].
  - intros b. by apply elem_of_remove_at.
  - intros f. rewrite U2. by rewrite (area_frame_pages _ _ _ _ _ _ Hi Ha).
Qed.

Lemma res_start base n t : fits base n → 0 <= t < n →
  let r := {| tid := t; ustack_base := base |} in
  PageNum_from_Addr (VirtAddr_from (ustack_bottom_from_tid base t)) = Ok (ustack_lo r) ∧
  PageNum_from_Addr (VirtAddr_from (trap_cx_bottom_from_tid t)) = Ok (trap_cx_page r) ∧
  ustack_lo r < trap_cx_page r.
Proof.
  intros Hf Ht r. destruct (res_addresses base n t Hf Ht) as (b & Hb & Hb0 & Hlt & Ht2 & H1 & H2 & H3 & H4).
  unfold ustack_lo, trap_cx_page. cbn [tid ustack_base r]. rewrite H1, H3, !page_num_of_page, !floor_page.
  split_and!; [done|done|lia].
Qed.

(** Dropping the resources of a thread whose stack and trap context are the
    areas [a1] and [a2]. *)
Lemma wp_drop_res lo owned live x r n a1 a2 (Q : unit → Space → Prop) :
  ms_inv lo owned (sp_mm x) (sp_ms x) → nonempty_areas (sp_ms x) → rc_ok (sp_ids x) live → tid r ∈ live →
  fits (ustack_base r) n → 0 <= tid r < n → a1 ∈ areas (sp_ms x) → a2 ∈ areas (sp_ms x) →
  range_l (vpn_range a1) = ustack_lo r → range_l (vpn_range a2) = trap_cx_page r →
  (∀ owned' x', ms_inv lo owned' (sp_mm x') (sp_ms x') → nonempty_areas (sp_ms x') →
     page_table (sp_ms x') = page_table (sp_ms x) → rc_ok (sp_ids x') (live ∖ {[tid r]}) →
     (∀ b, b ∈ areas (sp_ms x) ↔ b = a1 ∨ b = a2 ∨ b ∈ areas (sp_ms x')) →
     (∀ f, f ∈ owned' ↔ f ∈ owned ∧ ¬ area_frame a1 f ∧ ¬ area_frame a2 f) →
     (∀ f, f ∉ frames (page_table (sp_ms x)) → page_of (mem (sp_mm x')) f = page_of (mem (sp_mm x)) f) →
     Q tt x') →
  wp (drop_user_res r) Q x.
Proof.
  intros Hi Hne Hids Hin Hf Ht Ha1 Ha2 E1 E2 HQ. unfold drop_user_res, dealloc_tid. wp_steps. apply wp_zoom.
  unfold wp at 1. rewrite (rc_dealloc_eq _ _ _ Hids), decide_True by (done || lia).
  pose proof (rc_dealloc_ok _ _ _ Hids Hin) as Hids'. set (a' := {| rc_current := _; rc_recycled := _ |}) in *.
  destruct r as [t base]. cbn [tid ustack_base] in *.
  destruct (res_start base n t Hf Ht) as (P1 & P2 & P3). unfold dealloc_user_res. cbn [tid ustack_base].
  rewrite P1, P2. wp_steps. eapply wp_lift_result; [done|]. rewrite <- E1. wp_steps.
  eapply (wp_remove_at lo owned); [done|done|done|].
  cbn [upd_ids sp_mm sp_ms sp_ids]. intros owned1 x1 I1 N1 T1 D1 B1 O1 G1. wp_steps. eapply wp_lift_result; [done|].
  rewrite <- E2. eapply (wp_remove_at lo owned1); [done|done| |].
  { destruct (proj1 (B1 a2) Ha2) as [->|]; [|done]. lia. }
  intros owned2 x2 I2 N2 T2 D2 B2 O2 G2. apply (HQ owned2); try done.
  - congruence.
  - by rewrite D2, D1.
  - intros b. rewrite B1, B2. tauto.
  - intros f. rewrite O2, O1. tauto.
  - intros f Hfr. rewrite G2, G1; [done|done|by rewrite T1].
Qed.

(** [recycle_data_pages] returns every data frame and no table. *)
Lemma NoDup_areas lo owned s ms : ms_inv lo owned s ms → nonempty_areas ms → NoDup (areas ms).
Proof.
  intros Hi Hne. apply NoDup_alt. intros i j a Hai Haj. destruct (decide (i = j)) as [|Hij]; [done|].
  assert (range_l (vpn_range a) ∈ area_pages a) as Hp.
  { apply list_elem_of_lookup_2 in Hai. apply elem_of_area_pages; [by apply (mi_wf _ _ _ _ Hi)|].
    specialize (Hne a Hai). lia. }
  by destruct (mi_disj _ _ _ _ Hi i j a a _ Hai Haj Hij Hp).
Qed.

Lemma elem_of_btree_values d x : x ∈ btree_values d ↔ ∃ v, d !! v = Some x.
Proof.
  unfold btree_values. rewrite merge_sort_Permutation, list_elem_of_fmap. split.
  - intros ([v y] & -> & Hv%elem_of_map_to_list). by exists v.
  - intros [v Hv]. exists (v, x). split; [done|]. by apply elem_of_map_to_list.
Qed.

Lemma NoDup_btree_values d : (∀ v w x, d !! v = Some x → d !! w = Some x → v = w) → NoDup (btree_values d).
Proof.
  intros Hinj. unfold btree_values. rewrite merge_sort_Permutation. apply NoDup_fmap_2_strong; [|apply NoDup_map_to_list].
  intros [v x] [w y] Hv%elem_of_map_to_list Hw%elem_of_map_to_list E. simpl in E. subst y.
  by rewrite (Hinj v w x Hv Hw).
Qed.

Lemma wp_drop_areas lo l : ∀ owned s (Q : unit → MM → Prop),
  fa_inv lo (fa s) owned → NoDup (l ≫= λ a, btree_values (data_frames a)) →
  (∀ x, x ∈ (l ≫= λ a, btree_values (data_frames a)) → x ∈ owned) →
  (∀ fa', fa_inv lo fa' (owned ∖ list_to_set (l ≫= λ a, btree_values (data_frames a))) →
     Q tt {| fa := fa'; mem := mem s |}) →
  wp (fold_m (λ _ a, drop_area a) tt l) Q s.
Proof.
  induction l as [|a l IH]; intros owned s Q Hfa Hnd Hin HQ; cbn [fold_m].
  - wp_steps. destruct s as [fa' m]. apply HQ. simpl in *. by rewrite difference_empty_L.
  - rewrite bind_cons in Hnd, Hin, HQ.
    apply NoDup_app in Hnd as (N1 & N2 & N3). wp_steps. unfold drop_area.
    eapply (wp_dealloc_all lo); [done|done|intros x Hx; apply Hin; set_solver|].
    intros f1 Hf1 _. eapply (IH _ {| fa := f1; mem := mem s |}); [exact Hf1|done| |].
    + intros x Hx. apply elem_of_difference. split; [apply Hin; set_solver|].
      rewrite elem_of_list_to_set. intros Hx'. by apply (N2 x).
    + intros f2 Hf2. apply HQ. rewrite list_to_set_app_L. by rewrite <- difference_difference_l_L.
Qed.

Lemma wp_recycle lo owned s ms (Q : MemorySet → MM → Prop) :
  ms_inv lo owned s ms → nonempty_areas ms →
  (∀ owned' fa', fa_inv lo fa' owned' →
     (∀ f, f ∈ owned' ↔ f ∈ owned ∧ ¬ ∃ a, a ∈ areas ms ∧ area_frame a f) →
     Q {| page_table := page_table ms; areas := [] |} {| fa := fa'; mem := mem s |}) →
  wp (recycle_data_pages ms) Q s.
Proof.
  intros Hi Hne HQ. unfold recycle_data_pages. wp_steps.
  assert (∀ x, x ∈ (areas ms ≫= λ a, btree_values (data_frames a)) ↔ ∃ a, a ∈ areas ms ∧ area_frame a x) as Hel.
  { intros x. rewrite list_elem_of_bind. setoid_rewrite elem_of_btree_values. unfold area_frame. naive_solver. }
  eapply (wp_drop_areas lo); [apply (mi_pt _ _ _ _ Hi)| | |].
  - apply NoDup_bind; [| |by eapply NoDup_areas].
    + intros a b x [i Ha]%list_elem_of_lookup [j Hb]%list_elem_of_lookup [v Hv]%elem_of_btree_values [w Hw]%elem_of_btree_values.
      destruct (mi_inj _ _ _ _ Hi i j a b v w x Ha Hb Hv Hw) as [-> _]. congruence.
    + intros a [i Ha]%list_elem_of_lookup. apply NoDup_btree_values. intros v w x Hv Hw.
      by destruct (mi_inj _ _ _ _ Hi i i a a v w x Ha Ha Hv Hw).
  - intros x (a & Ha & v & Hv)%Hel. eapply ms_holds_owned; [done|]. right. eauto.
  - intros fa' Hfa. wp_steps. eapply HQ; [exact Hfa|]. intros f. by rewrite elem_of_difference, elem_of_list_to_set, Hel.
Qed.

(** ** Handing the children over *)

Definition adopt1 (init : Z) (P : gmap Z ProcessControlBlock) (c : Z) : gmap Z ProcessControlBlock :=
  alter (λ i, set_family (parent i) (vec_push (children i) c) i) init
    (alter (λ q, set_family (Some init) (children q) q) c P).
Definition adopt (init : Z) (cs : list Z) (P : gmap Z ProcessControlBlock) : gmap Z ProcessControlBlock :=
  foldl (adopt1 init) P cs.

Lemma set_family_eta q : set_family (parent q) (children q) q = q.
Proof. by destruct q. Qed.

Lemma adopt1_other init P c q : q ≠ init → q ≠ c → adopt1 init P c !! q = P !! q.
Proof. intros. unfold adopt1. by rewrite !lookup_alter_ne by done. Qed.
Lemma adopt_other init cs : ∀ P q, q ≠ init → q ∉ cs → adopt init cs P !! q = P !! q.
Proof.
  induction cs as [|c cs IH]; intros P q Hq Hn; [done|]. apply not_elem_of_cons in Hn as [? ?].
  unfold adopt in *. cbn [foldl]. rewrite IH by done. by apply adopt1_other.
Qed.

(** The initial process gains the children, in order. *)
Lemma adopt_init init cs : ∀ P b, init ∉ cs → P !! init = Some b →
  adopt init cs P !! init = Some (set_family (parent b) (children b ++ cs) b).
Proof.
  induction cs as [|c cs IH]; intros P b Hn Hb.
  { rewrite app_nil_r, set_family_eta. done. }
  apply not_elem_of_cons in Hn as [? ?]. unfold adopt in *. cbn [foldl].
  rewrite (IH _ (set_family (parent b) (children b ++ [c]) b)); [|done|].
  - cbn [set_family parent children]. by rewrite <- app_assoc.
  - unfold adopt1. by rewrite lookup_alter_eq, lookup_alter_ne, Hb by done.
Qed.

(** The children get a new parent. *)
Lemma adopt_child init cs : ∀ P c b, c ∈ cs → NoDup cs → init ∉ cs → P !! c = Some b →
  adopt init cs P !! c = Some (set_family (Some init) (children b) b).
Proof.
  induction cs as [|c' cs IH]; intros P c b Hin Hnd Hn Hb; [by apply elem_of_nil in Hin|].
  apply NoDup_cons in Hnd as [Hc' Hnd]. apply not_elem_of_cons in Hn as [Hi Hn].
  unfold adopt in *. cbn [foldl]. apply elem_of_cons in Hin as [->|Hin].
  - pose proof (adopt_other init cs (adopt1 init P c') c') as Ho. unfold adopt in Ho. rewrite Ho by done.
    unfold adopt1. by rewrite lookup_alter_ne, lookup_alter_eq, Hb by done.
  - apply IH; [done|done|done|]. rewrite adopt1_other; [done|by intros ->|by intros ->].
Qed.

Lemma wp_adopt init cs k (Q : unit → Kernel → Prop) :
  (∀ c, c ∈ cs → is_Some (pcbs k !! c) ∧ c ∉ borrowed k) →
  Q tt (upd_pcbs (adopt init cs) k) →
  wp (fold_m (λ _ child,
        _ ← access child (λ c, set_family (Some init) (children c) c);
        modify (upd_pcbs (alter (λ i, set_family (parent i) (vec_push (children i) child) i) init))) tt cs) Q k.
Proof.
  revert k. induction cs as [|c cs IH]; intros k Hcs HQ; cbn [fold_m].
  { wp_steps. by destruct k. }
  destruct (Hcs c ltac:(by left)) as [[b Hb] Hnb]. wp_steps. eapply wp_access; [done|done|]. wp_steps.
  apply IH; [|exact HQ]. intros d Hd. destruct (Hcs d ltac:(by right)) as [Hs Hn]. split; [|done].
  cbn [upd_pcbs pcbs]. by rewrite !lookup_alter_is_Some.
Qed.

(** ** [exit] *)

(** Fields of an updated state. *)
Ltac k_simpl := cbn [upd_pcbs upd_sched upd_borrowed upd_pid2pcb upd_mm upd_kspace upd_tcb upd_cur upd_cpu save_cx load_cx
  pcbs sched tcbs cur ready_queue parked pid2pcb borrowed pid_ids kernel_space kstack_ids initproc mm fa mem].

(** A process with one thread, its main one, that may exit. *)
Record exit_ready (lo : Z) (owned live : gset Z) (k : Kernel) (t : Z) (tb : TaskControlBlock) (p : Z)
    (pb : ProcessControlBlock) (r : TaskUserRes) (a1 a2 : MapArea) (ib : ProcessControlBlock) : Prop := {
  xr_run : running k t tb p pb;
  xr_res : res tb = Some r;
  xr_tid : tid r = 0;
  xr_tasks : tasks pb = [Some t];
  xr_ids : rc_ok (task_res_allocator pb) live;
  xr_live : 0 ∈ live;
  xr_fits : fits (ustack_base r) 1;
  xr_space : ms_inv lo owned (mm k) (memory_set pb);
  xr_nonempty : nonempty_areas (memory_set pb);
  xr_stack : a1 ∈ areas (memory_set pb) ∧ range_l (vpn_range a1) = ustack_lo r;
  xr_trap : a2 ∈ areas (memory_set pb) ∧ range_l (vpn_range a2) = trap_cx_page r;
  xr_pid : is_Some (pid2pcb k !! pid pb);
  xr_init : pcbs k !! initproc k = Some ib ∧ initproc k ≠ p ∧ initproc k ∉ borrowed k;
  xr_children : NoDup (children pb) ∧ initproc k ∉ children pb ∧ p ∉ children pb;
  xr_family : family_ok k (children pb)
}.

(** The zombie: its address space has only page tables left. *)
Definition zombie_of (code : Z) (ids : RecycleAllocator) (pb : ProcessControlBlock) : ProcessControlBlock :=
  {| pid := pid pb; is_zombie := true;
     memory_set := {| page_table := page_table (memory_set pb); areas := [] |};
     parent := parent pb; children := []; pcb_exit_code := code; fd_table := []; signals := signals pb;
     tasks := tasks pb; task_res_allocator := ids; mutex_list := mutex_list pb;
     semaphore_list := semaphore_list pb; condvar_list := condvar_list pb |}.

Record exited (lo : Z) (owned : gset Z) (code : Z) (k : Kernel) (t : Z) (tb : TaskControlBlock) (p : Z)
    (pb ib : ProcessControlBlock) (owned' : gset Z) (k' : Kernel) : Prop := {
  xd_zombie : ∃ ids, pcbs k' !! p = Some (zombie_of code ids pb);
  xd_init : pcbs k' !! initproc k = Some (set_family (parent ib) (children ib ++ children pb) ib);
  xd_children : ∀ c b, c ∈ children pb → pcbs k !! c = Some b →
     pcbs k' !! c = Some (set_family (Some (initproc k)) (children b) b);
  xd_others : ∀ q, q ≠ p → q ≠ initproc k → q ∉ children pb → pcbs k' !! q = pcbs k !! q;
  xd_task : tcbs (sched k') = <[t := set_res None (set_task_exit code tb)]> (tcbs (sched k));
  xd_sched : cur (sched k') = None ∧ ready_queue (sched k') = ready_queue (sched k) ∧ parked k' = parked k;
  xd_pid : pid2pcb k' = delete (pid pb) (pid2pcb k);
  xd_kept : borrowed k' = borrowed k ∧ pid_ids k' = pid_ids k ∧ kernel_space k' = kernel_space k ∧
     kstack_ids k' = kstack_ids k ∧ initproc k' = initproc k;
  xd_alloc : fa_inv lo (fa (mm k')) owned';
  xd_owned : ∀ f, f ∈ owned' ↔ f ∈ owned ∧ ¬ ∃ a, a ∈ areas (memory_set pb) ∧ area_frame a f;
  xd_pages : ∀ f, f ∉ frames (page_table (memory_set pb)) → page_of (mem (mm k')) f = page_of (mem (mm k)) f
}.

Lemma wp_exit lo owned live code k t tb p pb r a1 a2 ib :
  exit_ready lo owned live k t tb p pb r a1 a2 ib →
  wp (exit_current_and_run_next code) (λ _ k', ∃ owned', exited lo owned code k t tb p pb ib owned' k') k.
Proof.
  intros [[X1 X2 <- X4 X5] Hr Ht Htk Hids Hlive Hfits Hsp Hne [Hs1 Hs2] [Ht1 Ht2] [pv Hpid] (Hi1 & Hi2 & Hi3)
    (Hc1 & Hc2 & Hc3) Hfam].
  set (p := process tb) in *. unfold exit_current_and_run_next, take_current_task.
  wp_steps. apply wp_zoom. wp_steps. cbn [sched upd_sched]. rewrite X1. eapply wp_unwrap; [done|]. wp_steps.
  eapply wp_tcb_of; [exact X2|]. wp_steps. fold p. eapply wp_pcb_of; [exact X4|]. wp_steps.
  eapply wp_unwrap; [exact Hr|]. wp_steps. unfold upd_task at 1. apply wp_zoom. wp_steps.
  unfold clear_res at 1. wp_steps. eapply (wp_tcb_of t (set_task_exit code tb)).
  { cbn. by rewrite lookup_alter_eq, X2. }
  cbn [set_task_exit res]. rewrite Hr. wp_steps. eapply (wp_on_process p pb); [exact X4|exact X5|].
  eapply (wp_drop_res lo owned live _ r 1 a1 a2); cbn [sp_mm sp_ms sp_ids]; try done; [by rewrite Ht|rewrite Ht; lia|].
  intros owned1 x1 I1 N1 T1 _ B1 O1 G1. unfold upd_task at 1. apply wp_zoom. wp_steps.
  rewrite (proj2 (Z.eqb_eq _ _) Ht). wp_steps.
  set (pb1 := set_space (sp_ms x1) (sp_ids x1) pb). eapply (wp_pcb_of p pb1).
  { cbn. by rewrite lookup_alter_eq, X4. }
  wp_steps. unfold remove_from_pid2process. wp_steps. cbn [upd_sched upd_pcbs upd_mm pid2pcb pb1 set_space pid].
  rewrite Hpid. wp_steps. eapply (wp_borrow p pb1).
  { cbn. by rewrite lookup_alter_eq, X4. }
  { exact X5. }
  wp_steps. cbn [initproc upd_pcbs upd_borrowed upd_pid2pcb upd_sched upd_mm].
  eapply (wp_borrow (initproc k) ib).
  { cbn. by rewrite !lookup_alter_ne by done. }
  { cbn. set_solver. }
  wp_steps. cbn [pb1 set_space children tasks]. apply wp_adopt.
  { intros c Hc. destruct (Hfam c Hc) as [Hsome Hnb]. split.
    - cbn. by rewrite !lookup_alter_is_Some.
    - cbn. assert (c ≠ p) by (intros E; by rewrite E in Hc).
      assert (c ≠ initproc k) by (intros E; by rewrite E in Hc). set_solver. }
  unfold release. wp_steps. rewrite Htk. cbn [fold_m]. wp_steps. unfold clear_res. wp_steps.
  eapply (wp_tcb_of t (set_res None (set_task_exit code tb))).
  { cbn. by rewrite !lookup_alter_eq, X2. }
  cbn [set_res res]. wp_steps. unfold upd_task. apply wp_zoom. wp_steps.
  assert (∀ f g, adopt (initproc k) (children pb) (alter f p (alter g p (pcbs k))) !! p = Some (f (g pb))) as Hp.
  { intros f g. rewrite adopt_other by (done || congruence). by rewrite !lookup_alter_eq, X4. }
  eapply wp_pcb_of.
  { cbn [upd_pcbs upd_sched upd_borrowed upd_pid2pcb upd_mm pcbs]. rewrite lookup_alter_eq, Hp. reflexivity. }
  wp_steps. cbn [set_family set_zombie set_space memory_set].
  eapply wp_on_mm, (wp_recycle lo owned1); [exact I1|exact N1|]. intros owned2 fa2 Hfa2 Ho2. wp_steps.
  apply wp_zoom. unfold schedule, switch. wp_steps. exists owned2.
  set (P := adopt (initproc k) (children pb) (alter (set_zombie code) p (alter (set_space (sp_ms x1) (sp_ids x1)) p (pcbs k)))).
  split; k_simpl; fold P.
  - exists (sp_ids x1). unfold P. rewrite !lookup_alter_eq, Hp. cbn [fmap option_fmap option_map]. unfold zombie_of.
    rewrite <- T1. reflexivity.
  - rewrite !lookup_alter_ne by done. apply adopt_init; [done|]. by rewrite !lookup_alter_ne.
  - intros c b Hc Hb. assert (p ≠ c) by (intros E; by rewrite <- E in Hc).
    rewrite !lookup_alter_ne by done. apply adopt_child; try done. by rewrite !lookup_alter_ne.
  - intros q Hq1 Hq2 Hq3. rewrite !lookup_alter_ne by done. unfold P. rewrite adopt_other by done.
    by rewrite !lookup_alter_ne by done.
  - apply map_eq. intros u. destruct (decide (u = t)) as [->|Hu].
    + by rewrite !lookup_alter_eq, lookup_insert_eq, X2.
    + by rewrite !lookup_alter_ne, lookup_insert_ne by done.
  - done.
  - done.
  - split_and!; try done. apply set_eq. intros u. rewrite !elem_of_difference, !elem_of_union, !elem_of_singleton.
    split; [naive_solver|]. intros Hu. split; [split|]; [by right; right|by intros ->|by intros ->].
  - exact Hfa2.
  - intros f. rewrite Ho2, O1. setoid_rewrite B1. split.
    + intros [(? & Hn1 & Hn2) Hn]. split; [done|]. intros (a & [->|[->|Ha]] & Hf); [done|done|]. apply Hn. eauto.
    + intros [? Hn]. split; [split_and!; [done| |]|].
      * intros Hf. apply Hn. exists a1. auto.
      * intros Hf. apply Hn. exists a2. auto.
      * intros (a & Ha & Hf). apply Hn. exists a. auto.
  - exact G1.
Qed.

(** What the kernel keeps of the task: an identifier of a live process, and its
    kernel stack as an area of the kernel's address space. *)
Record kernel_side (lo : Z) (owned plive : gset Z) (k : Kernel) (t : Z) (tb : TaskControlBlock)
    (pb : ProcessControlBlock) (idx : nat) (ka : MapArea) : Prop := {
  kd_pids : rc_ok (pid_ids k) plive;
  kd_pid : pid pb ∈ plive;
  kd_space : ms_inv lo owned (mm k) (kernel_space k);
  kd_disjoint : ∀ f, ms_holds (kernel_space k) f → ¬ ms_holds (memory_set pb) f;
  kd_unref : t ∉ ready_queue (sched k) ∧ t ∉ parked k;
  kd_kid : 0 <= kstack tb < 2 ^ 25;
  kd_stack : find_index (λ b, range_l (vpn_range b) =? range_l (vpn_range ka)) (areas (kernel_space k)) = Some idx ∧
     areas (kernel_space k) !! idx = Some ka ∧ range_l (vpn_range ka) = kstack_lo (kstack tb)
}.

Lemma area_frame_not_table lo owned s ms a f :
  ms_inv lo owned s ms → a ∈ areas ms → area_frame a f → f ∉ frames (page_table ms).
Proof.
  intros Hi Ha [v Hv]. pose proof (mi_ok _ _ _ _ Hi a Ha) as Hok. unfold area_ok in Hok. destruct (map_type a).
  - destruct Hok as [Hd _]. by rewrite Hd in Hv.
  - by apply (proj2 Hok v f).
Qed.

Lemma area_frame_holds lo owned s ms a f : ms_inv lo owned s ms → a ∈ areas ms → area_frame a f → ms_holds ms f.
Proof.
  intros Hi Ha [v Hv]. right. exists a, v. done.
Qed.

(** What an exiting process leaves can be reaped. *)
Lemma exited_zombie_ok lo owned live plive code k t tb p pb r a1 a2 ib idx ka owned' k' :
  exit_ready lo owned live k t tb p pb r a1 a2 ib → kernel_side lo owned plive k t tb pb idx ka →
  exited lo owned code k t tb p pb ib owned' k' →
  ∀ ids, zombie_ok lo owned' plive k' (zombie_of code ids pb) t (set_res None (set_task_exit code tb)) idx ka.
Proof.
  intros Hx [K1 K2 K3 K4 [K5 K6] K7 K8] [D1 D2 D3 D4 D5 (D6 & D7 & D8) D9 (D10 & D11 & D12 & D13 & D14) D15 D16 D17] ids.
  pose proof (xr_space _ _ _ _ _ _ _ _ _ _ _ _ Hx) as Hsp. pose proof (mi_pt _ _ _ _ Hsp) as Hpt.
  split; cbn [zombie_of pid memory_set areas page_table tasks set_res set_task_exit res kstack].
  - by rewrite D11.
  - done.
  - done.
  - apply (inv_nodup _ _ _ _ Hpt).
  - intros x Hf. split.
    + apply D16. split; [by apply (inv_owned _ _ _ _ Hpt)|]. intros (a & Ha & [v Hv]).
      by apply (area_frame_not_table _ _ _ _ _ _ Hsp Ha (ex_intro _ v Hv)).
    + rewrite D12. intros Hk. apply (K4 x Hk). by left.
  - apply Hx.
  - rewrite D5. apply lookup_insert_eq.
  - done.
  - by rewrite D6, D7, D8.
  - rewrite D12. eapply ms_inv_frame; [exact K3|exact D15| |].
    + intros x Hf. apply D16. split; [exact (ms_holds_owned _ _ _ _ _ K3 Hf)|]. intros (a & Ha & Haf).
      apply (K4 x Hf). exact (area_frame_holds _ _ _ _ _ _ Hsp Ha Haf).
    + intros x Hf. apply D17. intros Hf'. apply (K4 x); by left.
  - done.
  - by rewrite D12.
Qed.

(** C13: When the only thread of a process exits, the kernel does not panic and
    - the process becomes a zombie with the exit code, no open files, no children,
      and an address space of page tables only, whose data frames are all free again;
    - its children, in order, become children of the initial process, and have it
      as their parent; no other process changes;
    - the task gives up its user resources, keeps the exit code, and is not current;
    - the process is no longer found by its identifier;
    - the zombie meets everything that a later [waitpid] of its parent needs to
      reap it, where the kernel's own space meets its invariant. *)
Theorem exit_leaves_zombie lo owned live code k t tb p pb r a1 a2 ib :
  exit_ready lo owned live k t tb p pb r a1 a2 ib →
  ∃ k' owned', exit_current_and_run_next code k = Ok (tt, k') ∧
    exited lo owned code k t tb p pb ib owned' k' ∧
    ∀ plive idx ka, kernel_side lo owned plive k t tb pb idx ka →
      ∃ cb, pcbs k' !! p = Some cb ∧ is_zombie cb = true ∧ pcb_exit_code cb = code ∧
        zombie_ok lo owned' plive k' cb t (set_res None (set_task_exit code tb)) idx ka.
Proof.
  intros Hx. destruct (wp_ok _ _ _ (wp_exit lo owned live code k t tb p pb r a1 a2 ib Hx)) as ([] & k' & E & owned' & Hd).
  exists k', owned'. split_and!; [done|done|]. intros plive idx ka Hk.
  destruct (xd_zombie _ _ _ _ _ _ _ _ _ _ _ Hd) as [ids Hz].
  eexists. split_and!; [exact Hz|done|done|]. by eapply exited_zombie_ok.
Qed.

(** ** Witness *)

Definition exit_kernel (x : Space) : Kernel :=
  {| mm := sp_mm x; kernel_space := demo_ms; kstack_ids := RecycleAllocator_new; pid_ids := RecycleAllocator_new;
     sched := demo_s1;
     pcbs := {[ 0 := set_space (sp_ms x) (sp_ids x) (demo_pcb (sp_ms x) [Some 1]); 7 := demo_pcb demo_ms [] ]};
     pid2pcb := {[ 1 := 0 ]}; borrowed := ∅; parked := []; stack_refs := []; next_obj := 100; initproc := 7 |}.

(** The stack and the trap context of one thread, in a new address space. *)
Lemma demo_user_res : ∃ x a1 a2 owned b P, res_areas {| tid := 0; ustack_base := 0x10000 |} a1 a2 ∧
  grown 0x80500 {[0x80500]} (upd_ids {| rc_current := 1; rc_recycled := [] |} demo_space) [a1; a2] P b owned x.
Proof.
  destruct (wp_ok (alloc_user_res {| tid := 0; ustack_base := 0x10000 |})
    (λ _ x', ∃ a1 a2 owned' b P, res_areas {| tid := 0; ustack_base := 0x10000 |} a1 a2 ∧
      grown 0x80500 {[0x80500]} (upd_ids {| rc_current := 1; rc_recycled := [] |} demo_space) [a1; a2] P b owned' x')
    (upd_ids {| rc_current := 1; rc_recycled := [] |} demo_space)) as ([] & x & _ & H); [|by exists x].
  eapply (wp_alloc_user_res 0x80500 0x10000 4); [apply demo_ms_inv|by intros a ?%elem_of_nil|apply demo_fits|lia| | |].
  - intros v _. apply demo_inv.
  - by vm_compute.
  - intros a1 a2 owned' x' Ha G. exists a1, a2, owned', 9. eexists. split; [exact Ha|exact G].
Qed.

Lemma exit_kernel_ready : ∃ x owned a1 a2, exit_ready 0x80500 owned {[0]} (exit_kernel x) 1 demo_tcb1 0
  (set_space (sp_ms x) (sp_ids x) (demo_pcb (sp_ms x) [Some 1])) {| tid := 0; ustack_base := 0x10000 |} a1 a2 (demo_pcb demo_ms []).
Proof.
  destruct demo_user_res as (x & a1 & a2 & owned & b & P & [Ha1 Ha2] & G).
  exists x, owned, a1, a2. split; try done.
  - cbn. rewrite (gr_ids _ _ _ _ _ _ _ _ G). split; cbn; [lia|constructor| |by intros y ?%elem_of_nil].
    intros y. rewrite elem_of_singleton, elem_of_nil. lia.
  - apply (gr_inv _ _ _ _ _ _ _ _ G).
  - apply (gr_nonempty _ _ _ _ _ _ _ _ G).
  - cbn. rewrite (gr_areas _ _ _ _ _ _ _ _ G). split; [left|]. destruct Ha1 as (_ & _ & ->). done.
  - cbn. rewrite (gr_areas _ _ _ _ _ _ _ _ G). split; [right; left|]. destruct Ha2 as (_ & _ & ->). done.
  - split_and!; [constructor|apply not_elem_of_nil|apply not_elem_of_nil].
  - by intros c ?%elem_of_nil.
Qed.

Lemma exit_leaves_zombie_witness : ∃ x k', exit_current_and_run_next 3 (exit_kernel x) = Ok (tt, k').
Proof.
  destruct exit_kernel_ready as (x & owned & a1 & a2 & Hx).
  destruct (exit_leaves_zombie 0x80500 owned {[0]} 3 (exit_kernel x) 1 demo_tcb1 0
    (set_space (sp_ms x) (sp_ids x) (demo_pcb (sp_ms x) [Some 1]))
    {| tid := 0; ustack_base := 0x10000 |} a1 a2 (demo_pcb demo_ms []) Hx) as (k' & _ & E & _).
  by exists x, k'.
Defined.
