(* ===== verification/World.v ===== *)
(** * The whole kernel

    The state of every component together, and what a system call that gives up
    the processor leaves behind.  [W] is made of the processes and the scheduler
    ([Kernel]), the synchronisation objects, the timers and the files; a task
    that was switched away in the middle of a system call has a [Call], the rest
    of the call, which runs when the task is dispatched again. *)

From S2P Require Import Prelude Address FrameAllocator PageTable UserBuffer MemorySet Codec BlockDev BlockCache Bitmap Layout InodeTree Efs Vfs OsInode Pipe Sched Sync Timer TaskId Kernel.

Lemma bind_ok {S A B} (m : M S A) (f : A → M S B) s a s' : m s = Ok (a, s') → mbind f m s = f a s'.
Proof. intros E. unfold mbind, M_bind. by rewrite E. Qed.

(** ** Synchronisation objects *)

(** [dyn Mutex]. *)
Inductive MutexObj :=
  | SpinObj (m : MutexSpin)
  | BlockingObj (m : MutexBlocking).

Definition through {A St T} (wrap : St → T) (r : result (A * (Sched * St))) : result (A * (Sched * T)) :=
  match r with
  | Ok (a, (s, m)) => Ok (a, (s, wrap m))
  | Panic p => Panic p
  end.

#[export] Instance MutexObj_Mutex : Mutex MutexObj := {|
  lock x := match x.2 with
            | SpinObj m => through SpinObj (lock (x.1, m))
            | BlockingObj m => through BlockingObj (lock (x.1, m))
            end;
  unlock x := match x.2 with
              | SpinObj m => through SpinObj (unlock (x.1, m))
              | BlockingObj m => through BlockingObj (unlock (x.1, m))
              end
|}.

(** The tasks parked in an object. *)
Definition mutex_waiters (o : MutexObj) : list Z :=
  match o with SpinObj _ => [] | BlockingObj m => wait_queue m end.

Record Objs := {
  mutexes : gmap Z MutexObj;
  semaphores : gmap Z Semaphore;
  condvars : gmap Z Condvar
}.
Definition set_mutexes (m : gmap Z MutexObj) (o : Objs) : Objs :=
  {| mutexes := m; semaphores := semaphores o; condvars := condvars o |}.
Definition set_semaphores (m : gmap Z Semaphore) (o : Objs) : Objs :=
  {| mutexes := mutexes o; semaphores := m; condvars := condvars o |}.
Definition set_condvars (m : gmap Z Condvar) (o : Objs) : Objs :=
  {| mutexes := mutexes o; semaphores := semaphores o; condvars := m |}.

(** ** Files

    The block store of easy-fs, the open inodes, the ring buffers of the pipes,
    the files that suspended calls hold, the values [console_getchar] will
    return and the bytes that tasks printed (messages of the kernel itself are
    not kept). *)

Record Files (St : Type) := mkFiles {
  store : St;
  inodes : gmap Z OSInode;
  pipes : gmap Z PipeRingBuffer;
  held_files : list FileRef;
  console_in : list Z;
  console_out : list Z
}.
Arguments mkFiles {St}.
Arguments store {St}. Arguments inodes {St}. Arguments pipes {St}.
Arguments held_files {St}. Arguments console_in {St}. Arguments console_out {St}.

Definition upd_store {St} (s : St) (f : Files St) : Files St :=
  mkFiles s (inodes f) (pipes f) (held_files f) (console_in f) (console_out f).
Definition upd_inodes {St} (i : gmap Z OSInode) (f : Files St) : Files St :=
  mkFiles (store f) i (pipes f) (held_files f) (console_in f) (console_out f).
Definition upd_pipes {St} (p : gmap Z PipeRingBuffer) (f : Files St) : Files St :=
  mkFiles (store f) (inodes f) p (held_files f) (console_in f) (console_out f).
Definition upd_held {St} (h : list FileRef) (f : Files St) : Files St :=
  mkFiles (store f) (inodes f) (pipes f) h (console_in f) (console_out f).
Definition upd_console {St} (i o : list Z) (f : Files St) : Files St :=
  mkFiles (store f) (inodes f) (pipes f) (held_files f) i o.

(** ** Calls in progress *)

(** What is left of a call when its task runs again: a value to return, a mutex
    to take, a read or write of a pipe with its local variables, a read of the
    console, or the end of a trap that was no system call. *)
Inductive Todo :=
  | TReturn (r : Z)
  | TLock (m : Z)
  | TPipeRead (pipe : Z) (it : UserBufferIterator) (size : Z)
  | TPipeWrite (pipe : Z) (it : UserBufferIterator) (size : Z)
  | TStdin (buf : UserBuffer)
  | TTrap.

(** [c_process] and [c_file] are the [Arc]s on the kernel stack of the task. *)
Record Call := { todo : Todo; c_process : option Z; c_file : option FileRef }.

(** How the code of a call ends: with a value, by a switch, or (the task exited)
    never. *)
Inductive Outcome :=
  | Value (r : Z)
  | Switched (c : Call)
  | Exited.

(** ** The state *)

Record World (St H : Type) := mkWorld {
  wk : Kernel;
  wo : Objs;
  wt : H;
  wf : Files St;
  wc : gmap Z Call
}.
Arguments mkWorld {St H}.
Arguments wk {St H}. Arguments wo {St H}. Arguments wt {St H}. Arguments wf {St H}. Arguments wc {St H}.

Section world.
Context {St H : Type}.
Abbreviation W := (World St H).

Definition upd_wk (k : Kernel) (w : W) : W := mkWorld k (wo w) (wt w) (wf w) (wc w).
Definition upd_wo (o : Objs) (w : W) : W := mkWorld (wk w) o (wt w) (wf w) (wc w).
Definition upd_wt (t : H) (w : W) : W := mkWorld (wk w) (wo w) t (wf w) (wc w).
Definition upd_wf (f : Files St) (w : W) : W := mkWorld (wk w) (wo w) (wt w) f (wc w).
Definition upd_wc (c : gmap Z Call) (w : W) : W := mkWorld (wk w) (wo w) (wt w) (wf w) c.

Definition on_kernel {A} (m : M Kernel A) : M W A := zoom wk upd_wk m.

(** The [Arc]s of the control blocks outside the tables. *)
Definition upd_parked (f : list Z → list Z) (k : Kernel) : Kernel :=
  {| mm := mm k; kernel_space := kernel_space k; kstack_ids := kstack_ids k; pid_ids := pid_ids k;
     sched := sched k; pcbs := pcbs k; pid2pcb := pid2pcb k; borrowed := borrowed k; parked := f (parked k);
     stack_refs := stack_refs k; next_obj := next_obj k; initproc := initproc k |}.
Definition upd_stack_refs (f : list Z → list Z) (k : Kernel) : Kernel :=
  {| mm := mm k; kernel_space := kernel_space k; kstack_ids := kstack_ids k; pid_ids := pid_ids k;
     sched := sched k; pcbs := pcbs k; pid2pcb := pid2pcb k; borrowed := borrowed k; parked := parked k;
     stack_refs := f (stack_refs k); next_obj := next_obj k; initproc := initproc k |}.

(** The tasks [old] left a wait queue and [new] are in it now. *)
Definition requeue (old new l : list Z) : list Z := list_difference l old ++ new.

(** An operation of an object on the scheduler; [table] holds the object and
    [waiters] are the tasks in its queue. *)
Definition on_object {O A} (table : Objs → gmap Z O) (set_table : gmap Z O → Objs → Objs) (waiters : O → list Z)
    (x : Z) (m : M (Sched * O) A) : M W A :=
  w ← get;
  o ← unwrap (table (wo w) !! x);
  r ← lift_result (m (sched (wk w), o));
  let '(a, (s, o')) := r in
  _ ← put (upd_wk (upd_parked (requeue (waiters o) (waiters o')) (upd_sched s (wk w)))
        (upd_wo (set_table (<[x := o']> (table (wo w))) (wo w)) w));
  mret a.

Definition on_mutex {A} (x : Z) (m : M (Sched * MutexObj) A) : M W A :=
  on_object mutexes set_mutexes mutex_waiters x m.
Definition on_semaphore {A} (x : Z) (m : M (Sched * Semaphore) A) : M W A :=
  on_object semaphores set_semaphores sem_queue x m.
Definition on_condvar {A} (x : Z) (m : M (Sched * Condvar) A) : M W A :=
  on_object condvars set_condvars cv_queue x m.

Lemma upd_wk_id (w : W) : upd_wk (wk w) w = w.
Proof. by destruct w. Qed.

Lemma on_kernel_eq {A} (m : M Kernel A) (w : W) a : m (wk w) = Ok (a, wk w) → on_kernel m w = Ok (a, w).
Proof. intros E. unfold on_kernel, zoom. rewrite E. by rewrite upd_wk_id. Qed.

Lemma on_kernel_panic {A} (m : M Kernel A) (w : W) e : m (wk w) = Panic e → on_kernel m w = Panic e.
Proof. intros E. unfold on_kernel, zoom. by rewrite E. Qed.
End world.

(** ** [dyn Mutex] keeps the promise of the trait *)

#[export] Program Instance MutexObj_laws : MutexLaws MutexObj := {|
  m_rep := λ o, match o with SpinObj m => m_rep m | BlockingObj m => m_rep m end
|}.
Next Obligation. intros [m|m] ws; apply m_free. Qed.
Next Obligation.
  intros s [m|m] t ws Ht Hm; destruct (m_lock_free s m t ws Ht Hm) as (m' & E & Hm').
  - exists (SpinObj m'). cbn [lock MutexObj_Mutex fst snd]. by rewrite E.
  - exists (BlockingObj m'). cbn [lock MutexObj_Mutex fst snd]. by rewrite E.
Qed.
Next Obligation.
  intros s [m|m] t u ws Ht Hm; destruct (m_lock_taken s m t u ws Ht Hm) as (s' & m' & [(E & Hs & Hm')|(E & Hs & Hm')]).
  - exists s', (SpinObj m'). left. cbn [lock MutexObj_Mutex fst snd]. by rewrite E.
  - exists s', (SpinObj m'). right. cbn [lock MutexObj_Mutex fst snd]. by rewrite E.
  - exists s', (BlockingObj m'). left. cbn [lock MutexObj_Mutex fst snd]. by rewrite E.
  - exists s', (BlockingObj m'). right. cbn [lock MutexObj_Mutex fst snd]. by rewrite E.
Qed.
Next Obligation.
  intros s [m|m] u ws Hm; destruct (m_unlock s m u ws Hm) as (s' & m' & E & Hm').
  - exists s', (SpinObj m'). cbn [unlock MutexObj_Mutex fst snd]. rewrite E. split; [done|]. by destruct ws.
  - exists s', (BlockingObj m'). cbn [unlock MutexObj_Mutex fst snd]. rewrite E. split; [done|]. by destruct ws.
Qed.
