(* ===== verification/SyncCalls.v ===== *)
(** * System calls on mutexes, semaphores, condition variables and sleep

    [os/src/syscall/sync.rs]: a process names its objects by their positions in
    the lists of its control block. *)

From S2P Require Import Prelude PageTable MemorySet Sched Sync Timer TaskId Kernel Syscall World Process.

(** ** The lists of a process *)

Definition set_sync_lists (ml sl cl : list (option Z)) (p : ProcessControlBlock) : ProcessControlBlock :=
  {| pid := pid p; is_zombie := is_zombie p; memory_set := memory_set p; parent := parent p;
     children := children p; pcb_exit_code := pcb_exit_code p; fd_table := fd_table p; signals := signals p;
     tasks := tasks p; task_res_allocator := task_res_allocator p; mutex_list := ml;
     semaphore_list := sl; condvar_list := cl |}.

(** The three kinds of lists. *)
Inductive kind := KMutex | KSemaphore | KCondvar.
Definition list_of (c : kind) (p : ProcessControlBlock) : list (option Z) :=
  match c with KMutex => mutex_list p | KSemaphore => semaphore_list p | KCondvar => condvar_list p end.
Definition set_list (c : kind) (l : list (option Z)) (p : ProcessControlBlock) : ProcessControlBlock :=
  match c with
  | KMutex => set_sync_lists l (semaphore_list p) (condvar_list p) p
  | KSemaphore => set_sync_lists (mutex_list p) l (condvar_list p) p
  | KCondvar => set_sync_lists (mutex_list p) (semaphore_list p) l p
  end.

Section calls.
Context {St H : Type} `{!BinaryHeap H}.
Abbreviation W := (World St H).

(** [Arc::clone(process_inner.list[id].as_ref().unwrap())], the borrow of the
    process ended after it. *)
Definition object_at (c : kind) (id : Z) : M W Z :=
  on_kernel (
    p ← current_process;
    inner ← borrow p;
    o ← index (list_of c inner) id;
    x ← unwrap o;
    _ ← release p;
    mret x).

(** The first free slot of the list, or a new one at its end. *)
Definition install_object (c : kind) (p x : Z) : M W Z :=
  on_kernel (
    inner ← borrow p;
    let '(id, l) := install x (list_of c inner) in
    _ ← modify (upd_pcbs (alter (set_list c l) p));
    _ ← release p;
    mret id).

(** ** Creation; the result is [id as isize] *)

Definition sys_mutex_create (blocking : bool) : M W Z :=
  p ← on_kernel current_process;
  x ← on_kernel new_obj;
  _ ← modify (λ w, upd_wo (set_mutexes (<[x := if blocking then BlockingObj MutexBlocking_new
                                               else SpinObj MutexSpin_new]> (mutexes (wo w))) (wo w)) w);
  id ← install_object KMutex p x;
  mret (to_signed 64 id).

Definition sys_semaphore_create (res_count : Z) : M W Z :=
  p ← on_kernel current_process;
  x ← on_kernel new_obj;
  _ ← modify (λ w, upd_wo (set_semaphores (<[x := Semaphore_new res_count]> (semaphores (wo w))) (wo w)) w);
  id ← install_object KSemaphore p x;
  mret (to_signed 64 id).

Definition sys_condvar_create : M W Z :=
  p ← on_kernel current_process;
  x ← on_kernel new_obj;
  _ ← modify (λ w, upd_wo (set_condvars (<[x := Condvar_new]> (condvars (wo w))) (wo w)) w);
  id ← install_object KCondvar p x;
  mret (to_signed 64 id).

(** ** Use *)

(** What is left of a call after [lock]: the spin mutex is tried again, the
    blocking one has been handed over. *)
Definition after_lock (m : Z) (p : option Z) (t : lturn) : Outcome :=
  match t with
  | Returned => Value 0
  | Again => Switched {| todo := TLock m; c_process := p; c_file := None |}
  | Parked => Switched {| todo := TReturn 0; c_process := p; c_file := None |}
  end.

Definition sys_mutex_lock (mutex_id : Z) : M W Outcome :=
  m ← object_at KMutex mutex_id;
  t ← on_mutex m lock;
  mret (after_lock m None t).

Definition sys_mutex_unlock (mutex_id : Z) : M W Z :=
  m ← object_at KMutex mutex_id;
  _ ← on_mutex m unlock;
  mret 0.

Definition sys_semaphore_up (sem_id : Z) : M W Z :=
  x ← object_at KSemaphore sem_id;
  _ ← on_semaphore x up;
  mret 0.

(** The [Arc] of the process stays on the stack of the parked task. *)
Definition sys_semaphore_down (sem_id : Z) : M W Outcome :=
  p ← on_kernel current_process;
  x ← object_at KSemaphore sem_id;
  t ← on_semaphore x down;
  mret (match t with
        | Returned => Value 0
        | _ => Switched {| todo := TReturn 0; c_process := Some p; c_file := None |}
        end).

Definition sys_condvar_signal (condvar_id : Z) : M W Z :=
  x ← object_at KCondvar condvar_id;
  _ ← on_condvar x signal;
  mret 0.

(** [wait] releases the mutex, parks the task, and takes the mutex again when
    the task runs. *)
Definition sys_condvar_wait (condvar_id mutex_id : Z) : M W Outcome :=
  p ← on_kernel current_process;
  x ← object_at KCondvar condvar_id;
  m ← object_at KMutex mutex_id;
  w ← get;
  c ← unwrap (condvars (wo w) !! x);
  mo ← unwrap (mutexes (wo w) !! m);
  r ← lift_result (wait_park (sched (wk w), (c, mo)));
  let '(_, (s, (c', mo'))) := r in
  _ ← put (upd_wk (upd_parked (λ l, requeue (cv_queue c) (cv_queue c') (requeue (mutex_waiters mo) (mutex_waiters mo') l))
                     (upd_sched s (wk w)))
        (upd_wo (set_condvars (<[x := c']> (condvars (wo w)))
                   (set_mutexes (<[m := mo']> (mutexes (wo w))) (wo w))) w));
  mret (Switched {| todo := TLock m; c_process := Some p; c_file := None |}).

Definition sys_sleep (time ms : Z) : M W Outcome :=
  w ← get;
  t ← unwrap (cur (sched (wk w)));
  r ← lift_result (Timer.sys_sleep time ms (sched (wk w), wt w));
  let '(_, (s, h)) := r in
  _ ← put (upd_wk (upd_parked (λ l, l ++ [t]) (upd_sched s (wk w))) (upd_wt h w));
  mret (Switched {| todo := TReturn 0; c_process := None; c_file := None |}).
End calls.

(** ** Lemmas *)

Section lemmas.
Context {St H : Type} `{!BinaryHeap H}.
Abbreviation W := (World St H).
Implicit Types w : W.

(** The three ways a lookup by number ends. *)
Lemma object_at_cases c id w t tb p pb : running (wk w) t tb p pb →
  match lookupZ (list_of c pb) id with
  | Some (Some x) => object_at c id w = Ok (x, w)
  | Some None => object_at c id w = Panic PUnwrap
  | None => object_at c id w = Panic PIndex
  end.
Proof.
  intros Hr. pose proof (ru_pcb _ _ _ _ _ Hr) as Hp. pose proof (ru_free _ _ _ _ _ Hr) as Hf.
  destruct (lookupZ (list_of c pb) id) as [[x|]|] eqn:E.
  - apply on_kernel_eq. unfold mbind, M_bind. rewrite (current_process_eq _ _ _ _ _ Hr), (borrow_eq _ _ _ Hp Hf).
    unfold index. rewrite E. unfold mret, M_ret, unwrap, release, modify, mret, M_ret.
    by rewrite (release_borrowed _ _ Hf).
  - apply on_kernel_panic. unfold mbind, M_bind. rewrite (current_process_eq _ _ _ _ _ Hr), (borrow_eq _ _ _ Hp Hf).
    unfold index. by rewrite E.
  - apply on_kernel_panic. unfold mbind, M_bind. rewrite (current_process_eq _ _ _ _ _ Hr), (borrow_eq _ _ _ Hp Hf).
    unfold index. by rewrite E.
Qed.

(** [install] takes the lowest free position. *)
Lemma install_spec x l id l' : install x l = (id, l') →
  lookupZ l' id = Some (Some x) ∧ 0 <= id <= lengthZ l ∧
  (∀ j, j ≠ id → lookupZ l' j = lookupZ l j) ∧
  (∀ j, 0 <= j < id → ∃ y, lookupZ l j = Some (Some y)) ∧
  (lookupZ l id = None ∨ lookupZ l id = Some None).
Proof.
  unfold install. destruct (find_index _ l) as [i|] eqn:E; intros [= <- <-].
  - apply find_index_Some in E as [([y|] & Hi & Hy) Hmin]; [done|]. pose proof (lookup_lt_Some _ _ _ Hi) as Hlt.
    split_and!.
    + rewrite lookupZ_nat, Nat2Z.id by lia. by apply list_lookup_insert_eq.
    + lia.
    + unfold lengthZ. lia.
    + intros j Hj. unfold lookupZ. destruct (Z.leb_spec 0 j); [|done]. apply list_lookup_insert_ne. lia.
    + intros j Hj. rewrite lookupZ_nat by lia. destruct (lookup_lt_is_Some_2 l (Z.to_nat j)) as [[y|] Hy']; [lia|eauto|].
      by pose proof (Hmin (Z.to_nat j) None ltac:(lia) Hy').
    + right. by rewrite lookupZ_nat, Nat2Z.id by lia.
  - rewrite find_index_None in E. unfold vec_push. split_and!.
    + rewrite lookupZ_app_r by lia. by rewrite Z.sub_diag.
    + apply lengthZ_nonneg.
    + lia.
    + intros j Hj. destruct (decide (0 <= j < lengthZ l)); [by apply lookupZ_app_l|].
      destruct (lookupZ (l ++ [Some x]) j) as [z|] eqn:Hz.
      * apply lookupZ_lt in Hz. rewrite lengthZ_app in Hz. change (lengthZ [Some x]) with 1 in Hz. lia.
      * destruct (lookupZ l j) eqn:Hz'; [|done]. apply lookupZ_lt in Hz'. lia.
    + intros j Hj. destruct (lookupZ_is_Some l j) as [[y|] Hy]; [lia|eauto|]. exfalso.
      rewrite lookupZ_nat in Hy by lia. by pose proof (E _ _ Hy).
    + left. destruct (lookupZ l (lengthZ l)) eqn:Hz; [|done]. apply lookupZ_lt in Hz. lia.
Qed.

Lemma install_object_eq c q x w pb id l :
  pcbs (wk w) !! q = Some pb → q ∉ borrowed (wk w) → install x (list_of c pb) = (id, l) →
  install_object c q x w = Ok (id, upd_wk (upd_pcbs (alter (set_list c l) q) (wk w)) w).
Proof.
  intros Hp Hf Hi. unfold install_object, on_kernel, zoom, mbind, M_bind. rewrite (borrow_eq _ _ _ Hp Hf).
  rewrite Hi. unfold modify, release, mret, M_ret. simpl. do 3 f_equal.
  replace (({[q]} ∪ borrowed (wk w)) ∖ {[q]}) with (borrowed (wk w)) by set_solver. by destruct (wk w).
Qed.
End lemmas.

(** What creation leaves: the process's list has the fresh object at the lowest
    free position, its other entries and the other processes are as before. *)
Record created {St H} (c : kind) (w w' : World St H) (p x id : Z) (pb : ProcessControlBlock) : Prop := {
  cr_fresh : x = next_obj (wk w) ∧ next_obj (wk w') = next_obj (wk w) + 1;
  cr_slot : ∃ l, pcbs (wk w') = alter (set_list c l) p (pcbs (wk w)) ∧ lookupZ l id = Some (Some x) ∧
     ∀ j, j ≠ id → lookupZ l j = lookupZ (list_of c pb) j;
  cr_lowest : (∀ j, 0 <= j < id → ∃ y, lookupZ (list_of c pb) j = Some (Some y)) ∧
     (lookupZ (list_of c pb) id = None ∨ lookupZ (list_of c pb) id = Some None);
  cr_rest : sched (wk w') = sched (wk w) ∧ mm (wk w') = mm (wk w) ∧ borrowed (wk w') = borrowed (wk w) ∧
     wt w' = wt w ∧ wf w' = wf w ∧ wc w' = wc w
}.

(** The common part of the three creation calls. *)
Lemma create_eq {St H} c (f : Z → Objs → Objs) (w : World St H) t tb p pb id l :
  running (wk w) t tb p pb → lengthZ (list_of c pb) < 2 ^ 63 →
  install (next_obj (wk w)) (list_of c pb) = (id, l) →
  ∃ w', (p ← on_kernel current_process;
         x ← on_kernel new_obj;
         _ ← modify (λ w, upd_wo (f x (wo w)) w);
         id ← install_object c p x;
         mret (to_signed 64 id)) w = Ok (id, w') ∧
    created c w w' p (next_obj (wk w)) id pb ∧ wo w' = f (next_obj (wk w)) (wo w).
Proof.
  intros Hr Hlen Hi. unfold mbind at 1, M_bind. rewrite (on_kernel_eq _ w p) by (by eapply current_process_eq).
  unfold mbind at 1, M_bind, on_kernel at 1, zoom, new_obj, mbind, M_bind, get, put, mret, M_ret, modify.
  set (w1 := upd_wo _ _). assert (pcbs (wk w1) !! p = Some pb) as Hp by apply Hr.
  assert (p ∉ borrowed (wk w1)) as Hf by apply Hr.
  rewrite (install_object_eq c p _ w1 pb id l Hp Hf Hi). destruct (install_spec _ _ _ _ Hi) as (I1 & I2 & I3 & I4 & I5).
  rewrite to_signed_small by (change (64 - 1) with 63; lia). eexists. split; [done|]. split; [|done].
  split; [done|by exists l|done|done].
Qed.

(** The scheduler and one mutex changed, nothing else but who is parked. *)
Record mutex_only {St H} (w w' : World St H) (m : Z) (s : Sched) (o : MutexObj) : Prop := {
  mo_sched : sched (wk w') = s;
  mo_objs : wo w' = set_mutexes (<[m := o]> (mutexes (wo w))) (wo w);
  mo_kernel : pcbs (wk w') = pcbs (wk w) ∧ mm (wk w') = mm (wk w) ∧ borrowed (wk w') = borrowed (wk w);
  mo_rest : wt w' = wt w ∧ wf w' = wf w ∧ wc w' = wc w
}.

Lemma on_mutex_eq {St H A} (f : M (Sched * MutexObj) A) (w : World St H) m o a s o' :
  mutexes (wo w) !! m = Some o → f (sched (wk w), o) = Ok (a, (s, o')) →
  ∃ w', on_mutex m f w = Ok (a, w') ∧ mutex_only w w' m s o'.
Proof.
  intros Ho Hf. unfold on_mutex, on_object, mbind, M_bind, get, unwrap. rewrite Ho. unfold mret, M_ret, lift_result, put.
  rewrite Hf. eexists. split; [done|]. by split.
Qed.

(** ** Properties *)

(** Creating a mutex, semaphore or condition variable returns the lowest free
    number of the calling process and puts there a new object, free or with the
    given count or without waiters; the process's other numbers, the other
    objects and the other processes are unchanged. *)
Theorem sync_objects_created {St H} (w : World St H) t tb p pb :
  running (wk w) t tb p pb →
  lengthZ (mutex_list pb) < 2 ^ 63 → lengthZ (semaphore_list pb) < 2 ^ 63 → lengthZ (condvar_list pb) < 2 ^ 63 →
  let x := next_obj (wk w) in
  (∀ blocking : bool, ∃ id w', sys_mutex_create blocking w = Ok (id, w') ∧ created KMutex w w' p x id pb ∧
     ∃ o, wo w' = set_mutexes (<[x := o]> (mutexes (wo w))) (wo w) ∧ m_rep o None [] ∧
       (if blocking then ∃ m, o = BlockingObj m else ∃ m, o = SpinObj m)) ∧
  (∀ n, ∃ id w', sys_semaphore_create n w = Ok (id, w') ∧ created KSemaphore w w' p x id pb ∧
     wo w' = set_semaphores (<[x := Semaphore_new n]> (semaphores (wo w))) (wo w)) ∧
  (∃ id w', sys_condvar_create w = Ok (id, w') ∧ created KCondvar w w' p x id pb ∧
     wo w' = set_condvars (<[x := Condvar_new]> (condvars (wo w))) (wo w)).
Proof.
  intros Hr H1 H2 H3 x. split_and!.
  - intros b. destruct (install x (mutex_list pb)) as [id l] eqn:Hi.
    destruct (create_eq KMutex (λ x o, set_mutexes (<[x := if b then BlockingObj MutexBlocking_new
      else SpinObj MutexSpin_new]> (mutexes o)) o) w t tb p pb id l Hr H1 Hi) as (w' & E & Hc & Ho).
    exists id, w'. split_and!; [exact E|done|]. eexists. split_and!; [exact Ho| |]; destruct b; try done; eauto.
  - intros n. destruct (install x (semaphore_list pb)) as [id l] eqn:Hi.
    destruct (create_eq KSemaphore (λ x o, set_semaphores (<[x := Semaphore_new n]> (semaphores o)) o) w t tb p pb id l Hr H2 Hi)
      as (w' & E & Hc & Ho). exists id, w'. by split_and!.
  - destruct (install x (condvar_list pb)) as [id l] eqn:Hi.
    destruct (create_eq KCondvar (λ x o, set_condvars (<[x := Condvar_new]> (condvars o)) o) w t tb p pb id l Hr H3 Hi)
      as (w' & E & Hc & Ho). exists id, w'. by split_and!.
Qed.

(** Locking and unlocking by number behave as the abstract mutex behind it, of
    either kind: a free mutex is taken and the call returns at once; a taken one
    makes the caller give up the processor, to try again or parked behind the
    tasks that wait already; unlocking hands the mutex to the first waiter, who
    becomes ready, or frees it.  Nothing else of the kernel changes. *)
Theorem mutex_calls_refine {St H} (w : World St H) t tb p pb id m o ws :
  running (wk w) t tb p pb → lookupZ (mutex_list pb) id = Some (Some m) → mutexes (wo w) !! m = Some o →
  (m_rep o None ws → ∃ w' o', sys_mutex_lock id w = Ok (Value 0, w') ∧
     mutex_only w w' m (sched (wk w)) o' ∧ m_rep o' (Some t) []) ∧
  (∀ u, m_rep o (Some u) ws → ∃ w' s o' c, sys_mutex_lock id w = Ok (Switched c, w') ∧ mutex_only w w' m s o' ∧
     ((todo c = TLock m ∧ suspend_current_and_run_next (sched (wk w)) = Ok (tt, s) ∧ m_rep o' (Some u) ws) ∨
      (todo c = TReturn 0 ∧ block_current_and_run_next (sched (wk w)) = Ok (tt, s) ∧ m_rep o' (Some u) (ws ++ [t])))) ∧
  (∀ u, m_rep o (Some u) ws → ∃ w' s o', sys_mutex_unlock id w = Ok (0, w') ∧ mutex_only w w' m s o' ∧
     match ws with
     | [] => s = sched (wk w) ∧ m_rep o' None []
     | v :: ws' => add_task v (sched (wk w)) = Ok (tt, s) ∧ m_rep o' (Some v) ws'
     end).
Proof.
  intros Hr Hl Ho. pose proof (ru_cur _ _ _ _ _ Hr) as Hc.
  pose proof (object_at_cases KMutex id w t tb p pb Hr) as Hat. cbn [list_of] in Hat. rewrite Hl in Hat. split_and!.
  - intros Hm. destruct (m_lock_free _ o t ws Hc Hm) as (o' & E & Hm').
    destruct (on_mutex_eq lock w m o _ _ _ Ho E) as (w' & E' & Hw). exists w', o'. split_and!; [|done|done].
    unfold sys_mutex_lock, mbind, M_bind. by rewrite Hat, E'.
  - intros u Hm. destruct (m_lock_taken _ o t u ws Hc Hm) as (s & o' & [(E & Hs & Hm')|(E & Hs & Hm')]);
      destruct (on_mutex_eq lock w m o _ _ _ Ho E) as (w' & E' & Hw); eexists w', s, o', _; (split; [|split; [done|]]).
    + unfold sys_mutex_lock, mbind, M_bind. by rewrite Hat, E'.
    + by left.
    + unfold sys_mutex_lock, mbind, M_bind. by rewrite Hat, E'.
    + by right.
  - intros u Hm. destruct (m_unlock (sched (wk w)) o u ws Hm) as (s & o' & E & Hs).
    destruct (on_mutex_eq unlock w m o _ _ _ Ho E) as (w' & E' & Hw). exists w', s, o'. split_and!; [|done|done].
    unfold sys_mutex_unlock, mbind, M_bind. by rewrite Hat, E'.
Qed.

(** C38: A number that the process never created panics the kernel in every call
    that takes one: by the bounds check when it is past the list, by [unwrap] when
    its slot is empty. *)
Theorem bad_sync_number_panics {St H} (w : World St H) t tb p pb id :
  running (wk w) t tb p pb →
  let bad c e := match lookupZ (list_of c pb) id with Some (Some _) => False | Some None => e = PUnwrap | None => e = PIndex end in
  (∀ e, bad KMutex e → sys_mutex_lock id w = Panic e ∧ sys_mutex_unlock id w = Panic e) ∧
  (∀ e, bad KSemaphore e → sys_semaphore_up id w = Panic e ∧ sys_semaphore_down id w = Panic e) ∧
  (∀ e, bad KCondvar e → sys_condvar_signal id w = Panic e ∧ ∀ m, sys_condvar_wait id m w = Panic e).
Proof.
  intros Hr bad. subst bad.
  assert (∀ c e, match lookupZ (list_of c pb) id with Some (Some _) => False | Some None => e = PUnwrap | None => e = PIndex end →
    object_at c id w = Panic e) as Hat.
  { intros c e He. pose proof (object_at_cases c id w t tb p pb Hr) as Hc.
    destruct (lookupZ (list_of c pb) id) as [[x|]|]; [done|by subst|by subst]. }
  pose proof (on_kernel_eq current_process w p (current_process_eq _ _ _ _ _ Hr)) as Hcp.
  split_and!; intros e He%Hat; split; try intros m;
    unfold sys_mutex_lock, sys_mutex_unlock, sys_semaphore_up, sys_semaphore_down, sys_condvar_signal, sys_condvar_wait,
      mbind, M_bind; rewrite ?Hcp; by rewrite He.
Qed.

(** ** Witnesses *)

Definition demo_sync_pcb : ProcessControlBlock := set_list KMutex [Some 50; None] (demo_pcb demo_ms [Some 1]).
Definition demo_world : World unit (list TimerCondVar) :=
  mkWorld {| mm := demo_mm; kernel_space := demo_ms; kstack_ids := RecycleAllocator_new; pid_ids := RecycleAllocator_new;
             sched := demo_s1; pcbs := {[ 0 := demo_sync_pcb ]}; pid2pcb := {[ 1 := 0 ]}; borrowed := ∅;
             parked := []; stack_refs := []; next_obj := 100; initproc := 0 |}
    {| mutexes := {[ 50 := BlockingObj {| locked := true; wait_queue := [2] |} ]}; semaphores := ∅; condvars := ∅ |}
    [] (mkFiles tt ∅ ∅ [] [] []) ∅.

Lemma demo_world_running : running (wk demo_world) 1 demo_tcb1 0 demo_sync_pcb.
Proof. split; [done|done|done|done|set_solver]. Qed.

Lemma sync_objects_created_witness : ∃ id w', sys_mutex_create true demo_world = Ok (id, w').
Proof.
  destruct (sync_objects_created demo_world 1 demo_tcb1 0 demo_sync_pcb demo_world_running) as (Hm & _); [done|done|done|].
  destruct (Hm true) as (id & w' & E & _). by exists id, w'.
Defined.

Lemma mutex_calls_refine_witness : ∃ w' c, sys_mutex_lock 0 demo_world = Ok (Switched c, w').
Proof.
  destruct (mutex_calls_refine demo_world 1 demo_tcb1 0 demo_sync_pcb 0 50
    (BlockingObj {| locked := true; wait_queue := [2] |}) [2] demo_world_running) as (_ & Hm & _); [done|done|].
  destruct (Hm 3) as (w' & s & o' & c & E & _); [done|]. by exists w', c.
Defined.

Lemma bad_sync_number_panics_witness : sys_mutex_lock 1 demo_world = Panic PUnwrap ∧ sys_mutex_lock 7 demo_world = Panic PIndex.
Proof.
  split.
  - by apply (bad_sync_number_panics demo_world 1 demo_tcb1 0 demo_sync_pcb 1 demo_world_running).
  - by apply (bad_sync_number_panics demo_world 1 demo_tcb1 0 demo_sync_pcb 7 demo_world_running).
Defined.
