(* ===== verification/FileCalls.v ===== *)
(** * System calls on files and programs

    [os/src/syscall/fs.rs] and the calls of [process.rs] that use files, the
    trait [File] of [os/src/fs/mod.rs] with its implementations behind a
    descriptor, and the console files of [stdio.rs].

    A [String] built by [translated_str] holds one character per byte; its UTF-8
    bytes are the names and arguments passed on.  [elf] is the parser of the
    [xmas-elf] crate. *)

From S2P Require Import Prelude Address FrameAllocator PageTable UserBuffer MemorySet Codec BlockDev BlockCache Bitmap Layout InodeTree Efs Vfs OsInode Pipe Sched Timer TaskId Kernel Syscall World.

(** ** UTF-8 *)

Definition in_range (lo hi b : Z) : bool := (lo <=? b) && (b <=? hi).

(** [core::str::from_utf8] succeeds. *)
Fixpoint valid_utf8 (bs : list Z) : bool :=
  match bs with
  | [] => true
  | a :: r =>
      if a <? 0x80 then valid_utf8 r
      else if in_range 0xC2 0xDF a then
        match r with b :: r => in_range 0x80 0xBF b && valid_utf8 r | _ => false end
      else if in_range 0xE0 0xEF a then
        match r with
        | b :: c :: r =>
            in_range (if a =? 0xE0 then 0xA0 else 0x80) (if a =? 0xED then 0x9F else 0xBF) b &&
            in_range 0x80 0xBF c && valid_utf8 r
        | _ => false
        end
      else if in_range 0xF0 0xF4 a then
        match r with
        | b :: c :: d :: r =>
            in_range (if a =? 0xF0 then 0x90 else 0x80) (if a =? 0xF4 then 0x8F else 0xBF) b &&
            in_range 0x80 0xBF c && in_range 0x80 0xBF d && valid_utf8 r
        | _ => false
        end
      else false
  end.

(** The bytes of a string of characters below 256. *)
Definition utf8_char (c : Z) : list Z :=
  if c <? 0x80 then [c] else [Z.lor 0xC0 (Z.shiftr c 6); Z.lor 0x80 (Z.land c 0x3F)].
Definition utf8_encode (s : list Z) : list Z := s ≫= utf8_char.

(** ** Accesses of the kernel to user memory *)

(** A value that must be there within the fuel. *)
Definition within {S A} (o : option (result A)) : M S A :=
  match o with Some r => lift_result r | None => panic_with PFuel end.

(** A load of [usize] through a reference to physical memory. *)
Fixpoint read_le (n : nat) (m : gmap Z page) (pa : Z) : Z :=
  match n with
  | O => 0
  | S n => get_byte m (floor pa) (page_offset pa) + 256 * read_le n m (wrap64 (pa + 1))
  end.

Definition current_user_token : M Kernel Z :=
  p ← current_process; b ← access p id; mret (ms_token (memory_set b)).

Section files.
Context {St H : Type} `{HS : BlockStore St} `{!BinaryHeap H}.
Context (efs : EasyFileSystem) (fuel : nat) (elf : list Z → option ElfFile).
Context (trap_handler strampoline sstatus : Z).
Abbreviation W := (World St H).

Definition user_buffer (token ptr len : Z) : M Kernel UserBuffer :=
  k ← get;
  ss ← within (translated_byte_buffer (mem (mm k)) token ptr len);
  mret {| buffers := ss |}.

Definition user_str (token ptr : Z) : M Kernel (list Z) :=
  k ← get; within (translated_str fuel (mem (mm k)) token ptr).

(** ** The console *)

Definition console_getchar : M W Z :=
  w ← get;
  match console_in (wf w) with
  | [] => mret 0
  | c :: cs => _ ← put (upd_wf (upd_console cs (console_out (wf w)) (wf w)) w); mret c
  end.

(** The loop of [Stdin::read], to its end or to the next switch. *)
Definition stdin_turn (buf : UserBuffer) : M W Outcome :=
  c ← console_getchar;
  if c =? 0 then
    _ ← on_kernel (on_sched suspend_current_and_run_next);
    mret (Switched {| todo := TStdin buf; c_process := None; c_file := Some FStdin |})
  else
    sl ← index (buffers buf) 0;
    _ ← on_kernel (write_mem (λ m, set_byte m (sl_ppn sl) (sl_lo sl) (wrap8 c)));
    mret (Value 1).
Definition Stdin_read (buf : UserBuffer) : M W Outcome :=
  _ ← assert_ (UserBuffer_len buf =? 1); stdin_turn buf.

(** [for buffer in user_buf.buffers.iter()]. *)
Fixpoint print_slices (ss : list UserBuffer.slice) : M W unit :=
  match ss with
  | [] => mret tt
  | sl :: ss' =>
      w ← get;
      let bs := loc_byte (mem (mm (wk w))) <$> slice_locs sl in
      _ ← unwrap (if valid_utf8 bs then Some bs else None);
      _ ← put (upd_wf (upd_console (console_in (wf w)) (console_out (wf w) ++ bs) (wf w)) w);
      print_slices ss'
  end.
Definition Stdout_write (buf : UserBuffer) : M W Outcome :=
  _ ← print_slices (buffers buf); mret (Value (UserBuffer_len buf)).

(** ** The trait [File] *)

Definition readable (f : FileRef) : bool :=
  match f with FStdin => true | FStdout => false | FInode r _ _ => r | FPipe r _ _ => r end.
Definition writable (f : FileRef) : bool :=
  match f with FStdin => false | FStdout => true | FInode _ w _ => w | FPipe _ w _ => w end.

(** An operation of an open inode on the store and physical memory. *)
Definition on_inode (x : Z) (m : OSInode → M (St * gmap Z page) (Z * OSInode)) : M W Outcome :=
  w ← get;
  f ← unwrap (inodes (wf w) !! x);
  r ← lift_result (m f (store (wf w), mem (mm (wk w))));
  let '((n, f'), (s, pm)) := r in
  _ ← put (upd_wk (upd_mm {| fa := fa (mm (wk w)); mem := pm |} (wk w))
        (upd_wf (upd_inodes (<[x := f']> (inodes (wf w))) (upd_store s (wf w))) w));
  mret (Value n).

(** The strong count of the write end of a pipe: descriptors of all processes
    and calls in progress. *)
Definition is_write_end (x : Z) (f : FileRef) : bool := bool_decide (f = FPipe false true x).
Definition write_ends (x : Z) (w : W) : Z :=
  lengthZ (filter (λ f, is_write_end x f = true) (omap id (map_to_list (pcbs (wk w)) ≫= λ qb, fd_table (snd qb))))
  + lengthZ (filter (λ f, is_write_end x f = true) (held_files (wf w))).

(** A turn of a call on a pipe; [again] is what is left when it suspends. *)
Definition on_pipe (x : Z) (m : M PipeState (option turn)) (again : UserBufferIterator → Z → Todo) (f : FileRef) : M W Outcome :=
  w ← get;
  rb ← unwrap (pipes (wf w) !! x);
  we ← unwrap (write_end rb);
  r ← lift_result (m {| ring := rb; strong := {[ we := write_ends x w ]}; pmem := mem (mm (wk w)) |});
  let '(o, s) := r in
  _ ← put (upd_wk (upd_mm {| fa := fa (mm (wk w)); mem := pmem s |} (wk w))
        (upd_wf (upd_pipes (<[x := ring s]> (pipes (wf w))) (wf w)) w));
  match o with
  | Some (Return n) => mret (Value n)
  | Some (Suspend it size) =>
      _ ← on_kernel (on_sched suspend_current_and_run_next);
      mret (Switched {| todo := again it size; c_process := None; c_file := Some f |})
  | None => panic_with PFuel
  end.

Definition file_read (f : FileRef) (buf : UserBuffer) : M W Outcome :=
  match f with
  | FStdin => Stdin_read buf
  | FStdout => panic_with PExplicit
  | FInode _ _ x => on_inode x (λ i, OSInode_read i buf)
  | FPipe r w x => on_pipe x (Pipe_read {| p_readable := r; p_writable := w |} buf) (TPipeRead x) f
  end.
Definition file_write (f : FileRef) (buf : UserBuffer) : M W Outcome :=
  match f with
  | FStdin => panic_with PExplicit
  | FStdout => Stdout_write buf
  | FInode _ _ x => on_inode x (λ i, OSInode_write efs i buf)
  | FPipe r w x => on_pipe x (Pipe_write {| p_readable := r; p_writable := w |} buf) (TPipeWrite x) f
  end.

(** The [Arc] of the process stays on the stack of a task that is switched away. *)
Definition holding (p : Z) (o : Outcome) : Outcome :=
  match o with
  | Switched c => Switched {| todo := todo c; c_process := Some p; c_file := c_file c |}
  | _ => o
  end.

(** ** The calls *)

(** The file behind a descriptor that has the wanted right; [None] is the
    result -1. *)
Definition open_descriptor (right : FileRef → bool) (p fd : Z) : M Kernel (option FileRef) :=
  inner ← borrow p;
  if lengthZ (fd_table inner) <=? fd then _ ← release p; mret None
  else
    f ← index (fd_table inner) fd;
    _ ← release p;
    mret (match f with Some file => if right file then Some file else None | None => None end).

Definition sys_write (fd buf len : Z) : M W Outcome :=
  token ← on_kernel current_user_token;
  p ← on_kernel current_process;
  o ← on_kernel (open_descriptor writable p fd);
  match o with
  | Some file =>
      ub ← on_kernel (user_buffer token buf len);
      r ← file_write file ub;
      mret (holding p r)
  | None => mret (Value (-1))
  end.

Definition sys_read (fd buf len : Z) : M W Outcome :=
  token ← on_kernel current_user_token;
  p ← on_kernel current_process;
  o ← on_kernel (open_descriptor readable p fd);
  match o with
  | Some file =>
      ub ← on_kernel (user_buffer token buf len);
      r ← file_read file ub;
      mret (holding p r)
  | None => mret (Value (-1))
  end.

Definition on_store {A} (m : M St A) : M W A := zoom (λ w, store (wf w)) (λ s w, upd_wf (upd_store s (wf w)) w) m.

(** The descriptor of a file that was opened. *)
Definition install_file (p : Z) (inode : OSInode) : M W Z :=
  x ← on_kernel new_obj;
  _ ← modify (λ w, upd_wf (upd_inodes (<[x := inode]> (inodes (wf w))) (wf w)) w);
  on_kernel (
    inner ← borrow p;
    let '(fd, fds) := alloc_fd (fd_table inner) in
    _ ← modify (upd_pcbs (alter (set_fds (insertZ fd (Some (FInode (os_readable inode) (os_writable inode) x)) fds)) p));
    _ ← release p;
    mret (to_signed 64 fd)).

Definition sys_open (path flags : Z) : M W Z :=
  p ← on_kernel current_process;
  token ← on_kernel current_user_token;
  path ← on_kernel (user_str token path);
  flags ← unwrap (from_bits OpenFlags_all flags);
  o ← on_store (open_file efs (utf8_encode path) flags);
  match o with
  | Some inode => install_file p inode
  | None => mret (-1)
  end.

(** [sys_pipe] with the two ends of a new pipe. *)
Definition sys_pipe (pipe : Z) : M W Z :=
  x ← on_kernel new_obj;
  we ← on_kernel new_obj;
  _ ← modify (λ w, upd_wf (upd_pipes (<[x := set_write_end we PipeRingBuffer_new]> (pipes (wf w))) (wf w)) w);
  on_kernel (Syscall.sys_pipe (FPipe true false x) (FPipe false true x) pipe).

Definition sys_exit (code : Z) : M W Outcome :=
  _ ← on_kernel (exit_current_and_run_next code); mret Exited.

Definition sys_yield : M W Outcome :=
  _ ← on_kernel (on_sched suspend_current_and_run_next);
  mret (Switched {| todo := TReturn 0; c_process := None; c_file := None |}).

Definition sys_get_time (time : Z) : M W Z := mret (to_signed 64 (get_time_ms time)).

(** The strings whose addresses are in the array at [args], up to the first
    zero. *)
Fixpoint exec_args (n : nat) (token args : Z) : M Kernel (list (list Z)) :=
  match n with
  | O => panic_with PFuel
  | S n' =>
      k ← get;
      pa ← lift_result (translated_ref (mem (mm k)) token args);
      let arg_str_ptr := read_le 8 (mem (mm k)) pa in
      if arg_str_ptr =? 0 then mret []
      else
        s ← user_str token arg_str_ptr;
        rest ← exec_args n' token (wrap64 (args + 8));
        mret (utf8_encode s :: rest)
  end.

Definition sys_exec (path args : Z) : M W Z :=
  token ← on_kernel current_user_token;
  path ← on_kernel (user_str token path);
  args_vec ← on_kernel (exec_args fuel token args);
  o ← on_store (open_file efs (utf8_encode path) RDONLY);
  match o with
  | Some app_inode =>
      r ← on_store (read_all fuel app_inode);
      '(all_data, _) ← (match r with Some x => mret x | None => panic_with PFuel end);
      p ← on_kernel current_process;
      _ ← on_kernel (exec trap_handler strampoline sstatus p (elf all_data) args_vec);
      mret (lengthZ args_vec)
  | None => mret (-1)
  end.
End files.
