(* ===== verification/Boot.v ===== *)
(** * Starting a program

    [ProcessControlBlock::new] ([os/src/task/process.rs]) and the first process:
    [INITPROC] ([os/src/task/mod.rs]) is the program that the file system holds
    under the name [initproc], made by [add_initproc] after [list_apps]
    ([os/src/fs/inode.rs]) has opened the file system.  [rust_main]
    ([os/src/main.rs]) composes these with the kernel space. *)

From S2P Require Import Prelude Address FrameAllocator PageTable MemorySet Elf Codec BlockDev BlockCache Bitmap Layout InodeTree Efs Vfs Dir OsInode Packer Sched Timer TaskId KernelSpace Kernel Syscall Process World FileCalls.

(** ** The first thread of a process *)

Section start.
Context (trap_return trap_handler strampoline sstatus : Z).

(** The thread takes identifier 0, a user stack and a trap context in the space
    of the process, and a kernel stack. *)
Lemma wp_first_thread lo owned klive k c cb base (Q : Z → Kernel → Prop) :
  let r := {| tid := 0; ustack_base := base |} in
  pcbs k !! c = Some cb → c ∉ borrowed k → task_res_allocator cb = RecycleAllocator_new → fits base 1 →
  ms_inv lo owned (mm k) (memory_set cb) → nonempty_areas (memory_set cb) →
  (∀ v, ustack_lo r <= v < ustack_lo r + 2 ∨ v = trap_cx_page r → mapping (mem (mm k)) (page_table (memory_set cb)) v = None) →
  ms_inv lo owned (mm k) (kernel_space k) → nonempty_areas (kernel_space k) →
  (∀ f, f ∈ frames (page_table (kernel_space k)) → f ∉ frames (page_table (memory_set cb))) →
  rc_ok (kstack_ids k) klive → rc_current (kstack_ids k) < 2 ^ 25 → 15 <= nfree (fa (mm k)) →
  (∀ id v, 0 <= id < 2 ^ 25 → id ∉ klive → kstack_lo id <= v < kstack_hi id →
     mapping (mem (mm k)) (page_table (kernel_space k)) v = None) →
  (∀ a1 a2 g x1 owned1 kid a x owned2, res_areas r a1 a2 → data_frames a2 !! trap_cx_page r = Some g →
     grown lo owned {| sp_mm := mm k; sp_ms := memory_set cb; sp_ids := {| rc_current := 1; rc_recycled := [] |} |} [a1; a2]
       (λ v, (False ∨ ustack_lo r <= v < ustack_lo r + 2) ∨ trap_cx_page r <= v < trap_cx_page r + 1) 9 owned1 x1 →
     kid ∉ klive →
     grown lo owned1 {| sp_mm := sp_mm x1; sp_ms := kernel_space k; sp_ids := sp_ids x |} [a]
       (λ v, False ∨ kstack_lo kid <= v < kstack_hi kid) 6 owned2 x →
     let t := next_obj k in
     let tb := {| process := c; kstack := kid; res := Some r; trap_cx_ppn := g;
                  task_cx := goto_trap_return trap_return (get_top kid); task_status := Ready; exit_code := None |} in
     ∀ k', mm k' = sp_mm x → kernel_space k' = sp_ms x → sched k' = {| ready_queue := ready_queue (sched k); cur := cur (sched k);
         idle_task_cx := idle_task_cx (sched k); cpu := cpu (sched k); tcbs := <[t := tb]> (tcbs (sched k)) |} →
       pcbs k' = <[c := set_space (sp_ms x1) {| rc_current := 1; rc_recycled := [] |} cb]> (pcbs k) →
       pid2pcb k' = pid2pcb k → borrowed k' = borrowed k → Q t k') →
  wp (TaskControlBlock_new trap_return c base true) Q k.
Proof.
  intros r Hc Hnb Hnew Hfits Hi Hne Hun Hker Hkne Hdisj Hids Hmore Hfree Hkun HQ. unfold TaskControlBlock_new.
  set (ids1 := {| rc_current := 1; rc_recycled := [] |}) in *.
  wp_steps. eapply wp_on_process; [done|done|]. unfold TaskUserRes_new. wp_steps. apply wp_zoom. cbn [sp_ids]. rewrite Hnew.
  assert (rc_alloc RecycleAllocator_new = Ok (0, ids1)) as Hrc by done.
  unfold wp at 1. rewrite Hrc. wp_steps.
  match goal with |- wp _ _ ?x => change x with {| sp_mm := mm k; sp_ms := memory_set cb; sp_ids := ids1 |} end.
  eapply (wp_alloc_user_res lo base 1 0 owned); [done|done|done|lia|done|cbn [sp_mm]; lia|].
  intros a1 a2 owned1 x1 Hra G1. wp_steps. pose proof (gr_ids _ _ _ _ _ _ _ _ G1) as Hid1. cbn [sp_ids] in Hid1.
  assert (a2 ∈ areas (sp_ms x1)) as Ha2 by (rewrite (gr_areas _ _ _ _ _ _ _ _ G1); apply elem_of_app; by right; right; left).
  pose proof (mi_ok _ _ _ _ (gr_inv _ _ _ _ _ _ _ _ G1) a2 Ha2) as Hok. unfold area_ok in Hok.
  rewrite (proj1 (proj2 Hra)) in Hok. destruct Hok as [Hdom Hmap].
  destruct (proj2 (Hdom (trap_cx_page r))) as [g Hg].
  { rewrite elem_of_area_pages by (by apply (mi_wf _ _ _ _ (gr_inv _ _ _ _ _ _ _ _ G1))).
    rewrite (proj2 (proj2 (proj2 Hra))). cbn [range_l range_r]. split; [reflexivity|apply Z.lt_add_pos_r; lia]. }
  destruct (Hmap _ g Hg) as (_ & _ & Hmg).
  set (k1 := upd_pcbs (alter (set_space (sp_ms x1) (sp_ids x1)) c) (upd_mm (sp_mm x1) k)).
  assert (pcbs k1 !! c = Some (set_space (sp_ms x1) ids1 cb)) as Hc1
    by (unfold k1; simpl; by rewrite lookup_alter_eq, Hc, Hid1).
  wp_steps. eapply wp_on_process; [exact Hc1|done|]. unfold wp at 1.
  rewrite (res_trap_cx_ppn_ok base 1 0 _ g _ Hfits) by (done || lia). cbn [sp_mm sp_ms sp_ids].
  wp_steps. apply wp_zoom.
  assert (∀ f, f ∈ frames (page_table (kernel_space k)) → page_of (mem (sp_mm x1)) f = page_of (mem (mm k)) f) as Hkp.
  { intros f Hf. apply (gr_pages _ _ _ _ _ _ _ _ G1); [|by apply Hdisj]. eapply ms_holds_owned; [exact Hker|by left]. }
  eapply (wp_kstack_alloc lo owned1 klive); cbn [sp_mm sp_ms sp_ids].
  { eapply ms_inv_frame; [exact Hker|apply (gr_inv _ _ _ _ _ _ _ _ G1)| |exact Hkp].
    intros y Hy. apply (gr_owned _ _ _ _ _ _ _ _ G1). left. by eapply ms_holds_owned. }
  { done. } { done. } { done. }
  { pose proof (gr_free _ _ _ _ _ _ _ _ G1) as Hfr. cbn [sp_mm] in Hfr. change (6 <= nfree (fa (sp_mm x1))). lia. }
  { intros id v Hid Hnl Hv. rewrite <- (Hkun id v Hid Hnl Hv). by apply mapping_agree; [apply (mi_pt _ _ _ _ Hker)|]. }
  intros kid a x owned2 Hkid _ Ha Hids' G. unfold new_obj. wp_steps. apply wp_zoom. wp_steps.
  eapply (HQ a1 a2 g x1 owned1 kid a x owned2 Hra Hg G1 Hkid G); [done|done|done| |done|done].
  cbn [upd_sched upd_kspace upd_pcbs upd_next pcbs]. unfold k1. cbn [upd_pcbs pcbs upd_mm].
  apply map_eq. intros q. destruct (decide (q = c)) as [->|Hne'].
  - rewrite !lookup_alter_eq, Hc, lookup_insert_eq, Hid1. done.
  - rewrite !lookup_alter_ne, lookup_insert_ne by done. done.
Qed.

(** ** [ProcessControlBlock::new] *)

(** A kernel that can start the program [elf]: its segments leave room for the
    user stack above the last one. *)
Record start_ready (lo : Z) (owned plive klive : gset Z) (k : Kernel) (elf : ElfFile) : Prop := {
  sr_fa : fa_inv lo (fa (mm k)) owned;
  sr_elf : elf_ok elf;
  sr_room : (∀ ph, ph ∈ loads elf → seg_hi ph <= last_end (loads elf)) ∧ last_end (loads elf) + 6 <= 2 ^ 27;
  sr_tramp : aligned (PhysAddr_from strampoline) = true;
  sr_frames : 18 + 3 * seg_pages (loads elf) <= nfree (fa (mm k));
  sr_kernel : ms_inv lo owned (mm k) (kernel_space k);
  sr_knonempty : nonempty_areas (kernel_space k);
  sr_kids : rc_ok (kstack_ids k) klive;
  sr_kmore : rc_current (kstack_ids k) < 2 ^ 25;
  sr_kunmapped : ∀ id v, 0 <= id < 2 ^ 25 → id ∉ klive → kstack_lo id <= v < kstack_hi id →
     mapping (mem (mm k)) (page_table (kernel_space k)) v = None;
  sr_pids : rc_ok (pid_ids k) plive;
  sr_pmore : rc_current (pid_ids k) < 2 ^ 64 - 1;
  sr_fresh : ∀ x, next_obj k <= x → pcbs k !! x = None ∧ tcbs (sched k) !! x = None ∧ x ∉ borrowed k
}.

(** The state with the new process [p] and its thread [t]. *)
Record process_started (owned plive : gset Z) (k : Kernel) (elf : ElfFile) (k' : Kernel) (p : Z)
    (pb : ProcessControlBlock) (t : Z) (tb : TaskControlBlock) : Prop := {
  ps_new : pcbs k !! p = None ∧ tcbs (sched k) !! t = None;
  ps_pcb : pcbs k' !! p = Some pb;
  ps_others : ∀ q, q ≠ p → pcbs k' !! q = pcbs k !! q;
  ps_fields : pid pb ∉ plive ∧ parent pb = None ∧ children pb = [] ∧ is_zombie pb = false ∧ signals pb = 0 ∧
     fd_table pb = [Some FStdin; Some FStdout; Some FStdout] ∧ tasks pb = [Some t];
  ps_tcb : tcbs (sched k') !! t = Some tb;
  ps_thread : process tb = p ∧ res tb = Some {| tid := 0; ustack_base := (last_end (loads elf) + 1) * PAGE_SIZE |} ∧
     task_cx tb = goto_trap_return trap_return (get_top (kstack tb)) ∧ task_status tb = Ready;
  ps_ready : ready_queue (sched k') = ready_queue (sched k) ++ [t] ∧ cur (sched k') = cur (sched k);
  ps_table : pid2pcb k' = <[pid pb := p]> (pid2pcb k) ∧ borrowed k' = borrowed k;
  ps_segments : ∀ ph i, ph ∈ loads elf → 0 <= i < (seg_hi ph - seg_lo ph) * PAGE_SIZE →
     let va := seg_lo ph * PAGE_SIZE + i in
     ∃ f, mapping (mem (mm k')) (page_table (memory_set pb)) (floor va) = Some (f, Z.lor (elf_perm ph) PTE_V) ∧ f ∉ owned ∧
       get_byte (mem (mm k')) f (page_offset va) = default 0 (seg_data elf ph !! Z.to_nat i);
  ps_stack : ∀ v, last_end (loads elf) + 1 <= v < last_end (loads elf) + 3 →
     ∃ f, mapping (mem (mm k')) (page_table (memory_set pb)) v = Some (f, Z.lor perm_ustack PTE_V) ∧ f ∉ owned ∧
       page_of (mem (mm k')) f = ∅;
  ps_trap : mapping (mem (mm k')) (page_table (memory_set pb)) (2 ^ 27 - 2) = Some (trap_cx_ppn tb, Z.lor perm_trap_cx PTE_V) ∧
     trap_cx_ppn tb ∉ owned ∧
     ∀ j w, trap_cx_words (app_init_context sstatus (elf_entry elf) ((last_end (loads elf) + 3) * PAGE_SIZE)
       (ms_token (kernel_space k)) (get_top (kstack tb)) trap_handler) !! j = Some w →
       get_word (mem (mm k')) (trap_cx_ppn tb) (Z.of_nat j) = w;
  ps_frame : ∀ x, x ∈ owned → x ∉ frames (page_table (kernel_space k)) → page_of (mem (mm k')) x = page_of (mem (mm k)) x
}.

Lemma page_of_write_words ws : ∀ m p i x, x ≠ p → page_of (write_words m p i ws) x = page_of m x.
Proof.
  induction ws as [|w ws IH]; intros m p i x Hx; [done|]. cbn [write_words]. rewrite IH by done.
  by apply page_of_set_word_ne.
Qed.

Lemma get_word_write_words_lt ws : ∀ m p i k, k < i → get_word (write_words m p i ws) p k = get_word m p k.
Proof.
  induction ws as [|w ws IH]; intros m p i k Hk; [done|]. cbn [write_words]. rewrite IH by lia.
  unfold get_word, set_word. rewrite page_of_insert, lookup_insert_ne by lia. done.
Qed.

Lemma get_word_write_words ws : ∀ m p i j w, ws !! j = Some w → get_word (write_words m p i ws) p (i + Z.of_nat j) = w.
Proof.
  induction ws as [|w ws IH]; intros m p i [|j] w' Hj; [done|done| |]; cbn [write_words].
  - injection Hj as ->. rewrite Z.add_0_r, get_word_write_words_lt by lia. apply get_set_word.
  - replace (i + Z.of_nat (S j)) with (i + 1 + Z.of_nat j) by lia. by apply IH.
Qed.

(** The memory of the program once its stack, its trap context and the kernel
    stack are mapped and [ws] has been written to the trap context [g]. *)
Section memory.
Context (lo : Z) (owned : gset Z) (s : MM) (elf : ElfFile) (ms1 : MemorySet) (owned1 : gset Z) (s1 : MM).
Context (Hl : loaded lo owned s elf strampoline (loads elf) ms1 owned1 s1).
Context (ks : MemorySet) (Hks : ms_inv lo owned s ks).
Context (r : TaskUserRes) (a1 a2 : MapArea) (g : Z) (ids : RecycleAllocator) (P1 : Z → Prop) (owned2 : gset Z) (x1 : Space).
Context (Hra : res_areas r a1 a2) (Hg : data_frames a2 !! trap_cx_page r = Some g).
Context (G1 : grown lo owned1 {| sp_mm := s1; sp_ms := ms1; sp_ids := ids |} [a1; a2] P1 9 owned2 x1).
Context (kid : RecycleAllocator) (a : MapArea) (P2 : Z → Prop) (owned3 : gset Z) (x : Space).
Context (G2 : grown lo owned2 {| sp_mm := sp_mm x1; sp_ms := ks; sp_ids := kid |} [a] P2 6 owned3 x) (ws : list Z).

Let pt := page_table (sp_ms x1).
Let m' := write_words (mem (sp_mm x)) g 0 ws.

Lemma start_old f : f ∈ owned → f ∈ owned1 ∧ f ∈ owned2 ∧ f ∉ frames pt ∧ f ≠ g.
Proof.
  intros Hf. assert (f ∈ owned1) as H1 by (apply (ld_owned _ _ _ _ _ _ _ _ _ Hl); by left).
  split_and!; [done|apply (gr_owned _ _ _ _ _ _ _ _ G1); by left| |].
  - intros Hp. apply (gr_new_tables _ _ _ _ _ _ _ _ G1) in Hp; [|done].
    apply (ld_fresh _ _ _ _ _ _ _ _ _ Hl f); [by left|done].
  - intros ->. destruct (gr_fresh _ _ _ _ _ _ _ _ G1 a2 _ g ltac:(by right; left) Hg) as [Hn _]. done.
Qed.

Lemma start_kernel f : f ∈ frames (page_table ks) → f ∈ owned.
Proof. intros Hf. eapply ms_holds_owned; [exact Hks|by left]. Qed.

(** A frame of the program is as it was before the kernel stack. *)
Lemma start_page f : f ∈ owned2 → f ∉ owned → f ≠ g → page_of m' f = page_of (mem (sp_mm x1)) f.
Proof.
  intros H2 Hn Hne. unfold m'. rewrite page_of_write_words by done. apply (gr_pages _ _ _ _ _ _ _ _ G2); [done|].
  intros Hk. by apply Hn, start_kernel.
Qed.

Lemma start_area b v f : b ∈ areas (sp_ms x1) → map_type b = Framed → data_frames b !! v = Some f →
  f ∈ owned2 ∧ f ∉ frames pt ∧ mapping (mem (sp_mm x1)) pt v = Some (f, Z.lor (map_perm b) PTE_V).
Proof.
  intros Hb Hty Hf. pose proof (mi_ok _ _ _ _ (gr_inv _ _ _ _ _ _ _ _ G1) b Hb) as Hok. unfold area_ok in Hok.
  rewrite Hty in Hok. by apply Hok.
Qed.

Lemma start_areas b : b ∈ areas ms1 ∨ b = a1 ∨ b = a2 → b ∈ areas (sp_ms x1).
Proof.
  intros Hb. rewrite (gr_areas _ _ _ _ _ _ _ _ G1). apply elem_of_app. destruct Hb as [?|[->| ->]]; [by left|..]; right; [by left|by right; left].
Qed.

Lemma start_mapping v : mapping m' pt v = mapping (mem (sp_mm x1)) pt v.
Proof.
  apply mapping_agree; [apply (mi_pt _ _ _ _ (gr_inv _ _ _ _ _ _ _ _ G1))|]. intros f Hf. apply start_page.
  - apply (gr_owned _ _ _ _ _ _ _ _ G1). by right; left.
  - intros Ho. by destruct (start_old f Ho) as (_ & _ & ? & _).
  - intros ->. by destruct (start_area a2 _ g (start_areas a2 ltac:(by right; right)) (proj1 (proj2 Hra)) Hg) as (_ & ? & _).
Qed.

Lemma start_segment ph v : ph ∈ loads elf → 0 <= v < 2 ^ 27 → seg_lo ph <= v < seg_hi ph → ¬ P1 v →
  ∃ f, mapping m' pt v = Some (f, Z.lor (elf_perm ph) PTE_V) ∧ f ∉ owned ∧
    ∀ k, 0 <= k < PAGE_SIZE → get_byte m' f k = seg_byte elf ph v k.
Proof.
  intros Hph Hr Hv HP. destruct (ld_segs _ _ _ _ _ _ _ _ _ Hl ph v Hph Hv) as (f & Hm & Hh & Hnf & Hb).
  pose proof (ld_fresh _ _ _ _ _ _ _ _ _ Hl f Hh) as Hn.
  assert (f ∈ owned1) as H1 by (apply (ld_owned _ _ _ _ _ _ _ _ _ Hl); by right).
  exists f. split_and!; [|done|].
  - rewrite start_mapping, <- Hm. by apply (gr_mapping _ _ _ _ _ _ _ _ G1).
  - intros k Hk. rewrite <- (Hb k Hk). unfold get_byte. rewrite start_page; [|apply (gr_owned _ _ _ _ _ _ _ _ G1); by left|done|].
    + by rewrite (gr_pages _ _ _ _ _ _ _ _ G1).
    + intros ->. destruct (gr_fresh _ _ _ _ _ _ _ _ G1 a2 _ g ltac:(by right; left) Hg) as [? _]. done.
Qed.

Lemma start_stack v : ustack_lo r <= v < ustack_lo r + 2 → ∃ f, mapping m' pt v = Some (f, Z.lor perm_ustack PTE_V) ∧ f ∉ owned ∧
  page_of m' f = ∅.
Proof.
  intros Hv. destruct Hra as [(Hty & Hp & Hrg) (_ & _ & Hrg2)].
  pose proof (start_areas a1 ltac:(by right; left)) as Ha1. pose proof (start_areas a2 ltac:(by right; right)) as Ha2.
  pose proof (mi_ok _ _ _ _ (gr_inv _ _ _ _ _ _ _ _ G1) a1 Ha1) as Hok. unfold area_ok in Hok. rewrite Hty in Hok. destruct Hok as [Hdom _].
  destruct (proj2 (Hdom v)) as [f Hf].
  { rewrite elem_of_area_pages by (by apply (mi_wf _ _ _ _ (gr_inv _ _ _ _ _ _ _ _ G1))). rewrite Hrg. done. }
  destruct (start_area a1 v f Ha1 Hty Hf) as (H2 & Hnf & Hm). destruct (gr_fresh _ _ _ _ _ _ _ _ G1 a1 v f ltac:(by left) Hf) as [Hn Hz].
  assert (f ∉ owned) as Hno by (intros Ho; by destruct (start_old f Ho)).
  exists f. split_and!; [by rewrite start_mapping, Hm, Hp|done|]. rewrite start_page; [done|done|done|].
  intros ->. apply list_elem_of_lookup in Ha1 as [i Hi], Ha2 as [j Hj].
  destruct (mi_inj _ _ _ _ (gr_inv _ _ _ _ _ _ _ _ G1) i j a1 a2 v (trap_cx_page r) g Hi Hj Hf Hg) as [-> _].
  assert (a1 = a2) as E by congruence. rewrite E, Hrg2 in Hrg. injection Hrg as E1 E2. lia.
Qed.

Lemma start_trap : mapping m' pt (trap_cx_page r) = Some (g, Z.lor perm_trap_cx PTE_V) ∧ g ∉ owned ∧
  ∀ j w, ws !! j = Some w → get_word m' g (Z.of_nat j) = w.
Proof.
  destruct (start_area a2 _ g (start_areas a2 ltac:(by right; right)) (proj1 (proj2 Hra)) Hg) as (_ & _ & Hm).
  split_and!.
  - by rewrite start_mapping, Hm, (proj1 (proj2 (proj2 Hra))).
  - intros Ho. by destruct (start_old g Ho) as (_ & _ & _ & ?).
  - intros j w Hj. unfold m'. rewrite <- (Z.add_0_l (Z.of_nat j)). by apply get_word_write_words.
Qed.

Lemma start_others y : y ∈ owned → y ∉ frames (page_table ks) → page_of m' y = page_of (mem s) y.
Proof.
  intros Hy Hn. destruct (start_old y Hy) as (H1 & H2 & Hp & Hne). unfold m'. rewrite page_of_write_words by done.
  rewrite (gr_pages _ _ _ _ _ _ _ _ G2) by done. rewrite <- (ld_pages _ _ _ _ _ _ _ _ _ Hl y Hy).
  apply (gr_pages _ _ _ _ _ _ _ _ G1); [done|]. intros Hf. apply Hp. by apply (gr_tables _ _ _ _ _ _ _ _ G1).
Qed.

Lemma start_memory :
  (∀ ph v, ph ∈ loads elf → 0 <= v < 2 ^ 27 → seg_lo ph <= v < seg_hi ph → ¬ P1 v →
     ∃ f, mapping m' pt v = Some (f, Z.lor (elf_perm ph) PTE_V) ∧ f ∉ owned ∧
       ∀ k, 0 <= k < PAGE_SIZE → get_byte m' f k = seg_byte elf ph v k) ∧
  (∀ v, ustack_lo r <= v < ustack_lo r + 2 → ∃ f, mapping m' pt v = Some (f, Z.lor perm_ustack PTE_V) ∧ f ∉ owned ∧ page_of m' f = ∅) ∧
  (mapping m' pt (trap_cx_page r) = Some (g, Z.lor perm_trap_cx PTE_V) ∧ g ∉ owned ∧
     ∀ j w, ws !! j = Some w → get_word m' g (Z.of_nat j) = w) ∧
  ∀ y, y ∈ owned → y ∉ frames (page_table ks) → page_of m' y = page_of (mem s) y.
Proof. split; [exact start_segment|]. split; [exact start_stack|]. split; [exact start_trap|exact start_others]. Qed.
End memory.

(** What [ProcessControlBlock::new] does once the thread exists. *)
Lemma wp_process_tail k c t pb tb r pid entry (Q : Z → Kernel → Prop) :
  pcbs k !! c = Some pb → c ∉ borrowed k → tcbs (sched k) !! t = Some tb → res tb = Some r →
  (∀ k', mm k' = upd_mem (write_trap_cx (trap_cx_ppn tb)
        (app_init_context sstatus entry (ustack_top r) (ms_token (kernel_space k)) (get_top (kstack tb)) trap_handler)) (mm k) →
     pcbs k' = <[c := set_tasks (tasks pb ++ [Some t]) pb]> (pcbs k) → tcbs (sched k') = tcbs (sched k) →
     ready_queue (sched k') = ready_queue (sched k) ++ [t] → cur (sched k') = cur (sched k) →
     pid2pcb k' = <[pid := c]> (pid2pcb k) → borrowed k' = borrowed k → Q c k') →
  wp (b ← tcb_of t; res ← unwrap (res b); satp ← kernel_token;
      _ ← write_mem (write_trap_cx (trap_cx_ppn b)
            (app_init_context sstatus entry (ustack_top res) satp (get_top (kstack b)) trap_handler));
      _ ← access c (λ b, set_tasks (vec_push (tasks b) (Some t)) b);
      _ ← insert_into_pid2process pid c;
      _ ← on_sched (add_task t);
      mret c) Q k.
Proof.
  intros Hc Hnb Ht Hr HQ. wp_steps. eapply wp_tcb_of; [done|]. wp_steps. eapply wp_unwrap; [done|].
  unfold kernel_token, write_mem, insert_into_pid2process. wp_steps. apply wp_on_mm. wp_steps.
  eapply wp_access; [done|done|]. wp_steps. apply wp_zoom. unfold add_task. wp_steps. apply HQ; try done.
  simpl. apply map_eq. intros q. destruct (decide (q = c)) as [->|Hne].
  - by rewrite lookup_alter_eq, Hc, lookup_insert_eq.
  - by rewrite lookup_alter_ne, lookup_insert_ne.
Qed.

(** Where the stack and the trap context of the first thread are. *)
Lemma stack_pages elf : elf_ok elf → last_end (loads elf) + 6 <= 2 ^ 27 →
  let base := (last_end (loads elf) + 1) * PAGE_SIZE in let r := {| tid := 0; ustack_base := base |} in
  fits base 1 ∧ ustack_lo r = last_end (loads elf) + 1 ∧ trap_cx_page r = 2 ^ 27 - 2 ∧ ustack_top r = (last_end (loads elf) + 3) * PAGE_SIZE.
Proof.
  intros He Hr base r. pose proof (last_end_range elf He) as Hle.
  assert (fits base 1) as Hfits.
  { unfold base. split_and!; [unfold PAGE_SIZE; lia|apply Z.mod_mul; done|]. unfold USER_STACK_SIZE, PAGE_SIZE. lia. }
  destruct (res_addresses base 1 0 Hfits ltac:(lia)) as (b & Hb & _ & _ & _ & H1 & _ & H3 & _).
  split; [done|]. unfold ustack_lo, trap_cx_page, r. cbn [tid ustack_base]. rewrite H1, H3, !floor_page. unfold base, PAGE_SIZE in Hb.
  split_and!; [lia|lia|]. unfold ustack_top, ustack_bottom_from_tid, base, USER_STACK_SIZE, PAGE_SIZE. cbn [tid ustack_base].
  rewrite Z.mul_0_l. change (wrap64 0) with 0. rewrite Z.add_0_r, (wrap_small _ ((last_end (loads elf) + 1) * 4096)) by lia.
  rewrite wrap_small by lia. lia.
Qed.

(** Byte [i] of a segment is in page [i / PAGE_SIZE] of it. *)
Lemma seg_address ph i : 0 <= i < (seg_hi ph - seg_lo ph) * PAGE_SIZE →
  floor (seg_lo ph * PAGE_SIZE + i) = seg_lo ph + i / PAGE_SIZE ∧ page_offset (seg_lo ph * PAGE_SIZE + i) = i mod PAGE_SIZE ∧
  seg_lo ph <= seg_lo ph + i / PAGE_SIZE < seg_hi ph.
Proof. intros Hi. rewrite page_offset_mod. unfold floor, PAGE_SIZE in *. split_and!; zdiv. Qed.

(** The pieces put together. *)
Lemma started_assembled lo owned plive klive k elf k' c t pidc ms1 owned1 s1 a1 a2 g x1 owned2 kid a P2 x owned3 :
  let base := (last_end (loads elf) + 1) * PAGE_SIZE in
  let r := {| tid := 0; ustack_base := base |} in
  let ids1 := {| rc_current := 1; rc_recycled := [] |} in
  let pb := set_tasks [Some t] (set_space (sp_ms x1) ids1 (pcb_init pidc ms1 None [Some FStdin; Some FStdout; Some FStdout])) in
  let tb := {| process := c; kstack := kid; res := Some r; trap_cx_ppn := g;
               task_cx := goto_trap_return trap_return (get_top kid); task_status := Ready; exit_code := None |} in
  start_ready lo owned plive klive k elf → pidc ∉ plive → pcbs k !! c = None ∧ tcbs (sched k) !! t = None →
  loaded lo owned (mm k) elf strampoline (loads elf) ms1 owned1 s1 → res_areas r a1 a2 → data_frames a2 !! trap_cx_page r = Some g →
  grown lo owned1 {| sp_mm := s1; sp_ms := ms1; sp_ids := ids1 |} [a1; a2]
    (λ v, (False ∨ ustack_lo r <= v < ustack_lo r + 2) ∨ trap_cx_page r <= v < trap_cx_page r + 1) 9 owned2 x1 →
  grown lo owned2 {| sp_mm := sp_mm x1; sp_ms := kernel_space k; sp_ids := sp_ids x |} [a] P2 6 owned3 x →
  mm k' = upd_mem (write_trap_cx g (app_init_context sstatus (elf_entry elf) (ustack_top r) (ms_token (sp_ms x)) (get_top kid) trap_handler)) (sp_mm x) →
  pcbs k' = <[c := pb]> (pcbs k) → tcbs (sched k') = <[t := tb]> (tcbs (sched k)) →
  ready_queue (sched k') = ready_queue (sched k) ++ [t] → cur (sched k') = cur (sched k) →
  pid2pcb k' = <[pidc := c]> (pid2pcb k) → borrowed k' = borrowed k →
  process_started owned plive k elf k' c pb t tb.
Proof.
  intros base r ids1 pb tb [_ S2 [S3 S3'] _ _ S6 _ _ _ _ _ _ _] Hpid Hnew Hl Hra Hg G1 G2 F1 F2 F3 F4 F5 F6 F7.
  destruct (stack_pages elf S2 S3') as (Hfits & Hlo & Htp & Htop). fold base r in Hfits, Hlo, Htp, Htop.
  assert (ms_token (sp_ms x) = ms_token (kernel_space k)) as Htok.
  { unfold ms_token, token. by rewrite (gr_root _ _ _ _ _ _ _ _ G2). }
  pose (ws := trap_cx_words (app_init_context sstatus (elf_entry elf) ((last_end (loads elf) + 3) * PAGE_SIZE)
    (ms_token (kernel_space k)) (get_top kid) trap_handler)).
  assert (mem (mm k') = write_words (mem (sp_mm x)) g 0 ws) as Hm by (rewrite F1, Htok, Htop; reflexivity).
  destruct (start_memory lo owned (mm k) elf ms1 owned1 s1 Hl (kernel_space k) S6 r a1 a2 g ids1 _ owned2 x1 Hra Hg G1
    (sp_ids x) a P2 owned3 x G2 ws) as (M1 & M2 & M3 & M4).
  split; [exact Hnew|rewrite F2; apply lookup_insert_eq|intros q Hq; rewrite F2; by apply lookup_insert_ne|
    exact (conj Hpid (conj eq_refl (conj eq_refl (conj eq_refl (conj eq_refl (conj eq_refl eq_refl))))))|
    rewrite F3; apply lookup_insert_eq|exact (conj eq_refl (conj eq_refl (conj eq_refl eq_refl)))|exact (conj F4 F5)|exact (conj F6 F7)|
    |intros v Hv; rewrite Hm; apply M2; rewrite Hlo; lia|rewrite Hm, <- Htp; exact M3|rewrite Hm; exact M4].
  rewrite Hm. intros ph i Hph Hi va. destruct (seg_range elf ph (eo_segs _ S2 ph Hph)) as (R & _). specialize (S3 ph Hph).
  destruct (seg_address ph i Hi) as (Hfl & Hpo & Hv). fold va in Hfl, Hpo. rewrite Hfl, Hpo.
  destruct (M1 ph (seg_lo ph + i / PAGE_SIZE) Hph) as (f & Hf & Hn & Hb); [lia|done|rewrite Hlo, Htp; lia|].
  exists f. split_and!; [exact Hf|done|]. rewrite Hb by (unfold PAGE_SIZE; zdiv). unfold seg_byte. do 3 f_equal.
  unfold PAGE_SIZE. zdiv.
Qed.

Lemma wp_process_new lo owned plive klive k elf : start_ready lo owned plive klive k elf →
  wp (ProcessControlBlock_new trap_return trap_handler strampoline sstatus (Some elf))
    (λ p k', ∃ pb t tb, process_started owned plive k elf k' p pb t tb) k.
Proof.
  intros HS. pose proof HS as [S1 S2 [S3 S3'] S4 S5 S6 S7 S8 S9 S10 S11 S12 S13]. unfold ProcessControlBlock_new. wp_steps. apply wp_on_mm.
  eapply wp_mono; [apply (wp_from_elf lo owned); [done|done|done|lia]|].
  intros r s1 (ms1 & owned1 & -> & Hl). wp_steps. apply wp_zoom.
  eapply wp_rc_alloc; [exact S11|exact S12|]. intros pidc ids' Hpids Hpid _ _ _. unfold new_obj. wp_steps.
  cbn [upd_pids upd_borrowed upd_mm next_obj pid2pcb pcbs]. set (c := next_obj k).
  destruct (S13 c ltac:(unfold c; lia)) as (Hc1 & Hc2 & Hc3).
  destruct (stack_pages elf S2 S3') as (Hfits & Hlo & Htp & _). pose proof (last_end_range elf S2) as Hle.
  set (base := (last_end (loads elf) + 1) * PAGE_SIZE) in *. set (rr := {| tid := 0; ustack_base := base |}) in *.
  pose proof (seg_pages_nonneg elf (loads elf) (eo_segs _ S2)) as Hnn.
  assert (∀ ph, ph ∈ loads elf → 0 <= seg_lo ph ∧ seg_hi ph <= last_end (loads elf)) as Hseg.
  { intros ph Hph. destruct (seg_range elf ph (eo_segs _ S2 ph Hph)) as (? & _). split; [lia|by apply S3]. }
  assert (∀ x, x ∈ frames (page_table (kernel_space k)) → x ∈ owned) as Hko by (intros x Hx; eapply ms_holds_owned; [exact S6|by left]).
  assert (∀ x, x ∈ frames (page_table (kernel_space k)) → page_of (mem s1) x = page_of (mem (mm k)) x) as Hkp.
  { intros x Hx. apply (ld_pages _ _ _ _ _ _ _ _ _ Hl). by apply Hko. }
  match goal with |- wp _ _ ?K => set (k2 := K) end.
  eapply (wp_first_thread lo owned1 klive k2 c (pcb_init pidc ms1 None [Some FStdin; Some FStdout; Some FStdout]) base).
  { unfold k2. simpl. by rewrite lookup_insert_eq. }
  { done. } { done. } { done. }
  { exact (ld_inv _ _ _ _ _ _ _ _ _ Hl). }
  { intros a Ha. by apply (ld_areas _ _ _ _ _ _ _ _ _ Hl a Ha). }
  { fold rr. rewrite Hlo, Htp. intros v Hv. apply (ld_unmapped _ _ _ _ _ _ _ _ _ Hl).
    - lia.
    - change TRAMPOLINE_VPN with (2 ^ 27 - 1). lia.
    - intros ph Hph ?. destruct (Hseg ph Hph). lia. }
  { eapply ms_inv_frame; [exact S6|apply (ld_inv _ _ _ _ _ _ _ _ _ Hl)| |exact Hkp].
    intros x Hx. apply (ld_owned _ _ _ _ _ _ _ _ _ Hl). left. by eapply ms_holds_owned. }
  { done. }
  { intros f Hf Hf'. apply (ld_fresh _ _ _ _ _ _ _ _ _ Hl f); [by left|by apply Hko]. }
  { exact S8. } { exact S9. }
  { pose proof (ld_free _ _ _ _ _ _ _ _ _ Hl). change (15 <= nfree (fa s1)). lia. }
  { intros id v Hid Hnl Hv. rewrite <- (S10 id v Hid Hnl Hv). by apply mapping_agree; [apply (mi_pt _ _ _ _ S6)|]. }
  fold rr. intros a1 a2 g x1 owned2 kid a x owned3 Hra Hg G1 Hkid G2. cbv zeta. intros k3 E1 E2 E3 E4 E5 E6.
  set (t := next_obj k2) in *. assert (t = next_obj k + 1) as Ht by done.
  destruct (S13 t ltac:(lia)) as (Ht1 & Ht2 & Ht3).
  eapply wp_process_tail; [by rewrite E4, lookup_insert_eq|by rewrite E6|by rewrite E3; simpl; rewrite lookup_insert_eq|done|].
  cbn [trap_cx_ppn kstack]. intros k4 F1 F2 F3 F4 F5 F6 F7. eexists _, t, _.
  eapply (started_assembled lo owned plive klive k elf k4 c t pidc ms1 owned1 s1 a1 a2 g x1 owned2 kid a _ x owned3 HS Hpid
    (conj Hc1 Ht2) Hl Hra Hg G1 G2).
  - rewrite F1, E1, E2. reflexivity.
  - rewrite F2, E4. unfold k2. cbn [pcbs upd_pcbs upd_next]. rewrite !insert_insert_eq. reflexivity.
  - rewrite F3, E3. reflexivity.
  - rewrite F4, E3. reflexivity.
  - rewrite F5, E3. reflexivity.
  - rewrite F6, E5. reflexivity.
  - rewrite F7, E6. reflexivity.
Qed.
End start.

(** ** The first process *)

(** ["initproc"]. *)
Definition initproc_name : list Z := [105; 110; 105; 116; 112; 114; 111; 99].

Definition upd_initproc (p : Z) (k : Kernel) : Kernel :=
  {| mm := mm k; kernel_space := kernel_space k; kstack_ids := kstack_ids k; pid_ids := pid_ids k;
     sched := sched k; pcbs := pcbs k; pid2pcb := pid2pcb k; borrowed := borrowed k; parked := parked k;
     stack_refs := stack_refs k; next_obj := next_obj k; initproc := p |}.

(** [mm::init] and [remap_test]: [KERNEL_SPACE] gets its value. *)
Definition set_kernel_space (layout : KernelLayout) : M Kernel unit :=
  ms ← on_mm (memory_up layout);
  modify (λ k, upd_kspace {| sp_mm := mm k; sp_ms := ms; sp_ids := kstack_ids k |} k).

Section initproc.
Context {St H : Type} `{HS : BlockStore St}.
Context (fuel : nat) (elf : list Z → option ElfFile) (trap_return trap_handler strampoline sstatus : Z).
Abbreviation W := (World St H).

(** The lazy statics [ROOT_INODE] and [INITPROC] are computed where they are first
    used: the file system is opened by [list_apps], and the first process is made
    by [add_initproc].  The model keeps the open file system, of which the root
    inode is computed.  The device is initialised already: the frames that
    [VirtIOBlock::new] takes for its queues are not part of this run. *)
Definition ROOT_INODE : M W EasyFileSystem := on_store open.

(** The names that are printed, one per line. *)
Definition list_apps (efs : EasyFileSystem) : M W (list (list Z)) := on_store (ls (root_inode efs)).

Definition INITPROC (efs : EasyFileSystem) : M W Z :=
  o ← on_store (open_file efs initproc_name RDONLY);
  inode ← unwrap o;
  r ← on_store (read_all fuel inode);
  '(v, _) ← (match r with Some x => mret x | None => panic_with PFuel end);
  on_kernel (ProcessControlBlock_new trap_return trap_handler strampoline sstatus (elf v)).
Definition add_initproc (efs : EasyFileSystem) : M W unit :=
  p ← INITPROC efs;
  on_kernel (modify (upd_initproc p)).

(** [rust_main] after the kernel space is up. *)
Definition rust_main_apps : M W (list (list Z)) :=
  efs ← ROOT_INODE;
  names ← list_apps efs;
  _ ← add_initproc efs;
  mret names.

(** [rust_main] up to [run_tasks], with the names that it prints.  Clearing the
    bss, the trap vector and the timer are not part of the state. *)
Definition rust_main (layout : KernelLayout) : M W (list (list Z)) :=
  _ ← on_kernel (set_kernel_space layout);
  rust_main_apps.

Abbreviation reading := (efs ← open; names ← ls (root_inode efs); o ← open_file efs initproc_name RDONLY; f ← unwrap o;
  r ← read_all fuel f; mret (names, r)).

(** The file system is only read: what the same calls give on the store alone
    decides. *)
Lemma wp_main_apps_store apps data w (Q : list (list Z) → W → Prop) :
  wp reading (λ x _, x.1 = apps ∧ fst <$> x.2 = Some data) (store (wf w)) →
  (∀ s', wp (p ← on_kernel (ProcessControlBlock_new trap_return trap_handler strampoline sstatus (elf data));
             _ ← on_kernel (modify (upd_initproc p)); mret apps) Q (upd_wf (upd_store s' (wf w)) w)) →
  wp rust_main_apps Q w.
Proof.
  intros Hread HQ. unfold rust_main_apps, list_apps, add_initproc, INITPROC, ROOT_INODE, on_store, zoom, wp, mbind, M_bind, unwrap in *.
  destruct (open (store (wf w))) as [[efs s1]|]; [|done]. cbn [upd_wf upd_store wf store] in *.
  destruct (ls (root_inode efs) s1) as [[names s2]|]; [|done]. cbn [upd_wf upd_store wf store] in *.
  destruct (open_file efs initproc_name RDONLY s2) as [[[o|] s3]|]; [|done|done]. unfold mret, M_ret in *. cbn [upd_wf upd_store wf store] in *.
  destruct (read_all fuel o s3) as [[r s4]|]; [|done]. destruct Hread as [Hn Hd]. cbn [fst snd] in Hn, Hd. subst names.
  destruct r as [[v f]|]; [|done]. cbn in Hd. injection Hd as ->. specialize (HQ s4). cbn [upd_wf upd_store wf store] in *.
  destruct (on_kernel _ _) as [[p w1]|]; [|done]. exact HQ.
Qed.

Lemma wp_main_apps apps data e w lo owned plive klive :
  wp reading (λ x _, x.1 = apps ∧ fst <$> x.2 = Some data) (store (wf w)) →
  elf data = Some e → start_ready strampoline lo owned plive klive (wk w) e →
  wp rust_main_apps (λ r w', r = apps ∧ ∃ p pb t tb k', process_started trap_return trap_handler sstatus owned plive (wk w) e k' p pb t tb ∧
    wk w' = upd_initproc p k') w.
Proof.
  intros Hread Helf Hready. eapply wp_main_apps_store; [exact Hread|].
  intros s1. wp_steps. apply wp_zoom. rewrite Helf. cbn [wk upd_wf].
  eapply wp_mono; [by eapply wp_process_new|]. intros p k' (pb & t & tb & Hps). wp_steps. apply wp_zoom. wp_steps.
  split; [done|]. exists p, pb, t, tb, k'. done.
Qed.
End initproc.

(** ** From the first instruction of [rust_main] *)

(** The statics of the kernel before anything is put into them. *)
Record power_on (k : Kernel) : Prop := {
  po_kstacks : kstack_ids k = RecycleAllocator_new;
  po_pids : pid_ids k = RecycleAllocator_new;
  po_tasks : ready_queue (sched k) = [] ∧ tcbs (sched k) = ∅;
  po_processes : pcbs k = ∅ ∧ pid2pcb k = ∅ ∧ borrowed k = ∅
}.

(** The program and its tables fit behind the kernel and its tables. *)
Record program_fits (layout : KernelLayout) (e : ElfFile) : Prop := {
  pf_elf : elf_ok e;
  pf_room : (∀ ph, ph ∈ loads e → seg_hi ph <= last_end (loads e)) ∧ last_end (loads e) + 6 <= 2 ^ 27;
  pf_frames : 37 + 3 * seg_pages (loads e) <= MEMORY_END / PAGE_SIZE - ekernel layout / PAGE_SIZE
}.

(** The kernel [k] with its space [ms] on the memory [s]. *)
Abbreviation with_memory k ms s := (upd_kspace {| sp_mm := s; sp_ms := ms; sp_ids := kstack_ids k |} k).
Definition space_up (layout : KernelLayout) (m : gmap Z page) (owned : gset Z) (k : Kernel) : Prop :=
  kernel_mapped (ekernel layout / PAGE_SIZE) ∅ {| fa := init_frame_allocator (ekernel layout); mem := m |}
    (strampoline layout / PAGE_SIZE) (kernel_sections layout) (kernel_space k) owned (mm k).

Lemma wp_set_kernel_space layout k (Q : unit → Kernel → Prop) : linked layout →
  (∀ ms s owned, space_up layout (mem (mm k)) owned (with_memory k ms s) → Q tt (with_memory k ms s)) →
  wp (set_kernel_space layout) Q k.
Proof.
  intros Hl HQ. unfold set_kernel_space. wp_steps. apply wp_on_mm. eapply wp_mono; [by apply wp_memory_up|].
  intros ms s (owned & Hm). wp_steps. exact (HQ ms s owned Hm).
Qed.

(** The stacks of the kernel lie above everything that is mapped. *)
Lemma kstacks_unmapped layout m owned k id v : linked layout → space_up layout m owned k → 0 <= id < 2 ^ 25 →
  kstack_lo id <= v < kstack_hi id → mapping (mem (mm k)) (page_table (kernel_space k)) v = None.
Proof.
  intros Hl Hm Hid Hv. destruct (kstack_pages id Hid) as [Hlo Hhi]. assert (TRAMPOLINE_VPN = 2 ^ 27 - 1) as Htv by done.
  apply (km_unmapped _ _ _ _ _ _ _ _ Hm); [lia|lia|]. intros sec Hin ?. pose proof (sections_below layout sec Hl Hin). lia.
Qed.

Lemma space_up_ready layout m owned k e : linked layout → program_fits layout e → power_on k → space_up layout m owned k →
  start_ready (strampoline layout) (ekernel layout / PAGE_SIZE) owned ∅ ∅ k e.
Proof.
  intros Hl [F1 F2 F3] [P1 P2 [_ P3] (P4 & _ & P5)] Hm. pose proof Hl as [L1 L2 L3 L4 [L5 L5'] [L6 L6'] _]. unfold MEMORY_END, PAGE_SIZE in L5'.
  destruct (init_fa layout Hl) as (_ & Hn & _). destruct (sections_ok layout Hl) as (_ & _ & Htab).
  split; [apply Hm|done|done| | |apply Hm|apply Hm|rewrite P1; apply rc_new_ok|by rewrite P1| |rewrite P2; apply rc_new_ok|by rewrite P2|].
  - unfold aligned. rewrite page_offset_mod, PhysAddr_from_mod, (Z.mod_small _ (2 ^ 56)) by lia. by apply Z.eqb_eq.
  - pose proof (km_free _ _ _ _ _ _ _ _ Hm) as Hfree. cbn [fa] in Hfree. change (MEMORY_END / PAGE_SIZE) with 0x80800 in F3. lia.
  - intros id v Hid _. by eapply kstacks_unmapped.
  - intros x _. rewrite P4, P3, P5. split_and!; [apply lookup_empty|apply lookup_empty|apply not_elem_of_empty].
Qed.

(** Every kernel that is started with an empty cache on the device of [s] gets
    through [rust_main] and lists [apps]; its first process runs [e]. *)
Definition boots_on (H : Type) (fuel : nat) (elf : list Z → option ElfFile) (trap_return trap_handler sstatus : Z)
    (layout : KernelLayout) (e : ElfFile) (apps : list (list Z)) (s : CacheState File) : Prop :=
  ∀ w : World (CacheState File) H, store (wf w) = BlockCacheManager_new (device s) → power_on (wk w) →
    wp (rust_main fuel elf trap_return trap_handler (strampoline layout) sstatus layout)
      (λ r w', r = apps ∧ ∃ k owned p pb t tb k', space_up layout (mem (mm (wk w))) owned k ∧
         process_started trap_return trap_handler sstatus owned ∅ k e k' p pb t tb ∧
         ready_queue (sched k') = [t] ∧ wk w' = upd_initproc p k') w.

Lemma image_boots H apps data e fuel elf trap_return trap_handler sstatus layout s :
  wp (efs ← open; names ← ls (root_inode efs); o ← open_file efs initproc_name RDONLY; f ← unwrap o; r ← read_all fuel f; mret (names, r))
    (λ x _, x.1 = apps ∧ fst <$> x.2 = Some data) (BlockCacheManager_new (device s)) → elf data = Some e →
  linked layout → program_fits layout e →
  boots_on H fuel elf trap_return trap_handler sstatus layout e apps s.
Proof.
  intros Hread Helf Hl Hfit w Hst Hpo. rewrite <- Hst in Hread. unfold rust_main. apply wp_bind, wp_zoom, wp_set_kernel_space; [done|].
  intros ms s1 owned Hm. set (k1 := with_memory (wk w) ms s1) in *.
  assert (power_on k1) as Hpo1 by (destruct Hpo; by split).
  eapply wp_mono; [eapply (wp_main_apps fuel elf _ _ _ _ apps data e (upd_wk k1 w));
    [exact Hread|exact Helf|exact (space_up_ready layout _ owned k1 e Hl Hfit Hpo1 Hm)]|].
  intros r w' [-> (p & pb & t & tb & k' & Hps & Hw)]. split; [done|]. exists k1, owned, p, pb, t, tb, k'. split; [exact Hm|]. split; [exact Hps|].
  split; [|exact Hw]. rewrite (proj1 (ps_ready _ _ _ _ _ _ _ _ _ _ _ _ Hps)). change (wk (upd_wk k1 w)) with k1.
  by rewrite (proj1 (po_tasks _ Hpo1)).
Qed.

(** C2: From the host directory to the first process.  When [easy_fs_pack] has
    packed a directory whose applications include [initproc], the file holds an
    ELF image that fits behind the kernel, and the kernel is linked as the linker
    script says, every kernel that is started on that image with its block device
    initialised gets through
    [rust_main] up to [run_tasks] without a panic: the kernel space maps the
    kernel to itself, the names of the applications are printed, and the first
    process is made.  It has no parent, the three console descriptors and one
    thread, the only one in the ready queue; each byte of its segments is the byte
    of the image that the ELF parser found in the file, or zero past the end of
    the segment's data, its stack is zero, and its trap context makes it start at
    the entry point of the file with the stack pointer at the top of the stack
    and holds the kernel's page table, kernel stack and trap handler.  All of this
    is in frames that the tables of the kernel space do not use. *)
Theorem first_process_boots H old src_dir host items data e fuel elf trap_return trap_handler sstatus layout :
  (∀ f, old = Some f → map_Forall (λ _, is_byte) (file_data f)) → names_cut src_dir items →
  Forall (λ a, host a.1 = Some a.2) items → packable image_inodes image_area items →
  (initproc_name, data) ∈ items → elf data = Some e → (Z.to_nat ((lengthZ data + 511) / 512) < fuel)%nat →
  linked layout → program_fits layout e →
  wp (easy_fs_pack src_dir host) (λ _, boots_on H fuel elf trap_return trap_handler sstatus layout e (items.*1))
    (BlockCacheManager_new (image_file old)).
Proof.
  intros Hold Hc Hh Hpa Hin Helf Hfuel Hl Hfit. eapply wp_mono; [exact (wp_packed_image old src_dir host items Hold Hc Hh Hpa)|].
  intros r s' [_ Hread].
  exact (image_boots H (items.*1) data e fuel elf _ _ _ layout s' (Hread (initproc_name, data) fuel Hin Hfuel) Helf Hl Hfit).
Qed.

(** ** A kernel and a program *)

Definition boot_kernel : Kernel :=
  {| mm := {| fa := StackFrameAllocator_new; mem := ∅ |};
     kernel_space := {| page_table := {| root_ppn := 0; frames := [] |}; areas := [] |};
     kstack_ids := RecycleAllocator_new; pid_ids := RecycleAllocator_new;
     sched := {| ready_queue := []; cur := None; idle_task_cx := zero_init; cpu := zero_init; tcbs := ∅ |};
     pcbs := ∅; pid2pcb := ∅; borrowed := ∅; parked := []; stack_refs := []; next_obj := 0; initproc := 0 |}.

Lemma boot_power_on : power_on boot_kernel.
Proof. by split. Qed.

Lemma boot_fits : program_fits demo_layout demo_elf.
Proof.
  split.
  - apply demo_elf_ok.
  - change (loads demo_elf) with [demo_text; demo_data]. split; [|by vm_compute].
    intros ph [->|Hd%list_elem_of_singleton]%elem_of_cons; [|subst ph]; by vm_compute.
  - by vm_compute.
Qed.

Definition boot_world (s : CacheState File) : World (CacheState File) (list TimerCondVar) :=
  mkWorld boot_kernel {| mutexes := ∅; semaphores := ∅; condvars := ∅ |} [] (mkFiles s ∅ ∅ [] [] []) ∅.
Definition boot_items : list item := [(initproc_name, elf_input demo_elf); ([98; 99], [1; 2; 3])].
Definition boot_host (name : list Z) : option (list Z) :=
  if decide (name = initproc_name) then Some (elf_input demo_elf) else if decide (name = [98; 99]) then Some [1; 2; 3] else None.

Lemma boot_items_ok : Forall item_ok boot_items.
Proof.
  repeat (apply Forall_cons; split); [..|by apply Forall_nil]; (split; [split_and!|split_and!]); cbn [fst snd initproc_name elf_input demo_elf];
    try done; try (repeat constructor; unfold is_byte; lia); unfold lengthZ, NAME_LENGTH_LIMIT; unfold_layout; simpl; lia.
Qed.

Lemma first_process_boots_witness :
  wp (easy_fs_pack [initproc_name ++ [46; 114; 115]; [98; 99; 46; 114; 115]] boot_host) (λ _ s',
    wp (rust_main 2 (λ _, Some demo_elf) 0x80200100 0x80200200 (strampoline demo_layout) 0 demo_layout) (λ r w', r = [initproc_name; [98; 99]] ∧
        ∃ p pb t, initproc (wk w') = p ∧ pcbs (wk w') !! p = Some pb ∧ tasks pb = [Some t] ∧ ready_queue (sched (wk w')) = [t])
      (boot_world (BlockCacheManager_new (device s'))))
    (BlockCacheManager_new (image_file None)).
Proof.
  eapply wp_mono.
  - apply (first_process_boots (list TimerCondVar) None _ boot_host boot_items (elf_input demo_elf) demo_elf 2
      (λ _, Some demo_elf) 0x80200100 0x80200200 0 demo_layout).
    + done.
    + repeat constructor; exists [114; 115]; (split; [done|]); by apply (bool_decide_unpack _).
    + repeat constructor.
    + split.
      * by apply (bool_decide_unpack _).
      * exact boot_items_ok.
      * done.
      * unfold_layout. done.
      * done.
    + by left.
    + done.
    + by apply Nat.ltb_lt.
    + exact demo_linked.
    + exact boot_fits.
  - intros r s' Hb. eapply wp_mono; [exact (Hb (boot_world _) eq_refl boot_power_on)|].
    intros names w' [-> (k & owned & p & pb & t & tb & k' & _ & [_ Hpcb _ Hf _ _ _ _ _ _ _ _] & Hq & ->)]. split; [done|].
    exists p, pb, t. split; [done|]. split; [exact Hpcb|]. split; [apply Hf|exact Hq].
Defined.
