(* ===== verification/Descriptors.v ===== *)
(** * Descriptors

    What the calls on descriptors do, in terms of the partial map from descriptors
    to open files that the table of a process stands for. *)

From S2P Require Import Prelude Address FrameAllocator PageTable UserBuffer MemorySet Codec BlockDev BlockCache Bitmap Layout InodeTree Efs Vfs Dir OsInode Pipe Sched Timer TaskId Kernel Syscall World Process FileCalls.

(** ** The map of a descriptor table *)

Definition file_of (fds : list (option FileRef)) (fd : Z) : option FileRef := mjoin (lookupZ fds fd).

Definition lowest_free (fds : list (option FileRef)) (fd : Z) : Prop :=
  0 <= fd ∧ file_of fds fd = None ∧ ∀ j, 0 <= j < fd → is_Some (file_of fds j).

Lemma file_of_nat fds (i : nat) : file_of fds (Z.of_nat i) = mjoin (fds !! i).
Proof. unfold file_of. rewrite lookupZ_nat by lia. by rewrite Nat2Z.id. Qed.

Lemma upd_pcbs_id p k : upd_pcbs (alter id p) k = k.
Proof. destruct k. unfold upd_pcbs. simpl. f_equal. apply map_eq. intros q. destruct (decide (p = q)) as [->|];
  [rewrite lookup_alter_eq; by destruct (_ !! q)|by rewrite lookup_alter_ne]. Qed.

Lemma access_eq p f k b : pcbs k !! p = Some b → p ∉ borrowed k → access p f k = Ok (b, upd_pcbs (alter f p) k).
Proof.
  intros Hb Hp. unfold access, mbind, M_bind. rewrite (borrow_eq _ _ _ Hb Hp). unfold modify, release, mret, M_ret. simpl.
  do 2 f_equal. replace (({[p]} ∪ borrowed k) ∖ {[p]}) with (borrowed k) by set_solver. by destruct k.
Qed.

(** [alloc_fd] finds the lowest free descriptor, and the table read as a map does
    not change. *)
Lemma alloc_fd_lowest fds fd fds' : alloc_fd fds = (fd, fds') →
  lowest_free fds fd ∧ fd < lengthZ fds' ∧ ∀ j, file_of fds' j = file_of fds j.
Proof.
  unfold alloc_fd. destruct (find_index _ _) as [i|] eqn:Hi; intros [= <- <-].
  - apply find_index_Some in Hi as [(f & Hf & Hn) Hmin]. destruct f; [done|].
    split_and!; [split_and!|apply lookup_lt_Some in Hf; unfold lengthZ; lia|done]; [lia|by rewrite file_of_nat, Hf|].
    intros j Hj. unfold file_of. rewrite lookupZ_nat by lia.
    destruct (fds !! Z.to_nat j) as [[f|]|] eqn:E; [by eexists| |].
    + specialize (Hmin (Z.to_nat j) None ltac:(lia) E). done.
    + apply lookup_ge_None in E. apply lookup_lt_Some in Hf. lia.
  - assert (∀ j, lookupZ fds j ≠ Some None) as Hfull.
    { intros j Hj. pose proof (lookupZ_lt _ _ _ Hj). rewrite lookupZ_nat in Hj by lia.
      by specialize (proj1 (find_index_None _ _) Hi _ _ Hj). }
    unfold vec_push. split_and!; [split_and!| |].
    + unfold lengthZ. lia.
    + unfold file_of. destruct (lookupZ fds (lengthZ fds)) eqn:E; [apply lookupZ_lt in E; lia|done].
    + intros j Hj. destruct (lookupZ_is_Some fds j Hj) as [[f|] Hf]; [|by destruct (Hfull j)].
      unfold file_of. rewrite Hf. by eexists.
    + unfold lengthZ. rewrite length_app. simpl. lia.
    + intros j. unfold file_of. destruct (decide (j < lengthZ fds)).
      * destruct (decide (0 <= j)); [by rewrite lookupZ_app_l by lia|].
        unfold lookupZ. by destruct (Z.leb_spec 0 j); [lia|].
      * rewrite lookupZ_app_r by lia. destruct (lookupZ fds j) eqn:E; [apply lookupZ_lt in E; lia|].
        destruct (lookupZ [None] (j - lengthZ fds)) as [o|] eqn:E2; [|done].
        apply lookupZ_elem, list_elem_of_singleton in E2. by subst.
Qed.

Lemma file_of_insertZ fds i j o : 0 <= i < lengthZ fds →
  file_of (insertZ i o fds) j = if decide (j = i) then o else file_of fds j.
Proof. intros Hi. unfold file_of. rewrite lookupZ_insertZ by done. repeat case_decide; simplify_eq; done. Qed.

Lemma file_of_install fds fd fds' f : alloc_fd fds = (fd, fds') →
  ∀ j, file_of (insertZ fd (Some f) fds') j = if decide (j = fd) then Some f else file_of fds j.
Proof.
  intros E j. destruct (alloc_fd_lowest _ _ _ E) as (Hl & Hlt & Hsame). destruct Hl.
  rewrite file_of_insertZ by lia. by rewrite Hsame.
Qed.

(** ** The calls *)

(** Process [p] has the table [fds]. *)
Definition with_fds (p : Z) (fds : list (option FileRef)) (k : Kernel) : Kernel := upd_pcbs (alter (set_fds fds) p) k.

Lemma borrowed_step {A} p (f : ProcessControlBlock → ProcessControlBlock) k (a : A) : p ∉ borrowed k →
  (_ ← modify (upd_pcbs (alter f p)); _ ← release p; mret a) (upd_borrowed ({[p]} ∪ borrowed k) k) =
  Ok (a, upd_pcbs (alter f p) k).
Proof.
  intros Hp. unfold mbind, M_bind, modify, release, mret, M_ret. do 2 f_equal. simpl.
  replace (({[p]} ∪ borrowed k) ∖ {[p]}) with (borrowed k) by set_solver. by destruct k.
Qed.
Lemma borrowed_return {A} p k (a : A) : p ∉ borrowed k →
  (_ ← release p; mret a) (upd_borrowed ({[p]} ∪ borrowed k) k) = Ok (a, k).
Proof. intros Hp. unfold mbind, M_bind, release, modify, mret, M_ret. do 2 f_equal. by apply release_borrowed. Qed.

(** The calls that begin with a look at the table. *)
Lemma lookup_fd {A} (fd : Z) k t tb p pb (absent : Z → M Kernel A) (present : Z → ProcessControlBlock → FileRef → M Kernel A) :
  running k t tb p pb → 0 <= fd →
  (p ← current_process; inner ← borrow p;
   if lengthZ (fd_table inner) <=? fd then absent p
   else f ← index (fd_table inner) fd; match f with None => absent p | Some f => present p inner f end) k =
  match file_of (fd_table pb) fd with
  | Some f => present p pb f (upd_borrowed ({[p]} ∪ borrowed k) k)
  | None => absent p (upd_borrowed ({[p]} ∪ borrowed k) k)
  end.
Proof.
  intros Hr Hfd. erewrite bind_ok by by eapply current_process_eq. erewrite bind_ok by (eapply borrow_eq; apply Hr).
  unfold file_of. destruct (Z.leb_spec (lengthZ (fd_table pb)) fd).
  - destruct (lookupZ _ _) eqn:E; [apply lookupZ_lt in E; lia|done].
  - destruct (lookupZ_is_Some (fd_table pb) fd) as [o Ho]; [lia|]. unfold index. rewrite Ho. by destruct o.
Qed.

Lemma alter_fds k p pb g fds : pcbs k !! p = Some pb → g pb = set_fds fds pb →
  upd_pcbs (alter g p) k = with_fds p fds k.
Proof.
  intros Hp Hg. unfold with_fds, upd_pcbs. f_equal. apply alter_ext. intros b Hb. by simplify_eq.
Qed.

Lemma running_with_fds k t tb p pb fds : running k t tb p pb → running (with_fds p fds k) t tb p (set_fds fds pb).
Proof. intros [R1 R2 R3 R4 R5]. split; try done. simpl. by rewrite lookup_alter_eq, R4. Qed.

Lemma with_fds_same k p pb : pcbs k !! p = Some pb → with_fds p (fd_table pb) k = k.
Proof. intros Hp. rewrite <- (alter_fds k p pb id) by (by destruct pb || done). apply upd_pcbs_id. Qed.

Lemma with_fds_twice k p a b : with_fds p a (with_fds p b k) = with_fds p a k.
Proof.
  unfold with_fds, upd_pcbs. simpl. f_equal. apply map_eq. intros q. destruct (decide (p = q)) as [->|].
  - rewrite !lookup_alter_eq. by destruct (_ !! q).
  - by rewrite !lookup_alter_ne.
Qed.

Lemma close_eq k t tb p pb fd : running k t tb p pb → 0 <= fd →
  ∃ fds, sys_close fd k = Ok (match file_of (fd_table pb) fd with Some _ => 0 | None => -1 end, with_fds p fds k) ∧
    (file_of (fd_table pb) fd = None → with_fds p fds k = k) ∧
    ∀ j, file_of fds j = if decide (j = fd) then None else file_of (fd_table pb) j.
Proof.
  intros Hr Hfd. pose proof (ru_pcb _ _ _ _ _ Hr) as Hp. pose proof (ru_free _ _ _ _ _ Hr) as Hf.
  pose proof (lookup_fd fd k t tb p pb (λ p, _ ← release p; mret (-1))
    (λ p inner _, _ ← modify (upd_pcbs (alter (λ b, set_fds (insertZ fd None (fd_table b)) b) p)); _ ← release p; mret 0) Hr Hfd) as Hc.
  destruct (file_of (fd_table pb) fd) as [f|] eqn:E.
  - exists (insertZ fd None (fd_table pb)). split_and!; [|done|].
    + unfold sys_close. etrans; [exact Hc|]. rewrite borrowed_step by done.
      by rewrite (alter_fds k p pb (λ b, set_fds (insertZ fd None (fd_table b)) b) _ Hp eq_refl).
    + intros j. apply file_of_insertZ. split; [done|]. unfold file_of in E.
      destruct (lookupZ (fd_table pb) fd) eqn:El; [|done]. apply lookupZ_lt in El. lia.
  - rewrite borrowed_return in Hc by done. exists (fd_table pb). rewrite (with_fds_same _ _ _ Hp).
    split_and!; [exact Hc|done|]. intros j. case_decide; [by subst|done].
Qed.

Lemma dup_eq k t tb p pb fd : running k t tb p pb → 0 <= fd →
  match file_of (fd_table pb) fd with
  | None => sys_dup fd k = Ok (-1, k)
  | Some f => ∃ new fds, sys_dup fd k = Ok (new, with_fds p fds k) ∧ lowest_free (fd_table pb) new ∧
      ∀ j, file_of fds j = if decide (j = new) then Some f else file_of (fd_table pb) j
  end.
Proof.
  intros Hr Hfd. pose proof (ru_pcb _ _ _ _ _ Hr) as Hp. pose proof (ru_free _ _ _ _ _ Hr) as Hf.
  pose proof (lookup_fd fd k t tb p pb (λ p, _ ← release p; mret (-1))
    (λ p inner file, let '(new_fd, fds) := alloc_fd (fd_table inner) in
       _ ← modify (upd_pcbs (alter (λ b, set_fds (insertZ new_fd (Some file) fds) b) p)); _ ← release p; mret new_fd) Hr Hfd) as Hd.
  destruct (file_of (fd_table pb) fd) as [f|] eqn:E; [|by rewrite borrowed_return in Hd].
  destruct (alloc_fd (fd_table pb)) as [new fds] eqn:Ea. exists new, (insertZ new (Some f) fds).
  split_and!; [|apply (alloc_fd_lowest _ _ _ Ea)|by apply file_of_install].
  unfold sys_dup. etrans; [exact Hd|]. by rewrite borrowed_step.
Qed.

(** C35: The descriptor table of a process is a partial map from descriptors to open
    files: [close] removes a descriptor; [dup] gives the same file a second
    descriptor, the lowest that is free; on a descriptor that is not open both
    return -1 and change nothing; no call touches anything but the one entry. *)
Theorem descriptor_map_calls k t tb p pb fd :
  running k t tb p pb → 0 <= fd →
  match file_of (fd_table pb) fd with
  | None => sys_close fd k = Ok (-1, k) ∧ sys_dup fd k = Ok (-1, k)
  | Some f =>
      (∃ fds, sys_close fd k = Ok (0, with_fds p fds k) ∧
        ∀ j, file_of fds j = if decide (j = fd) then None else file_of (fd_table pb) j) ∧
      (∃ new fds, sys_dup fd k = Ok (new, with_fds p fds k) ∧ lowest_free (fd_table pb) new ∧
        ∀ j, file_of fds j = if decide (j = new) then Some f else file_of (fd_table pb) j)
  end.
Proof.
  intros Hr Hfd. destruct (close_eq k t tb p pb fd Hr Hfd) as (fds & Hc & Hsame & Hj).
  pose proof (dup_eq k t tb p pb fd Hr Hfd) as Hd. destruct (file_of (fd_table pb) fd) as [f|].
  - split; [by exists fds|done].
  - by rewrite Hc, Hsame.
Qed.

(** ** Reading and writing *)

Section files.
Context {St H : Type} `{HS : BlockStore St} `{!BinaryHeap H}.
Abbreviation W := (World St H).
Implicit Types w : W.

Lemma current_user_token_eq k t tb p pb : running k t tb p pb → current_user_token k = Ok (ms_token (memory_set pb), k).
Proof.
  intros Hr. unfold current_user_token. erewrite bind_ok by by eapply current_process_eq.
  erewrite bind_ok by (eapply (access_eq p id); apply Hr). by rewrite upd_pcbs_id.
Qed.

Lemma open_descriptor_eq right k p pb fd : pcbs k !! p = Some pb → p ∉ borrowed k → 0 <= fd →
  open_descriptor right p fd k =
    Ok (f ← file_of (fd_table pb) fd; if right f then Some f else None, k).
Proof.
  intros Hp Hb Hfd. unfold open_descriptor. erewrite bind_ok by by eapply borrow_eq.
  unfold file_of. destruct (Z.leb_spec (lengthZ (fd_table pb)) fd).
  - rewrite borrowed_return by done. destruct (lookupZ _ _) eqn:E; [apply lookupZ_lt in E; lia|done].
  - destruct (lookupZ_is_Some (fd_table pb) fd) as [o Ho]; [lia|]. unfold index. rewrite Ho.
    erewrite bind_ok by done. rewrite borrowed_return by done. by destruct o.
Qed.

(** The console after more output. *)
Definition printed (bs : list Z) w : W := upd_wf (upd_console (console_in (wf w)) (console_out (wf w) ++ bs) (wf w)) w.

(** The bytes of a slice of user memory. *)
Definition slice_bytes w (sl : UserBuffer.slice) : list Z := loc_byte (mem (mm (wk w))) <$> slice_locs sl.

Lemma print_slices_eq ss w :
  print_slices ss w =
  if forallb (λ sl, valid_utf8 (slice_bytes w sl)) ss then Ok (tt, printed (ss ≫= slice_bytes w) w) else Panic PUnwrap.
Proof.
  revert w. induction ss as [|sl ss IH]; intros w; cbn [print_slices forallb].
  - unfold printed, mret, M_ret. cbn. rewrite app_nil_r. destruct w as [? ? ? f ?]. by destruct f.
  - erewrite bind_ok by reflexivity. change (loc_byte (mem (mm (wk w))) <$> slice_locs sl) with (slice_bytes w sl).
    destruct (valid_utf8 (slice_bytes w sl)); [|done]. erewrite bind_ok by reflexivity. erewrite bind_ok by reflexivity.
    rewrite IH. change (slice_bytes (upd_wf _ w)) with (slice_bytes w). cbn [andb]. destruct (forallb _ ss); [|done].
    unfold printed. cbn. by rewrite <- app_assoc.
Qed.
End files.

(** C37: A write to the console prints the bytes of the buffer and returns its
    length if the bytes of each page of it are UTF-8 on their own; otherwise the
    kernel panics, also when the buffer as a whole is UTF-8 and one of its
    characters lies across two pages. *)
Theorem console_write_outcomes {St H} `{HS : BlockStore St} `{!BinaryHeap H} efs (w : World St H) t tb p pb fd buf len ss :
  running (wk w) t tb p pb → 0 <= fd → file_of (fd_table pb) fd = Some FStdout →
  translated_byte_buffer (mem (mm (wk w))) (ms_token (memory_set pb)) buf len = Some (Ok ss) →
  sys_write efs fd buf len w =
    if forallb (λ sl, valid_utf8 (slice_bytes w sl)) ss
    then Ok (Value (UserBuffer_len {| buffers := ss |}), printed (ss ≫= slice_bytes w) w)
    else Panic PUnwrap.
Proof.
  intros Hr Hfd Hf Ht. unfold sys_write.
  erewrite bind_ok by (apply on_kernel_eq; by eapply current_user_token_eq).
  erewrite bind_ok by (apply on_kernel_eq; by eapply current_process_eq).
  erewrite bind_ok by (apply on_kernel_eq, open_descriptor_eq; [apply Hr..|done]). rewrite Hf. cbn [writable mbind option_bind].
  erewrite bind_ok.
  2: { apply on_kernel_eq. unfold user_buffer. erewrite bind_ok by reflexivity. rewrite Ht. by erewrite bind_ok. }
  cbn [file_write]. unfold Stdout_write. cbn [buffers]. unfold mbind, M_bind. rewrite print_slices_eq.
  by destruct (forallb _ ss).
Qed.

(** [read] and [write] on a descriptor that is not open, is past the table, or
    was not opened for that direction return -1 and change nothing. *)
Theorem bad_descriptor_rejected {St H} `{HS : BlockStore St} `{!BinaryHeap H} efs (w : World St H) t tb p pb fd buf len :
  running (wk w) t tb p pb → 0 <= fd →
  ((∀ f, file_of (fd_table pb) fd = Some f → readable f = false) → sys_read fd buf len w = Ok (Value (-1), w)) ∧
  ((∀ f, file_of (fd_table pb) fd = Some f → writable f = false) → sys_write efs fd buf len w = Ok (Value (-1), w)).
Proof.
  intros Hr Hfd. split; intros Hf; unfold sys_read, sys_write.
  all: erewrite bind_ok by (apply on_kernel_eq; by eapply current_user_token_eq).
  all: erewrite bind_ok by (apply on_kernel_eq; by eapply current_process_eq).
  all: erewrite bind_ok by (apply on_kernel_eq, open_descriptor_eq; [apply Hr..|done]).
  all: destruct (file_of (fd_table pb) fd) as [f|]; [|done]; cbn [mbind option_bind]; by rewrite (Hf f eq_refl).
Qed.

(** ** Opening *)

(** C36: [open] gives the file, with the rights of the flags and its own offset, the
    lowest free descriptor of the process, and leaves the other descriptors, the
    other open files and the other processes as they are; it returns -1 with
    nothing but the block cache changed if there is no such file; flags that
    [OpenFlags] does not know make the kernel panic. *)
Theorem open_call_outcomes {St H} `{HS : BlockStore St} `{!BinaryHeap H} efs fuel (w : World St H) t tb p pb path flags name :
  running (wk w) t tb p pb →
  translated_str fuel (mem (mm (wk w))) (ms_token (memory_set pb)) path = Some (Ok name) →
  match from_bits OpenFlags_all flags with
  | None => sys_open efs fuel path flags w = Panic PUnwrap
  | Some fl => ∀ o s, open_file efs (utf8_encode name) fl (store (wf w)) = Ok (o, s) →
      match o with
      | None => sys_open efs fuel path flags w = Ok (-1, upd_wf (upd_store s (wf w)) w)
      | Some inode => ∃ fd fds w', sys_open efs fuel path flags w = Ok (to_signed 64 fd, w') ∧ lowest_free (fd_table pb) fd ∧
          (∀ j, file_of fds j = if decide (j = fd)
             then Some (FInode (os_readable inode) (os_writable inode) (next_obj (wk w))) else file_of (fd_table pb) j) ∧
          pcbs (wk w') = alter (set_fds fds) p (pcbs (wk w)) ∧ mm (wk w') = mm (wk w) ∧
          wf w' = upd_inodes (<[next_obj (wk w) := inode]> (inodes (wf w))) (upd_store s (wf w))
      end
  end.
Proof.
  intros Hr Hn.
  assert (∀ g : list Z → M (World St H) Z, (x ← on_kernel (user_str fuel (ms_token (memory_set pb)) path); g x) w = g name w) as Hstr.
  { intros g. eapply bind_ok, on_kernel_eq. unfold user_str. erewrite bind_ok by reflexivity. by rewrite Hn. }
  assert (sys_open efs fuel path flags w = (flags ← unwrap (from_bits OpenFlags_all flags);
    o ← on_store (open_file efs (utf8_encode name) flags); match o with Some inode => install_file p inode | None => mret (-1) end) w) as ->.
  { unfold sys_open. erewrite bind_ok by (apply on_kernel_eq; by eapply current_process_eq).
    erewrite bind_ok by (apply on_kernel_eq; by eapply current_user_token_eq). by rewrite Hstr. }
  destruct (from_bits _ _) as [fl|]; [|done]. intros o s Ho. erewrite bind_ok by reflexivity.
  erewrite bind_ok by (unfold on_store, zoom; by rewrite Ho). destruct o as [inode|]; [|done].
  destruct (alloc_fd (fd_table pb)) as [fd fds] eqn:Ea.
  eexists fd, (insertZ fd (Some _) fds), _. split; [|split_and!; [apply (alloc_fd_lowest _ _ _ Ea)|by apply file_of_install|..]].
  - unfold install_file. erewrite bind_ok by reflexivity. erewrite bind_ok by reflexivity.
    unfold on_kernel, zoom. erewrite bind_ok by (eapply borrow_eq; apply Hr). rewrite Ea.
    rewrite borrowed_step by apply Hr. reflexivity.
  - done.
  - done.
  - done.
Qed.

(** ** Witnesses *)

(** A process that can print: the bytes [b] and [c] lie at the end of one page and
    at the start of the next. *)
Definition console_kernel (b c : Z) : Kernel :=
  demo_kernel {| fa := fa demo_mm; mem := set_byte (set_byte demo_user_mem 0x80600 0xfff b) 0x80700 0 c |} demo_ms [Some 1].
Definition console_world (b c : Z) : World demo_store (list TimerCondVar) :=
  mkWorld (console_kernel b c) {| mutexes := ∅; semaphores := ∅; condvars := ∅ |} []
    (mkFiles (BlockCacheManager_new demo_file) ∅ ∅ [] [] []) ∅.
Lemma console_running b c : running (console_kernel b c) 1 demo_tcb1 0 (demo_pcb demo_ms [Some 1]).
Proof. apply demo_running. Qed.

(** The three standard files are open. *)
Lemma console_free fd : lowest_free (fd_table (demo_pcb demo_ms [Some 1])) fd → fd = 3.
Proof.
  intros (Hn & Hfree & Hlow). destruct (Z.lt_trichotomy fd 3) as [Hlt|[->|Hlt]]; [|done|].
  - assert (fd = 0 ∨ fd = 1 ∨ fd = 2) as [->|[->| ->]] by lia; done.
  - destruct (Hlow 3 ltac:(lia)). done.
Qed.

Lemma descriptor_map_calls_witness : ∃ fds, sys_dup 0 (console_kernel 0 0) = Ok (3, with_fds 0 fds (console_kernel 0 0)).
Proof.
  destruct (descriptor_map_calls (console_kernel 0 0) 1 demo_tcb1 0 (demo_pcb demo_ms [Some 1]) 0) as [_ (new & fds & E & (Hn & Hfree & Hlow) & _)];
    [apply console_running|lia|].
  assert (new = 3) as -> by (by apply console_free).
  by exists fds.
Defined.

Definition console_slices : list UserBuffer.slice :=
  [{| sl_ppn := 0x80600; sl_lo := 0xfff; sl_hi := 0x1000 |}; {| sl_ppn := 0x80700; sl_lo := 0; sl_hi := 1 |}].

(** [h] and [i] are printed; the two bytes of one character are not. *)
Lemma console_write_outcomes_witness :
  sys_write demo_efs 1 0x1fff 2 (console_world 0x68 0x69) = Ok (Value 2, printed [0x68; 0x69] (console_world 0x68 0x69)) ∧
  sys_write demo_efs 1 0x1fff 2 (console_world 0xC3 0xA9) = Panic PUnwrap ∧ valid_utf8 [0xC3; 0xA9] = true.
Proof.
  pose proof (λ b c, console_write_outcomes demo_efs (console_world b c) 1 demo_tcb1 0 (demo_pcb demo_ms [Some 1])
    1 0x1fff 2 console_slices (console_running b c) ltac:(lia) eq_refl) as Hw.
  assert (∀ b c, (b, c) ∈ [(0x68, 0x69); (0xC3, 0xA9)] → console_slices ≫= slice_bytes (console_world b c) = [b; c] ∧
    forallb (λ sl, valid_utf8 (slice_bytes (console_world b c) sl)) console_slices = (b <? 0x80) &&  (c <? 0x80)) as Hb.
  { intros b c [[= -> ->]|[[= -> ->]|[]%elem_of_nil]%elem_of_cons]%elem_of_cons; vm_compute; done. }
  split_and!; [| |done].
  - destruct (Hb 0x68 0x69) as [E1 E2]; [left|]. rewrite Hw by (vm_compute; reflexivity). rewrite E1, E2. reflexivity.
  - destruct (Hb 0xC3 0xA9) as [E1 E2]; [right; left|]. rewrite Hw by (vm_compute; reflexivity). rewrite E2. reflexivity.
Defined.

Lemma bad_descriptor_rejected_witness :
  sys_read 1 0x1000 8 (console_world 0 0) = Ok (Value (-1), console_world 0 0) ∧
  sys_write demo_efs 9 0x1000 8 (console_world 0 0) = Ok (Value (-1), console_world 0 0).
Proof.
  pose proof (λ fd, bad_descriptor_rejected demo_efs (console_world 0 0) 1 demo_tcb1 0 (demo_pcb demo_ms [Some 1]) fd 0x1000 8
    (console_running 0 0)) as Hb.
  split; [apply (proj1 (Hb 1 ltac:(lia)))|apply (proj2 (Hb 9 ltac:(lia)))]; by intros f [= <-].
Defined.

(** An empty root directory; the path is [h]. *)
Definition open_world : World demo_store (list TimerCondVar) :=
  upd_wf (upd_store (BlockCacheManager_new dir_file) (wf (console_world 0x68 0))) (console_world 0x68 0).
Definition opened_inode : OSInode := OSInode_new false true (inode_of demo_efs 1).
Definition opening := open_file demo_efs [0x68] (Z.lor CREATE WRONLY) (BlockCacheManager_new dir_file : demo_store).
Definition opened_store : demo_store := match opening with Ok (_, s) => s | Panic _ => BlockCacheManager_new dir_file end.

Lemma open_creates :
  open_file demo_efs (utf8_encode [0x68]) (Z.lor CREATE WRONLY) (store (wf open_world)) = Ok (Some opened_inode, opened_store).
Proof.
  change (opening = Ok (Some opened_inode, opened_store)). unfold opened_store.
  assert (match opening with Ok (o, _) => o | Panic _ => None end = Some opened_inode) as E by (vm_compute; reflexivity).
  destruct opening as [[o s]|]; [by rewrite E|done].
Qed.

Lemma open_call_outcomes_witness :
  sys_open demo_efs 10 0x1fff 8 open_world = Panic PUnwrap ∧
  ∃ w', sys_open demo_efs 10 0x1fff (Z.lor CREATE WRONLY) open_world = Ok (3, w') ∧
    inodes (wf w') = <[next_obj (wk open_world) := opened_inode]> ∅.
Proof.
  pose proof (λ flags, open_call_outcomes demo_efs 10 open_world 1 demo_tcb1 0 (demo_pcb demo_ms [Some 1]) 0x1fff flags [0x68]
    (console_running _ _) ltac:(vm_compute; reflexivity)) as Ho.
  split; [exact (Ho 8)|].
  destruct (Ho (Z.lor CREATE WRONLY) (Some opened_inode) opened_store open_creates) as (fd & fds & w' & E & Hfd & _ & _ & _ & Hw).
  apply console_free in Hfd as ->. exists w'. split; [exact E|]. by rewrite Hw.
Defined.
