(* ===== verification/UserLib.v ===== *)
(** * The user library

    The functions of [user/src/syscall.rs] and [user/src/lib.rs] that enter the
    kernel: what they put in the registers, and the loops that repeat a call. *)

From S2P Require Import Prelude.

(** A slice or string: its address and length. *)
Record Slice := { ptr : Z; len : Z }.

(** The registers at [ecall]: [x17], [x10], [x11], [x12]. *)
Definition regs : Type := Z * Z * Z * Z.

(** The numbers as the user library declares them. *)
Definition SYSCALL_DUP : Z := 24.
Definition SYSCALL_OPEN : Z := 56.
Definition SYSCALL_CLOSE : Z := 57.
Definition SYSCALL_PIPE : Z := 59.
Definition SYSCALL_READ : Z := 63.
Definition SYSCALL_WRITE : Z := 64.
Definition SYSCALL_EXIT : Z := 93.
Definition SYSCALL_SLEEP : Z := 101.
Definition SYSCALL_YIELD : Z := 124.
Definition SYSCALL_KILL : Z := 129.
Definition SYSCALL_GET_TIME : Z := 169.
Definition SYSCALL_GETPID : Z := 172.
Definition SYSCALL_FORK : Z := 220.
Definition SYSCALL_EXEC : Z := 221.
Definition SYSCALL_WAITPID : Z := 260.
Definition SYSCALL_THREAD_CREATE : Z := 1000.
Definition SYSCALL_GETTID : Z := 1001.
Definition SYSCALL_WAITTID : Z := 1002.
Definition SYSCALL_MUTEX_CREATE : Z := 1010.
Definition SYSCALL_MUTEX_LOCK : Z := 1011.
Definition SYSCALL_MUTEX_UNLOCK : Z := 1012.
Definition SYSCALL_SEMAPHORE_CREATE : Z := 1020.
Definition SYSCALL_SEMAPHORE_UP : Z := 1021.
Definition SYSCALL_SEMAPHORE_DOWN : Z := 1022.
Definition SYSCALL_CONDVAR_CREATE : Z := 1030.
Definition SYSCALL_CONDVAR_SIGNAL : Z := 1031.
Definition SYSCALL_CONDVAR_WAIT : Z := 1032.

Definition syscall (id a0 a1 a2 : Z) : regs := (id, a0, a1, a2).

Definition sys_dup (fd : Z) : regs := syscall SYSCALL_DUP fd 0 0.
Definition sys_open (path : Slice) (flags : Z) : regs := syscall SYSCALL_OPEN (ptr path) flags 0.
Definition sys_close (fd : Z) : regs := syscall SYSCALL_CLOSE fd 0 0.
Definition sys_pipe (pipe : Slice) : regs := syscall SYSCALL_PIPE (ptr pipe) 0 0.
Definition sys_read (fd : Z) (buffer : Slice) : regs := syscall SYSCALL_READ fd (ptr buffer) (len buffer).
Definition sys_write (fd : Z) (buffer : Slice) : regs := syscall SYSCALL_WRITE fd (ptr buffer) (len buffer).
Definition sys_exit (exit_code : Z) : regs := syscall SYSCALL_EXIT (wrap64 exit_code) 0 0.
Definition sys_sleep (sleep_ms : Z) : regs := syscall SYSCALL_SLEEP sleep_ms 0 0.
Definition sys_yield : regs := syscall SYSCALL_YIELD 0 0 0.
Definition sys_kill (pid signal : Z) : regs := syscall SYSCALL_KILL pid (wrap64 signal) 0.
Definition sys_get_time : regs := syscall SYSCALL_GET_TIME 0 0 0.
Definition sys_getpid : regs := syscall SYSCALL_GETPID 0 0 0.
Definition sys_fork : regs := syscall SYSCALL_FORK 0 0 0.
Definition sys_exec (path args : Slice) : regs := syscall SYSCALL_EXEC (ptr path) (ptr args) 0.
Definition sys_waitpid (pid exit_code : Z) : regs := syscall SYSCALL_WAITPID (wrap64 pid) exit_code 0.
Definition sys_thread_create (entry arg : Z) : regs := syscall SYSCALL_THREAD_CREATE entry arg 0.
Definition sys_gettid : regs := syscall SYSCALL_GETTID 0 0 0.
Definition sys_waittid (tid : Z) : regs := syscall SYSCALL_WAITTID tid 0 0.
Definition sys_mutex_create (blocking : bool) : regs := syscall SYSCALL_MUTEX_CREATE (if blocking then 1 else 0) 0 0.
Definition sys_mutex_lock (id : Z) : regs := syscall SYSCALL_MUTEX_LOCK id 0 0.
Definition sys_mutex_unlock (id : Z) : regs := syscall SYSCALL_MUTEX_UNLOCK id 0 0.
Definition sys_semaphore_create (res_count : Z) : regs := syscall SYSCALL_SEMAPHORE_CREATE res_count 0 0.
Definition sys_semaphore_up (sem_id : Z) : regs := syscall SYSCALL_SEMAPHORE_UP sem_id 0 0.
Definition sys_semaphore_down (sem_id : Z) : regs := syscall SYSCALL_SEMAPHORE_DOWN sem_id 0 0.
Definition sys_condvar_create (arg : Z) : regs := syscall SYSCALL_CONDVAR_CREATE arg 0 0.
Definition sys_condvar_signal (condvar_id : Z) : regs := syscall SYSCALL_CONDVAR_SIGNAL condvar_id 0 0.
Definition sys_condvar_wait (condvar_id mutex_id : Z) : regs := syscall SYSCALL_CONDVAR_WAIT condvar_id mutex_id 0.

(** The functions of the library that enter the kernel, with their arguments.
    [wait_], [waitpid_] and [waittid_] are the functions [wait], [waitpid] and
    [waittid], whose loops are below. *)
Inductive Fn :=
  | dup (fd : Z) | open (path : Slice) (flags : Z) | close (fd : Z) | pipe (pipe_fd : Slice)
  | read (fd : Z) (buf : Slice) | write (fd : Z) (buf : Slice) | exit (exit_code : Z) | yield_ | get_time
  | getpid | fork | exec (path args : Slice) | wait_ (exit_code : Z) | waitpid_ (pid exit_code : Z) | waitpid_nb (pid exit_code : Z)
  | kill (pid signal : Z)
  | sleep (sleep_ms : Z) | thread_create (entry arg : Z) | gettid | waittid_ (tid : Z) | mutex_create | mutex_blocking_create
  | mutex_lock (id : Z) | mutex_unlock (id : Z) | semaphore_create (res_count : Z) | semaphore_up (id : Z)
  | semaphore_down (id : Z) | condvar_create | condvar_signal (id : Z) | condvar_wait (condvar mutex : Z).

(** The call a function makes, and repeats in the case of the three loops. *)
Definition call (f : Fn) : regs :=
  match f with
  | dup fd => sys_dup fd
  | open path flags => sys_open path flags
  | close fd => sys_close fd
  | pipe pipe_fd => sys_pipe pipe_fd
  | read fd buf => sys_read fd buf
  | write fd buf => sys_write fd buf
  | exit code => sys_exit code
  | yield_ => sys_yield
  | get_time => sys_get_time
  | getpid => sys_getpid
  | fork => sys_fork
  | exec path args => sys_exec path args
  | wait_ code => sys_waitpid (-1) code
  | waitpid_ pid code => sys_waitpid (to_signed 64 pid) code
  | waitpid_nb pid code => sys_waitpid (to_signed 64 pid) code
  | kill pid signal => sys_kill pid signal
  | sleep ms => sys_sleep ms
  | thread_create entry arg => sys_thread_create entry arg
  | gettid => sys_gettid
  | waittid_ tid => sys_waittid tid
  | mutex_create => sys_mutex_create false
  | mutex_blocking_create => sys_mutex_create true
  | mutex_lock id => sys_mutex_lock id
  | mutex_unlock id => sys_mutex_unlock id
  | semaphore_create n => sys_semaphore_create n
  | semaphore_up id => sys_semaphore_up id
  | semaphore_down id => sys_semaphore_down id
  | condvar_create => sys_condvar_create 0
  | condvar_signal id => sys_condvar_signal id
  | condvar_wait c m => sys_condvar_wait c m
  end.

(** Arguments of the types the functions declare. *)
Definition usize (x : Z) : Prop := 0 <= x < 2 ^ 64.
Definition i32 (x : Z) : Prop := - 2 ^ 31 <= x < 2 ^ 31.
Definition typed (f : Fn) : Prop :=
  match f with
  | open _ flags => 0 <= flags < 2 ^ 32
  | exit code => i32 code
  | kill _ signal => i32 signal
  | waitpid_ pid _ | waitpid_nb pid _ => usize pid
  | _ => True
  end.

(** ** Calls repeated while the result is -2 *)

Section wait.
Context {St : Type} (enter : regs → M St Z).

(** [loop { match call { -2 => yield_(), r => return r } }]; out of fuel when
    the result stays -2. *)
Fixpoint retry (fuel : nat) (req : regs) : M St Z :=
  match fuel with
  | O => panic_with PFuel
  | S fuel' =>
      r ← enter req;
      if r =? -2 then _ ← enter sys_yield; retry fuel' req else mret r
  end.
Definition wait (fuel : nat) (exit_code : Z) : M St Z := retry fuel (call (wait_ exit_code)).
Definition waitpid (fuel : nat) (pid exit_code : Z) : M St Z := retry fuel (call (waitpid_ pid exit_code)).
Definition waittid (fuel : nat) (tid : Z) : M St Z := retry fuel (call (waittid_ tid)).
End wait.
