(* ===== verification/Abi.v ===== *)
(** * The system call interface

    The numbers and arguments of the system calls, on both sides of [ecall]: the
    wrappers of the user library ([user/src/syscall.rs], [user/src/lib.rs]), which
    put a number in [x17] and three arguments in [x10] to [x12], and the [match] of
    the kernel ([os/src/syscall/mod.rs]), which casts the registers to the types of
    the handlers. *)

From S2P Require Import Prelude UserLib.

(** ** The kernel *)

(** A call as its handler receives it. *)
Inductive Request :=
  | RDup (fd : Z) | ROpen (path flags : Z) | RClose (fd : Z) | RPipe (pipe : Z)
  | RRead (fd buf len : Z) | RWrite (fd buf len : Z) | RExit (code : Z) | RSleep (ms : Z) | RYield
  | RKill (pid signal : Z) | RGetTime | RGetpid | RFork | RExec (path args : Z)
  | RWaitpid (pid exit_code : Z) | RThreadCreate (entry arg : Z) | RGettid | RWaittid (tid : Z)
  | RMutexCreate (blocking : bool) | RMutexLock (id : Z) | RMutexUnlock (id : Z)
  | RSemaphoreCreate (res_count : Z) | RSemaphoreUp (id : Z) | RSemaphoreDown (id : Z)
  | RCondvarCreate (arg : Z) | RCondvarSignal (id : Z) | RCondvarWait (condvar mutex : Z).

Definition SYSCALL_DUP : Z := 24.
Definition SYSCALL_OPEN : Z := 56.
Definition SYSCALL_CLOSE : Z := 57.
Definition SYSCALL_PIPE : Z := 59.
Definition SYSCALL_READ : Z := 63.
Definition SYSCALL_WRITE : Z := 64.
Definition SYSCALL_EXIT : Z := 93.
Definition SYSCALL_SLEEP : Z := 101.
Definition SYSCALL_YIELD : Z := 124.
Definition SYSCALL_KILL : Z := 129.
Definition SYSCALL_GET_TIME : Z := 169.
Definition SYSCALL_GETPID : Z := 172.
Definition SYSCALL_FORK : Z := 220.
Definition SYSCALL_EXEC : Z := 221.
Definition SYSCALL_WAITPID : Z := 260.
Definition SYSCALL_THREAD_CREATE : Z := 1000.
Definition SYSCALL_GETTID : Z := 1001.
Definition SYSCALL_WAITTID : Z := 1002.
Definition SYSCALL_MUTEX_CREATE : Z := 1010.
Definition SYSCALL_MUTEX_LOCK : Z := 1011.
Definition SYSCALL_MUTEX_UNLOCK : Z := 1012.
Definition SYSCALL_SEMAPHORE_CREATE : Z := 1020.
Definition SYSCALL_SEMAPHORE_UP : Z := 1021.
Definition SYSCALL_SEMAPHORE_DOWN : Z := 1022.
Definition SYSCALL_CONDVAR_CREATE : Z := 1030.
Definition SYSCALL_CONDVAR_SIGNAL : Z := 1031.
Definition SYSCALL_CONDVAR_WAIT : Z := 1032.

(** [match syscall_id]; [None] is the [panic!] of the last arm. *)
Definition decode (id a0 a1 a2 : Z) : option Request :=
  if id =? SYSCALL_DUP then Some (RDup a0)
  else if id =? SYSCALL_OPEN then Some (ROpen a0 (wrap32 a1))
  else if id =? SYSCALL_CLOSE then Some (RClose a0)
  else if id =? SYSCALL_PIPE then Some (RPipe a0)
  else if id =? SYSCALL_READ then Some (RRead a0 a1 a2)
  else if id =? SYSCALL_WRITE then Some (RWrite a0 a1 a2)
  else if id =? SYSCALL_EXIT then Some (RExit (to_signed 32 a0))
  else if id =? SYSCALL_SLEEP then Some (RSleep a0)
  else if id =? SYSCALL_YIELD then Some RYield
  else if id =? SYSCALL_KILL then Some (RKill a0 (wrap32 a1))
  else if id =? SYSCALL_GET_TIME then Some RGetTime
  else if id =? SYSCALL_GETPID then Some RGetpid
  else if id =? SYSCALL_FORK then Some RFork
  else if id =? SYSCALL_EXEC then Some (RExec a0 a1)
  else if id =? SYSCALL_WAITPID then Some (RWaitpid (to_signed 64 a0) a1)
  else if id =? SYSCALL_THREAD_CREATE then Some (RThreadCreate a0 a1)
  else if id =? SYSCALL_GETTID then Some RGettid
  else if id =? SYSCALL_WAITTID then Some (RWaittid a0)
  else if id =? SYSCALL_MUTEX_CREATE then Some (RMutexCreate (a0 =? 1))
  else if id =? SYSCALL_MUTEX_LOCK then Some (RMutexLock a0)
  else if id =? SYSCALL_MUTEX_UNLOCK then Some (RMutexUnlock a0)
  else if id =? SYSCALL_SEMAPHORE_CREATE then Some (RSemaphoreCreate a0)
  else if id =? SYSCALL_SEMAPHORE_UP then Some (RSemaphoreUp a0)
  else if id =? SYSCALL_SEMAPHORE_DOWN then Some (RSemaphoreDown a0)
  else if id =? SYSCALL_CONDVAR_CREATE then Some (RCondvarCreate a0)
  else if id =? SYSCALL_CONDVAR_SIGNAL then Some (RCondvarSignal a0)
  else if id =? SYSCALL_CONDVAR_WAIT then Some (RCondvarWait a0 a1)
  else None.

(** The handler meant for each function, with the arguments meant. *)
Definition meaning (f : UserLib.Fn) : Request :=
  match f with
  | dup fd => RDup fd
  | open path flags => ROpen (ptr path) flags
  | close fd => RClose fd
  | pipe p => RPipe (ptr p)
  | read fd buf => RRead fd (ptr buf) (len buf)
  | write fd buf => RWrite fd (ptr buf) (len buf)
  | exit code => RExit code
  | yield_ => RYield
  | get_time => RGetTime
  | getpid => RGetpid
  | fork => RFork
  | exec path args => RExec (ptr path) (ptr args)
  | wait_ code => RWaitpid (-1) code
  | waitpid_ pid code => RWaitpid (to_signed 64 pid) code
  | waitpid_nb pid code => RWaitpid (to_signed 64 pid) code
  | kill pid signal => RKill pid (wrap32 signal)
  | sleep ms => RSleep ms
  | thread_create entry arg => RThreadCreate entry arg
  | gettid => RGettid
  | waittid_ tid => RWaittid tid
  | mutex_create => RMutexCreate false
  | mutex_blocking_create => RMutexCreate true
  | mutex_lock id => RMutexLock id
  | mutex_unlock id => RMutexUnlock id
  | semaphore_create n => RSemaphoreCreate n
  | semaphore_up id => RSemaphoreUp id
  | semaphore_down id => RSemaphoreDown id
  | condvar_create => RCondvarCreate 0
  | condvar_signal id => RCondvarSignal id
  | condvar_wait c m => RCondvarWait c m
  end.

(** ** Repeated calls *)

(** A call that answers -2 a number of times and then something else. *)
Fixpoint answers {St} (enter : UserLib.regs → M St Z) (call : UserLib.regs) (n : nat) (s : St) (r : Z) (s' : St) : Prop :=
  match n with
  | O => enter call s = Ok (r, s') ∧ r ≠ -2
  | S n' => ∃ s1 y s2, enter call s = Ok (-2, s1) ∧ enter UserLib.sys_yield s1 = Ok (y, s2) ∧ answers enter call n' s2 r s'
  end.

Lemma retry_answers {St} (enter : UserLib.regs → M St Z) call n : ∀ fuel s r s',
  answers enter call n s r s' → (n < fuel)%nat → UserLib.retry enter fuel call s = Ok (r, s').
Proof.
  induction n as [|n IH]; intros [|fuel] s r s' Ha Hn; try lia; cbn [answers] in Ha; cbn [UserLib.retry]; unfold mbind, M_bind.
  - destruct Ha as [-> Hr]. by rewrite (proj2 (Z.eqb_neq _ _) Hr).
  - destruct Ha as (s1 & y & s2 & -> & E & Ha). rewrite Z.eqb_refl. rewrite E. apply IH; [done|lia].
Qed.

(** A pid through [isize], a register and [isize] again. *)
Lemma waitpid_word pid code :
  Some (RWaitpid (to_signed 64 (wrap64 (to_signed 64 pid))) code) = Some (RWaitpid (to_signed 64 pid) code).
Proof.
  rewrite to_signed_wrap by lia. rewrite (to_signed_id 64 (to_signed 64 pid)); [done|lia|]. apply to_signed_range. lia.
Qed.

(** ** Properties *)

(** C34: The two sides of [ecall] agree: the number and registers that every
    function of the user library passes reach the kernel's handler of the same
    meaning with the same arguments, through the casts on both sides (an [i32]
    exit code through [usize] and back, a [u32] flag word, the [isize] pid of
    [waitpid]).  For [wait], [waitpid] and [waittid] it is the call they repeat. *)
Theorem abi_agrees f : UserLib.typed f →
  let '(id, a0, a1, a2) := UserLib.call f in decode id a0 a1 a2 = Some (meaning f).
Proof.
  intros Ht. destruct f; try done; cbn in Ht |- *; unfold decode; cbn.
  - by rewrite wrap_small.
  - rewrite to_signed_wrap, to_signed_id by (done || lia). done.
  - apply waitpid_word.
  - apply waitpid_word.
  - by rewrite wrap_wrap.
Qed.

(** [wait], [waitpid] and [waittid] return the first answer of the kernel that
    is not -2, after one yield for each -2: they end if and when the kernel
    answers, and never return -2. *)
Theorem user_wait_returns {St} (enter : UserLib.regs → M St Z) (n fuel : nat) s r s' pid code :
  (n < fuel)%nat →
  (answers enter (UserLib.sys_waitpid (-1) code) n s r s' → UserLib.wait enter fuel code s = Ok (r, s') ∧ r ≠ -2) ∧
  (answers enter (UserLib.sys_waitpid (to_signed 64 pid) code) n s r s' → UserLib.waitpid enter fuel pid code s = Ok (r, s')) ∧
  (answers enter (UserLib.sys_waittid pid) n s r s' → UserLib.waittid enter fuel pid s = Ok (r, s')).
Proof.
  intros Hn. split_and!; intros Ha; [split; [by eapply retry_answers|]|by eapply retry_answers..].
  clear Hn. revert s Ha. induction n as [|n IH]; intros s Ha; cbn [answers] in Ha; [apply Ha|].
  destruct Ha as (s1 & y & s2 & _ & _ & Ha). by eapply IH.
Qed.

Lemma abi_agrees_witness : decode 93 (2 ^ 64 - 4) 0 0 = Some (RExit (-4)).
Proof. by apply (abi_agrees (UserLib.exit (-4))). Defined.

Lemma user_wait_returns_witness :
  UserLib.wait (λ c (s : nat), Ok (if decide (c = UserLib.sys_yield) then 0 else if (s =? 2)%nat then 7 else -2, S s)) 4 0 0%nat = Ok (7, 3%nat).
Proof.
  apply (user_wait_returns _ 1 4 0%nat 7 3%nat 0 0); [lia|]. exists 1%nat, 0, 2%nat. done.
Defined.
