(* ===== verification/Trap.v ===== *)
(** * Traps and the system call dispatch

    [os/src/trap/mod.rs] and [syscall] of [os/src/syscall/mod.rs]: what the kernel
    does from a trap of a user task to the next return to user mode or switch, and
    what it does when it dispatches a task ([run_tasks]).

    A handler that switches away leaves the rest of its call in [wc]; the registers
    of the trapped task are in its trap context.  The writes of [stvec] and of the
    timer's compare register have no counterpart; [time] is the value of the [time]
    register. *)

From stdpp Require Import sorting.
From S2P Require Import Prelude Address FrameAllocator PageTable UserBuffer MemorySet Codec BlockDev BlockCache Bitmap Layout InodeTree Efs Vfs OsInode Pipe Sched Sync Timer TaskId Kernel Syscall World Process Exit SyncCalls FileCalls Descriptors Abi.

Inductive Cause :=
  | UserEnvCall
  | StoreFault | StorePageFault | InstructionFault | InstructionPageFault | LoadFault | LoadPageFault
  | IllegalInstruction
  | SupervisorTimer
  | OtherTrap.
#[export] Instance Cause_eq_dec : EqDecision Cause.
Proof. solve_decision. Defined.

(** The task returns to user mode with the address of its trap context in [a0]
    and its [satp] in [a1], or the processor was given up. *)
Inductive TrapEnd :=
  | ToUser (trap_cx_user_va user_satp : Z)
  | Away.

(** [current_trap_cx]: the frame of the trap context of the current task. *)
Definition current_trap_cx : M Kernel Z :=
  o ← on_sched current_task; t ← unwrap o; b ← tcb_of t; mret (trap_cx_ppn b).
Definition current_trap_cx_user_va : M Kernel Z :=
  o ← on_sched current_task; t ← unwrap o; b ← tcb_of t; r ← unwrap (res b); mret (trap_cx_user_va r).

(** [cx.x\[i\]] and [cx.sepc]. *)
Definition get_x (ppn i : Z) : M Kernel Z := gets (λ k, get_word (mem (mm k)) ppn i).
Definition put_x (ppn i v : Z) : M Kernel unit := write_mem (λ m, set_word m ppn i v).

(** Drop one [Arc] for each element of [xs]. *)
Fixpoint drop_one {A} `{EqDecision A} (x : A) (l : list A) : list A :=
  match l with [] => [] | y :: l' => if decide (x = y) then l' else y :: drop_one x l' end.
Definition remove_each {A} `{EqDecision A} (xs l : list A) : list A := foldr drop_one l xs.

Section trap.
Context {St H : Type} `{HS : BlockStore St} `{!BinaryHeap H}.
Context (efs : EasyFileSystem) (fuel : nat) (elf : list Z → option ElfFile).
Context (trap_return_addr trap_handler_addr strampoline sstatus : Z).
Abbreviation W := (World St H).

(** ** Dispatch *)

Definition value (m : M W Z) : M W Outcome := r ← m; mret (Value r).

Definition run_request (time : Z) (r : Request) : M W Outcome :=
  match r with
  | RDup fd => value (on_kernel (sys_dup fd))
  | ROpen path flags => value (sys_open efs fuel path flags)
  | RClose fd => value (on_kernel (sys_close fd))
  | RPipe pipe => value (FileCalls.sys_pipe pipe)
  | RRead fd buf len => sys_read fd buf len
  | RWrite fd buf len => sys_write efs fd buf len
  | RExit code => sys_exit code
  | RSleep ms => SyncCalls.sys_sleep time ms
  | RYield => sys_yield
  | RKill pid signal => value (on_kernel (sys_kill pid signal))
  | RGetTime => value (sys_get_time time)
  | RGetpid => value (on_kernel sys_getpid)
  | RFork => value (on_kernel (sys_fork trap_return_addr strampoline))
  | RExec path args => value (sys_exec efs fuel elf trap_handler_addr strampoline sstatus path args)
  | RWaitpid pid code => value (on_kernel (sys_waitpid pid code))
  | RThreadCreate entry arg => value (on_kernel (sys_thread_create trap_return_addr trap_handler_addr sstatus entry arg))
  | RGettid => value (on_kernel sys_gettid)
  | RWaittid tid => value (on_kernel (sys_waittid tid))
  | RMutexCreate blocking => value (sys_mutex_create blocking)
  | RMutexLock id => sys_mutex_lock id
  | RMutexUnlock id => value (sys_mutex_unlock id)
  | RSemaphoreCreate n => value (sys_semaphore_create n)
  | RSemaphoreUp id => value (sys_semaphore_up id)
  | RSemaphoreDown id => sys_semaphore_down id
  | RCondvarCreate _ => value sys_condvar_create
  | RCondvarSignal id => value (sys_condvar_signal id)
  | RCondvarWait c m => sys_condvar_wait c m
  end.

Definition syscall (time id a0 a1 a2 : Z) : M W Outcome :=
  match decode id a0 a1 a2 with
  | Some r => run_request time r
  | None => panic_with PExplicit
  end.

(** ** The end of a trap *)

Definition trap_return : M W TrapEnd :=
  va ← on_kernel current_trap_cx_user_va;
  satp ← on_kernel current_user_token;
  mret (ToUser va satp).

(** The check of the signals, and the return to user mode. *)
Definition end_trap : M W TrapEnd :=
  o ← on_kernel check_signals_of_current;
  match o with
  | Some errno => _ ← on_kernel (exit_current_and_run_next errno); mret Away
  | None => trap_return
  end.

(** The call of task [t] is left in the middle: its [Arc]s stay on its stack. *)
Definition leave_call (t : Z) (c : Call) : M W unit :=
  modify (λ w, upd_wc (<[t := c]> (wc w))
    (upd_wf (upd_held (option_list (c_file c) ++ held_files (wf w)) (wf w))
      (upd_wk (upd_stack_refs (λ l, option_list (c_process c) ++ l) (wk w)) w))).

(** The call goes on. *)
Definition take_call (t : Z) (c : Call) : M W unit :=
  modify (λ w, upd_wc (delete t (wc w))
    (upd_wf (upd_held (remove_each (option_list (c_file c)) (held_files (wf w))) (wf w))
      (upd_wk (upd_stack_refs (remove_each (option_list (c_process c))) (wk w)) w))).

(** [cx = current_trap_cx(); cx.x\[10\] = result as usize]. *)
Definition finish_call (t : Z) (o : Outcome) : M W TrapEnd :=
  match o with
  | Value result =>
      ppn ← on_kernel current_trap_cx;
      _ ← on_kernel (put_x ppn 10 (wrap64 result));
      end_trap
  | Switched c => _ ← leave_call t c; mret Away
  | Exited => mret Away
  end.

Definition wake_timers (time : Z) : M W unit :=
  w ← get;
  r ← lift_result (check_timer fuel time (sched (wk w), wt w));
  let '(o, (s, h)) := r in
  _ ← put (upd_wk (upd_parked (λ l, list_difference l (drop (length (ready_queue (sched (wk w)))) (ready_queue s)))
                     (upd_sched s (wk w))) (upd_wt h w));
  match o with Some _ => mret tt | None => panic_with PFuel end.

Definition trap_handler (cause : Cause) (time : Z) : M W TrapEnd :=
  o ← on_kernel (on_sched current_task);
  match cause with
  | UserEnvCall =>
      t ← unwrap o;
      ppn ← on_kernel current_trap_cx;
      sepc ← on_kernel (get_x ppn TC_SEPC);
      _ ← on_kernel (put_x ppn TC_SEPC (wrap64 (sepc + 4)));
      id ← on_kernel (get_x ppn 17);
      a0 ← on_kernel (get_x ppn 10);
      a1 ← on_kernel (get_x ppn 11);
      a2 ← on_kernel (get_x ppn 12);
      r ← syscall time id a0 a1 a2;
      finish_call t r
  | StoreFault | StorePageFault | InstructionFault | InstructionPageFault | LoadFault | LoadPageFault =>
      _ ← on_kernel (current_add_signal SIGSEGV);
      end_trap
  | IllegalInstruction =>
      _ ← on_kernel (current_add_signal SIGILL);
      end_trap
  | SupervisorTimer =>
      _ ← wake_timers time;
      t ← unwrap o;
      _ ← on_kernel (on_sched suspend_current_and_run_next);
      _ ← leave_call t {| todo := TTrap; c_process := None; c_file := None |};
      mret Away
  | OtherTrap => panic_with PExplicit
  end.

(** ** A task runs again *)

(** The rest of a call; the [Arc]s it holds stay held if it is left again. *)
Definition resume_call (t : Z) (c : Call) : M W TrapEnd :=
  let again (o : Outcome) := finish_call t (match o with
    | Switched c' => Switched {| todo := todo c'; c_process := c_process c; c_file := c_file c |}
    | _ => o
    end) in
  match todo c with
  | TReturn r => finish_call t (Value r)
  | TLock m => l ← on_mutex m Sync.lock; again (after_lock m None l)
  | TPipeRead x it size => o ← on_pipe x (read_turn 2 it size) (TPipeRead x) (FPipe true false x); again o
  | TPipeWrite x it size => o ← on_pipe x (write_turn 2 it size) (TPipeWrite x) (FPipe false true x); again o
  | TStdin buf => o ← stdin_turn buf; again o
  | TTrap => end_trap
  end.

(** One iteration of [run_tasks]: the next ready task goes on where it was. *)
Definition dispatch : M W (option TrapEnd) :=
  b ← on_kernel (on_sched run_next);
  if b : bool then
    w ← get;
    t ← unwrap (cur (sched (wk w)));
    match wc w !! t with
    | None => e ← trap_return; mret (Some e)
    | Some c =>
        _ ← take_call t c;
        e ← resume_call t c;
        mret (Some e)
    end
  else mret None.
End trap.

(** ** Where a trap can end *)


Lemma upd_sched_id k : upd_sched (sched k) k = k.
Proof. by destruct k. Qed.

Section ends.
Context {St H : Type} `{HS : BlockStore St} `{!BinaryHeap H}.
Abbreviation W := (World St H).
Implicit Types w : W.




End ends.


(** ** Faults *)

Definition add_signal (signal : Z) (b : ProcessControlBlock) : ProcessControlBlock :=
  set_signals (Z.lor (signals b) signal) b.

Lemma current_add_signal_eq sig k t tb p pb : running k t tb p pb →
  current_add_signal sig k = Ok (tt, upd_pcbs (alter (add_signal sig) p) k).
Proof.
  intros Hr. unfold current_add_signal, mbind, M_bind. rewrite (current_process_eq _ _ _ _ _ Hr).
  by rewrite (access_eq p _ k pb) by apply Hr.
Qed.

Lemma running_add_signal sig k t tb p pb : running k t tb p pb →
  running (upd_pcbs (alter (add_signal sig) p) k) t tb p (add_signal sig pb).
Proof. intros [R1 R2 R3 R4 R5]. split; try done. simpl. by rewrite lookup_alter_eq, R4. Qed.

(** A pending signal does not get in the way of the exit. *)
Lemma exit_ready_add_signal sig lo owned live k t tb p pb r a1 a2 ib :
  exit_ready lo owned live k t tb p pb r a1 a2 ib →
  exit_ready lo owned live (upd_pcbs (alter (add_signal sig) p) k) t tb p (add_signal sig pb) r a1 a2 ib.
Proof.
  intros [X1 X2 X3 X4 X5 X6 X7 X8 X9 X10 X11 X12 (X13 & X14 & X15) X16 X17]. split; try done.
  - by apply running_add_signal.
  - split_and!; [|done|done]. simpl. by rewrite lookup_alter_ne.
  - intros c Hc. destruct (X17 c Hc) as [? ?]. split; [|done]. simpl. by rewrite lookup_alter_is_Some.
Qed.

Lemma check_signals_eq k t tb p pb : running k t tb p pb →
  check_signals_of_current k = Ok (check_error (signals pb), k).
Proof.
  intros Hr. unfold check_signals_of_current, mbind, M_bind. rewrite (current_process_eq _ _ _ _ _ Hr).
  rewrite (access_eq p id k pb) by apply Hr. by rewrite upd_pcbs_id.
Qed.

(** The signal a fault raises. *)
Definition fault_signal (cause : Cause) : option Z :=
  match cause with
  | StoreFault | StorePageFault | InstructionFault | InstructionPageFault | LoadFault | LoadPageFault => Some SIGSEGV
  | IllegalInstruction => Some SIGILL
  | _ => None
  end.

Lemma check_error_added s sig : sig ∈ [SIGSEGV; SIGILL] → ∃ e, check_error (Z.lor s sig) = Some e ∧ e < 0.
Proof.
  intros Hsig. assert (contains (Z.lor s sig) sig = true) as Hc.
  { unfold contains. apply Z.eqb_eq, Z.bits_inj'. intros n _. rewrite Z.land_spec, Z.lor_spec.
    by destruct (Z.testbit s n), (Z.testbit sig n). }
  unfold check_error. repeat case_match; try (by eexists); exfalso.
  apply elem_of_cons in Hsig as [->|Hsig]; [congruence|]. apply list_elem_of_singleton in Hsig as ->. congruence.
Qed.

(** C14: A page fault, access fault or illegal instruction in user mode ends the
    process of the faulting thread (its only one) with the error number of the
    signal: the process becomes a zombie with exit code -11 or -4 (a smaller
    signal number that was pending already comes first), its memory is freed, its
    children pass to the initial process, and the kernel runs the next task. *)
Theorem fault_ends_process {St H} `{HS : BlockStore St} `{!BinaryHeap H} efs fuel elf tr th stramp sstatus
    (w : World St H) cause sig time lo owned live t tb p pb r a1 a2 ib :
  fault_signal cause = Some sig → exit_ready lo owned live (wk w) t tb p pb r a1 a2 ib →
  ∃ w' code owned', trap_handler efs fuel elf tr th stramp sstatus cause time w = Ok (Away, w') ∧
    check_error (Z.lor (signals pb) sig) = Some code ∧ code < 0 ∧
    (signals pb = 0 → code = if decide (cause = IllegalInstruction) then -4 else -11) ∧
    exited lo owned code (upd_pcbs (alter (add_signal sig) p) (wk w)) t tb p (add_signal sig pb) ib owned' (wk w') ∧
    wo w' = wo w ∧ wf w' = wf w ∧ wc w' = wc w.
Proof.
  intros Hs Hx. pose proof (xr_run _ _ _ _ _ _ _ _ _ _ _ _ Hx) as Hr.
  assert (sig ∈ [SIGSEGV; SIGILL]) as Hsig by (destruct cause; simplify_eq/=; set_solver).
  destruct (check_error_added (signals pb) sig Hsig) as (code & Hcode & Hneg).
  set (k1 := upd_pcbs (alter (add_signal sig) p) (wk w)).
  pose proof (running_add_signal sig _ _ _ _ _ Hr) as Hr1. fold k1 in Hr1.
  destruct (wp_ok _ _ _ (wp_exit lo owned live code k1 t tb p _ r a1 a2 ib
    (exit_ready_add_signal sig _ _ _ _ _ _ _ _ _ _ _ _ Hx))) as ([] & k' & E & owned' & Hd).
  exists (upd_wk k' w), code, owned'. split_and!; [|done|done| |exact Hd|done..].
  - assert ((_ ← on_kernel (current_add_signal sig); end_trap) w = Ok (Away, upd_wk k' w)) as Hend.
    { unfold mbind at 1, M_bind, on_kernel at 1, zoom. rewrite (current_add_signal_eq _ _ _ _ _ _ Hr). fold k1.
      unfold end_trap, mbind, M_bind, on_kernel, zoom. cbn [wk upd_wk]. rewrite (check_signals_eq _ _ _ _ _ Hr1).
      cbn [signals add_signal set_signals]. rewrite Hcode. cbn [wk upd_wk]. by rewrite E. }
    unfold trap_handler. unfold mbind at 1, M_bind. rewrite (on_kernel_eq _ w (Some t)).
    2: { unfold on_sched, zoom, current_task, gets. rewrite (ru_cur _ _ _ _ _ Hr).
       by rewrite upd_sched_id. }
    by destruct cause; simplify_eq/=.
  - intros H0. rewrite H0 in Hcode. destruct cause; try done; injection Hs as <-; vm_compute in Hcode; injection Hcode as <-; done.
Qed.

(** ** Timer interrupts and calls that go on *)

(** C33: A timer interrupt preempts the running task and is fair to the sleepers:
    the tasks whose timers have expired become ready, in the order of their
    deadlines and before the preempted task, which goes to the end of the ready
    queue; the other timers stay; memory and processes do not change. *)
Theorem timer_preempts {St H} `{HS : BlockStore St} `{HL : BinaryHeapLaws H} efs fuel elf tr th stramp sstatus
    (w : World St H) t time :
  cur (sched (wk w)) = Some t → times_ok (elems (wt w)) → (length (elems (wt w)) < fuel)%nat →
  ∃ w' ws, trap_handler efs fuel elf tr th stramp sstatus SupervisorTimer time w = Ok (Away, w') ∧
    Sorted earlier ws ∧ ws ≡ₚ filter (expired (get_time_ms time)) (elems (wt w)) ∧
    elems (wt w') ≡ₚ filter (λ x, ¬ expired (get_time_ms time) x) (elems (wt w)) ∧
    ready_queue (sched (wk w')) = ready_queue (sched (wk w)) ++ (task <$> ws) ++ [t] ∧
    cur (sched (wk w')) = None ∧ wc w' = <[t := {| todo := TTrap; c_process := None; c_file := None |}]> (wc w) ∧
    mm (wk w') = mm (wk w) ∧ pcbs (wk w') = pcbs (wk w) ∧ wo w' = wo w.
Proof.
  intros Ht Hok Hf.
  destruct (check_timer_loop_ok fuel (get_time_ms time) (sched (wk w)) (wt w) Hok Hf) as (h & ws & E & Hs & Hw & Hh).
  set (s1 := upd_queue (λ q, q ++ (task <$> ws)) (sched (wk w))) in *.
  set (woken := drop (length (ready_queue (sched (wk w)))) (ready_queue s1)).
  set (w1 := upd_wk (upd_parked (λ l, list_difference l woken) (upd_sched s1 (wk w))) (upd_wt h w)).
  assert (wake_timers fuel time w = Ok (tt, w1)) as Hwake.
  { unfold wake_timers, mbind, M_bind, get, check_timer, lift_result. by rewrite E. }
  unfold trap_handler. erewrite bind_ok.
  2: { apply on_kernel_eq. unfold on_sched, zoom, current_task, gets. by rewrite Ht, upd_sched_id. }
  erewrite bind_ok by exact Hwake. erewrite bind_ok by reflexivity.
  assert (cur s1 = Some t) as Ht1 by exact Ht.
  erewrite bind_ok.
  2: { unfold on_kernel, zoom, Kernel.on_sched, zoom. cbn [wk w1 upd_wk sched upd_parked upd_sched]. by rewrite (suspend_eq s1 t Ht1). }
  unfold leave_call. erewrite bind_ok by reflexivity. eexists _, ws. split; [reflexivity|].
  cbn. split_and!; try done. by rewrite <- app_assoc.
Qed.

(** The next task to run, in the middle of call [c]. *)
Record next_call {St H} (w : World St H) (t : Z) (tb : TaskControlBlock) (p : Z) (pb : ProcessControlBlock)
    (r : TaskUserRes) (c : Call) : Prop := {
  nc_cur : cur (sched (wk w)) = None;
  nc_ready : ∃ q, ready_queue (sched (wk w)) = t :: q;
  nc_tcb : tcbs (sched (wk w)) !! t = Some tb;
  nc_process : process tb = p ∧ res tb = Some r;
  nc_pcb : pcbs (wk w) !! p = Some pb ∧ p ∉ borrowed (wk w);
  nc_call : wc w !! t = Some c;
  nc_signals : check_error (signals pb) = None
}.

Lemma current_tcb_eq {A} k t tb p pb (f : TaskControlBlock → M Kernel A) : running k t tb p pb →
  (o ← on_sched current_task; t ← unwrap o; b ← tcb_of t; f b) k = f tb k.
Proof.
  intros [R1 R2 _ _ _]. erewrite bind_ok.
  2: { unfold on_sched, zoom, current_task, gets. by rewrite R1, upd_sched_id. }
  erewrite bind_ok by reflexivity. eapply bind_ok. unfold tcb_of. erewrite bind_ok by reflexivity. unfold unwrap. by rewrite R2.
Qed.

(** Without a pending signal the trap ends in user mode. *)
Lemma end_trap_eq {St H} (w : World St H) t tb p pb r :
  running (wk w) t tb p pb → res tb = Some r → check_error (signals pb) = None →
  end_trap w = Ok (ToUser (trap_cx_user_va r) (ms_token (memory_set pb)), w).
Proof.
  intros Hr Hres Hs. unfold end_trap, mbind, M_bind.
  rewrite (on_kernel_eq _ w _ (check_signals_eq _ _ _ _ _ Hr)). rewrite Hs.
  unfold trap_return, mbind, M_bind. rewrite (on_kernel_eq _ w (trap_cx_user_va r)).
  2: { unfold current_trap_cx_user_va. rewrite (current_tcb_eq _ _ _ _ _ _ Hr). by rewrite Hres. }
  rewrite (on_kernel_eq _ w (ms_token (memory_set pb))); [done|].
  unfold current_user_token, mbind, M_bind. rewrite (current_process_eq _ _ _ _ _ Hr), (access_eq p id (wk w) pb) by apply Hr.
  by rewrite upd_pcbs_id.
Qed.

(** The value of a call goes to [x10]. *)
Lemma finish_value_eq {St H} (w : World St H) t tb p pb r v :
  running (wk w) t tb p pb → res tb = Some r → check_error (signals pb) = None →
  finish_call t (Value v) w = Ok (ToUser (trap_cx_user_va r) (ms_token (memory_set pb)),
    upd_wk (upd_mm (upd_mem (λ m, set_word m (trap_cx_ppn tb) 10 (wrap64 v)) (mm (wk w))) (wk w)) w).
Proof.
  intros Hr Hres Hs. unfold finish_call, mbind, M_bind. rewrite (on_kernel_eq _ w (trap_cx_ppn tb)).
  2: { unfold current_trap_cx. by rewrite (current_tcb_eq _ _ _ _ _ _ Hr). }
  unfold put_x, write_mem, on_mm. unfold on_kernel, zoom, modify.
  eapply end_trap_eq; [|exact Hres|exact Hs]. by destruct Hr.
Qed.

(** A task that was switched away in the middle of a trap goes on when it is
    dispatched: a preempted task returns to user mode with its registers and memory
    as they were, and a call that had only to return delivers its value in [x10],
    once; other calls in progress, processes and memory are untouched. *)
Theorem dispatch_resumes_call {St H} `{HS : BlockStore St} `{!BinaryHeap H} (w : World St H) t tb p pb r c :
  next_call w t tb p pb r c →
  (todo c = TTrap → ∃ w', dispatch w = Ok (Some (ToUser (trap_cx_user_va r) (ms_token (memory_set pb))), w') ∧
     cur (sched (wk w')) = Some t ∧ wc w' = delete t (wc w) ∧ mm (wk w') = mm (wk w) ∧ pcbs (wk w') = pcbs (wk w)) ∧
  (∀ v, todo c = TReturn v → ∃ w', dispatch w = Ok (Some (ToUser (trap_cx_user_va r) (ms_token (memory_set pb))), w') ∧
     cur (sched (wk w')) = Some t ∧ wc w' = delete t (wc w) ∧
     mem (mm (wk w')) = set_word (mem (mm (wk w))) (trap_cx_ppn tb) 10 (wrap64 v) ∧ pcbs (wk w') = pcbs (wk w)).
Proof.
  intros [N1 [q N2] N3 [N4 N5] [N6 N7] N8 N9].
  set (s1 := {| ready_queue := q; cur := Some t; idle_task_cx := cpu (sched (wk w)); cpu := task_cx tb;
                tcbs := alter (set_status Running) t (tcbs (sched (wk w))) |}).
  set (w1 := upd_wc (delete t (wc w))
    (upd_wf (upd_held (remove_each (option_list (c_file c)) (held_files (wf w))) (wf w))
      (upd_wk (upd_stack_refs (remove_each (option_list (c_process c))) (upd_sched s1 (wk w))) w))).
  assert (running (wk w1) t (set_status Running tb) p pb) as Hr.
  { split; try done. simpl. by rewrite lookup_alter_eq, N3. }
  assert (dispatch w = (e ← resume_call t c; mret (Some e)) w1) as ->.
  { unfold dispatch, mbind at 1, M_bind at 1, on_kernel, zoom, Kernel.on_sched, zoom.
    rewrite (run_next_eq _ _ _ _ N2 N3). fold s1. unfold mbind at 1, M_bind at 1, get, mbind at 1, M_bind at 1, unwrap.
    cbn [wk upd_wk sched upd_sched cur s1]. unfold mret at 1, M_ret at 1. cbn [wc upd_wk]. rewrite N8.
    unfold mbind at 1, M_bind at 1, take_call, modify. done. }
  unfold mbind, M_bind. split.
  - intros Hc. exists w1. unfold resume_call. rewrite Hc, (end_trap_eq _ _ _ _ _ r Hr N5 N9). done.
  - intros v Hc. eexists. unfold resume_call. rewrite Hc, (finish_value_eq _ _ _ _ _ r v Hr N5 N9).
    split; [reflexivity|]. done.
Qed.

(** ** System calls *)

(** The program counter of the trapped task is past its [ecall]. *)
Definition past_ecall {St H} (ppn : Z) (w : World St H) : World St H :=
  upd_wk (upd_mm (upd_mem (λ m, set_word m ppn TC_SEPC (wrap64 (get_word m ppn TC_SEPC + 4))) (mm (wk w))) (wk w)) w.

Lemma trap_ecall_eq {St H} `{HS : BlockStore St} `{!BinaryHeap H} efs fuel elf tr th stramp sstatus
    (w : World St H) t tb p pb time :
  running (wk w) t tb p pb →
  let w1 := past_ecall (trap_cx_ppn tb) w in
  let x i := get_word (mem (mm (wk w1))) (trap_cx_ppn tb) i in
  trap_handler efs fuel elf tr th stramp sstatus UserEnvCall time w =
    (r ← syscall efs fuel elf tr th stramp sstatus time (x 17) (x 10) (x 11) (x 12); finish_call t r) w1.
Proof.
  intros Hr w1 x. unfold trap_handler. erewrite bind_ok.
  2: { apply on_kernel_eq. unfold on_sched, zoom, current_task, gets. by rewrite (ru_cur _ _ _ _ _ Hr), upd_sched_id. }
  erewrite bind_ok by reflexivity. erewrite bind_ok.
  2: { apply on_kernel_eq. unfold current_trap_cx. by rewrite (current_tcb_eq _ _ _ _ _ _ Hr). }
  erewrite bind_ok by by apply on_kernel_eq.
  erewrite bind_ok by reflexivity. change (upd_wk _ w) with w1.
  do 4 (erewrite bind_ok by by apply on_kernel_eq). done.
Qed.

(** C3: The system call convention.  An [ecall] of the running task runs the call
    that [a7] and [a0]..[a2] of its trap context select, after [sepc] has moved
    past the instruction; a call that ends with a value and with no signal pending
    returns to user mode with this value in [a0] of the trap context the task then
    has (the new one, after [exec]) and no other change; a number that is no system
    call stops the kernel. *)
Theorem ecall_convention {St H} `{HS : BlockStore St} `{!BinaryHeap H} efs fuel elf tr th stramp sstatus
    (w : World St H) t tb p pb time :
  running (wk w) t tb p pb →
  let w1 := past_ecall (trap_cx_ppn tb) w in
  let x i := get_word (mem (mm (wk w1))) (trap_cx_ppn tb) i in
  match decode (x 17) (x 10) (x 11) (x 12) with
  | None => trap_handler efs fuel elf tr th stramp sstatus UserEnvCall time w = Panic PExplicit
  | Some rq => ∀ v w2 tb2 pb2 r2, run_request efs fuel elf tr th stramp sstatus time rq w1 = Ok (Value v, w2) →
      running (wk w2) t tb2 p pb2 → res tb2 = Some r2 → check_error (signals pb2) = None →
      trap_handler efs fuel elf tr th stramp sstatus UserEnvCall time w =
        Ok (ToUser (trap_cx_user_va r2) (ms_token (memory_set pb2)),
            upd_wk (upd_mm (upd_mem (λ m, set_word m (trap_cx_ppn tb2) 10 (wrap64 v)) (mm (wk w2))) (wk w2)) w2)
  end.
Proof.
  intros Hr w1 x. rewrite (trap_ecall_eq efs fuel elf tr th stramp sstatus w t tb p pb time Hr). fold w1 x.
  unfold syscall. destruct (decode _ _ _ _) as [rq|]; [|done].
  intros v w2 tb2 pb2 r2 E Hr2 Hres Hs. erewrite bind_ok by exact E. by apply finish_value_eq with p.
Qed.

Lemma getpid_value {St H} `{HS : BlockStore St} `{!BinaryHeap H} efs fuel elf tr th stramp sstatus (w : World St H) t tb p pb time :
  running (wk w) t tb p pb →
  run_request efs fuel elf tr th stramp sstatus time RGetpid w = Ok (Value (pid pb), w).
Proof.
  intros Hr. cbn [run_request]. unfold value. erewrite bind_ok; [done|]. apply on_kernel_eq.
  unfold Syscall.sys_getpid. erewrite bind_ok by by eapply current_process_eq.
  unfold pcb_of. erewrite bind_ok; [done|]. erewrite bind_ok by done. unfold unwrap. by rewrite (ru_pcb _ _ _ _ _ Hr).
Qed.

Lemma running_past_ecall {St H} ppn (w : World St H) t tb p pb :
  running (wk w) t tb p pb → running (wk (past_ecall ppn w)) t tb p pb.
Proof. intros [R1 R2 R3 R4 R5]. by split. Qed.

(** ** Witnesses *)

Definition trap_world (k : Kernel) (calls : gmap Z Call) : World demo_store (list TimerCondVar) :=
  mkWorld k {| mutexes := ∅; semaphores := ∅; condvars := ∅ |} demo_heap
    (mkFiles (BlockCacheManager_new demo_file) ∅ ∅ [] [] []) calls.
Abbreviation demo_handler := (trap_handler demo_efs 9 (λ _, None) 0x80200000 0x80200100 0x80201000 0).

(** The only task, about to return from [ecall] with [a7 = n]. *)
Definition ecall_kernel (n : Z) : Kernel :=
  demo_kernel (upd_mem (λ m, set_word m (trap_cx_ppn demo_tcb1) 17 n) demo_mm) demo_ms [Some 1].
Lemma ecall_running n : running (ecall_kernel n) 1 demo_tcb1 0 (demo_pcb demo_ms [Some 1]).
Proof. apply demo_running. Qed.

Lemma ecall_decoded a0 a1 a2 : decode (get_word (mem (mm (wk (past_ecall (trap_cx_ppn demo_tcb1) (trap_world (ecall_kernel SYSCALL_GETPID) ∅)))))
    (trap_cx_ppn demo_tcb1) 17) a0 a1 a2 = Some RGetpid.
Proof.
  match goal with |- decode ?x _ _ _ = _ => assert (x = 172) as -> by (vm_compute; reflexivity) end. reflexivity.
Qed.

Lemma ecall_convention_witness :
  demo_handler UserEnvCall 0 (trap_world (ecall_kernel 6) ∅) = Panic PExplicit ∧
  ∃ va satp w', demo_handler UserEnvCall 0 (trap_world (ecall_kernel SYSCALL_GETPID) ∅) = Ok (ToUser va satp, w').
Proof.
  split.
  - apply (ecall_convention demo_efs 9 (λ _, None) 0x80200000 0x80200100 0x80201000 0
      (trap_world (ecall_kernel 6) ∅) 1 demo_tcb1 0 (demo_pcb demo_ms [Some 1]) 0 (ecall_running 6)).
  - pose proof (ecall_convention demo_efs 9 (λ _, None) 0x80200000 0x80200100 0x80201000 0
      (trap_world (ecall_kernel SYSCALL_GETPID) ∅) 1 demo_tcb1 0 (demo_pcb demo_ms [Some 1]) 0 (ecall_running _)) as Hc.
    cbv zeta in Hc. rewrite ecall_decoded in Hc. cbv beta iota in Hc.
    pose proof (running_past_ecall (trap_cx_ppn demo_tcb1) (trap_world (ecall_kernel SYSCALL_GETPID) ∅) _ _ _ _ (ecall_running _)) as Hr.
    specialize (Hc _ _ _ _ _ (getpid_value _ _ _ _ _ _ _ _ _ _ _ _ _ Hr) Hr eq_refl eq_refl).
    exact (ex_intro _ _ (ex_intro _ _ (ex_intro _ _ Hc))).
Defined.


Lemma timer_preempts_witness : ∃ w' ws,
  demo_handler SupervisorTimer 500000 (trap_world (ecall_kernel 0) ∅) = Ok (Away, w') ∧ length ws = 2%nat ∧
  ready_queue (sched (wk w')) = ready_queue demo_s1 ++ (task <$> ws) ++ [1].
Proof.
  destruct (timer_preempts demo_efs 9 (λ _, None) 0x80200000 0x80200100 0x80201000 0 (trap_world (ecall_kernel 0) ∅) 1 500000)
    as (w' & ws & E & _ & Hw & _ & Hq & _); [reflexivity|exact demo_times|simpl; lia|].
  exists w', ws. split_and!; [exact E| |exact Hq]. apply Permutation_length in Hw. rewrite Hw. by vm_compute.
Defined.

(** The same task, preempted and at the head of the queue. *)
Definition preempted_kernel : Kernel :=
  {| mm := demo_mm; kernel_space := demo_ms; kstack_ids := RecycleAllocator_new; pid_ids := RecycleAllocator_new;
     sched := {| ready_queue := [1]; cur := None; idle_task_cx := idle_task_cx demo_s1; cpu := cpu demo_s1; tcbs := {[ 1 := demo_tcb ]} |};
     pcbs := {[ 0 := demo_pcb demo_ms [Some 1] ]}; pid2pcb := {[ 1 := 0 ]}; borrowed := ∅;
     parked := []; stack_refs := []; next_obj := 100; initproc := 0 |}.

Lemma dispatch_resumes_call_witness : ∃ e w',
  dispatch (trap_world preempted_kernel {[ 1 := {| todo := TReturn 5; c_process := Some 0; c_file := None |} ]}) = Ok (Some e, w') ∧
  get_word (mem (mm (wk w'))) (trap_cx_ppn demo_tcb) 10 = 5.
Proof.
  edestruct (dispatch_resumes_call (trap_world preempted_kernel {[ 1 := {| todo := TReturn 5; c_process := Some 0; c_file := None |} ]})
    1 demo_tcb 0 (demo_pcb demo_ms [Some 1])) as [_ Hv].
  { split; [done|by exists []|done|done|split; [done|set_solver]|done|done]. }
  destruct (Hv 5 eq_refl) as (w' & E & _ & _ & Hm & _). eexists _, w'. split; [exact E|]. by rewrite Hm.
Defined.

Lemma fault_ends_process_witness : ∃ x w', demo_handler StorePageFault 0 (trap_world (exit_kernel x) ∅) = Ok (Away, w').
Proof.
  destruct exit_kernel_ready as (x & owned & a1 & a2 & Hx).
  destruct (fault_ends_process demo_efs 9 (λ _, None) 0x80200000 0x80200100 0x80201000 0 (trap_world (exit_kernel x) ∅)
    StorePageFault SIGSEGV 0 0x80500 owned {[0]} 1 demo_tcb1 0
    (set_space (sp_ms x) (sp_ids x) (demo_pcb (sp_ms x) [Some 1])) {| tid := 0; ustack_base := 0x10000 |} a1 a2 (demo_pcb demo_ms [])
    eq_refl Hx) as (w' & code & owned' & E & _). exact (ex_intro _ x (ex_intro _ w' E)).
Defined.
