(* ===== verification/Argv.v ===== *)
(** * The arguments of a program

    [exec] of [os/src/task/process.rs] puts the arguments on the stack of the new
    program, through the translation of its address space; [_start] of
    [user/src/lib.rs] reads them back with loads of the program's own. *)

From S2P Require Import Prelude Address FrameAllocator PageTable UserBuffer MemorySet TaskId Kernel World Process Exit FileCalls.

(** ** [_start]

    The program's memory is a function from addresses to bytes. *)

Fixpoint load_le (n : nat) (f : Z → Z) (a : Z) : Z :=
  match n with
  | O => 0
  | S n => f a + 256 * load_le n f (a + 1)
  end.
Definition load_usize (f : Z → Z) (a : Z) : Z := load_le 8 f a.

(** [(0usize..).find(|i| ... == 0)], from [i]. *)
Fixpoint find_zero (fuel : nat) (f : Z → Z) (str_start i : Z) : option Z :=
  match fuel with
  | O => None
  | S fuel => if f (wrap64 (str_start + i)) =? 0 then Some i else find_zero fuel f str_start (i + 1)
  end.

(** [from_utf8(from_raw_parts(str_start, len)).unwrap()]. *)
Definition start_arg (fuel : nat) (f : Z → Z) (str_start : Z) : option (result (list Z)) :=
  match find_zero fuel f str_start 0 with
  | None => None
  | Some len =>
      let bs := (λ i, f (str_start + i)) <$> seqZ 0 len in
      Some (if valid_utf8 bs then Ok bs else Panic PUnwrap)
  end.

(** [for i in 0..argc]; [n] rounds are left. *)
Fixpoint start_args (fuel : nat) (f : Z → Z) (argv i : Z) (n : nat) (v : list (list Z)) : option (result (list (list Z))) :=
  match n with
  | O => Some (Ok v)
  | S n =>
      let str_start := load_usize f (wrap64 (argv + wrap64 (i * 8))) in
      match start_arg fuel f str_start with
      | Some (Ok s) => start_args fuel f argv (i + 1) n (vec_push v s)
      | Some (Panic e) => Some (Panic e)
      | None => None
      end
  end.
Definition _start (fuel : nat) (f : Z → Z) (argc argv : Z) : option (result (list (list Z))) :=
  start_args fuel f argv 0 (Z.to_nat argc) [].

(** ** A part of the address space that only data uses *)

Section stack.
Context (pt : PageTable) (lo hi : Z).
Implicit Types m : gmap Z page.

Record region m : Prop := {
  rg_wf : pt_wf m pt;
  rg_root : 0 <= root_ppn pt < 2 ^ 44;
  rg_lo : 0 <= lo;
  rg_hi : hi < 2 ^ 39;
  rg_mapped va : lo <= va < hi → translate m pt (floor va) ≠ None;
  rg_data va : lo <= va < hi → (user_loc m pt va).1 ∉ frames pt;
  rg_inj va va' : lo <= va < hi → lo <= va' < hi → user_loc m pt va = user_loc m pt va' → va = va'
}.

(** The byte at a user address. *)
Definition user_byte m (va : Z) : Z := loc_byte m (user_loc m pt va).

(** A store to [va]. *)
Definition user_store (va b : Z) m : gmap Z page := set_byte m (user_loc m pt va).1 (user_loc m pt va).2 b.

Lemma user_loc_offset m va : (user_loc m pt va).2 = page_offset va.
Proof. done. Qed.

Lemma user_store_agree m va b : region m → lo <= va < hi →
  (∀ q, q ∈ frames pt → page_of (user_store va b m) q = page_of m q) ∧
  (∀ va', user_loc (user_store va b m) pt va' = user_loc m pt va').
Proof.
  intros Hg Hva. assert (∀ q, q ∈ frames pt → page_of (user_store va b m) q = page_of m q) as Hag.
  { intros q Hq. unfold user_store, set_byte. rewrite page_of_insert_ne; [done|].
    intros <-. by apply (rg_data m Hg va). }
  split; [done|]. intros va'. unfold user_loc. by rewrite (proj2 (pt_wf_agree _ _ _ Hag (rg_wf _ Hg))).
Qed.

Lemma region_store m va b : region m → lo <= va < hi → region (user_store va b m).
Proof.
  intros Hg Hva. destruct (user_store_agree m va b Hg Hva) as [Hag Hloc].
  destruct (pt_wf_agree _ _ _ Hag (rg_wf _ Hg)) as [Hwf Htr]. destruct Hg as [G1 G2 G3 G4 G5 G6 G7]. split; try done.
  - intros va' Hva'. rewrite Htr. by apply G5.
  - intros va' Hva'. rewrite Hloc. by apply G6.
  - intros v v' Hv Hv'. rewrite !Hloc. by apply G7.
Qed.

Lemma user_byte_store m va b va' : region m → lo <= va < hi → lo <= va' < hi → 0 <= b < 256 →
  user_byte (user_store va b m) va' = if decide (va = va') then b else user_byte m va'.
Proof.
  intros Hg Hva Hva' Hb. unfold user_byte. rewrite (proj2 (user_store_agree m va b Hg Hva)).
  unfold user_store. rewrite loc_byte_set; [|apply page_offset_range|apply page_offset_range|done].
  destruct (decide (va = va')) as [->|Hne]; [by rewrite decide_True|]. rewrite decide_False; [done|].
  intros E. by apply Hne, (rg_inj m Hg).
Qed.

(** The memory has the bytes [f] in the region, and differs from [m0] nowhere
    else. *)
Record holds m0 (f : Z → Z) m : Prop := {
  hd_region : region m;
  hd_loc va : user_loc m pt va = user_loc m0 pt va;
  hd_bytes va : lo <= va < hi → user_byte m va = f va;
  hd_frame l : (∀ va, lo <= va < hi → user_loc m0 pt va ≠ l) → 0 <= l.2 → loc_byte m l = loc_byte m0 l
}.

Definition fn_set (a b : Z) (f : Z → Z) (a' : Z) : Z := if decide (a = a') then b else f a'.

Lemma holds_refl m : region m → holds m (user_byte m) m.
Proof. by split. Qed.

Lemma holds_store m0 f m va b : holds m0 f m → lo <= va < hi → 0 <= b < 256 →
  holds m0 (fn_set va b f) (user_store va b m).
Proof.
  intros [H1 H2 H3 H4] Hva Hb. split.
  - by apply region_store.
  - intros va'. by rewrite (proj2 (user_store_agree m va b H1 Hva)).
  - intros va' Hva'. rewrite user_byte_store by done. unfold fn_set. case_decide; [done|by apply H3].
  - intros l Hl H0. rewrite <- H4 by done. unfold user_store. rewrite loc_byte_set; [|apply page_offset_range|done|done].
    rewrite decide_False; [done|]. rewrite H2. by apply Hl.
Qed.

Lemma holds_ext m0 f g m : holds m0 f m → (∀ a, f a = g a) → holds m0 g m.
Proof. intros [H1 H2 H3 H4] Hfg. split; [done|done| |done]. intros va Hva. rewrite <- Hfg. by apply H3. Qed.

(** ** Stores of the kernel *)

(** A state in which the memory holds [f]. *)
Definition at_mem (k0 : Kernel) (f : Z → Z) (k : Kernel) : Prop :=
  ∃ m, k = upd_mm (upd_mem (λ _, m) (mm k0)) k0 ∧ holds (mem (mm k0)) f m.

Lemma wp_refmut k0 f k va (Q : Z → Kernel → Prop) : at_mem k0 f k → lo <= va < hi →
  (∀ pa, 0 <= pa < 2 ^ 56 → (floor pa, page_offset pa) = user_loc (mem (mm k)) pt va → Q pa k) →
  wp (refmut (token pt) va) Q k.
Proof.
  intros (m & -> & Hm) Hva HQ. pose proof (hd_region _ _ _ Hm) as Hg. pose proof (rg_lo _ Hg). pose proof (rg_hi _ Hg).
  unfold refmut. wp_steps. unfold translated_refmut. rewrite VirtAddr_from_mod, Z.mod_small by lia.
  cbn [mem mm upd_mm upd_mem]. destruct (translate m pt (floor va)) as [pte|] eqn:Ht; [|by destruct (rg_mapped _ Hg va)].
  assert (translate m (from_token (token pt)) (floor va) = Some pte) as Ht'.
  { rewrite <- Ht. apply translate_root, from_token_root, (rg_root _ Hg). }
  destruct (translate_va_loc _ _ _ _ Ht') as (pa & Hpa & Hf & Ho). rewrite Hpa. apply HQ; [by eapply translate_va_range|].
  cbn. unfold user_loc. by rewrite Hf, Ho, Ht.
Qed.

(** The store of a byte. *)
Lemma write_u8_store k pa va b : (floor pa, page_offset pa) = user_loc (mem (mm k)) pt va →
  write_u8 pa b (mem (mm k)) = user_store va b (mem (mm k)).
Proof. intros E. unfold write_u8, user_store. by rewrite <- E. Qed.

Lemma wp_push_byte k0 f k va b (Q : unit → Kernel → Prop) : at_mem k0 f k → lo <= va < hi → 0 <= b < 256 →
  (∀ k', at_mem k0 (fn_set va b f) k' → Q tt k') →
  wp (pa ← refmut (token pt) va; write_mem (write_u8 pa b)) Q k.
Proof.
  intros Hk Hva Hb HQ. wp_steps. eapply wp_refmut; [done..|]. intros pa _ Hpa. unfold write_mem, on_mm. apply wp_zoom. wp_steps.
  apply HQ. destruct Hk as (m & -> & Hm). exists (user_store va b m). split; [|by apply holds_store].
  cbn [mm upd_mm]. unfold upd_mm, upd_mem. cbn [mem fa mm]. do 2 f_equal.
  by apply (write_u8_store (upd_mm (upd_mem (λ _, m) (mm k0)) k0)).
Qed.

(** The next byte of a page. *)
Lemma user_loc_next m va : page_offset va + 1 < PAGE_SIZE →
  ((user_loc m pt va).1, (user_loc m pt va).2 + 1) = user_loc m pt (va + 1).
Proof.
  intros Ho. unfold user_loc. cbn [fst snd]. rewrite !page_offset_mod in *. unfold floor, PAGE_SIZE in *.
  replace ((va + 1) / 4096) with (va / 4096) by zdiv. f_equal. zdiv.
Qed.

(** A word, byte by byte. *)
Fixpoint fn_le (n : nat) (va v : Z) (f : Z → Z) : Z → Z :=
  match n with
  | O => f
  | S n => fn_le n (va + 1) (Z.shiftr v 8) (fn_set va (Z.land v 255) f)
  end.

Lemma holds_write_le n : ∀ m0 f m pa va v, holds m0 f m → 0 <= pa < 2 ^ 56 →
  lo <= va → va + Z.of_nat n <= hi → page_offset va + Z.of_nat n <= PAGE_SIZE →
  (floor pa, page_offset pa) = user_loc m0 pt va ∨ n = 0%nat → holds m0 (fn_le n va v f) (write_le n pa v m).
Proof.
  induction n as [|n IH]; intros m0 f m pa va v Hm Hpa Hlo Hhi Hoff Hloc; [done|]. destruct Hloc as [Hloc|]; [|done].
  cbn [fn_le write_le]. rewrite wrap_small by lia.
  assert (write_u8 pa (Z.land v 255) m = user_store va (Z.land v 255) m) as ->.
  { unfold write_u8, user_store. by rewrite (hd_loc _ _ _ Hm), <- Hloc. }
  pose proof Hloc as [= Hf Ho]. pose proof (page_offset_range va) as Hr. rewrite !page_offset_mod in *. unfold PAGE_SIZE in *.
  destruct (decide (n = 0%nat)) as [->|Hn].
  { cbn [fn_le write_le]. apply holds_store; [done|lia|]. change 255 with (Z.ones 8). rewrite Z.land_ones by lia.
    apply Z.mod_pos_bound. lia. }
  apply IH; [|zdiv|lia|lia| |].
  - apply holds_store; [done|lia|]. change 255 with (Z.ones 8). rewrite Z.land_ones by lia. apply Z.mod_pos_bound. lia.
  - rewrite page_offset_mod. unfold PAGE_SIZE. zdiv.
  - left. rewrite <- (user_loc_next m0 va) by (rewrite page_offset_mod; unfold PAGE_SIZE; lia).
    rewrite <- Hloc. cbn [fst snd]. rewrite !page_offset_mod. unfold floor, PAGE_SIZE. f_equal; zdiv.
Qed.

Lemma wp_write_usize k0 f k pa va v (Q : unit → Kernel → Prop) : at_mem k0 f k → 0 <= pa < 2 ^ 56 →
  lo <= va → va + 8 <= hi → page_offset va + 8 <= PAGE_SIZE → (floor pa, page_offset pa) = user_loc (mem (mm k0)) pt va →
  (∀ k', at_mem k0 (fn_le 8 va v f) k' → Q tt k') → wp (write_mem (write_usize pa v)) Q k.
Proof.
  intros (m & -> & Hm) Hpa Hlo Hhi Hoff Hloc HQ. unfold write_mem, on_mm. apply wp_zoom. wp_steps. apply HQ.
  eexists. split; [reflexivity|]. apply (holds_write_le 8); [exact Hm|done|done|done|done|by left].
Qed.

(** The bytes of a string with its terminator. *)
Fixpoint fn_str (p : Z) (bs : list Z) (f : Z → Z) : Z → Z :=
  match bs with
  | [] => fn_set p 0 f
  | c :: bs => fn_str (p + 1) bs (fn_set p c f)
  end.

Lemma wp_push_str bs : ∀ k0 f k p (Q : unit → Kernel → Prop), at_mem k0 f k → bytes_ok bs →
  lo <= p → p + lengthZ bs < hi → (∀ k', at_mem k0 (fn_str p bs f) k' → Q tt k') →
  wp (push_str (token pt) p bs) Q k.
Proof.
  unfold lengthZ. induction bs as [|c bs IH]; intros k0 f k p Q Hk Hbs Hlo Hhi HQ; cbn [push_str fn_str] in *; simpl in Hhi.
  - eapply wp_push_byte; [done|lia|lia|done].
  - apply Forall_cons in Hbs as [Hc Hbs].
    assert (lo <= p < hi) as Hp by lia. destruct Hk as (m & Hk & Hm).
    pose proof (rg_hi _ (hd_region _ _ _ Hm)). pose proof (rg_lo _ (hd_region _ _ _ Hm)).
    assert (∀ A (B : M Kernel A), (pa ← refmut (token pt) p; _ ← write_mem (write_u8 pa c); B) k =
      (_ ← (pa ← refmut (token pt) p; write_mem (write_u8 pa c)); B) k) as Hassoc.
    { intros A B. unfold mbind, M_bind. destruct (refmut _ _ _) as [[]|]; done. }
    unfold wp. rewrite Hassoc. apply wp_bind. eapply wp_push_byte; [by exists m|done|done|]. intros k' Hk'.
    rewrite wrap_small by lia. eapply IH; [exact Hk'|done|lia|lia|done].
Qed.

Lemma wp_refmuts vas : ∀ k0 f k (Q : list Z → Kernel → Prop), at_mem k0 f k → Forall (λ va, lo <= va < hi) vas →
  (∀ pas, Forall2 (λ pa va, 0 <= pa < 2 ^ 56 ∧ (floor pa, page_offset pa) = user_loc (mem (mm k0)) pt va) pas vas → Q pas k) →
  wp (refmuts (token pt) vas) Q k.
Proof.
  induction vas as [|va vas IH]; intros k0 f k Q Hk Hvas HQ; cbn [refmuts].
  { wp_steps. by apply HQ. }
  apply Forall_cons in Hvas as [Hva Hvas]. wp_steps. eapply wp_refmut; [done..|]. intros pa Hpa Hloc. wp_steps.
  eapply IH; [done..|]. intros pas Hpas. wp_steps. apply HQ. constructor; [|done]. split; [done|].
  destruct Hk as (m & -> & Hm). rewrite Hloc. apply (hd_loc _ _ _ Hm).
Qed.
End stack.

(** ** Words and strings in memory *)

Lemma fn_le_spec n : ∀ va v f a, fn_le n va v f a =
  if decide (va <= a < va + Z.of_nat n) then Z.land (Z.shiftr v (8 * (a - va))) 255 else f a.
Proof.
  induction n as [|n IH]; intros va v f a; cbn [fn_le]; [by rewrite decide_False by lia|].
  rewrite IH. unfold fn_set. destruct (decide (va = a)) as [->|Hne].
  - rewrite decide_False by lia. rewrite decide_True by lia. by rewrite Z.sub_diag, Z.shiftr_0_r.
  - destruct (decide (va + 1 <= a < va + 1 + Z.of_nat n)).
    + rewrite decide_True by lia. rewrite Z.shiftr_shiftr by lia. do 2 f_equal. lia.
    + by rewrite decide_False by lia.
Qed.

Lemma load_le_spec n : ∀ f a v, 0 <= v →
  (∀ i, 0 <= i < Z.of_nat n → f (a + i) = Z.land (Z.shiftr v (8 * i)) 255) → load_le n f a = v mod 2 ^ (8 * Z.of_nat n).
Proof.
  induction n as [|n IH]; intros f a v Hv Hf; cbn [load_le]; [by rewrite Z.mod_1_r|].
  rewrite (IH f (a + 1) (Z.shiftr v 8)).
  - specialize (Hf 0 ltac:(lia)). rewrite Z.add_0_r, Z.shiftr_0_r in Hf. rewrite Hf. change 255 with (Z.ones 8).
    rewrite Z.land_ones, Z.shiftr_div_pow2 by lia.
    replace (8 * Z.of_nat (S n)) with (8 + 8 * Z.of_nat n) by lia. rewrite Z.pow_add_r by lia.
    change (2 ^ 8) with 256. symmetry. apply Z.rem_mul_r; [lia|]. apply Z.pow_pos_nonneg; lia.
  - apply Z.shiftr_nonneg. done.
  - intros i Hi. replace (a + 1 + i) with (a + (i + 1)) by lia. rewrite Hf by lia.
    rewrite Z.shiftr_shiftr by lia. do 2 f_equal. lia.
Qed.

Lemma load_usize_le f g a v : 0 <= v < 2 ^ 64 → (∀ i, 0 <= i < 8 → g (a + i) = fn_le 8 a v f (a + i)) → load_usize g a = v.
Proof.
  intros Hv Hg. unfold load_usize. rewrite (load_le_spec 8 _ _ v); [by apply Z.mod_small|lia|].
  intros i Hi. rewrite Hg by lia. rewrite fn_le_spec, decide_True by lia. do 2 f_equal. lia.
Qed.

(** The string [bs] is at [p]. *)
Definition str_at (f : Z → Z) (p : Z) (bs : list Z) : Prop := ∀ i b, (bs ++ [0]) !! i = Some b → f (p + Z.of_nat i) = b.

Lemma fn_str_other bs : ∀ p f a, ¬ (p <= a <= p + lengthZ bs) → fn_str p bs f a = f a.
Proof.
  unfold lengthZ. induction bs as [|c bs IH]; intros p f a Ha; cbn [fn_str]; simpl in Ha.
  - unfold fn_set. rewrite decide_False by lia. done.
  - rewrite IH by lia. unfold fn_set. rewrite decide_False by lia. done.
Qed.

Lemma fn_str_at bs : ∀ p f, str_at (fn_str p bs f) p bs.
Proof.
  induction bs as [|c bs IH]; intros p f i b Hi; cbn [fn_str].
  - destruct i; [|done]. simpl in Hi. simplify_eq. unfold fn_set. rewrite decide_True by lia. done.
  - destruct i as [|i].
    + simpl in Hi. simplify_eq. rewrite fn_str_other by lia. unfold fn_set. rewrite decide_True by lia. done.
    + replace (p + Z.of_nat (S i)) with (p + 1 + Z.of_nat i) by lia. by apply IH.
Qed.

(** ** The loop over the arguments *)

Definition args_size (args : list (list Z)) : Z := foldr (λ a n, lengthZ a + 1 + n) 0 args.
Lemma args_size_cons a args : args_size (a :: args) = lengthZ a + 1 + args_size args.
Proof. done. Qed.
Lemma args_size_pos args : 0 <= args_size args.
Proof. induction args; simpl; unfold lengthZ in *; lia. Qed.

(** The argument [j] is where slot [j] of the array at [base] points. *)
Definition args_at (f : Z → Z) (lo hi base : Z) (args : list (list Z)) : Prop :=
  ∀ j arg, args !! j = Some arg → ∃ ptr, load_usize f (base + 8 * Z.of_nat j) = ptr ∧
    lo <= ptr ∧ ptr + lengthZ arg < hi ∧ str_at f ptr arg.

Lemma args_at_cons f lo hi base arg args ptr :
  load_usize f base = ptr → lo <= ptr → ptr + lengthZ arg < hi → str_at f ptr arg →
  args_at f lo hi (base + 8) args → args_at f lo hi base (arg :: args).
Proof.
  intros H1 H2 H3 H4 Ha [|j] a Hj; simpl in Hj.
  - simplify_eq. rewrite Z.add_0_r. by eexists.
  - destruct (Ha j a Hj) as (q & Hq & Hrest). exists q. split; [|done]. rewrite <- Hq. f_equal. lia.
Qed.

(** The slots from [base] on are 8-aligned words of the region, whose physical
    addresses are in [argv]. *)
Definition slots (pt : PageTable) (m0 : gmap Z page) (argv : list Z) (base : Z) : Prop :=
  ∀ j pa, argv !! j = Some pa → 0 <= pa < 2 ^ 56 ∧
    (floor pa, page_offset pa) = user_loc m0 pt (base + 8 * Z.of_nat j).

Lemma slots_cons pt m0 pa argv base : slots pt m0 (pa :: argv) base →
  (0 <= pa < 2 ^ 56 ∧ (floor pa, page_offset pa) = user_loc m0 pt base) ∧ slots pt m0 argv (base + 8).
Proof.
  intros Hs. split.
  - pose proof (Hs 0%nat pa eq_refl) as H. by rewrite Z.add_0_r in H.
  - intros j q Hj. replace (base + 8 + 8 * Z.of_nat j) with (base + 8 * Z.of_nat (S j)) by lia. by apply Hs.
Qed.

Lemma aligned_slot a : a mod 8 = 0 → page_offset a + 8 <= PAGE_SIZE.
Proof. rewrite page_offset_mod. unfold PAGE_SIZE. intros. zdiv. Qed.

Lemma wp_push_args pt lo hi args : ∀ k0 f k argv base sp (Q : Z → Kernel → Prop),
  at_mem pt lo hi k0 f k → slots pt (mem (mm k0)) argv base → (length args <= length argv)%nat →
  base mod 8 = 0 → sp <= base → base + 8 * lengthZ args <= hi → hi < 2 ^ 39 → 0 <= lo → lo <= sp - args_size args →
  Forall bytes_ok args →
  (∀ f' k', at_mem pt lo hi k0 f' k' → args_at f' lo hi base args →
     (∀ a, a < sp - args_size args ∨ sp <= a < base ∨ base + 8 * lengthZ args <= a → f' a = f a) →
     Q (sp - args_size args) k') →
  wp (push_args (token pt) argv args sp) Q k.
Proof.
  induction args as [|arg args IH]; intros k0 f k argv base sp Q Hk Hs Hlen Hal Hsp Hhi Hmax Hlo Hfit Hb HQ.
  { simpl in *. rewrite Z.sub_0_r in HQ. destruct argv; cbn [push_args]; wp_steps; (eapply HQ; [exact Hk|by intros [] ?|done]). }
  destruct argv as [|slot argv]; [simpl in Hlen; lia|]. apply Forall_cons in Hb as [Hb Hbs].
  apply slots_cons in Hs as [[Hpa Hloc] Hs]. pose proof (args_size_pos args) as Hpos.
  cbn [push_args]. rewrite args_size_cons in *. unfold lengthZ in *. cbn [length] in *.
  rewrite wrap_small by lia. wp_steps.
  eapply (wp_write_usize _ _ _ _ _ _ _ base); [exact Hk|done|lia|lia|by apply aligned_slot|exact Hloc|]. intros k1 Hk1. wp_steps.
  set (sp1 := sp - (Z.of_nat (length arg) + 1)) in *.
  eapply wp_push_str; [exact Hk1|done|lia|unfold lengthZ; lia|]. intros k2 Hk2.
  eapply (IH k0 _ k2 argv (base + 8) sp1); [exact Hk2|exact Hs|lia| |lia|unfold lengthZ; lia|done|done|lia|done|].
  { rewrite Z.add_mod by lia. by rewrite Hal. }
  intros f' k3 Hk3 Hargs Hsame. replace (sp - (Z.of_nat (length arg) + 1 + args_size args)) with (sp1 - args_size args) in * by lia.
  assert (∀ a, sp1 <= a <= sp1 + lengthZ arg ∨ base <= a < base + 8 → f' a = fn_str sp1 arg (fn_le 8 base sp1 f) a) as Hold.
  { intros a Ha. apply Hsame. unfold lengthZ in *. lia. }
  apply (HQ f' k3); [done| |].
  - apply args_at_cons with sp1; [|lia|unfold lengthZ; lia| |done].
    + apply (load_usize_le f); [lia|]. intros i Hi. rewrite Hold by lia. apply fn_str_other. unfold lengthZ. lia.
    + intros i b Hi. pose proof (lookup_lt_Some _ _ _ Hi) as Hl. rewrite length_app in Hl. simpl in Hl.
      rewrite Hold by (unfold lengthZ; lia). by apply fn_str_at.
  - intros a Ha. rewrite Hsame by (unfold lengthZ; lia). rewrite fn_str_other by (unfold lengthZ; lia).
    rewrite fn_le_spec, decide_False by lia. done.
Qed.

Lemma load_le_agree n : ∀ f g a, (∀ i, 0 <= i < Z.of_nat n → f (a + i) = g (a + i)) → load_le n f a = load_le n g a.
Proof.
  induction n as [|n IH]; intros f g a Hfg; cbn [load_le]; [done|].
  pose proof (Hfg 0 ltac:(lia)) as H0. rewrite Z.add_0_r in H0. rewrite H0. f_equal. f_equal. apply IH.
  intros i Hi. replace (a + 1 + i) with (a + (i + 1)) by lia. apply Hfg. lia.
Qed.

Lemma args_at_agree f g lo hi base args : lo <= base → base + 8 * lengthZ args <= hi →
  (∀ a, lo <= a < hi → f a = g a) → args_at f lo hi base args → args_at g lo hi base args.
Proof.
  unfold lengthZ. intros Hlo Hhi Hfg Ha j arg Hj. destruct (Ha j arg Hj) as (ptr & Hp & H1 & H2 & Hs).
  pose proof (lookup_lt_Some _ _ _ Hj) as Hl. exists ptr. split_and!; [|done|done|].
  - rewrite <- Hp. symmetry. apply load_le_agree. intros i Hi. apply Hfg. lia.
  - intros i b Hi. pose proof (lookup_lt_Some _ _ _ Hi) as Hl2. rewrite length_app in Hl2. simpl in Hl2. unfold lengthZ in H2.
    rewrite <- Hfg by lia. by apply Hs.
Qed.

(** ** The program finds its arguments *)

Definition good_arg (a : list Z) : Prop := bytes_ok a ∧ Forall (λ b, b ≠ 0) a ∧ valid_utf8 a = true.

Lemma find_zero_ok f p bs : 0 <= p → p + lengthZ bs < 2 ^ 64 → str_at f p bs → Forall (λ b, b ≠ 0) bs →
  ∀ fuel i, 0 <= i <= lengthZ bs → lengthZ bs - i < Z.of_nat fuel → find_zero fuel f p i = Some (lengthZ bs).
Proof.
  unfold lengthZ. intros Hp Hmax Hs Hnz. induction fuel as [|fuel IH]; intros i Hi Hf; [lia|]. cbn [find_zero].
  rewrite wrap_small by lia. destruct (decide (i = Z.of_nat (length bs))) as [->|Hne].
  - rewrite (Hs (length bs) 0); [done|]. by rewrite lookup_app_r, Nat.sub_diag.
  - destruct (lookup_lt_is_Some_2 bs (Z.to_nat i)) as [b Hb]; [lia|].
    pose proof (Hs (Z.to_nat i) b ltac:(by apply lookup_app_l_Some)) as Hv. rewrite Z2Nat.id in Hv by lia. rewrite Hv.
    eapply Forall_lookup in Hnz; [|exact Hb]. rewrite (proj2 (Z.eqb_neq b 0)) by done. apply IH; lia.
Qed.

Lemma start_arg_ok f p bs fuel : 0 <= p → p + lengthZ bs < 2 ^ 64 → str_at f p bs → good_arg bs → (length bs < fuel)%nat →
  start_arg fuel f p = Some (Ok bs).
Proof.
  intros Hp Hmax Hs (_ & Hnz & Hu) Hf. unfold start_arg. rewrite (find_zero_ok f p bs) by (done || unfold lengthZ; lia).
  replace ((λ i, f (p + i)) <$> seqZ 0 (lengthZ bs)) with bs; [by rewrite Hu|].
  apply list_eq. intros i. rewrite list_lookup_fmap. unfold lengthZ. destruct (decide (i < length bs)%nat) as [Hi|Hi].
  - rewrite lookup_seqZ_lt by lia. destruct (lookup_lt_is_Some_2 bs i Hi) as [b Hb]. rewrite Hb. simpl. f_equal. symmetry.
    apply Hs. by apply lookup_app_l_Some.
  - rewrite lookup_seqZ_ge by lia. by apply lookup_ge_None_2; lia.
Qed.

Lemma start_args_ok f lo hi fuel : 0 <= lo → hi < 2 ^ 39 → ∀ args base i v,
  lo <= base + 8 * i → 0 <= i → base + 8 * i + 8 * lengthZ args <= hi → 0 <= base →
  args_at f lo hi (base + 8 * i) args → Forall good_arg args → Forall (λ a, (length a < fuel)%nat) args →
  start_args fuel f base i (length args) v = Some (Ok (v ++ args)).
Proof.
  intros Hlo Hhi. induction args as [|arg args IH]; intros base i v H1 Hi H2 Hb Ha Hg Hf.
  { simpl. by rewrite app_nil_r. }
  apply Forall_cons in Hg as [Hg Hgs]. apply Forall_cons in Hf as [Hf Hfs]. unfold lengthZ in *. cbn [length] in *.
  cbn [start_args]. rewrite (wrap_small _ (i * 8)), (wrap_small _ (base + i * 8)) by lia. destruct (Ha 0%nat arg eq_refl) as (ptr & Hp & H3 & H4 & Hs).
  replace (base + i * 8) with (base + 8 * i + 8 * Z.of_nat 0) by lia. rewrite Hp.
  rewrite (start_arg_ok f ptr arg) by (done || unfold lengthZ in *; lia). rewrite (IH base (i + 1) (vec_push v arg)); try done; try lia.
  - unfold vec_push. by rewrite <- app_assoc.
  - intros j a Hj. replace (base + 8 * (i + 1) + 8 * Z.of_nat j) with (base + 8 * i + 8 * Z.of_nat (S j)) by lia. by apply Ha.
Qed.

Lemma refmuts_slots pt m0 pas base n :
  Forall2 (λ pa va, 0 <= pa < 2 ^ 56 ∧ (floor pa, page_offset pa) = user_loc m0 pt va) pas
    ((λ i, wrap64 (base + i * 8)) <$> seqZ 0 n) → 0 <= base → base + 8 * n < 2 ^ 64 → slots pt m0 pas base.
Proof.
  intros Hp Hb Hmax j pa Hj. destruct (Forall2_lookup_l _ _ _ _ _ Hp Hj) as (va & Hva & H).
  rewrite list_lookup_fmap in Hva. destruct (seqZ 0 n !! j) as [i|] eqn:E; [|done]. apply lookup_seqZ in E as [-> Hlt].
  simpl in Hva. simplify_eq. rewrite wrap_small in H by lia.
  by replace (base + 8 * Z.of_nat j) with (base + (0 + Z.of_nat j) * 8) by lia.
Qed.

Section round_trip.
Context (pt : PageTable) (lo top : Z) (k : Kernel) (args : list (list Z)).
Context (Hg : region pt lo top (mem (mm k))) (Htop : top mod 8 = 0) (Hlo8 : lo mod 8 = 0).
Context (Hfit : lo <= top - 8 * (lengthZ args + 1) - args_size args) (Hgood : Forall good_arg args).
Abbreviation base := (top - 8 * (lengthZ args + 1)).

Lemma wp_push_arguments :
  wp (push_arguments (token pt) top args) (λ r k', ∃ f', r = (base, let sp := base - args_size args in sp - sp mod 8) ∧
    at_mem pt lo top k f' k' ∧ args_at f' lo top base args ∧ load_usize f' (base + 8 * lengthZ args) = 0 ∧
    ∀ a, a < base - args_size args → f' a = user_byte pt (mem (mm k)) a) k.
Proof.
  pose proof (args_size_pos args) as Hpos. pose proof (rg_lo _ _ _ _ Hg) as H0. pose proof (rg_hi _ _ _ _ Hg) as H1.
  assert (0 <= lengthZ args) as Hn by (unfold lengthZ; lia).
  assert (at_mem pt lo top k (user_byte pt (mem (mm k))) k) as Hk.
  { exists (mem (mm k)). split; [|by apply holds_refl]. destruct k as [[] ? ? ? ? ? ? ? ? ? ? ?]. done. }
  unfold push_arguments. rewrite (wrap_small _ ((lengthZ args + 1) * 8)) by lia.
  replace (top - (lengthZ args + 1) * 8) with base by lia. rewrite (wrap_small _ base) by lia. wp_steps.
  eapply wp_refmuts; [exact Hk| |].
  { apply Forall_fmap, Forall_forall. intros i Hi%elem_of_seqZ. cbn [compose]. unfold compose. rewrite wrap_small by lia. lia. }
  intros pas Hpas. wp_steps. pose proof (refmuts_slots _ _ _ _ _ Hpas ltac:(lia) ltac:(lia)) as Hs.
  pose proof (Forall2_length _ _ _ Hpas) as Hlen. rewrite length_fmap, length_seqZ in Hlen. unfold lengthZ in Hlen.
  destruct (lookup_lt_is_Some_2 pas (length args)) as [slot Hslot]; [lia|].
  apply wp_index with slot; [rewrite lookupZ_nat by done; unfold lengthZ; by rewrite Nat2Z.id|]. wp_steps.
  destruct (Hs _ _ Hslot) as [Hpa Hloc]. fold (lengthZ args) in *.
  assert (base mod 8 = 0) as Hal by zdiv.
  eapply (wp_write_usize _ _ _ _ _ _ _ (base + 8 * lengthZ args)); [exact Hk|done|lia|lia| |exact Hloc|].
  { apply aligned_slot. zdiv. }
  intros k1 Hk1. wp_steps. eapply wp_push_args; [exact Hk1|exact Hs|unfold lengthZ in Hlen; lia|done|lia|lia|done|done|lia| |].
  { eapply Forall_impl; [exact Hgood|]. by intros a (? & _). }
  intros f' k2 Hk2 Hargs Hsame. wp_steps. exists f'. split_and!; [done|done|done| |].
  - apply (load_usize_le (user_byte pt (mem (mm k)))); [lia|]. intros i Hi. apply Hsame. lia.
  - intros a Ha. rewrite Hsame by lia. rewrite fn_le_spec, decide_False by lia. done.
Qed.
End round_trip.

(** A framed area of an address space is such a part of it. *)
Lemma area_region lo owned s ms a : ms_inv lo owned s ms → a ∈ areas ms → map_type a = Framed → range_r (vpn_range a) < 2 ^ 27 →
  region (page_table ms) (range_l (vpn_range a) * 4096) (range_r (vpn_range a) * 4096) (mem s).
Proof.
  intros Hi Ha Hfr Hr27. pose proof (mi_wf _ _ _ _ Hi a Ha) as Hwf. pose proof (mi_ok _ _ _ _ Hi a Ha) as Hok.
  unfold area_ok in Hok. rewrite Hfr in Hok. destruct Hok as [Hdom Hmap]. pose proof (inv_wf _ _ _ _ (mi_pt _ _ _ _ Hi)) as Hpt.
  assert (∀ va, range_l (vpn_range a) * 4096 <= va < range_r (vpn_range a) * 4096 → ∃ f pte,
    data_frames a !! floor va = Some f ∧ translate (mem s) (page_table ms) (floor va) = Some pte ∧ pte_ppn pte = f ∧
    f ∉ frames (page_table ms)) as Hpage.
  { intros va Hva. destruct (proj2 (Hdom (floor va))) as [f Hf].
    { apply elem_of_area_pages; [done|]. unfold floor, PAGE_SIZE. zdiv. }
    destruct (Hmap _ _ Hf) as (_ & Hnf & Hm). destruct (mapping_translate _ _ _ _ _ Hm) as (pte & Ht & Hp). by exists f, pte. }
  apply list_elem_of_lookup in Ha as [j Hj]. destruct Hwf as (W1 & W2 & W3). split; [done| |lia|lia| | |].
  - apply (wf_range _ _ Hpt), (wf_reach _ _ Hpt []); [simpl; lia|done].
  - intros va Hva. destruct (Hpage va Hva) as (f & pte & _ & -> & _). done.
  - intros va Hva. destruct (Hpage va Hva) as (f & pte & _ & Ht & <- & Hnf). unfold user_loc. by rewrite Ht.
  - intros va va' Hva Hva' [= E1 E2]. destruct (Hpage va Hva) as (f & pte & Hf & Ht & Hp & _).
    destruct (Hpage va' Hva') as (f' & pte' & Hf' & Ht' & Hp' & _). rewrite Ht, Ht' in E1. simpl in E1.
    assert (f = f') as <- by congruence. destruct (mi_inj _ _ _ _ Hi j j a a _ _ f Hj Hj Hf Hf') as [_ E3].
    rewrite !page_offset_mod in E2. unfold floor, PAGE_SIZE in *. zdiv.
Qed.

(** C4: What [exec] puts on the stack of a program is what the program's [main] is
    called with.  In an address space that meets its invariant, if the stack area
    has room, storing the arguments through the program's page table succeeds;
    [_start], given the argument count and the address of the array, reads back
    exactly the argument strings; the array ends with a null pointer; the stack
    pointer is 8-aligned, in the stack and below all of this; and neither the
    translation of any address nor any byte outside the stack, or in it below the
    arguments, has changed. *)
Theorem exec_arguments_roundtrip flo owned k ms a args fuel :
  ms_inv flo owned (mm k) ms → a ∈ areas ms → map_type a = Framed → range_r (vpn_range a) < 2 ^ 27 →
  let pt := page_table ms in
  let lo := range_l (vpn_range a) * 4096 in
  let top := range_r (vpn_range a) * 4096 in
  lo <= top - 8 * (lengthZ args + 1) - args_size args →
  Forall good_arg args → Forall (λ a, (length a < fuel)%nat) args →
  ∃ argv sp m', push_arguments (ms_token ms) top args k = Ok ((argv, sp), upd_mm (upd_mem (λ _, m') (mm k)) k) ∧
    _start fuel (user_byte pt m') (lengthZ args) argv = Some (Ok args) ∧
    load_usize (user_byte pt m') (argv + 8 * lengthZ args) = 0 ∧
    sp mod 8 = 0 ∧ lo <= sp <= argv - args_size args ∧ argv < top ∧
    (∀ va, user_loc m' pt va = user_loc (mem (mm k)) pt va) ∧
    (∀ va, lo <= va < sp → user_byte pt m' va = user_byte pt (mem (mm k)) va) ∧
    (∀ l, 0 <= l.2 → (∀ va, lo <= va < top → user_loc (mem (mm k)) pt va ≠ l) → loc_byte m' l = loc_byte (mem (mm k)) l).
Proof.
  intros Hi Ha Hfr Hr27 pt lo top Hfit Hgood Hfuel. pose proof (area_region _ _ _ _ _ Hi Ha Hfr Hr27) as Hg.
  fold pt lo top in Hg. assert (top mod 8 = 0) as Htop by (unfold top; zdiv). assert (lo mod 8 = 0) as Hlo8 by (unfold lo; zdiv).
  clearbody lo top. pose proof (args_size_pos args) as Hpos. pose proof (rg_lo _ _ _ _ Hg).
  pose proof (rg_hi _ _ _ _ Hg). assert (0 <= lengthZ args) as Hn by (unfold lengthZ; lia).
  destruct (wp_ok _ _ _ (wp_push_arguments pt lo top k args Hg Htop Hfit Hgood))
    as (r & k' & E & f' & -> & (m' & -> & Hm) & Hargs & Hnull & Hlow). cbv zeta in *.
  set (base := top - 8 * (lengthZ args + 1)) in *. set (sp := base - args_size args) in *.
  assert (∀ a, lo <= a < top → f' a = user_byte pt m' a) as Hb by (intros v Hv; symmetry; by apply (hd_bytes _ _ _ _ _ _ Hm)).
  exists base, (sp - sp mod 8), m'. split_and!; [exact E| | |zdiv|zdiv|zdiv|lia|apply (hd_loc _ _ _ _ _ _ Hm)| |].
  - unfold _start. replace (Z.to_nat (lengthZ args)) with (length args) by (unfold lengthZ; lia).
    apply (start_args_ok _ lo top fuel ltac:(lia) ltac:(lia) args base 0 []); rewrite ?Z.mul_0_r, ?Z.add_0_r; try done; try lia.
    eapply args_at_agree; [lia| |exact Hb|exact Hargs]. lia.
  - rewrite <- Hnull. symmetry. apply load_le_agree. intros i Hi'. apply Hb. lia.
  - intros va Hva. assert (0 <= sp mod 8) by (apply Z.mod_pos_bound; lia). rewrite <- Hb by lia. apply Hlow. lia.
  - intros l Hl Hout. by apply (hd_frame _ _ _ _ _ _ Hm).
Qed.

(** ** Witness *)

Lemma exec_arguments_roundtrip_witness : ∃ x k' argv sp,
  push_arguments (ms_token (sp_ms x)) 0x12000 [[0x6c; 0x73]; [0x61]] (exit_kernel x) = Ok ((argv, sp), k') ∧ sp mod 8 = 0.
Proof.
  destruct demo_user_res as (x & a1 & a2 & owned & b & P & [(Hfr & _ & Hr) _] & G).
  destruct (res_pages 0x10000 4 0 demo_fits ltac:(lia)) as (Hlo & _).
  destruct (exec_arguments_roundtrip 0x80500 owned (exit_kernel x) (sp_ms x) a1 [[0x6c; 0x73]; [0x61]] 5)
    as (argv & sp & m' & E & _ & _ & Hsp & _).
  - apply (gr_inv _ _ _ _ _ _ _ _ G).
  - rewrite (gr_areas _ _ _ _ _ _ _ _ G). left.
  - done.
  - rewrite Hr, Hlo. by vm_compute.
  - rewrite Hr, Hlo. by vm_compute.
  - by apply (bool_decide_unpack _).
  - by apply (bool_decide_unpack _).
  - eexists x, _, argv, sp. split; [|exact Hsp]. rewrite Hr, Hlo in E. exact E.
Defined.
