(* ===== verification/Shell.v ===== *)
(** * The shell

    [user/src/bin/user_shell.rs]: the line editor, the parser of commands and
    redirections, the check of a pipeline, and what a child of the shell does to
    its descriptors before [exec].  The calls are those of the kernel, on the state
    in which the child runs.  A string is the list of its characters. *)

From S2P Require Import Prelude PageTable UserBuffer MemorySet Sched Timer TaskId Kernel Syscall World Process BlockDev BlockCache Efs Vfs OsInode FileCalls Descriptors.

(** ** Strings *)

Definition LF : Z := 0x0a.
Definition CR : Z := 0x0d.
Definition DL : Z := 0x7f.
Definition BS : Z := 0x08.
Definition LT : Z := 0x3c.
Definition GT : Z := 0x3e.
Definition SP : Z := 0x20.
Definition BAR : Z := 0x7c.

(** [str::split] at a character. *)
Fixpoint split (c : Z) (s : list Z) : list (list Z) :=
  match s with
  | [] => [[]]
  | x :: s' =>
      if x =? c then [] :: split c s'
      else match split c s' with p :: ps => (x :: p) :: ps | [] => [[x]] end
  end.

(** ** Commands *)

(** A pointer of [args_addr] is the string it points to, or null. *)
Record ProcessArguments := {
  input : list Z;
  output : list Z;
  args_copy : list (list Z);
  args_addr : list (option (list Z))
}.

(** One redirection: the word after the first [symbol], and the other words. *)
Definition redirect {S} (symbol : Z) (args : list (list Z)) : M S (list Z * list (list Z)) :=
  match find_index (λ arg, bool_decide (arg = [symbol; 0])) args with
  | Some idx =>
      target ← index args (Z.of_nat idx + 1);
      mret (target, take idx args ++ drop (idx + 2) args)
  | None => mret ([], args)
  end.

Definition words (command : list Z) : list (list Z) :=
  (λ arg, arg ++ [0]) <$> filter (λ arg, arg ≠ []) (split SP command).

Definition ProcessArguments_new {S} (command : list Z) : M S ProcessArguments :=
  '(input, args) ← redirect LT (words command);
  '(output, args) ← redirect GT args;
  mret {| input := input; output := output; args_copy := args; args_addr := (Some <$> args) ++ [None] |}.

(** The commands of a line. *)
Fixpoint map_new {S} (cmds : list (list Z)) : M S (list ProcessArguments) :=
  match cmds with
  | [] => mret []
  | c :: cs => a ← ProcessArguments_new c; rest ← map_new cs; mret (a :: rest)
  end.
Definition process_arguments_list {S} (line : list Z) : M S (list ProcessArguments) := map_new (split BAR line).

(** The check of the redirections. *)
Definition is_empty (s : list Z) : bool := bool_decide (s = []).
Definition binds (n i : nat) (a : ProcessArguments) : bool :=
  if (i =? 0)%nat then is_empty (output a)
  else if (i =? n - 1)%nat then is_empty (input a)
  else is_empty (output a) && is_empty (input a).
Definition valid (l : list ProcessArguments) : bool :=
  (length l =? 1)%nat || forallb id (imap (binds (length l)) l).

(** ** The line editor *)

Inductive Edit :=
  | More (line : list Z)
  | Run (line : list Z).
Definition edit (line : list Z) (c : Z) : Edit :=
  if (c =? LF) || (c =? CR) then (if is_empty line then More [] else Run line)
  else if (c =? BS) || (c =? DL) then More (take (length line - 1) line)
  else More (line ++ [c]).

(** The first line that is run, from the keys typed. *)
Fixpoint read_line (line : list Z) (keys : list Z) : option (list Z * list Z) :=
  match keys with
  | [] => None
  | c :: keys => match edit line c with More line => read_line line keys | Run line => Some (line, keys) end
  end.

(** ** A child of the shell *)

(** [close(fd); assert_eq!(dup(from.unwrap()), fd)]. *)
Definition rebind (fd : Z) (from : option Z) : M Kernel unit :=
  _ ← sys_close fd; from ← unwrap from; r ← sys_dup from; assert_ (r =? fd).

Fixpoint close_pipes (pipes_fd : list (Z * Z)) : M Kernel unit :=
  match pipes_fd with
  | [] => mret tt
  | (r, w) :: rest => _ ← sys_close r; _ ← sys_close w; close_pipes rest
  end.

(** The pipes of child [i] of [n]. *)
Definition bind_pipes (n i : nat) (pipes_fd : list (Z * Z)) : M Kernel unit :=
  _ ← (if (0 <? i)%nat then rebind 0 (fst <$> pipes_fd !! (i - 1)%nat) else mret tt);
  _ ← (if (i <? n - 1)%nat then rebind 1 (snd <$> pipes_fd !! i) else mret tt);
  close_pipes pipes_fd.

Section child.
Context {St H : Type} `{HS : BlockStore St} `{!BinaryHeap H}.
Context (efs : EasyFileSystem) (fuel : nat) (elf : list Z → option ElfFile).
Context (trap_handler strampoline sstatus : Z).
(** Where the strings and the array of the child are in its memory. *)
Context (addr : list Z → Z) (addrs : list (option (list Z)) → Z).
Abbreviation W := (World St H).

(** A redirection of descriptor [fd]; [false] if the file cannot be opened. *)
Definition redirect_to (fd : Z) (name : list Z) (flags : Z) : M W bool :=
  if is_empty name then mret true
  else
    r ← sys_open efs fuel (addr name) flags;
    if r =? -1 then mret false
    else
      let r := wrap64 r in
      _ ← on_kernel (rebind fd (Some r));
      _ ← on_kernel (sys_close r);
      mret true.

(** The child to the point where the new program runs ([None]), or to its exit
    code. *)
Definition child (n i : nat) (pipes_fd : list (Z * Z)) (a : ProcessArguments) : M W (option Z) :=
  ok ← redirect_to 0 (input a) RDONLY;
  if negb ok then mret (Some (-4))
  else
    ok ← redirect_to 1 (output a) (Z.lor CREATE WRONLY);
    if negb ok then mret (Some (-4))
    else
      _ ← on_kernel (bind_pipes n i pipes_fd);
      name ← index (args_copy a) 0;
      r ← sys_exec efs fuel elf trap_handler strampoline sstatus (addr name) (addrs (args_addr a));
      mret (if r =? -1 then Some (-4) else None).
End child.

(** ** Parsing *)

(** What the shell means by a redirection. *)
Fixpoint take_redirect (symbol : Z) (ws : list (list Z)) : option (option (list Z) * list (list Z)) :=
  match ws with
  | [] => Some (None, [])
  | w :: ws =>
      if decide (w = [symbol]) then match ws with target :: rest => Some (Some target, rest) | [] => None end
      else '(target, rest) ← take_redirect symbol ws; Some (target, w :: rest)
  end.

Definition terminated (w : list Z) : list Z := w ++ [0].
Definition join (toks : list (list Z)) : list Z :=
  match toks with
  | [] => []
  | t :: ts => t ++ (ts ≫= λ w, SP :: w)
  end.

Lemma split_not_nil c s : split c s ≠ [].
Proof. destruct s as [|x s]; simpl; [done|]. case_match; [done|]. by destruct (split c s). Qed.

Lemma split_app c a b : split c (a ++ c :: b) = split c a ++ split c b.
Proof.
  induction a as [|x a IH]; simpl; [by rewrite Z.eqb_refl|]. case_match; [by rewrite IH|].
  rewrite IH. pose proof (split_not_nil c a). by destruct (split c a).
Qed.

Lemma split_word c w : c ∉ w → split c w = [w].
Proof.
  induction w as [|x w IH]; simpl; [done|]. intros [Hx Hw]%not_elem_of_cons. rewrite IH by done.
  by destruct (Z.eqb_spec x c).
Qed.

Lemma words_join toks : Forall (λ w, SP ∉ w) toks → words (join toks) = terminated <$> filter (λ w, w ≠ []) toks.
Proof.
  intros Ht. unfold words. destruct toks as [|t ts]; [done|]. f_equal. f_equal.
  apply Forall_cons in Ht as [Ht Hts]. simpl. revert t Ht. induction Hts as [|u us Hu Hus IH]; intros t Ht; simpl.
  - by rewrite app_nil_r, split_word.
  - rewrite split_app, (split_word _ _ Ht). simpl. f_equal. by apply IH.
Qed.

Lemma terminated_symbol w x : terminated w = [x; 0] ↔ w = [x].
Proof. unfold terminated. split; [|by intros ->]. intros E. by apply (app_inj_2 _ [x] [0] [0]) in E as [? _]. Qed.

Lemma redirect_meaning {T} symbol ws (s : T) :
  redirect symbol (terminated <$> ws) s =
  match take_redirect symbol ws with
  | None => Panic PIndex
  | Some (target, rest) => Ok ((from_option terminated [] target, terminated <$> rest), s)
  end.
Proof.
  unfold redirect. induction ws as [|w ws IH]; [done|]. cbn [fmap list_fmap find_index take_redirect].
  destruct (decide (w = [symbol])) as [->|Hw].
  - rewrite bool_decide_eq_true_2 by done. by destruct ws.
  - rewrite bool_decide_eq_false_2 by by rewrite terminated_symbol.
    change (list_fmap (list Z) (list Z) terminated ws) with (terminated <$> ws) in *.
    destruct (find_index _ (terminated <$> ws)) as [i|]; cbn [fmap option_fmap option_map].
    + unfold mbind, M_bind, index, mret, M_ret in *. replace (Z.of_nat (S i) + 1) with (Z.of_nat i + 1 + 1) by lia.
      rewrite (lookupZ_nat (_ :: _)) by lia. rewrite (lookupZ_nat (terminated <$> ws)) in IH by lia.
      replace (Z.to_nat (Z.of_nat i + 1 + 1)) with (S (Z.to_nat (Z.of_nat i + 1))) by lia. cbn [lookup list_lookup].
      destruct ((terminated <$> ws) !! _) as [x|]; destruct (take_redirect symbol ws) as [[t rest]|]; cbn in IH |- *; try done.
      injection IH as -> E. by rewrite E.
    + destruct (take_redirect symbol ws) as [[t rest]|]; unfold mret, M_ret in *; cbn in IH |- *; [|done]. injection IH as E1 E2. by rewrite <- E1, <- E2.
Qed.

(** C32: The shell's parser reads a command as its words: whatever the spaces
    between them, the word after the first [<] is the input file, the word after
    the first [>] that is left is the output file, the other words, in order and
    terminated by a zero byte, are the arguments, and the array of argument
    pointers ends with a null pointer; a command that ends with a redirection
    symbol makes the shell panic. *)
Theorem command_parsed {S} toks (s : S) :
  Forall (λ w, SP ∉ w) toks →
  ProcessArguments_new (join toks) s =
    match take_redirect LT (filter (λ w, w ≠ []) toks) with
    | None => Panic PIndex
    | Some (inp, ws) => match take_redirect GT ws with
      | None => Panic PIndex
      | Some (out, ws) => Ok ({| input := from_option terminated [] inp; output := from_option terminated [] out;
          args_copy := terminated <$> ws; args_addr := (Some <$> (terminated <$> ws)) ++ [None] |}, s)
      end
    end.
Proof.
  intros Ht. unfold ProcessArguments_new, mbind, M_bind. rewrite words_join by done. rewrite redirect_meaning.
  destruct (take_redirect LT _) as [[inp ws]|]; [|done]. rewrite redirect_meaning.
  by destruct (take_redirect GT ws) as [[out ws2]|].
Qed.

Lemma command_parsed_witness :
  ProcessArguments_new (join [[0x61]; []; [LT]; [0x66]; [0x62]]) tt =
    Ok ({| input := [0x66; 0]; output := []; args_copy := [[0x61; 0]; [0x62; 0]]; args_addr := [Some [0x61; 0]; Some [0x62; 0]; None] |}, tt).
Proof.
  rewrite (command_parsed [[0x61]; []; [LT]; [0x66]; [0x62]] tt); [reflexivity|].
  by apply (bool_decide_unpack _).
Defined.

(** ** Pipes *)

(** The state is [k] but for the descriptors of process [p], which are as in [m]. *)
Definition at_fds (k : Kernel) (p : Z) (m : Z → option FileRef) (k' : Kernel) : Prop :=
  ∃ fds, k' = with_fds p fds k ∧ ∀ j, file_of fds j = m j.

Definition fd_set (i : Z) (o : option FileRef) (m : Z → option FileRef) (j : Z) : option FileRef :=
  if decide (j = i) then o else m j.

Section plumbing.
Context (k : Kernel) (t : Z) (tb : TaskControlBlock) (p : Z) (pb : ProcessControlBlock) (Hr : running k t tb p pb).

Lemma wp_close m fd k1 (Q : Z → Kernel → Prop) : at_fds k p m k1 → 0 <= fd →
  (∀ r k2, at_fds k p (fd_set fd None m) k2 → Q r k2) → wp (sys_close fd) Q k1.
Proof.
  intros (fds & -> & Hm) Hfd HQ.
  destruct (close_eq _ _ _ _ _ fd (running_with_fds _ _ _ _ _ fds Hr) Hfd) as (fds2 & E & _ & Hj).
  unfold wp. rewrite E. apply HQ. exists fds2. split; [by rewrite with_fds_twice|].
  intros j. rewrite Hj. unfold fd_set. by rewrite <- Hm.
Qed.

Lemma wp_dup m fd f new k1 (Q : Z → Kernel → Prop) : at_fds k p m k1 → 0 <= fd → m fd = Some f →
  0 <= new → m new = None → (∀ j, 0 <= j < new → is_Some (m j)) →
  (∀ k2, at_fds k p (fd_set new (Some f) m) k2 → Q new k2) → wp (sys_dup fd) Q k1.
Proof.
  intros (fds & -> & Hm) Hfd Hf Hnew Hfree Hlow HQ.
  pose proof (dup_eq _ _ _ _ _ fd (running_with_fds _ _ _ _ _ fds Hr) Hfd) as Hd.
  cbn [fd_table set_fds] in Hd. rewrite Hm, Hf in Hd. destruct Hd as (new' & fds2 & E & (Hn & Hnone & Hlow') & Hj).
  assert (new' = new) as ->.
  { destruct (Z.lt_trichotomy new' new) as [Hlt|[->|Hlt]]; [|done|].
    - destruct (Hlow new' ltac:(lia)) as [x Hx]. rewrite Hm in Hnone. congruence.
    - destruct (Hlow' new ltac:(lia)) as [x Hx]. rewrite Hm in Hx. congruence. }
  unfold wp. rewrite E. apply HQ. exists fds2. split; [by rewrite with_fds_twice|].
  intros j. rewrite Hj. unfold fd_set. by rewrite <- Hm.
Qed.

Lemma wp_rebind m fd from f k1 (Q : unit → Kernel → Prop) : at_fds k p m k1 → 0 <= from → from ≠ fd → m from = Some f →
  0 <= fd → (∀ j, 0 <= j < fd → is_Some (m j)) →
  (∀ k2, at_fds k p (fd_set fd (Some f) m) k2 → Q tt k2) → wp (rebind fd (Some from)) Q k1.
Proof.
  intros Hm H0 Hne Hf Hfd Hlow HQ. unfold rebind. wp_steps. eapply wp_close; [done..|]. intros r k2 Hm2. wp_steps. apply wp_unwrap with from; [done|]. wp_steps.
  eapply (wp_dup _ from f fd); [exact Hm2|done| |done| | |].
  - unfold fd_set. by case_decide.
  - unfold fd_set. by case_decide.
  - intros j Hj. unfold fd_set. case_decide; [lia|by apply Hlow].
  - intros k3 (fds & -> & Hm3). wp_steps. rewrite Z.eqb_refl. unfold assert_. simpl. apply HQ.
    exists fds. split; [done|]. intros j. rewrite Hm3. unfold fd_set. by case_decide.
Qed.

(** The descriptors of pipes are closed. *)
Definition without (pipes_fd : list (Z * Z)) (m : Z → option FileRef) (j : Z) : option FileRef :=
  if existsb (λ rw, (rw.1 =? j) || (rw.2 =? j)) pipes_fd then None else m j.

Lemma wp_close_pipes pipes_fd m k1 (Q : unit → Kernel → Prop) : at_fds k p m k1 →
  Forall (λ rw, 0 <= rw.1 ∧ 0 <= rw.2) pipes_fd →
  (∀ k2, at_fds k p (without pipes_fd m) k2 → Q tt k2) → wp (close_pipes pipes_fd) Q k1.
Proof.
  intros Hm Hp HQ. revert m k1 Hm HQ. induction Hp as [|[r w] l [Hr0 Hw0] Hl IH]; intros m k1 Hm HQ; cbn [close_pipes].
  { wp_steps. by apply HQ. }
  wp_steps. eapply wp_close; [exact Hm|done|]. intros _ k2 Hm2. wp_steps. eapply wp_close; [exact Hm2|done|].
  intros _ k3 Hm3. eapply IH; [exact Hm3|]. intros k4 (fds & -> & Hm4). apply HQ. exists fds. split; [done|].
  intros j. rewrite Hm4. unfold without, fd_set. cbn [existsb fst snd].
  destruct (existsb _ l); [by rewrite orb_true_r|]. rewrite orb_false_r.
  destruct (Z.eqb_spec r j), (Z.eqb_spec w j); repeat case_decide; simplify_eq; done.
Qed.
End plumbing.

(** Pipe [i] has the descriptors [pipes_fd !! i], none of them 0 or 1. *)
Definition pipes_open (m : Z → option FileRef) (pipes_fd : list (Z * Z)) (xs : list Z) : Prop :=
  Forall2 (λ rw x, 2 <= rw.1 ∧ 2 <= rw.2 ∧ m rw.1 = Some (FPipe true false x) ∧ m rw.2 = Some (FPipe false true x)) pipes_fd xs.

Lemma pipes_open_ge m pipes_fd xs : pipes_open m pipes_fd xs → Forall (λ rw, 2 <= rw.1 ∧ 2 <= rw.2) pipes_fd.
Proof. intros Hp. eapply Forall2_Forall_l; [exact Hp|]. apply Forall_true. simpl. tauto. Qed.

Lemma without_low pipes_fd m j : Forall (λ rw, 2 <= rw.1 ∧ 2 <= rw.2) pipes_fd → j < 2 → without pipes_fd m j = m j.
Proof.
  intros Hge Hj. unfold without. replace (existsb _ pipes_fd) with false; [done|]. symmetry.
  induction Hge as [|[a b] l [Ha Hb] Hl IH]; [done|]. cbn [existsb fst snd] in *. rewrite IH.
  destruct (Z.eqb_spec a j), (Z.eqb_spec b j); simpl in *; try lia; done.
Qed.

(** C20: The plumbing of a pipeline.  Child [i] of [n], which inherits from the
    shell the standard descriptors and both ends of the [n - 1] pipes, ends up
    with the read end of pipe [i - 1] as standard input (its own, if it is the
    first), the write end of pipe [i] as standard output (its own, if it is the
    last), and with no other end of any pipe, so that a reader sees the end of its
    input when the writer before it has gone; other descriptors stay. *)
Theorem pipeline_plumbing k t tb p pb n i pipes_fd xs :
  running k t tb p pb → is_Some (file_of (fd_table pb) 0) →
  pipes_open (file_of (fd_table pb)) pipes_fd xs → length pipes_fd = (n - 1)%nat → (i < n)%nat →
  ∃ fds, bind_pipes n i pipes_fd k = Ok (tt, with_fds p fds k) ∧
    (file_of fds 0 = match i with O => file_of (fd_table pb) 0 | S i' => (λ x, FPipe true false x) <$> xs !! i' end) ∧
    (file_of fds 1 = if (i <? n - 1)%nat then (λ x, FPipe false true x) <$> xs !! i else file_of (fd_table pb) 1) ∧
    ∀ j, 2 <= j → file_of fds j = without pipes_fd (file_of (fd_table pb)) j.
Proof.
  intros Hr H0 Hp Hlen Hi. pose proof (pipes_open_ge _ _ _ Hp) as Hge. set (m0 := file_of (fd_table pb)).
  assert (at_fds k p m0 k) as Hm0.
  { exists (fd_table pb). split; [|done]. symmetry. apply with_fds_same, Hr. }
  set (m1 := match i with O => m0 | S i' => fd_set 0 ((λ x, FPipe true false x) <$> xs !! i') m0 end).
  set (m2 := if (i <? n - 1)%nat then fd_set 1 ((λ x, FPipe false true x) <$> xs !! i) m1 else m1).
  assert (∀ j, 2 <= j → m1 j = m0 j) as H1.
  { intros j Hj. unfold m1, fd_set. destruct i; [done|]. case_decide; [lia|done]. }
  assert (is_Some (m1 0)) as H10.
  { unfold m1. destruct i as [|i']; [done|]. unfold fd_set. case_decide; [|done].
    destruct (lookup_lt_is_Some_2 xs i') as [x ->]; [|by eexists]. rewrite <- (Forall2_length _ _ _ Hp). lia. }
  enough (wp (bind_pipes n i pipes_fd) (λ _ k', at_fds k p (without pipes_fd m2) k') k) as ([] & k' & E & fds & -> & Hfds)%wp_ok.
  { exists fds. split_and!; [exact E|rewrite Hfds, without_low by (done || lia)..|].
    - unfold m2, m1. destruct (i <? n - 1)%nat, i; done.
    - unfold m2, m1. destruct (i <? n - 1)%nat, i; done.
    - intros j Hj. rewrite Hfds. unfold without. destruct (existsb _ _); [done|]. unfold m2.
      destruct (i <? n - 1)%nat; [|by apply H1]. unfold fd_set. case_decide; [lia|by apply H1]. }
  unfold bind_pipes. wp_steps. eapply (wp_mono _ (λ _ k', at_fds k p m1 k')).
  { unfold m1. destruct i as [|i']; [by wp_steps|]. cbn [Nat.ltb Nat.leb]. replace (S i' - 1)%nat with i' by lia.
    destruct (lookup_lt_is_Some_2 pipes_fd i') as [[r w] Hrw]; [lia|].
    destruct (Forall2_lookup_l _ _ _ _ _ Hp Hrw) as (x & Hx & Ha & Hb & Hra & Hwa). rewrite Hrw, Hx.
    eapply (wp_rebind k t tb p pb Hr m0 0 r (FPipe true false x)); [done|simpl in *; lia..|done|lia|lia|done]. }
  intros [] k1 Hm1. wp_steps. eapply (wp_mono _ (λ _ k', at_fds k p m2 k')).
  { unfold m2. destruct (Nat.ltb_spec i (n - 1)); [|by wp_steps].
    destruct (lookup_lt_is_Some_2 pipes_fd i) as [[r w] Hrw]; [lia|].
    destruct (Forall2_lookup_l _ _ _ _ _ Hp Hrw) as (x & Hx & Ha & Hb & Hra & Hwa). rewrite Hrw, Hx. simpl in Ha, Hb, Hra, Hwa.
    eapply (wp_rebind k t tb p pb Hr m1 1 w (FPipe false true x)); [done|lia..|by rewrite H1|lia| |done].
    intros j Hj. by replace j with 0 by lia. }
  intros [] k2 Hm2. eapply wp_close_pipes; [exact Hr|exact Hm2| |done].
  eapply Forall_impl; [exact Hge|]. simpl. lia.
Qed.

(** ** Witness *)

Definition piped_pcb : ProcessControlBlock :=
  set_fds [Some FStdin; Some FStdout; Some FStdout; Some (FPipe true false 5); Some (FPipe false true 5)] (demo_pcb demo_ms [Some 1]).
Definition piped_kernel : Kernel := upd_pcbs (λ _, {[ 0 := piped_pcb ]}) (demo_kernel demo_mm demo_ms [Some 1]).

Lemma pipeline_plumbing_witness : ∃ fds, bind_pipes 2 1 [(3, 4)] piped_kernel = Ok (tt, with_fds 0 fds piped_kernel) ∧
  file_of fds 0 = Some (FPipe true false 5) ∧ file_of fds 3 = None.
Proof.
  destruct (pipeline_plumbing piped_kernel 1 demo_tcb1 0 piped_pcb 2 1 [(3, 4)] [5]) as (fds & E & H0 & _ & Hj).
  - split; [done|done|done|done|set_solver].
  - by eexists.
  - constructor; [|constructor]. simpl. repeat split; lia.
  - done.
  - lia.
  - exists fds. split_and!; [exact E|exact H0|]. by rewrite Hj by lia.
Defined.
